(* ===== verification/_CoqProject ===== *)
-Q . S2P
Prelude.v
IpcTypes.v
Payload.v
SlotManager.v
SlotContract.v
Keys.v
ConnectionMetadata.v
SharedMemoryManagers.v
ServiceState.v
BindingBase.v
BindingSafety.v
BindingProperties.v
Wire.v
WireTyping.v
BindingServer.v
BindingClient.v
Config.v
Serializer.v
SomeipMessage.v
Gatewayd.v
Someipd.v
StringRegistry.v
Callbacks.v
Socom.v
SocomInvariant.v
SocomCalls.v
SocomProperties.v
SocomContract.v
Subscriptions.v
ServiceDatabase.v
SocomMethods.v
SocomConcurrency.v
Tokens.v
TokenInvariant.v
TokenCalls.v
TokenProperties.v
EventPath.v
SocomFrame.v
Ownership.v
Bridging.v
BridgingSafety.v
ServicePath.v
EventPipeline.v
GatewayRelay.v
EndToEnd.v
TwoDaemons.v
Restart.v
GatewayPaths.v
Errors.v
Daemons.v
