(* ===== verification/Prelude.v ===== *)
(** * The SOME/IP gateway, verified

    This library models the SOME/IP gateway of Eclipse S-CORE and proves what
    makes its parts correct. It follows the sources under [src/score/].

    ** The program

    Two daemons connect applications of one machine with a SOME/IP network.
    [gatewayd] talks to the applications through [score::mw::com] and
    serializes their events; [someipd] talks to the network through vsomeip.
    Between them runs the Gateway IPC binding ([gateway_ipc_binding/]): a client
    endpoint in gatewayd and a server endpoint in someipd exchange fixed-layout
    messages over a message-passing channel and event payloads through slots of
    shared memory. Inside each daemon the parts meet at the connectors of the
    socom runtime ([socom/]).

    ** The files

    - [Prelude]: machine integers, results, faults, the monad of effectful code
      with its Hoare triples, bytes, lemmas on lists and maps, tactics.
    - [IpcTypes]: identifiers, fixed-size containers, shared memory names and
      message structures ([gateway_ipc_binding.hpp], [fixed_size_container.hpp],
      [impl/gateway_ipc_binding.cpp], [error.hpp]).
    - [Payload]: [socom::Payload] and [Writable_payload] ([socom/payload.hpp],
      [socom/impl/payload.cpp]).
    - [SlotManager]: slots, guards, read-only views, the factory and the exchange
      of configurations ([impl/shared_memory_slot_manager.cpp]). The shared memory
      library is the class [Shm]; [granting_shm] is an instance. [SlotContract]: the
      header [shared_memory_slot_manager.hpp] as a class of operations with the promises
      of its comments; the manager and a plain pool of counters are instances.
    - [Keys], [ConnectionMetadata], [SharedMemoryManagers], [ServiceState]: the
      four stateful members of the binding ([impl/key.hpp],
      [impl/connection_metadata.hpp], [impl/shared_memory_managers.hpp],
      [impl/service_state.hpp]).
    - [BindingBase]: [Gateway_ipc_binding_base] with all message handlers, runtime
      callbacks and the handling of clients, one definition per function
      ([impl/binding_base.cpp], [impl/connections.hpp],
      [impl/pending_connects.hpp], [impl/request_service_handle.hpp]).
    - [BindingSafety]: the invariant of the binding and the executions over all
      operations. [BindingProperties]: functional properties of its handlers.
    - [Wire]: object representations of the messages, [check_and_cast] and
      [on_receive_message] on bytes ([impl/gateway_ipc_binding_util.hpp],
      [impl/reply_channel.hpp], [impl/binding_base.cpp]). [WireTyping]: received bytes
      run the handler of the message whose frame they hold, and no other.
    - [BindingServer], [BindingClient]: the two endpoints
      ([impl/gateway_ipc_binding_server.cpp], [impl/gateway_ipc_binding_client.cpp]).
    - [Config]: the configuration's tables ([config/mw_someip_config.fbs]) and the
      constants of [someip/constants.h].
    - [Serializer]: the null serializer ([serializer/]).
    - [SomeipMessage]: writing a payload byte by byte, and the header format.
    - [Gatewayd], [Someipd]: the daemons' instances, network services and routing,
      and the loops of their [main] functions over the configuration.
    - [StringRegistry]: interned strings, identifiers and interface definitions
      ([socom/impl/string_registry.cpp], [socom/registry_string_view.hpp],
      [socom/service_interface_identifier.hpp],
      [socom/impl/service_interface_definition.cpp]).
    - [Callbacks]: scope guards and the deadlock detector
      ([socom/final_action.hpp], [socom/impl/temporary_thread_id_add.cpp]).
    - [Socom]: the socom runtime with its client and server connectors and bridges
      ([socom/impl/runtime_impl.cpp], [socom/impl/client_connector_impl.cpp],
      [socom/impl/server_connector_impl.cpp]), over one store of objects.
      [SocomInvariant]: what holds between two calls. [SocomCalls]: every call, and the
      runs of the runtime. [SocomProperties]: what users rely on. [SocomContract]: the
      promises of the headers [socom/client_connector.hpp], [server_connector.hpp] and
      [runtime.hpp], as a class of which the runtime is an instance. [Subscriptions]: the
      exact effect of every call on subscribers and updates. [ServiceDatabase]: the hash
      tables behind the service records and the queries on them
      ([socom/impl/runtime_impl.hpp]). [SocomFrame]: what calls leave alone.
      [SocomMethods]: method replies and credentials on top ([socom/impl/method.cpp]).
      [SocomConcurrency]: the calls for one service, split where a thread holds no mutex.
      [Tokens]: the same calls with the reference-counted tokens by which a connector
      knows whether it is still used ([socom/impl/endpoint.hpp],
      [socom/impl/messages.hpp], [socom/reference_token.hpp]). [TokenInvariant]: which
      tokens there are. [TokenCalls]: each call next to that of [Socom].
      [TokenProperties]: what follows for every run.
    - [EventPath]: the runtime and the binding of a daemon, joined by the callbacks
      of the binding's connectors, and the single steps of an event and of a subscription.
    - [Bridging]: one daemon as a whole: what the binding asks of the runtime is a call of
      the runtime's model, and what the runtime calls back is an operation of the
      binding's, connectors being made and destroyed included. [Ownership]: the connectors
      that the states of the binding hold, operation by operation. [BridgingSafety]: the
      invariant of the whole and every execution of it. [ServicePath]: a service on its
      way from one daemon to the other.
    - [EventPipeline]: two connected daemons with the frames between them and the shared
      memory, in every schedule, and the channel of events that they implement. [EndToEnd]:
      from the request of a service to that channel. [TwoDaemons]: two daemons run from the
      start. [Restart]: a service that stops and starts again.
    - [GatewayRelay]: the channel with a program at either end, which fills slots and uses
      what arrives. [GatewayPaths]: gatewayd and someipd as these programs, from the
      application to the network and back.
    - [Errors]: the error domains ([impl/error.cpp] of the binding and of socom,
      [someip/impl/someip_error.cpp]).
    - [Daemons]: [main] of both programs ([gatewayd/main.cpp], [someipd/main.cpp]).

    ** How code is modelled

    A class becomes a record of its members, a member function a function over
    that record. Code with effects lives in the monad [M S O]: it changes a state
    [S], performs visible actions [O] in order, and may end in a [fault]: a
    failed assert, an access or a value that the language does not define (a [bool] of
    another byte than 0 and 1) or an endless wait.
    Asserts are therefore part of the behaviour, as in a build that keeps them.
    [Result] carries error values. Unsigned integers are [N] with their wrap-around
    written out ([wrap]); bytes are [N] below 256.

    The surroundings are arguments: whether the n-th message reaches its channel
    ([send_ok]), what the runtime answers ([Answers]), which calls it makes back
    (operations and [Callback]s), what the shared memory library, the transport,
    the middleware and vsomeip return. Theorems hold for all of their behaviours
    unless they say otherwise.

    Each critical section of a mutex is one step. The functions that release
    their lock in between are split at that point: the reply to a Connect_service
    is one operation when nothing interferes and three otherwise
    ([Op_reply_locked], [Op_reply_unlocked], [Op_reply_finish]). A hash map is a
    [gmap]; where the code iterates over one, the order is the one of
    [map_to_list]; theorems speak of the result up to permutation. The heap is never
    exhausted. In [Socom] a call of the API is one step; what the users do in its
    callbacks are further steps. [SocomConcurrency] takes the calls apart and
    [quiet_threads_agree] shows that they end where the undivided calls do. A
    connector of [Socom] waits until nobody points to it; [Tokens] has the use counts
    and promises of the code, and [tokens_implement_connections] shows that the waits
    end at the same time.

    All functions are total: recursion follows a list or the structure of a type.
    The loops that wait for their environment run over what arrives while they wait:
    the destructor of the client endpoint over the reports of its channel
    ([stop_loop]), the loops of gatewayd's [main] over rounds, of which they are given
    a number ([wait_until]; [gatewayd_stops] says how many are enough); in each round the
    client endpoint handles what its channel and the runtime pass to it. The search for
    the end of a string has the size of the memory as its bound ([c_string]), which no
    string exceeds.

    ** What is shown

    - Safety of the binding ([BindingSafety], [Wire], [BindingServer],
      [BindingClient]): over every sequence of operations, and every sequence of
      bytes from connected clients, the binding never runs into the asserts that a
      client has a channel or a key a service; what it stores mentions connected
      clients only; the endpoints agree with their binding on who is connected.
    - The event path of the binding ([BindingProperties],
      [SharedMemoryManagers], [SlotManager]): an update goes to exactly the
      established connections, the slot is kept while a recipient has not
      consumed it and freed by the last one, and the consumer reads the bytes the
      producer wrote; the reference count of a slot is the number of its owners, as long
      as there are fewer than [2^32].
    - Data structures against their specifications: [Keys], [ConnectionMetadata]
      (refinement of a set of connections), [ServiceState] (subscriptions are
      reference counted, and what clearing them leaves out).
    - The wire format ([Wire], [WireTyping]): a round trip for every message, and that
      nothing but complete frames has an effect, exactly that of the message they hold.
    - The daemons ([GatewayPaths]): through both daemons, the IPC and the shared memory, in
      every schedule, an application's messages arrive on the network, and network
      messages at the application, in order and with the same bytes under the same ids;
      they are dropped when no slot is free, when they are too large (from the application:
      for a slot; for the application: for the event), or when the transport refuses their
      frame. Messages from the network are assumed to fit a slot, which the code does not
      check. The daemons agree on the shared memory.
    - The programs ([Daemons]): gatewayd stops when it is told to and its channel stops,
      and it has cleaned up whenever it returns; every frame fits the channel, and the exit
      codes.
    - Events between two daemons ([EventPipeline]): whatever the users publish, look at and
      destroy, whenever frames arrive and whichever of them the transport refuses, the
      daemons simulate a bounded lossy channel with one credit per slot. They never fault,
      an event is refused exactly if no slot is left, events arrive in order and intact
      unless their frame was refused, and a slot is lost only with a refused
      Payload_consumed.
    - A daemon as a whole ([BridgingSafety], [Ownership]): whatever users with connectors of
      their own, registered clients and connections do, binding and runtime together use no
      connector that is gone and wait for none that is kept; the connectors of the binding
      are those that its states hold, and its destructor gives them back.
    - A service on its whole way ([ServicePath], [EndToEnd], [TwoDaemons]): a user that asks
      for a service of another daemon is told that it is available, and when it subscribes
      an event the user that provides the service is told; each step follows from the bytes
      of the one before; from then on the daemons are a channel of events. This is for the
      first connection of two daemons, with one peer and a transport that accepts the
      messages of the set-up.
    - The headers as contracts ([SlotContract], [SocomContract]): what a user can rely on is
      proved from the contract, and the implementation is proved to keep it.
    - The socom runtime ([SocomProperties]), after any calls in any order: clients are
      connected to exactly the servers that fit and told of every change, calls return, a
      subscriber receives every update of its event ([Subscriptions]), and each bridge
      holds one request per client that waits for a service. Methods ([SocomMethods]):
      calls and answers reach whom they are for. Tokens ([TokenProperties]): the use count
      of a token is the number of its copies, and with the counts every call does what it
      does without them. Threads ([SocomConcurrency], [Callbacks]): in every interleaving
      the connectors agree in the end, no assertion fails under a stated discipline,
      destructors and [disable()] return, and the deadlock detector is exact. Names
      ([StringRegistry]): identifiers with interned names are equal and ordered as those
      with plain strings are.
    - Where the code does not do what it means to, a theorem or lemma shows it on the
      model: the handles of crossing connects, withdrawn requests, slots of disconnected
      clients, requests before the reply, a stale cache, wrapped counters, unchecked
      lengths and products, [bool]s that are none, overrun slots, servers that differ in
      the minor version only, event updates that leave a request pending, a client that is
      made while another one is destroyed ([connect_race]), callbacks before the connector
      is stored ([early_availability_faults]), names with a null character, subscriptions
      that a restarted service loses ([restart_loses_subscription]), a second provider of
      a service ([second_provider_fails]).

    ** What is not modelled

    Interleavings across several services of the socom runtime and inside one handler
    of the binding beyond the three steps of the reply. In [Bridging] a callback of the
    runtime runs after the call that makes it has changed the runtime, users register
    no bridges of their own, and clients send when the binding has registered them; method
    calls do not travel over the binding, as in the code. [EventPipeline] has one event
    between two daemons, each the only peer of the other for it; [BindingProperties] has
    updates for several recipients. What happens inside a program that an assertion aborts.
    The instances of gatewayd are destroyed in one step of its [main]; the binding's
    members beside the connectors are destroyed without an effect. Printing and logging;
    benchmarks, mocks and tests; and the libraries the program uses. *)

From stdpp Require Import base numbers list gmap strings.

(** ** Machine integers

    A [w]-bit unsigned integer is an [N] below [2 ^ w]; [wrap w] is what an
    unsigned operation of that width does to the mathematical result. *)

Definition wrap (w x : N) : N := (x mod 2 ^ w)%N.

Abbreviation wrap8 := (wrap 8).
Abbreviation wrap16 := (wrap 16).
Abbreviation wrap32 := (wrap 32).
Abbreviation wrap64 := (wrap 64).

(** [fits w x]: the value [x] is representable in [w] bits. *)
Definition fits (w x : N) : Prop := (x < 2 ^ w)%N.

(** [std::numeric_limits<std::size_t>::max()]. *)
Definition size_max : N := (2 ^ 64 - 1)%N.

(** ** Results: [score::Result<T>] *)

Inductive Result (E A : Type) : Type :=
  | Ok (a : A)
  | Err (e : E).
Arguments Ok {E A} a.
Arguments Err {E A} e.

(** [Result::has_value()]. *)
Definition has_value {E A} (r : Result E A) : bool :=
  match r with Ok _ => true | Err _ => false end.

(** [Result::and_then]. *)
Definition and_then {E A B} (r : Result E A) (f : A → Result E B) : Result E B :=
  match r with Ok a => f a | Err e => Err e end.

(** ** Faults

    What a C++ function does beside returning: an [assert] that fires, an
    access whose behaviour the language leaves undefined (of an object that is
    gone, among others), a wait that nothing ends, or a call of [std::abort].
    Two kinds of asserts are told apart because
    theorems speak about them: the ones that a client has a channel and the ones
    that a key stands for a service. *)

Inductive fault : Type :=
  | Assertion_failed
  | Connection_missing
  | Key_missing
  | Null_dereference
  | Use_after_free
  | Out_of_bounds
  | Invalid_value
  | Waits_forever
  | Aborted.

Inductive outcome (A : Type) : Type :=
  | Done (a : A)
  | Fault (f : fault).
Arguments Done {A} a.
Arguments Fault {A} f.

#[export] Instance outcome_ret : MRet outcome := λ A a, Done a.
#[export] Instance outcome_bind : MBind outcome := λ A B k m,
  match m with Done a => k a | Fault f => Fault f end.

Lemma outcome_bind_Done {A B} (x : outcome A) (f : A → outcome B) b :
  x ≫= f = Done b → ∃ a, x = Done a ∧ f a = Done b.
Proof. destruct x; simpl; [eauto|done]. Qed.

(** ** Bytes

    Memory is a list of bytes, a byte an [N] below 256. *)

(** [memcpy(dst + offset, src, size)] for the [size] bytes [src]. *)
Definition memcpy (dst : list N) (offset : N) (src : list N) : outcome (list N) :=
  if (offset + N.of_nat (length src) <=? N.of_nat (length dst))%N then
    Done (take (N.to_nat offset) dst ++ src ++ drop (N.to_nat offset + length src) dst)
  else Fault Out_of_bounds.

(** The [size] bytes of [src] that a [memcpy] reads. *)
Definition read_bytes (src : list N) (size : N) : outcome (list N) :=
  if (size <=? N.of_nat (length src))%N then Done (take (N.to_nat size) src)
  else Fault Out_of_bounds.

(** ** Effectful code: state, outputs and faults

    [M S O A]: a computation over the mutable state [S] that performs the
    externally visible actions [O] in order and returns an [A], or faults. *)

Definition M (S O A : Type) : Type := S → outcome (A * S * list O).

#[export] Instance M_ret {S O} : MRet (M S O) := λ A a s, Done (a, s, []).
#[export] Instance M_bind {S O} : MBind (M S O) := λ A B k m s,
  match m s with
  | Fault f => Fault f
  | Done (a, s', o) =>
    match k a s' with
    | Fault f => Fault f
    | Done (b, s'', o') => Done (b, s'', o ++ o')
    end
  end.

Section effects.
Context {S O : Type}.

(** Read the state. *)
Definition get_state : M S O S := λ s, Done (s, s, []).
(** Read a part of the state. *)
Definition reads {A} (f : S → A) : M S O A := λ s, Done (f s, s, []).
(** Change the state. *)
Definition modify (f : S → S) : M S O unit := λ s, Done (tt, f s, []).
(** Perform one visible action. *)
Definition emit (o : O) : M S O unit := λ s, Done (tt, s, [o]).
(** Fault. *)
Definition raise {A} (f : fault) : M S O A := λ _, Fault f.
(** [assert(b)]. *)
Definition assertM (b : bool) : M S O unit :=
  if b then mret tt else raise Assertion_failed.
(** [if (b) { m }]. *)
Definition whenM (b : bool) (m : M S O unit) : M S O unit :=
  if b then m else mret tt.
(** The value of an optional that the code dereferences without a check. *)
Definition the {A} (f : fault) (o : option A) : M S O A :=
  match o with Some a => mret a | None => raise f end.
(** A pure computation that may fault. *)
Definition liftO {A} (x : outcome A) : M S O A :=
  match x with Done a => mret a | Fault f => raise f end.
(** [for (x : l) { body(x) }]. *)
Fixpoint forM {A} (l : list A) (body : A → M S O unit) : M S O unit :=
  match l with
  | [] => mret tt
  | x :: l' => body x ≫= λ _, forM l' body
  end.

(** ** Running a computation

    The first step of a sequence, when its result is known. *)

Lemma bind_run {A B} (m : M S O A) (k : A → M S O B) s a s1 o1 :
  m s = Done (a, s1, o1) →
  (m ≫= k) s =
    match k a s1 with Done (x, s2, o2) => Done (x, s2, o1 ++ o2) | Fault f => Fault f end.
Proof. intros E. unfold mbind, M_bind. by rewrite E. Qed.

(** A sequence that returns, taken apart. *)
Lemma bind_Done {A B} (m : M S O A) (k : A → M S O B) s b s2 o :
  (m ≫= k) s = Done (b, s2, o) →
  ∃ a s1 o1 o2, m s = Done (a, s1, o1) ∧ k a s1 = Done (b, s2, o2) ∧ o = o1 ++ o2.
Proof.
  unfold mbind, M_bind. destruct (m s) as [[[a s1] o1]|]; [|done].
  destruct (k a s1) as [[[b' s3] o2]|] eqn:E; [|done]. intros [= <- <- <-]. eauto 10.
Qed.

(** A step that performs no action disappears. *)
Lemma bind_silent {A B} (m : M S O A) (k : A → M S O B) s a s1 :
  m s = Done (a, s1, []) → (m ≫= k) s = k a s1.
Proof. intros E. rewrite (bind_run _ _ _ _ _ _ E). by destruct (k a s1) as [[[? ?] ?]|]. Qed.

Lemma bind_assoc {A B C} (m : M S O A) (f : A → M S O B) (g : B → M S O C) s :
  ((m ≫= f) ≫= g) s = (m ≫= λ a, f a ≫= g) s.
Proof.
  unfold mbind, M_bind. destruct (m s) as [[[a s1] o1]|]; [|done].
  destruct (f a s1) as [[[b s2] o2]|]; [|done].
  destruct (g b s2) as [[[c s3] o3]|]; [|done]. by rewrite app_assoc.
Qed.

Lemma bind_ext {A B} (m : M S O A) (k k' : A → M S O B) s :
  (∀ a s, k a s = k' a s) → (m ≫= k) s = (m ≫= k') s.
Proof. intros Hk. unfold mbind, M_bind. destruct (m s) as [[[a s1] o]|]; [|done]. by rewrite Hk.
Qed.

Lemma forM_total {A} (l : list A) (f : A → M S O unit) s :
  (∀ x s, ∃ s' o, f x s = Done (tt, s', o)) → ∃ s' o, forM l f s = Done (tt, s', o).
Proof.
  intros Hf. revert s. induction l as [|x l IH]; intros s; [by exists s, []|]. cbn [forM].
  destruct (Hf x s) as (s1 & o1 & E1). destruct (IH s1) as (s2 & o2 & E2).
  exists s2, (o1 ++ o2). unfold mbind, M_bind. by rewrite E1, E2.
Qed.
Lemma forM_app {A} (l1 l2 : list A) (f : A → M S O unit) s :
  forM (l1 ++ l2) f s = (forM l1 f ≫= λ _, forM l2 f) s.
Proof.
  revert s. induction l1 as [|x l1 IH]; intros s; simpl; [by rewrite (bind_silent _ _ _ tt s)|].
  rewrite bind_assoc. apply bind_ext. intros _. apply IH.
Qed.

Lemma reads_run {A B} (f : S → A) (k : A → M S O B) s : (reads f ≫= k) s = k (f s) s.
Proof. by apply bind_silent. Qed.

Lemma modify_run {B} (f : S → S) (k : unit → M S O B) s : (modify f ≫= k) s = k tt (f s).
Proof. by apply bind_silent. Qed.

Lemma liftO_run {A B} (x : outcome A) a (k : A → M S O B) s :
  x = Done a → (liftO x ≫= k) s = k a s.
Proof. intros ->. by apply bind_silent. Qed.

Lemma assert_run {B} b (k : unit → M S O B) s : b = true → (assertM b ≫= k) s = k tt s.
Proof. intros ->. by apply bind_silent. Qed.

Lemma the_run {A B} f (x : option A) a (k : A → M S O B) s :
  x = Some a → (the f x ≫= k) s = k a s.
Proof. intros ->. by apply bind_silent. Qed.

(** ** Hoare triples

    [hoare bad P m Q]: from every state that satisfies [P], [m] returns with a
    result and a state that satisfy [Q], or faults, but not with a fault in
    [bad]. With [bad] everything this is total correctness. *)

Definition hoare (bad : fault → Prop) {A} (P : S → Prop) (m : M S O A)
    (Q : A → S → Prop) : Prop :=
  ∀ s, P s → match m s with Done (a, s', _) => Q a s' | Fault f => ¬ bad f end.

Section rules.
Context (bad : fault → Prop).

Lemma hoare_ret {A} (P : S → Prop) (a : A) (Q : A → S → Prop) :
  (∀ s, P s → Q a s) → hoare bad P (mret a) Q.
Proof. intros HQ s HP. by apply HQ. Qed.

Lemma hoare_bind {A B} (P : S → Prop) (m : M S O A) (k : A → M S O B) R Q :
  hoare bad P m R → (∀ a, hoare bad (R a) (k a) Q) → hoare bad P (m ≫= k) Q.
Proof.
  intros Hm Hk s HP. unfold mbind, M_bind. specialize (Hm s HP).
  destruct (m s) as [[[a s1] o]|f]; [|done]. specialize (Hk a s1 Hm).
  destruct (k a s1) as [[[b s2] o2]|f]; done.
Qed.

Lemma hoare_weaken {A} (P P' : S → Prop) (m : M S O A) Q Q' :
  hoare bad P m Q → (∀ s, P' s → P s) → (∀ a s, Q a s → Q' a s) → hoare bad P' m Q'.
Proof.
  intros Hm HP HQ s Hs. specialize (Hm s (HP s Hs)). destruct (m s) as [[[a s1] o]|f]; auto.
Qed.

Lemma hoare_pre {A} (P P' : S → Prop) (m : M S O A) Q :
  hoare bad P m Q → (∀ s, P' s → P s) → hoare bad P' m Q.
Proof. intros Hm HP. eapply hoare_weaken; eauto. Qed.

Lemma hoare_post {A} (P : S → Prop) (m : M S O A) Q Q' :
  hoare bad P m Q → (∀ a s, Q a s → Q' a s) → hoare bad P m Q'.
Proof. intros Hm HQ. eapply hoare_weaken; eauto. Qed.

Lemma hoare_modify (P : S → Prop) (f : S → S) (Q : unit → S → Prop) :
  (∀ s, P s → Q tt (f s)) → hoare bad P (modify f) Q.
Proof. intros Hf s HP. by apply Hf. Qed.

Lemma hoare_reads {A} (P : S → Prop) (f : S → A) :
  hoare bad P (reads f) (λ a s, P s ∧ a = f s).
Proof. intros s HP. done. Qed.

(** Reading exposes the state: the continuation is checked for every value the
    read can yield. *)
Lemma hoare_reads_bind {A B} (P : S → Prop) (f : S → A) (k : A → M S O B) Q :
  (∀ a, hoare bad (λ s, P s ∧ a = f s) (k a) Q) → hoare bad P (reads f ≫= k) Q.
Proof. intros Hk. eapply hoare_bind; [apply hoare_reads|done]. Qed.

Lemma hoare_emit (P : S → Prop) (o : O) : hoare bad P (emit o) (λ _, P).
Proof. intros s HP. done. Qed.

Lemma hoare_raise {A} (P : S → Prop) f (Q : A → S → Prop) :
  ¬ bad f → hoare bad P (raise f) Q.
Proof. intros Hb s HP. done. Qed.

Lemma hoare_when (P : S → Prop) b (m : M S O unit) :
  (b = true → hoare bad P m (λ _, P)) → hoare bad P (whenM b m) (λ _, P).
Proof. destruct b; [auto|]. intros _. by apply hoare_ret. Qed.

Lemma hoare_assert (P : S → Prop) b :
  ¬ bad Assertion_failed → hoare bad P (assertM b) (λ _ s, P s ∧ b = true).
Proof. destruct b; intros Hb; [by apply hoare_ret|by apply hoare_raise]. Qed.

Lemma hoare_the {A} (P : S → Prop) f (o : option A) :
  (bad f → ∀ s, P s → is_Some o) → hoare bad P (the f o) (λ a s, P s ∧ o = Some a).
Proof.
  destruct o; intros Hb s HP; [done|]. intros Hf. by destruct (Hb Hf s HP).
Qed.

Lemma hoare_liftO {A} (P : S → Prop) (x : outcome A) :
  (∀ f, x = Fault f → ¬ bad f) → hoare bad P (liftO x) (λ a s, P s ∧ x = Done a).
Proof. destruct x; intros Hb s HP; [done|]. by apply Hb. Qed.

Lemma hoare_forM {A} (P : S → Prop) (l : list A) (body : A → M S O unit) :
  (∀ x, x ∈ l → hoare bad P (body x) (λ _, P)) → hoare bad P (forM l body) (λ _, P).
Proof.
  induction l as [|x l IH]; intros Hb; simpl; [by apply hoare_ret|].
  eapply hoare_bind; [apply Hb; left|]. intros []. apply IH. intros y Hy. apply Hb. by right.
Qed.
End rules.

End effects.

(** ** Lists *)

(** The part after the last separator determines itself. *)
Lemma app_sep_last {A} (x : A) (l1 l2 r1 r2 : list A) :
  x ∉ r1 → x ∉ r2 → l1 ++ x :: r1 = l2 ++ x :: r2 → l1 = l2 ∧ r1 = r2.
Proof.
  revert l2. induction l1 as [|y l1 IH]; intros [|z l2] H1 H2 E; simplify_eq/=.
  - done.
  - destruct H1. set_solver.
  - destruct H2. set_solver.
  - destruct (IH l2) as [-> ->]; auto.
Qed.

Lemma take_app_length_exact {A} (l r : list A) n :
  n = length l → take n (l ++ r) = l.
Proof. intros ->. apply take_app_length. Qed.

(** Selecting elements keeps their images distinct. *)
Lemma NoDup_fmap_filter {A B} (f : A → B) (P : A → Prop) `{!∀ x, Decision (P x)} l :
  NoDup (f <$> l) → NoDup (f <$> filter P l).
Proof.
  induction l as [|x l IH]; intros Hnd; [done|]. apply NoDup_cons in Hnd as [Hx Hnd].
  rewrite filter_cons. case_decide; [|auto]. apply NoDup_cons. split; [|auto].
  intros (y & Hy & Hin)%list_elem_of_fmap. apply Hx. rewrite Hy.
  apply list_elem_of_fmap_2. by apply list_elem_of_filter in Hin as [_ ?].
Qed.

Lemma filter_all {A} (P : A → Prop) `{!∀ x, Decision (P x)} (l : list A) :
  (∀ x, x ∈ l → P x) → filter P l = l.
Proof.
  induction l as [|x l IH]; intros HP; [done|].
  rewrite filter_cons_True by (apply HP; left). rewrite IH; [done|].
  intros y Hy. apply HP. by right.
Qed.

Lemma filter_none {A} (P : A → Prop) `{!∀ x, Decision (P x)} l :
  (∀ x, x ∈ l → ¬ P x) → filter P l = [].
Proof.
  induction l as [|x l IH]; intros Hn; [done|].
  rewrite filter_cons_False by (apply Hn; left). apply IH. intros y Hy. apply Hn. by right.
Qed.

Lemma omap_as_bind {A B} (f : A → option B) l : omap f l = x ← l; option_list (f x).
Proof. induction l as [|x l IH]; csimpl; [done|]. rewrite <-IH. by destruct (f x). Qed.

(** A concatenation of lists that are tagged with distinct keys. *)
Lemma NoDup_bind_fst {K V W} (g : K * V → list (K * W)) (l : list (K * V)) :
  NoDup l.*1 →
  (∀ k v, (k, v) ∈ l → NoDup (g (k, v)) ∧ ∀ x, x ∈ g (k, v) → x.1 = k) →
  NoDup (l ≫= g).
Proof.
  induction l as [|[k v] l IH]; csimpl; intros Hnd Hg; [apply NoDup_nil_2|].
  apply NoDup_cons in Hnd as [Hk Hnd]. apply NoDup_app. split_and!.
  - apply Hg. left.
  - intros x Hx ([k' v'] & Hx' & Hin)%list_elem_of_bind.
    assert (x.1 = k) as <- by (apply (Hg k v); [left|done]).
    apply Hk, list_elem_of_fmap. exists (k', v'). split; [|done].
    apply (Hg k' v'); [by right|done].
  - apply IH; [done|]. intros k' v' Hin. apply Hg. by right.
Qed.

(** ** Counting the entries of a finite map *)

Section map_count.
Context `{Countable K} {V : Type}.
Implicit Types (m : gmap K V) (P : V → bool).

Definition map_count P m : nat := size (filter (λ kv, P kv.2 = true) m).

Lemma map_count_empty P : map_count P ∅ = 0.
Proof. unfold map_count. by rewrite map_filter_empty, map_size_empty. Qed.

Lemma map_count_insert P m i x :
  m !! i = None → map_count P (<[i:=x]> m) = Nat.b2n (P x) + map_count P m.
Proof.
  intros Hi. unfold map_count. destruct (P x) eqn:E.
  - rewrite map_filter_insert_True by done.
    rewrite map_size_insert_None; [done|]. apply map_lookup_filter_None. by left.
  - rewrite map_filter_insert_False by (simpl; congruence). by rewrite delete_id.
Qed.

Lemma map_count_delete P m i x :
  m !! i = Some x → map_count P m = Nat.b2n (P x) + map_count P (delete i m).
Proof.
  intros Hi. rewrite <-(insert_id m i x Hi) at 1.
  rewrite <-insert_delete_eq. by rewrite map_count_insert by apply lookup_delete_eq.
Qed.

Lemma map_count_update P m i x y :
  m !! i = Some x →
  Nat.b2n (P x) + map_count P (<[i:=y]> m) = Nat.b2n (P y) + map_count P m.
Proof.
  intros Hi. rewrite <-insert_delete_eq, map_count_insert by apply lookup_delete_eq.
  rewrite (map_count_delete P m i x Hi). lia.
Qed.

Lemma map_count_pos P m i x : m !! i = Some x → P x = true → 0 < map_count P m.
Proof. intros Hi HP. rewrite (map_count_delete P m i x Hi), HP. simpl. lia. Qed.

Lemma map_count_0 P m : (∀ i x, m !! i = Some x → P x = false) → map_count P m = 0.
Proof.
  intros HP. unfold map_count. apply map_size_empty_iff, map_empty. intros i.
  apply map_lookup_filter_None. right. intros x Hi. simpl. by rewrite (HP i x Hi).
Qed.
End map_count.

(** ** Machine arithmetic *)

Lemma wrap_small w x : fits w x → wrap w x = x.
Proof. apply N.mod_small. Qed.

Lemma wrap_fits w x : fits w (wrap w x).
Proof. apply N.mod_lt. by apply N.pow_nonzero. Qed.

Lemma wrap_wrap w x : wrap w (wrap w x) = wrap w x.
Proof. apply wrap_small, wrap_fits. Qed.

(** ** Automation *)

(** Facts about faults and preserved invariants, for [eauto with gateway]. *)
Create HintDb gateway.

(** Decide the comparisons of the goal by linear arithmetic. *)
Ltac N_cmp :=
  repeat match goal with
  | |- context [ (?a <=? ?b)%N ] =>
    first [ rewrite (proj2 (N.leb_le a b)) by lia
          | rewrite (proj2 (N.leb_gt a b)) by lia ]
  | |- context [ (?a <? ?b)%N ] =>
    first [ rewrite (proj2 (N.ltb_lt a b)) by lia
          | rewrite (proj2 (N.ltb_ge a b)) by lia ]
  | |- context [ (?a =? ?b)%N ] =>
    first [ rewrite (proj2 (N.eqb_eq a b)) by lia
          | rewrite (proj2 (N.eqb_neq a b)) by lia ]
  end.

(** Case analysis on one comparison of the goal, with its meaning. *)
Ltac N_case :=
  match goal with
  | |- context [ (?a <=? ?b)%N ] => destruct (N.leb_spec a b)
  | |- context [ (?a <? ?b)%N ] => destruct (N.ltb_spec a b)
  | |- context [ (?a =? ?b)%N ] => destruct (N.eqb_spec a b)
  end.
