(* ===== verification/IpcTypes.v ===== *)
(** * Data model of the Gateway IPC binding

    [src/score/gateway_ipc_binding/fixed_size_container.hpp],
    [gateway_ipc_binding.hpp], [error.hpp] and [impl/gateway_ipc_binding.cpp]:
    the fixed-size containers of the wire format, the identifiers, the message
    structs, the shared-memory descriptors and the functions that build them.

    A [std::string] is a Coq [string]; [Fixed_string<N>] keeps the code's two
    fields, the length and the full character array, so that a length that
    exceeds the array, which a peer can put on the wire, is expressible. *)

From stdpp Require Import base numbers list gmap strings pretty.
From Stdlib Require Import Strings.Ascii.
From S2P Require Import Prelude.

(** ** Errors ([error.hpp]) *)

Inductive Shared_memory_manager_error : Type :=
  | logic_error_invalid_slot_size
  | logic_error_invalid_slot_count
  | runtime_error_shared_memory_allocation_failed
  | logic_error_invalid_slot_handle
  | runtime_error_slot_not_allocated
  | runtime_error_no_available_slots
  | logic_error_no_configuration_for_interface
  | logic_error_no_configuration_for_instance.

Inductive Bidirectional_channel_error : Type :=
  | runtime_error_client_not_found
  | runtime_error_send_failed
  | runtime_error_not_connected
  | logic_error_already_listening
  | runtime_error_listen_failed
  | runtime_error_not_listening
  | logic_error_invalid_argument.

Inductive Gateway_ipc_binding_error : Type :=
  | fixed_size_container_too_small.

(** ** Fixed-size containers *)

Record Fixed_size_container (T : Type) (Max_size : N) : Type := {
  fsc_size : N;
  fsc_data : list T;
}.
Arguments Build_Fixed_size_container {T Max_size} fsc_size fsc_data.
Arguments fsc_size {T Max_size} _.
Arguments fsc_data {T Max_size} _.

#[export] Instance Fixed_size_container_eq_dec `{EqDecision T} Max_size :
  EqDecision (Fixed_size_container T Max_size).
Proof. solve_decision. Defined.

Section fixed_size_container.
Context {T : Type} {Max_size : N}.

(** [std::array<T, Max_size>] always holds [Max_size] elements. *)
Definition fsc_array_ok (c : Fixed_size_container T Max_size) : Prop :=
  length (fsc_data c) = N.to_nat Max_size.

(** [size <= max_size]: what every constructor of the class establishes. *)
Definition fsc_in_bounds (c : Fixed_size_container T Max_size) : bool :=
  (fsc_size c <=? N.of_nat (length (fsc_data c)))%N.

(** The elements in use: [data[0 .. size)]. *)
Definition fsc_elems (c : Fixed_size_container T Max_size) : list T :=
  take (N.to_nat (fsc_size c)) (fsc_data c).

(** [Fixed_size_container::empty]. *)
Definition fsc_empty (c : Fixed_size_container T Max_size) : bool :=
  (fsc_size c =? 0)%N.

(** [operator==]: the lengths agree and so do the elements in use. *)
Definition fsc_eqb `{EqDecision T} (lhs rhs : Fixed_size_container T Max_size) : bool :=
  (fsc_size lhs =? fsc_size rhs)%N &&
  bool_decide (fsc_elems lhs = fsc_elems rhs).

(** The constructor from a list of initial elements: the assert on the length,
    then a copy of at most [Max_size] elements into the zeroed array. *)
Definition fsc_of_list (zero : T) (init : list T) :
    outcome (Fixed_size_container T Max_size) :=
  if (N.of_nat (length init) <=? Max_size)%N then
    Done {| fsc_size := N.of_nat (length init);
            fsc_data := init ++ replicate (N.to_nat Max_size - length init) zero |}
  else Fault Assertion_failed.
End fixed_size_container.

Abbreviation Fixed_string := (Fixed_size_container Ascii.ascii).

Definition chars (s : string) : list Ascii.ascii := String.list_ascii_of_string s.
Definition string_of (l : list Ascii.ascii) : string := String.string_of_list_ascii l.

Definition fixed_string_from_string (Max_size : N) (value : string) :
    Result Gateway_ipc_binding_error (Fixed_string Max_size) :=
  if (Max_size <? N.of_nat (String.length value))%N then
    Err fixed_size_container_too_small
  else
    Ok {| fsc_size := N.of_nat (String.length value);
          fsc_data := chars value ++
            replicate (N.to_nat Max_size - String.length value) Ascii.zero |}.

(** [std::string(value.data.data(), value.size)] reads [size] characters: past
    the array when the length is not in bounds. *)
Definition fixed_string_to_string {Max_size} (value : Fixed_string Max_size) :
    outcome string :=
  if fsc_in_bounds value then Done (string_of (fsc_elems value))
  else Fault Out_of_bounds.

Section hash.
(** [std::hash] is the standard library's: any functions will do. *)
Context (hash_u16 : N → N) (hash_string_view : string → N).

Definition Fixed_size_container_hash {Max_size} (s : Fixed_string Max_size) : N :=
  let h1 := hash_u16 (wrap16 (fsc_size s)) in
  let h2 := hash_string_view (string_of (fsc_elems s)) in
  N.lxor h1 (wrap64 (N.shiftl h2 1)).
End hash.

(** ** Identifiers *)

Definition kMax_find_service_elements : N := 16.
Definition kMax_service_id_size : N := 64.
Definition kMax_instance_id_size : N := 64.
Definition kMax_client_identifier_size : N := 64.
(** [NAME_MAX] of [<limits.h>] on Linux. *)
Definition kMax_shared_memory_path_size : N := 255.

Abbreviation Service_id := (Fixed_string kMax_service_id_size).
Abbreviation Instance_id := (Fixed_string kMax_instance_id_size).
Abbreviation Client_identifier := (Fixed_string kMax_client_identifier_size).
Abbreviation Shared_memory_path := (Fixed_string kMax_shared_memory_path_size).

(** Unsigned machine integers. *)
Abbreviation Client_id := N (only parsing).
Abbreviation Remote_handle := N (only parsing).
Abbreviation Key_t := N (only parsing).
Abbreviation Event_id := N (only parsing).
Abbreviation Slot_handle := N (only parsing).

Record Version : Type := { major : N; minor : N }.

#[export] Instance Version_eq_dec : EqDecision Version.
Proof. solve_decision. Defined.
#[export] Instance Version_countable : Countable Version.
Proof.
  refine (inj_countable' (λ v, (major v, minor v)) (λ p, Build_Version p.1 p.2) _).
  by intros [].
Defined.

(** [socom::Service_interface_identifier] and [socom::Service_instance]. *)
Record Service_interface_identifier : Type := {
  sii_id : string;
  sii_version : Version;
}.

#[export] Instance Service_interface_identifier_eq_dec :
  EqDecision Service_interface_identifier.
Proof. solve_decision. Defined.
#[export] Instance Service_interface_identifier_countable :
  Countable Service_interface_identifier.
Proof.
  refine (inj_countable' (λ i, (sii_id i, sii_version i))
    (λ p, Build_Service_interface_identifier p.1 p.2) _).
  by intros [].
Defined.

Abbreviation Service_instance := string (only parsing).

(** [gateway_ipc_binding::Service]. *)
Record Service : Type := {
  service_id : Service_id;
  version : Version;
}.

#[export] Instance Service_eq_dec : EqDecision Service.
Proof. solve_decision. Defined.

Definition Service_eqb (lhs rhs : Service) : bool :=
  fsc_eqb (service_id lhs) (service_id rhs) &&
  (major (version lhs) =? major (version rhs))%N &&
  (minor (version lhs) =? minor (version rhs))%N.

Definition to_socom_identifier (s : Service) : outcome Service_interface_identifier :=
  id ← fixed_string_to_string (service_id s);
  mret {| sii_id := id; sii_version := version s |}.

Section service_hash.
Context (hash_u16 : N → N) (hash_string_view : string → N).

Definition Service_hash (s : Service) : N :=
  let h1 := Fixed_size_container_hash hash_u16 hash_string_view (service_id s) in
  let h2 := hash_u16 (major (version s)) in
  let h3 := hash_u16 (minor (version s)) in
  N.lxor (N.lxor h1 (wrap64 (N.shiftl h2 1))) (wrap64 (N.shiftl h3 2)).
End service_hash.

(** The asserted [Result] of [fixed_string_from_string]. *)
Definition assert_ok {E A} (r : Result E A) : outcome A :=
  match r with Ok a => Done a | Err _ => Fault Assertion_failed end.

Definition make_service (interface : Service_interface_identifier) : outcome Service :=
  id ← assert_ok (fixed_string_from_string kMax_service_id_size (sii_id interface));
  mret {| service_id := id; version := sii_version interface |}.

Definition make_instance_id (instance : Service_instance) : outcome Instance_id :=
  assert_ok (fixed_string_from_string kMax_instance_id_size instance).

(** ** Shared memory names *)

Fixpoint drop_leading_slashes (l : list Ascii.ascii) : list Ascii.ascii :=
  match l with
  | "/"%char :: l' => drop_leading_slashes l'
  | _ => l
  end.

Definition flatten_service_type_name (service_type_name : string) : string :=
  string_of
    ((λ c, if Ascii.eqb c "/" then "_"%char else c) <$>
      drop_leading_slashes (chars service_type_name)).

Definition make_path (prefix service_type_name : string) (service_id : N) :
    Result Gateway_ipc_binding_error Shared_memory_path :=
  fixed_string_from_string kMax_shared_memory_path_size
    (prefix +:+ flatten_service_type_name service_type_name +:+ "_" +:+
      pretty service_id).

Definition make_shared_memory_path : string → N →
    Result Gateway_ipc_binding_error Shared_memory_path := make_path "/".

Definition make_counterpart_shared_memory_path : string → N →
    Result Gateway_ipc_binding_error Shared_memory_path := make_path "/counterpart_".

(** ** Shared memory descriptors *)

Record Shared_memory_handle : Type := { slot_index : N; used_bytes : N }.

#[export] Instance Shared_memory_handle_eq_dec : EqDecision Shared_memory_handle.
Proof. solve_decision. Defined.

Record Shared_memory_metadata : Type := {
  path : Shared_memory_path;
  slot_size : N;
  slot_count : N;
}.

#[export] Instance Shared_memory_metadata_eq_dec : EqDecision Shared_memory_metadata.
Proof. solve_decision. Defined.

Definition Shared_memory_metadata_eqb (lhs rhs : Shared_memory_metadata) : bool :=
  (slot_count lhs =? slot_count rhs)%N && (slot_size lhs =? slot_size rhs)%N &&
  (fsc_size (path lhs) =? fsc_size (path rhs))%N &&
  bool_decide (fsc_elems (path lhs) = fsc_elems (path rhs)).

(** [gateway_ipc_binding::Service_instance]. *)
Record Ipc_service_instance : Type := {
  isi_service : Service;
  isi_instance_id : Instance_id;
}.

#[export] Instance Ipc_service_instance_eq_dec : EqDecision Ipc_service_instance.
Proof. solve_decision. Defined.

Record Service_shared_memory_config : Type := {
  ssmc_service : Service;
  ssmc_instance_id : Instance_id;
  ssmc_metadata : Shared_memory_metadata;
}.

#[export] Instance Service_shared_memory_config_eq_dec :
  EqDecision Service_shared_memory_config.
Proof. solve_decision. Defined.

Abbreviation Find_service_elements :=
  (Fixed_size_container Ipc_service_instance kMax_find_service_elements).
Abbreviation Shared_memory_configs :=
  (Fixed_size_container Service_shared_memory_config kMax_find_service_elements).

(** ** Messages *)

Inductive Message_type : Type :=
  | MT_Connect | MT_Connect_reply | MT_Request_service | MT_Offer_service
  | MT_Connect_service | MT_Connect_service_reply | MT_Call_method
  | MT_Call_method_handle | MT_Call_method_reply | MT_Cancel_method_call
  | MT_Subscribe_event | MT_Subscribe_event_reply | MT_Event_update
  | MT_Event_update_request | MT_Payload_consumed.

#[export] Instance Message_type_eq_dec : EqDecision Message_type.
Proof. solve_decision. Defined.

Record Connect : Type := {
  cn_find_service_elements : Find_service_elements;
  cn_shared_memory_configs : Shared_memory_configs;
  cn_identifier : Client_identifier;
}.
Record Connect_reply : Type := { cr_status : bool }.
Record Request_service : Type := {
  rs_service_id : Service;
  rs_instance_id : Instance_id;
  rs_in_use : bool;
}.
Record Offer_service : Type := {
  os_service_id : Service;
  os_instance_id : Instance_id;
  os_offered : bool;
}.
Record Connect_service : Type := {
  cs_service_id : Service;
  cs_instance_id : Instance_id;
  cs_required_id : Remote_handle;
  cs_metadata : Shared_memory_metadata;
  cs_in_use : bool;
}.
Record Connect_service_reply : Type := {
  csr_required_id : Remote_handle;
  csr_provided_id : Remote_handle;
  csr_metadata : Shared_memory_metadata;
  csr_num_methods : N;
  csr_num_events : N;
}.
Record Subscribe_event : Type := {
  se_provided_id : Remote_handle;
  se_event_id : Event_id;
  se_subscribe : bool;
}.
Record Event_update : Type := {
  eu_required_id : Remote_handle;
  eu_event_id : Event_id;
  eu_payload : Shared_memory_handle;
}.
Record Payload_consumed : Type := {
  pc_required_id : Remote_handle;
  pc_handle : Shared_memory_handle;
}.

(** The messages the binding sends and dispatches. *)
Inductive Message : Type :=
  | Msg_Connect (m : Connect)
  | Msg_Connect_reply (m : Connect_reply)
  | Msg_Request_service (m : Request_service)
  | Msg_Offer_service (m : Offer_service)
  | Msg_Connect_service (m : Connect_service)
  | Msg_Connect_service_reply (m : Connect_service_reply)
  | Msg_Subscribe_event (m : Subscribe_event)
  | Msg_Event_update (m : Event_update)
  | Msg_Payload_consumed (m : Payload_consumed).

#[export] Instance Message_eq_dec : EqDecision Message.
Proof.
  assert (EqDecision Connect) by solve_decision.
  assert (EqDecision Connect_reply) by solve_decision.
  assert (EqDecision Request_service) by solve_decision.
  assert (EqDecision Offer_service) by solve_decision.
  assert (EqDecision Connect_service) by solve_decision.
  assert (EqDecision Connect_service_reply) by solve_decision.
  assert (EqDecision Subscribe_event) by solve_decision.
  assert (EqDecision Event_update) by solve_decision.
  assert (EqDecision Payload_consumed) by solve_decision.
  solve_decision.
Defined.

(** The discriminator each message struct declares. *)
Definition message_type (m : Message) : Message_type :=
  match m with
  | Msg_Connect _ => MT_Connect
  | Msg_Connect_reply _ => MT_Connect_reply
  | Msg_Request_service _ => MT_Request_service
  | Msg_Offer_service _ => MT_Offer_service
  | Msg_Connect_service _ => MT_Connect_service
  | Msg_Connect_service_reply _ => MT_Connect_service_reply
  | Msg_Subscribe_event _ => MT_Subscribe_event
  | Msg_Event_update _ => MT_Event_update
  | Msg_Payload_consumed _ => MT_Payload_consumed
  end.

(** ** Lemmas *)

Lemma length_chars s : length (chars s) = String.length s.
Proof. induction s; simpl; auto. Qed.

Lemma chars_app s t : chars (s +:+ t) = chars s ++ chars t.
Proof. induction s; simpl; [done|]. by rewrite IHs. Qed.

Lemma string_of_chars s : string_of (chars s) = s.
Proof. apply String.string_of_list_ascii_of_string. Qed.

Lemma chars_string_of l : chars (string_of l) = l.
Proof. apply String.list_ascii_of_string_of_list_ascii. Qed.

#[export] Instance chars_inj : Inj (=) (=) chars.
Proof. intros s t E. by rewrite <-(string_of_chars s), E, string_of_chars. Qed.

#[export] Instance string_of_inj : Inj (=) (=) string_of.
Proof. intros s t E. by rewrite <-(chars_string_of s), E, chars_string_of. Qed.

Lemma fixed_string_from_string_Ok Max s f :
  fixed_string_from_string Max s = Ok f →
  (N.of_nat (String.length s) ≤ Max)%N ∧ fsc_array_ok f ∧
  fsc_in_bounds f = true ∧ fsc_elems f = chars s.
Proof.
  unfold fixed_string_from_string, fsc_array_ok, fsc_in_bounds, fsc_elems.
  destruct (N.ltb_spec Max (N.of_nat (String.length s))) as [|Hle]; [done|].
  intros [= <-]; simpl. rewrite length_app, length_replicate, length_chars.
  split_and!; [done|lia| |].
  - apply N.leb_le. lia.
  - rewrite Nat2N.id. apply take_app_length_exact. by rewrite length_chars.
Qed.

Lemma fixed_string_to_string_Ok Max s (f : Fixed_string Max) :
  fixed_string_from_string Max s = Ok f → fixed_string_to_string f = Done s.
Proof.
  intros (_ & _ & Hb & He)%fixed_string_from_string_Ok.
  unfold fixed_string_to_string. by rewrite Hb, He, string_of_chars.
Qed.

Lemma fsc_eqb_elems {Max} (a b : Fixed_string Max) :
  fsc_eqb a b = true ↔ fsc_size a = fsc_size b ∧ fsc_elems a = fsc_elems b.
Proof.
  unfold fsc_eqb. rewrite andb_true_iff, N.eqb_eq, bool_decide_eq_true. done.
Qed.

Lemma fsc_elems_size {T Max} (a : Fixed_size_container T Max) :
  fsc_in_bounds a = true → length (fsc_elems a) = N.to_nat (fsc_size a).
Proof.
  unfold fsc_in_bounds, fsc_elems. intros H%N.leb_le.
  rewrite length_take. lia.
Qed.

(** On in-bounds values, the comparison is equality of the strings. *)
Lemma fsc_eqb_string {Max} (a b : Fixed_string Max) s t :
  fixed_string_to_string a = Done s → fixed_string_to_string b = Done t →
  fsc_eqb a b = true ↔ s = t.
Proof.
  unfold fixed_string_to_string.
  destruct (fsc_in_bounds a) eqn:Ha; [|done].
  destruct (fsc_in_bounds b) eqn:Hb; [|done].
  intros [= <-] [= <-]. rewrite fsc_eqb_elems. split.
  - by intros [_ ->].
  - intros E%(inj string_of). split; [|done].
    apply N2Nat.inj. by rewrite <-(fsc_elems_size a), <-(fsc_elems_size b), E.
Qed.

Lemma fixed_hash_eqb hu hs {Max} (a b : Fixed_string Max) :
  fsc_eqb a b = true →
  Fixed_size_container_hash hu hs a = Fixed_size_container_hash hu hs b.
Proof.
  intros [Hs He]%fsc_eqb_elems. unfold Fixed_size_container_hash.
  by rewrite Hs, He.
Qed.

Lemma Service_eqb_spec a b :
  Service_eqb a b = true ↔
  fsc_eqb (service_id a) (service_id b) = true ∧ version a = version b.
Proof.
  unfold Service_eqb. rewrite !andb_true_iff, !N.eqb_eq.
  destruct a as [ia [ma na]], b as [ib [mb nb]]; simpl. naive_solver.
Qed.

(** On in-bounds services, the comparison is equality of the identifiers. *)
Lemma Service_eqb_socom a b ia ib :
  to_socom_identifier a = Done ia → to_socom_identifier b = Done ib →
  Service_eqb a b = true ↔ ia = ib.
Proof.
  unfold to_socom_identifier, mbind, outcome_bind.
  destruct (fixed_string_to_string (service_id a)) as [s|] eqn:Ha; [|done].
  destruct (fixed_string_to_string (service_id b)) as [t|] eqn:Hb; [|done].
  intros [= <-] [= <-]. rewrite Service_eqb_spec, (fsc_eqb_string _ _ _ _ Ha Hb).
  split; [by intros [-> ->] | by intros [= -> ->]].
Qed.

(** *** Shared memory names *)

(** A decimal rendering holds digits only. *)
Lemma pretty_not_in (c : Ascii.ascii) (n : N) :
  (∀ d, pretty_N_char d ≠ c) → c ∉ chars (pretty n).
Proof.
  intros Hc. cut (∀ s, c ∉ chars s → c ∉ chars (pretty_N_go n s)).
  { intros H. unfold pretty, pretty_N. case_decide; [|apply H; set_solver].
    specialize (Hc 0%N). simpl in *. set_solver. }
  induction (N.lt_wf_0 n) as [n _ IH]; intros s Hs.
  assert (n = 0 ∨ 0 < n)%N as [->|Hn] by lia; [by rewrite pretty_N_go_0|].
  rewrite pretty_N_go_step by done. apply IH; [by apply N.div_lt|]. simpl.
  specialize (Hc (n mod 10)%N). set_solver.
Qed.

Lemma pretty_no_underscore (n : N) : "_"%char ∉ chars (pretty n).
Proof. apply pretty_not_in. intros d. unfold pretty_N_char. by repeat case_match. Qed.

Lemma pretty_no_slash (n : N) : "/"%char ∉ chars (pretty n).
Proof. apply pretty_not_in. intros d. unfold pretty_N_char. by repeat case_match. Qed.

Lemma flatten_no_slash n : "/"%char ∉ chars (flatten_service_type_name n).
Proof.
  unfold flatten_service_type_name. rewrite chars_string_of.
  intros (c & Hc & _)%list_elem_of_fmap.
  destruct (Ascii.eqb_spec c "/"); congruence.
Qed.

Lemma make_path_string pre n i p :
  make_path pre n i = Ok p →
  fixed_string_to_string p =
    Done (pre +:+ flatten_service_type_name n +:+ "_" +:+ pretty i).
Proof. apply fixed_string_to_string_Ok. Qed.

(** The decimal service id can be read back from the name. *)
Lemma make_path_inj pre1 pre2 n1 n2 i1 i2 p :
  make_path pre1 n1 i1 = Ok p → make_path pre2 n2 i2 = Ok p →
  i1 = i2 ∧ chars pre1 ++ chars (flatten_service_type_name n1) =
            chars pre2 ++ chars (flatten_service_type_name n2).
Proof.
  intros H1%make_path_string H2%make_path_string.
  rewrite H1 in H2. injection H2 as E.
  apply (f_equal chars) in E. rewrite !chars_app in E. simpl in E.
  rewrite !(assoc_L (++)) in E.
  apply app_sep_last in E as [E1 E2]; [|apply pretty_no_underscore..].
  split; [|done]. by apply (inj chars), (inj pretty) in E2.
Qed.

(** The two objects of one service have different names. *)
Lemma counterpart_differs n i p c :
  make_shared_memory_path n i = Ok p → make_counterpart_shared_memory_path n i = Ok c → p ≠ c.
Proof.
  intros Hp Hc ->. destruct (make_path_inj _ _ _ _ _ _ _ Hp Hc) as [_ E].
  apply (f_equal length) in E. rewrite !length_app in E. simpl in E. lia.
Qed.

(** ** Properties *)

(** [fixed_string_from_string] accepts exactly the strings that fit the
    array, and [fixed_string_to_string] reads the accepted string back. *)
Theorem fixed_string_roundtrip Max s :
  match fixed_string_from_string Max s with
  | Ok f => (N.of_nat (String.length s) ≤ Max)%N ∧ fsc_array_ok f ∧
            fixed_string_to_string f = Done s
  | Err e => (Max < N.of_nat (String.length s))%N ∧
             e = fixed_size_container_too_small
  end.
Proof.
  destruct (fixed_string_from_string Max s) as [f|e] eqn:E.
  - split_and!; [..|by eapply fixed_string_to_string_Ok];
      by apply fixed_string_from_string_Ok in E as (?&?&?&?).
  - destruct e. unfold fixed_string_from_string in E.
    destruct (N.ltb_spec Max (N.of_nat (String.length s))); [done|discriminate].
Qed.

(** The contract [std::unordered_map<Service, ..., Service_hash>] needs:
    services that compare equal hash equally, whatever [std::hash] is, and on
    services whose id is in bounds the comparison is equality of the socom
    identifiers they stand for. *)
Theorem service_equality_contract hu hs a b :
  (Service_eqb a b = true → Service_hash hu hs a = Service_hash hu hs b) ∧
  (∀ ia ib, to_socom_identifier a = Done ia → to_socom_identifier b = Done ib →
    Service_eqb a b = true ↔ ia = ib).
Proof.
  split.
  - intros [He Hv]%Service_eqb_spec. unfold Service_hash.
    by rewrite (fixed_hash_eqb _ _ _ _ He), Hv.
  - intros ia ib. apply Service_eqb_socom.
Qed.

(** The names of the shared memory objects. A name is one slash followed
    by slash-free characters; two services with different ids never share a
    name, primary or counterpart; and the two objects of one service have
    different names. *)
Theorem shared_memory_names n1 n2 i1 i2 p1 p2 c2 :
  make_shared_memory_path n1 i1 = Ok p1 →
  make_shared_memory_path n2 i2 = Ok p2 →
  make_counterpart_shared_memory_path n2 i2 = Ok c2 →
  (∃ s, fixed_string_to_string p1 = Done (String "/" s) ∧ "/"%char ∉ chars s) ∧
  (i1 ≠ i2 → p1 ≠ p2 ∧ p1 ≠ c2) ∧ p2 ≠ c2.
Proof.
  intros H1 H2 Hc. split_and!.
  - eexists; split; [by apply make_path_string in H1|].
    rewrite !chars_app. pose proof (flatten_no_slash n1).
    pose proof (pretty_no_slash i1). set_solver.
  - intros Hne. split; intros ->;
      [destruct (make_path_inj _ _ _ _ _ _ _ H1 H2)
      |destruct (make_path_inj _ _ _ _ _ _ _ H1 Hc)]; done.
  - by eapply counterpart_differs.
Qed.

Lemma shared_memory_names_witness :
  ∃ p1 p2 c2,
    make_shared_memory_path "/a/b/C" 4660 = Ok p1 ∧
    fixed_string_to_string p1 = Done "/a_b_C_4660" ∧
    make_shared_memory_path "D" 17 = Ok p2 ∧
    make_counterpart_shared_memory_path "D" 17 = Ok c2 ∧
    p1 ≠ p2 ∧ p1 ≠ c2 ∧ p2 ≠ c2.
Proof.
  destruct (shared_memory_names "/a/b/C" "D" 4660 17 _ _ _ eq_refl eq_refl eq_refl)
    as (_ & H & H3).
  destruct (H ltac:(done)) as [H1 H2].
  eexists _, _, _. split_and!; [reflexivity|reflexivity|reflexivity|reflexivity|..];
    [exact H1|exact H2|exact H3].
Defined.
