(* ===== verification/Payload.v ===== *)
(** * Payloads

    [src/score/socom/payload.hpp]: [detail::Payload_impl], which [Payload] and
    [Writable_payload] wrap. A payload is a view of a buffer split into an
    unused lead, a header and the data, together with the handle of the shared
    memory slot it lives in and a callback that runs once, when the payload
    dies. *)

From stdpp Require Import base numbers list gmap strings.
From S2P Require Import Prelude.

(** ** Definitions *)

(** [score::cpp::span<std::byte>]: an address range. *)
Record Span : Type := { sp_addr : N; sp_size : N }.

#[export] Instance Span_eq_dec : EqDecision Span.
Proof. solve_decision. Defined.

Definition empty_span : Span := {| sp_addr := 0; sp_size := 0 |}.

(** [span.subspan(offset)]: the precondition is [offset <= size()]. *)
Definition subspan (s : Span) (offset : N) : outcome Span :=
  if (offset <=? sp_size s)%N then
    Done {| sp_addr := sp_addr s + offset; sp_size := sp_size s - offset |}
  else Fault Out_of_bounds.

(** [span.subspan(offset, count)]: [offset <= size()] and
    [count <= size() - offset]. *)
Definition subspan_count (s : Span) (offset count : N) : outcome Span :=
  if (offset <=? sp_size s)%N && (count <=? sp_size s - offset)%N then
    Done {| sp_addr := sp_addr s + offset; sp_size := count |}
  else Fault Out_of_bounds.

(** Two address ranges have no byte in common. *)
Definition span_disjoint (s t : Span) : Prop :=
  (sp_addr s + sp_size s ≤ sp_addr t ∨ sp_addr t + sp_size t ≤ sp_addr s)%N.

(** The range [s] lies in [t]. *)
Definition span_in (s t : Span) : Prop :=
  (sp_addr t ≤ sp_addr s ∧ sp_addr s + sp_size s ≤ sp_addr t + sp_size t)%N.

(** [kNoSlotHandle]. *)
Definition kNoSlotHandle : N := size_max.

(** [C] is the type of destruction callbacks; [None] is an empty
    [move_only_function]. *)
Record Payload (C : Type) : Type := {
  m_data : Span;
  m_lead_offset : N;
  m_header_size : N;
  m_slot_handle : N;
  m_payload_destroyed : option C;
}.
Arguments Build_Payload {C} _ _ _ _ _.
Arguments m_data {C} _.
Arguments m_lead_offset {C} _.
Arguments m_header_size {C} _.
Arguments m_slot_handle {C} _.
Arguments m_payload_destroyed {C} _.

Section payload.
Context {C : Type}.
Implicit Types p : Payload C.

(** The constructor; [header_size] and [lead_offset] default to zero. *)
Definition make_payload (data : Span) (slot_handle : N) (payload_destroyed : C)
    (header_size lead_offset : N) : Payload C :=
  {| m_data := data; m_lead_offset := lead_offset; m_header_size := header_size;
     m_slot_handle := slot_handle; m_payload_destroyed := Some payload_destroyed |}.

Definition get_slot_handle p : N := m_slot_handle p.

Definition payload_data p : outcome Span :=
  subspan (m_data p) (wrap64 (m_lead_offset p + m_header_size p)).

Definition payload_header p : outcome Span :=
  subspan_count (m_data p) (m_lead_offset p) (m_header_size p).

Definition set_m_data p d : Payload C :=
  {| m_data := d; m_lead_offset := m_lead_offset p; m_header_size := m_header_size p;
     m_slot_handle := m_slot_handle p; m_payload_destroyed := m_payload_destroyed p |}.

Definition shrink p (size : N) : outcome (bool * Payload C) :=
  d ← payload_data p;
  if (sp_size d <? size)%N then Done (false, p)
  else
    d' ← subspan_count (m_data p) 0
      (wrap64 (wrap64 (m_lead_offset p + m_header_size p) + size));
    Done (true, set_m_data p d').

(** [call_payload_destroyed]: the callback to run, if there is one. *)
Definition call_payload_destroyed p : list C := option_list (m_payload_destroyed p).

(** A moved-from payload keeps its view and loses its callback. *)
Definition moved_from p : Payload C :=
  {| m_data := m_data p; m_lead_offset := m_lead_offset p;
     m_header_size := m_header_size p; m_slot_handle := m_slot_handle p;
     m_payload_destroyed := None |}.

(** The move constructor: the new object, and what [other] becomes. *)
Definition move_construct other : Payload C * Payload C := (other, moved_from other).

(** [operator=(Payload_impl&&)] for [this != &other]: the callbacks run, the
    new value of [*this] and what [other] becomes. *)
Definition move_assign p other : list C * Payload C * Payload C :=
  (call_payload_destroyed p, other, moved_from other).

(** The destructor. *)
Definition destroy_payload p : list C := call_payload_destroyed p.

(** [empty_payload]. *)
Definition empty_payload (callback : C) : Payload C :=
  make_payload {| sp_addr := 0; sp_size := 0 |} kNoSlotHandle callback 0 0.

(** [operator==]: [mem] is the memory, byte by byte. *)
Definition span_bytes (mem : N → N) (d : Span) : list N :=
  (λ i, mem (sp_addr d + N.of_nat i)%N) <$> seq 0 (N.to_nat (sp_size d)).
Definition payload_eqb (mem : N → N) p other : outcome bool :=
  h ← payload_header p;
  h' ← payload_header other;
  if bool_decide (span_bytes mem h = span_bytes mem h') then
    d ← payload_data p;
    d' ← payload_data other;
    Done (bool_decide (span_bytes mem d = span_bytes mem d'))
  else Done false.

(** [Payload_impl]'s class invariant: the lead and the header lie in the
    buffer, whose size is a [size_t]. *)
Definition payload_ok p : Prop :=
  (m_lead_offset p + m_header_size p ≤ sp_size (m_data p))%N ∧
  fits 64 (sp_size (m_data p)).

(** ** Lemmas *)

Lemma payload_data_ok p :
  payload_ok p →
  payload_data p = Done
    {| sp_addr := sp_addr (m_data p) + (m_lead_offset p + m_header_size p);
       sp_size := sp_size (m_data p) - (m_lead_offset p + m_header_size p) |}.
Proof.
  intros [H1 H2]. unfold payload_data, subspan, fits in *.
  rewrite wrap_small by (unfold fits; lia). by N_cmp.
Qed.

Lemma payload_header_ok p :
  payload_ok p →
  payload_header p = Done
    {| sp_addr := sp_addr (m_data p) + m_lead_offset p; sp_size := m_header_size p |}.
Proof.
  intros [H1 H2]. unfold payload_header, subspan_count. by N_cmp.
Qed.

(** Two payloads are equal if they show the same bytes, wherever these are stored. *)
Lemma payload_eqb_spec mem p q :
  payload_ok p → payload_ok q →
  ∃ h h' d d', payload_header p = Done h ∧ payload_header q = Done h' ∧
    payload_data p = Done d ∧ payload_data q = Done d' ∧
    payload_eqb mem p q = Done (bool_decide
      (span_bytes mem h = span_bytes mem h' ∧ span_bytes mem d = span_bytes mem d')).
Proof.
  intros Hp Hq. do 4 eexists. split_and!;
    [by apply payload_header_ok..|by apply payload_data_ok|by apply payload_data_ok|].
  unfold payload_eqb. rewrite !payload_header_ok, !payload_data_ok by done. simpl.
  repeat case_bool_decide; naive_solver.
Qed.

(** ** Properties *)

(** On a well-formed payload [shrink] never faults; it succeeds exactly
    when the requested size does not exceed the current data size, and then the
    data starts at the same address with the requested size while header, slot
    handle and callback stay; a refused request changes nothing. *)
Theorem shrink_spec p n :
  payload_ok p →
  ∃ d, payload_data p = Done d ∧
  if decide (n ≤ sp_size d)%N then
    ∃ p', shrink p n = Done (true, p') ∧ payload_ok p' ∧
      payload_data p' = Done {| sp_addr := sp_addr d; sp_size := n |} ∧
      payload_header p' = payload_header p ∧
      get_slot_handle p' = get_slot_handle p ∧
      m_payload_destroyed p' = m_payload_destroyed p
  else shrink p n = Done (false, p).
Proof.
  intros Hok. eexists. split; [by apply payload_data_ok|]. simpl.
  unfold shrink. rewrite (payload_data_ok p Hok); simpl.
  destruct Hok as [H1 H2]. unfold fits in H2. case_decide as Hn.
  - N_cmp. unfold subspan_count. simpl. rewrite N.sub_0_r, N.add_0_r.
    rewrite (wrap_small 64 (m_lead_offset p + m_header_size p)) by (unfold fits; lia).
    rewrite wrap_small by (unfold fits; lia).
    N_cmp. simpl.
    eexists. split; [done|].
    assert (payload_ok (set_m_data p {| sp_addr := sp_addr (m_data p);
      sp_size := m_lead_offset p + m_header_size p + n |})) as Hok'.
    { split; unfold fits; simpl; lia. }
    rewrite (payload_data_ok _ Hok'), (payload_header_ok _ Hok'),
      (payload_header_ok p) by done. simpl.
    split_and!; [done| |done|done|done]. f_equal. f_equal; lia.
  - by N_cmp.
Qed.
End payload.

Lemma shrink_spec_witness :
  ∃ p' : Payload nat,
    shrink (make_payload {| sp_addr := 4096; sp_size := 1500 |} 3 7 16 0) 100 =
      Done (true, p') ∧
    payload_data p' = Done {| sp_addr := 4112; sp_size := 100 |}.
Proof.
  destruct (shrink_spec
    (make_payload {| sp_addr := 4096; sp_size := 1500 |} 3 7 16 0) 100)
    as (d & Hd & H); [split; [simpl; lia | reflexivity]|].
  injection Hd as <-. rewrite decide_True in H by (vm_compute; discriminate).
  destruct H as (p' & H1 & _ & H2 & _). exists p'. split; [exact H1|exact H2].
Defined.
