(* ===== verification/SlotManager.v ===== *)
(** * Shared memory slots

    [src/score/gateway_ipc_binding/shared_memory_slot_manager.hpp] and
    [impl/shared_memory_slot_manager.cpp]: the writable slot manager with its
    reference counts, the RAII guards that own slots, the read-only manager a
    consumer opens on a peer's memory and the factory that creates both.

    Every operation of the manager runs under its mutex (or is one atomic
    load), so an execution is a sequence of whole operations; [guard_step]
    below is that interleaving. The shared memory library
    ([score::memory::shared]) is not part of the repository: it is the
    parameter [Shm] of the definitions that call it. *)

From stdpp Require Import base numbers list gmap strings.
From Stdlib Require Import Strings.Ascii.
From S2P Require Import Prelude.
From S2P Require Import IpcTypes.
From S2P Require Import Payload.

(** ** The writable slot manager *)

Record Slot_metadata : Type := {
  reference_count : N;   (* std::atomic<std::uint32_t> *)
  offset : N;            (* std::size_t *)
}.

#[export] Instance Slot_metadata_eq_dec : EqDecision Slot_metadata.
Proof. solve_decision. Defined.

Record Slot_manager : Type := {
  m_slot_size : N;
  m_slot_count : N;
  m_path : string;
  m_base_address : N;
  m_slots : list Slot_metadata;
}.

#[export] Instance Slot_manager_eq_dec : EqDecision Slot_manager.
Proof. solve_decision. Defined.

(** The constructor: slot [i] is free and starts at [i * slot_size]. *)
Definition make_slot_manager (slot_size slot_count : N) (path : string)
    (base_address : N) : Slot_manager :=
  {| m_slot_size := slot_size; m_slot_count := slot_count; m_path := path;
     m_base_address := base_address;
     m_slots := (λ i, {| reference_count := 0;
                         offset := wrap64 (N.of_nat i * slot_size) |})
                <$> seq 0 (N.to_nat slot_count) |}.

Definition set_m_slots (m : Slot_manager) (l : list Slot_metadata) : Slot_manager :=
  {| m_slot_size := m_slot_size m; m_slot_count := m_slot_count m;
     m_path := m_path m; m_base_address := m_base_address m; m_slots := l |}.

(** [m_slots[handle].reference_count.load()]. *)
Definition load_count (m : Slot_manager) (handle : N) : N :=
  from_option reference_count 0%N (m_slots m !! N.to_nat handle).

(** [m_slots[handle].reference_count = c]. *)
Definition store_count (m : Slot_manager) (handle c : N) : Slot_manager :=
  set_m_slots m
    (alter (λ s, {| reference_count := c; offset := offset s |})
      (N.to_nat handle) (m_slots m)).

(** The loop of [allocate_slot]: the first slot whose count the
    compare-exchange finds to be zero. *)
Fixpoint first_free (i : N) (slots : list Slot_metadata) : option N :=
  match slots with
  | [] => None
  | s :: slots' =>
    if (reference_count s =? 0)%N then Some i else first_free (i + 1) slots'
  end.

(** The [Shared_memory_slot_guard] returned by the code owns the handle. *)
Definition allocate_slot (m : Slot_manager) :
    Result Shared_memory_manager_error N * Slot_manager :=
  match first_free 0 (m_slots m) with
  | Some i => (Ok i, store_count m i 1)
  | None => (Err runtime_error_no_available_slots, m)
  end.

Definition add_consumer (m : Slot_manager) (handle : N) :
    Result Shared_memory_manager_error unit * Slot_manager :=
  if (m_slot_count m <=? handle)%N then (Err logic_error_invalid_slot_handle, m)
  else if (load_count m handle =? 0)%N then (Err runtime_error_slot_not_allocated, m)
  else (Ok tt, store_count m handle (wrap32 (load_count m handle + 1))).

Definition release_slot (m : Slot_manager) (handle : N) :
    Result Shared_memory_manager_error unit * Slot_manager :=
  if (m_slot_count m <=? handle)%N then (Err logic_error_invalid_slot_handle, m)
  else if (load_count m handle =? 0)%N then (Err runtime_error_slot_not_allocated, m)
  else (Ok tt, store_count m handle (wrap32 (load_count m handle + (2 ^ 32 - 1)))).

Definition get_slot_count (m : Slot_manager) : N := m_slot_count m.
Definition get_slot_size (m : Slot_manager) : N := m_slot_size m.
Definition get_path (m : Slot_manager) : string := m_path m.

Definition get_allocated_slot_count (m : Slot_manager) : N :=
  foldl (λ count s, if (0 <? reference_count s)%N then (count + 1)%N else count)
    0%N (m_slots m).

Definition get_reference_count (m : Slot_manager) (handle : N) : N :=
  if (m_slot_count m <=? handle)%N then 0%N else load_count m handle.

Definition get_memory (m : Slot_manager) (handle : N) :
    Result Shared_memory_manager_error Span :=
  if (m_slot_count m <=? handle)%N then Err logic_error_invalid_slot_handle
  else if (get_reference_count m handle =? 0)%N then Err runtime_error_slot_not_allocated
  else Ok {| sp_addr := m_base_address m +
               from_option offset 0%N (m_slots m !! N.to_nat handle);
             sp_size := m_slot_size m |}.

(** ** Creation *)

(** [SharedMemoryFactory::Create] (does it yield a resource for this path and
    size) and [ISharedMemoryResource::allocate] (the block's address). *)
Class Shm := {
  shm_create : string → N → bool;
  shm_allocate : string → N → option N;
  shm_open : string → option N;
}.

Definition create_shared_memory_slot_manager `{Shm} (path : string)
    (slot_count slot_size : N) : Result Shared_memory_manager_error Slot_manager :=
  if (slot_size =? 0)%N then Err logic_error_invalid_slot_size
  else if (slot_count =? 0)%N then Err logic_error_invalid_slot_count
  else
    let total_size := wrap64 (slot_count * slot_size) in
    if negb (shm_create path total_size) then
      Err runtime_error_shared_memory_allocation_failed
    else
      match shm_allocate path total_size with
      | None => Err runtime_error_shared_memory_allocation_failed
      | Some base_address =>
        Ok (make_slot_manager slot_size slot_count path base_address)
      end.

(** The block the manager's constructor is given. *)
Definition manager_block (m : Slot_manager) : Span :=
  {| sp_addr := m_base_address m; sp_size := wrap64 (m_slot_count m * m_slot_size m) |}.

(** ** Guards

    [m_manager] points to a manager or is null. The managers live in a store
    indexed by an identity that stands for the manager's address. *)

Record Slot_guard : Type := {
  m_manager : option N;
  m_handle : N;
}.

#[export] Instance Slot_guard_eq_dec : EqDecision Slot_guard.
Proof. solve_decision. Defined.

Abbreviation Managers := (gmap N Slot_manager).

Definition invalid_guard : Slot_guard := {| m_manager := None; m_handle := 0 |}.
Definition has_slot (g : Slot_guard) : bool := bool_decide (is_Some (m_manager g)).
Definition clear_manager (g : Slot_guard) : Slot_guard :=
  {| m_manager := None; m_handle := m_handle g |}.

(** Run an operation on the manager a guard points to. *)
Definition on_manager {A} (dflt : A) (ms : Managers) (g : Slot_guard)
    (f : Slot_manager → N → A * Slot_manager) : A * Managers :=
  match m_manager g with
  | None => (dflt, ms)
  | Some k =>
    match ms !! k with
    | None => (dflt, ms)
    | Some m => let '(a, m') := f m (m_handle g) in (a, <[k:=m']> ms)
    end
  end.

(** [reset]: also the destructor. *)
Definition guard_reset (ms : Managers) (g : Slot_guard) : Managers * Slot_guard :=
  if has_slot g then
    ((on_manager (Ok tt) ms g release_slot).2, clear_manager g)
  else (ms, g).

(** [share]: asserts that the guard holds a slot and that the count was
    incremented. *)
Definition guard_share (ms : Managers) (g : Slot_guard) :
    outcome (Slot_guard * Managers) :=
  if has_slot g then
    match on_manager (Err runtime_error_slot_not_allocated) ms g add_consumer with
    | (Ok tt, ms') => Done ({| m_manager := m_manager g; m_handle := m_handle g |}, ms')
    | (Err _, _) => Fault Assertion_failed
    end
  else Fault Assertion_failed.

(** The move constructor: the new guard and what [other] becomes. *)
Definition guard_move (other : Slot_guard) : Slot_guard * Slot_guard :=
  (other, clear_manager other).

(** [operator=(Shared_memory_slot_guard&&)] for [this != &other]. *)
Definition guard_move_assign (ms : Managers) (this other : Slot_guard) :
    Managers * Slot_guard * Slot_guard :=
  ((guard_reset ms this).1, other, clear_manager other).

Definition guard_get_handle (g : Slot_guard) : Result Shared_memory_manager_error N :=
  if has_slot g then Ok (m_handle g) else Err runtime_error_slot_not_allocated.

Definition guard_get_memory (ms : Managers) (g : Slot_guard) : Span :=
  match m_manager g ≫= (ms !!.) with
  | None => empty_span
  | Some m => match get_memory m (m_handle g) with Ok s => s | Err _ => empty_span end
  end.

Definition guard_release (g : Slot_guard) :
    Result Shared_memory_manager_error N * Slot_guard :=
  if has_slot g then (Ok (m_handle g), clear_manager g)
  else (Err runtime_error_slot_not_allocated, g).

(** ** The read-only manager *)

Record Read_only_slot_manager : Type := {
  ro_base_address : N;
  ro_slot_size : N;
  ro_slot_count : N;
}.

(** The constructor asserts that both numbers are positive. *)
Definition make_read_only_slot_manager (base slot_size slot_count : N) :
    outcome Read_only_slot_manager :=
  if (0 <? slot_size)%N && (0 <? slot_count)%N then
    Done {| ro_base_address := base; ro_slot_size := slot_size;
            ro_slot_count := slot_count |}
  else Fault Assertion_failed.

Definition make_read_only_shared_memory_payload {C} (base slot_index slot_size used_bytes : N)
    (callback : C) : Payload C :=
  make_payload
    {| sp_addr := base + wrap64 (slot_index * slot_size);
       sp_size := N.min used_bytes slot_size |}
    slot_index callback 0 0.

Definition get_payload {C} (m : Read_only_slot_manager) (handle : Shared_memory_handle)
    (callback : C) : option (Payload C) :=
  if (ro_slot_count m <=? slot_index handle)%N then None
  else Some (make_read_only_shared_memory_payload (ro_base_address m)
    (slot_index handle) (ro_slot_size m) (used_bytes handle) callback).

(** ** The factory *)

Abbreviation Shared_memory_configuration :=
  (gmap Service_interface_identifier (gmap string Shared_memory_metadata)).

Definition lookup_configuration (c : Shared_memory_configuration)
    (interface : Service_interface_identifier) (instance : string) :
    option Shared_memory_metadata :=
  (c !! interface) ≫= λ instances, instances !! instance.

(** [m_configuration[interface][instance] = metadata]. *)
Definition insert_configuration (c : Shared_memory_configuration)
    (interface : Service_interface_identifier) (instance : string)
    (metadata : Shared_memory_metadata) : Shared_memory_configuration :=
  <[interface := <[instance := metadata]> (default ∅ (c !! interface))]> c.

Definition factory_create `{Shm} (m_configuration : Shared_memory_configuration)
    (interface : Service_interface_identifier) (instance : string) :
    outcome (Result Shared_memory_manager_error Slot_manager) :=
  match m_configuration !! interface with
  | None => Done (Err logic_error_no_configuration_for_interface)
  | Some instances =>
    match instances !! instance with
    | None => Done (Err logic_error_no_configuration_for_instance)
    | Some md =>
      p ← fixed_string_to_string (path md);
      Done (create_shared_memory_slot_manager p (slot_count md) (slot_size md))
    end
  end.

(** One iteration of the loop of [register_configuration]. *)
Definition register_entry (c : Shared_memory_configuration)
    (entry : Service_shared_memory_config) : outcome Shared_memory_configuration :=
  interface ← to_socom_identifier (ssmc_service entry);
  instance ← fixed_string_to_string (ssmc_instance_id entry);
  Done (insert_configuration c interface instance (ssmc_metadata entry)).

Fixpoint register_entries (c : Shared_memory_configuration)
    (entries : list Service_shared_memory_config) : outcome Shared_memory_configuration :=
  match entries with
  | [] => Done c
  | e :: entries' => c' ← register_entry c e; register_entries c' entries'
  end.

(** [configs.data[i]] for [i < configs.size]: past the array when the length
    is not in bounds. *)
Definition register_configuration (c : Shared_memory_configuration)
    (configs : Shared_memory_configs) : outcome Shared_memory_configuration :=
  if fsc_in_bounds configs then register_entries c (fsc_elems configs)
  else Fault Out_of_bounds.

Definition factory_open `{Shm} (metadata : Shared_memory_metadata) :
    outcome (Result Shared_memory_manager_error Read_only_slot_manager) :=
  p ← fixed_string_to_string (path metadata);
  match shm_open p with
  | None => Done (Err runtime_error_shared_memory_allocation_failed)
  | Some base =>
    r ← make_read_only_slot_manager base (slot_size metadata) (slot_count metadata);
    Done (Ok r)
  end.

(** The iteration of [make_shared_memory_configs] over the nested map. *)
Definition configuration_entries (c : Shared_memory_configuration) :
    list (Service_interface_identifier * string * Shared_memory_metadata) :=
  '(interface, instances) ← map_to_list c;
  '(instance, metadata) ← map_to_list instances;
  [(interface, instance, metadata)].

Definition make_config_entry
    (e : Service_interface_identifier * string * Shared_memory_metadata) :
    outcome Service_shared_memory_config :=
  service ← make_service e.1.1;
  instance_id ← make_instance_id e.1.2;
  Done {| ssmc_service := service; ssmc_instance_id := instance_id;
          ssmc_metadata := e.2 |}.

(** The loop, [n] entries in: every iteration asserts that the container has
    room. *)
Fixpoint make_config_entries (n : N)
    (l : list (Service_interface_identifier * string * Shared_memory_metadata)) :
    outcome (list Service_shared_memory_config) :=
  match l with
  | [] => Done []
  | e :: l' =>
    if (n <? kMax_find_service_elements)%N then
      x ← make_config_entry e;
      xs ← make_config_entries (n + 1) l';
      Done (x :: xs)
    else Fault Assertion_failed
  end.

(** [Service_shared_memory_config{}]: the zeroed entries of [result{}]. *)
Definition zero_string {Max} : Fixed_string Max :=
  {| fsc_size := 0; fsc_data := replicate (N.to_nat Max) Ascii.zero |}.
Definition zero_config : Service_shared_memory_config :=
  {| ssmc_service := {| service_id := zero_string;
                        version := {| major := 0; minor := 0 |} |};
     ssmc_instance_id := zero_string;
     ssmc_metadata := {| path := zero_string; slot_size := 0; slot_count := 0 |} |}.

Definition make_shared_memory_configs (c : Shared_memory_configuration) :
    outcome Shared_memory_configs :=
  l ← make_config_entries 0 (configuration_entries c);
  Done {| fsc_size := N.of_nat (length l);
          fsc_data := l ++ replicate
            (N.to_nat kMax_find_service_elements - length l) zero_config |}.

(** ** The interleavings of guard operations *)

Record Guard_world : Type := {
  gw_managers : Managers;
  gw_guards : gmap N Slot_guard;      (* the live guard objects *)
  gw_external : list (N * N);         (* slots taken over with [release()] *)
}.

Definition holds (k h : N) (g : Slot_guard) : bool :=
  bool_decide (m_manager g = Some k ∧ m_handle g = h).

(** How many owners slot [h] of manager [k] has: guards that hold it, and
    callers that took it over. *)
Definition owners (w : Guard_world) (k h : N) : nat :=
  map_count (holds k h) (gw_guards w) +
  length (filter (λ p, p = (k, h)) (gw_external w)).

(** [get_reference_count], zero for a manager that does not exist. *)
Definition rc_of (ms : Managers) (k h : N) : N :=
  match ms !! k with Some m => get_reference_count m h | None => 0%N end.

(** One operation on some guard or manager. *)
Inductive guard_step : Guard_world → Guard_world → Prop :=
  | step_allocate ms gs ext k m h m' id :
      ms !! k = Some m → allocate_slot m = (Ok h, m') → gs !! id = None →
      guard_step (Build_Guard_world ms gs ext)
        (Build_Guard_world (<[k:=m']> ms)
          (<[id:={| m_manager := Some k; m_handle := h |}]> gs) ext)
  | step_share ms gs ext id g id' g' ms' k :
      gs !! id = Some g → gs !! id' = None → m_manager g = Some k →
      guard_share ms g = Done (g', ms') →
      guard_step (Build_Guard_world ms gs ext)
        (Build_Guard_world ms' (<[id':=g']> gs) ext)
  | step_move ms gs ext id g id' :
      gs !! id = Some g → gs !! id' = None →
      guard_step (Build_Guard_world ms gs ext)
        (Build_Guard_world ms
          (<[id':=(guard_move g).1]> (<[id:=(guard_move g).2]> gs)) ext)
  | step_move_assign ms gs ext id g id' g' ms1 g1 g2 :
      gs !! id = Some g → gs !! id' = Some g' → id ≠ id' →
      guard_move_assign ms g g' = (ms1, g1, g2) →
      guard_step (Build_Guard_world ms gs ext)
        (Build_Guard_world ms1 (<[id:=g1]> (<[id':=g2]> gs)) ext)
  | step_reset ms gs ext id g ms' g' :
      gs !! id = Some g → guard_reset ms g = (ms', g') →
      guard_step (Build_Guard_world ms gs ext)
        (Build_Guard_world ms' (<[id:=g']> gs) ext)
  | step_destroy ms gs ext id g ms' g' :
      gs !! id = Some g → guard_reset ms g = (ms', g') →
      guard_step (Build_Guard_world ms gs ext)
        (Build_Guard_world ms' (delete id gs) ext)
  | step_release ms gs ext id g k h g' :
      gs !! id = Some g → m_manager g = Some k → guard_release g = (Ok h, g') →
      guard_step (Build_Guard_world ms gs ext)
        (Build_Guard_world ms (<[id:=g']> gs) ((k, h) :: ext))
  | step_external_release ms gs ext1 ext2 k h m r m' :
      ms !! k = Some m → release_slot m h = (r, m') →
      guard_step (Build_Guard_world ms gs (ext1 ++ (k, h) :: ext2))
        (Build_Guard_world (<[k:=m']> ms) gs (ext1 ++ ext2))
  | step_external_add ms gs ext k h m m' :
      ms !! k = Some m → (k, h) ∈ ext → add_consumer m h = (Ok tt, m') →
      guard_step (Build_Guard_world ms gs ext)
        (Build_Guard_world (<[k:=m']> ms) gs ((k, h) :: ext)).

(** Freshly created managers and no guards. *)
Definition guard_start (w : Guard_world) : Prop :=
  gw_guards w = ∅ ∧ gw_external w = [] ∧
  map_Forall (λ _ m, ∃ size count p base, m = make_slot_manager size count p base)
    (gw_managers w).

(** No slot has [2^32] owners or more. *)
Definition owners_fit (w : Guard_world) : Prop := ∀ k h, fits 32 (N.of_nat (owners w k h)).

(** The states after any operations that did not give a slot [2^32] owners. *)
Definition guard_reachable (w : Guard_world) : Prop :=
  ∃ w0, guard_start w0 ∧ rtc (λ w w', guard_step w w' ∧ owners_fit w') w0 w.

(** The layout the constructor establishes and nothing changes. *)
Definition manager_ok (m : Slot_manager) : Prop :=
  length (m_slots m) = N.to_nat (m_slot_count m) ∧
  ∀ i s, m_slots m !! i = Some s → offset s = wrap64 (N.of_nat i * m_slot_size m).

(** The reference counts are the numbers of owners. *)
Definition guard_inv (w : Guard_world) : Prop :=
  map_Forall (λ _ m, manager_ok m) (gw_managers w) ∧
  (∀ k h, rc_of (gw_managers w) k h = N.of_nat (owners w k h)) ∧
  (∀ k h, fits 32 (rc_of (gw_managers w) k h)).

(** The counts of a state that one operation leads to: 32 bits of the numbers. *)
Definition counted (w : Guard_world) : Prop :=
  map_Forall (λ _ m, manager_ok m) (gw_managers w) ∧
  ∀ k h, rc_of (gw_managers w) k h = wrap32 (N.of_nat (owners w k h)).

Lemma inv_counted w : guard_inv w → counted w.
Proof.
  intros (Hok & Hrc & Hfit). split; [done|]. intros k h. rewrite Hrc.
  symmetry. apply wrap_small. rewrite <-Hrc. apply Hfit.
Qed.

Lemma counted_inv w : counted w → owners_fit w → guard_inv w.
Proof.
  intros [Hok Hrc] Hfit.
  assert (∀ k h, rc_of (gw_managers w) k h = N.of_nat (owners w k h)) as Hn.
  { intros k h. rewrite Hrc. by apply wrap_small. }
  split_and!; [done..|]. intros k h. rewrite Hn. apply Hfit.
Qed.

(** ** Lemmas on the manager *)

Lemma manager_ok_make size count p base :
  manager_ok (make_slot_manager size count p base).
Proof.
  split; simpl.
  - by rewrite length_fmap, length_seq.
  - intros i s. rewrite list_lookup_fmap.
    intros (j & Hj & ->)%fmap_Some. apply lookup_seq in Hj as [-> _]. done.
Qed.

Lemma load_count_make size count p base h :
  load_count (make_slot_manager size count p base) h = 0%N.
Proof.
  unfold load_count; simpl. rewrite list_lookup_fmap.
  by destruct (seq 0 (N.to_nat count) !! N.to_nat h).
Qed.

Lemma manager_ok_store m h c : manager_ok m → manager_ok (store_count m h c).
Proof.
  intros [Hl Ho]. split; simpl.
  - by rewrite length_alter.
  - intros i s. rewrite list_lookup_alter. case_decide.
    + subst. intros (s' & Hs' & ->)%fmap_Some. simpl. eauto.
    + eauto.
Qed.

Lemma load_count_store m h c h' :
  manager_ok m → (h < m_slot_count m)%N →
  load_count (store_count m h c) h' = if decide (h = h') then c else load_count m h'.
Proof.
  intros [Hl _] Hh. unfold load_count; simpl. rewrite list_lookup_alter.
  destruct (decide (N.to_nat h = N.to_nat h')) as [E|]; rewrite ?E; case_decide;
    try (by auto with lia); try lia.
  destruct (m_slots m !! N.to_nat h') as [s|] eqn:Hs; [done|].
  apply lookup_ge_None in Hs. lia.
Qed.

Lemma rc_of_store ms k m h c k' h' :
  ms !! k = Some m → manager_ok m → (h < m_slot_count m)%N →
  rc_of (<[k:=store_count m h c]> ms) k' h' =
    if decide ((k, h) = (k', h')) then c else rc_of ms k' h'.
Proof.
  intros Hk Hok Hh. unfold rc_of. destruct (decide (k = k')) as [<-|Hne].
  - rewrite lookup_insert_eq, Hk. unfold get_reference_count; simpl.
    rewrite load_count_store by done.
    destruct (decide (h = h')) as [<-|]; [rewrite decide_True by done|
      rewrite decide_False by congruence]; N_case; try done. lia.
  - rewrite lookup_insert_ne by done. rewrite decide_False by congruence. done.
Qed.

(** A positive count belongs to an existing slot of an existing manager. *)
Lemma rc_of_pos ms k h :
  (0 < rc_of ms k h)%N →
  ∃ m, ms !! k = Some m ∧ (h < m_slot_count m)%N ∧ load_count m h = rc_of ms k h.
Proof.
  unfold rc_of, get_reference_count. destruct (ms !! k) as [m|]; [|lia].
  N_case; [lia|]. intros _. by exists m.
Qed.

(** What the scan of [allocate_slot] returns. *)
Lemma first_free_Some i slots h :
  first_free i slots = Some h →
  ∃ j s, h = (i + N.of_nat j)%N ∧ slots !! j = Some s ∧ reference_count s = 0%N ∧
    (∀ j' s', j' < j → slots !! j' = Some s' → reference_count s' ≠ 0%N).
Proof.
  revert i. induction slots as [|s slots IH]; intros i; simpl; [done|].
  N_case.
  - intros [= <-]. exists 0, s. split_and!; [lia|done|done|lia].
  - intros (j & s' & -> & Hj & Hz & Hmin)%IH. exists (S j), s'.
    split_and!; [lia|done|done|]. intros [|j'] s'' Hlt; simpl.
    + by intros [= <-].
    + intros ?. eapply Hmin; [|done]. lia.
Qed.

Lemma first_free_None i slots :
  first_free i slots = None ↔ Forall (λ s, reference_count s ≠ 0%N) slots.
Proof.
  revert i. induction slots as [|s slots IH]; intros i; simpl; [done|].
  rewrite Forall_cons. N_case; [naive_solver|]. rewrite IH. naive_solver.
Qed.

Lemma allocate_slot_Ok m h m' :
  manager_ok m → allocate_slot m = (Ok h, m') →
  (h < m_slot_count m)%N ∧ load_count m h = 0%N ∧ m' = store_count m h 1 ∧
  (∀ h', (h' < h)%N → load_count m h' ≠ 0%N).
Proof.
  intros [Hl _]. unfold allocate_slot.
  destruct (first_free 0 (m_slots m)) as [i|] eqn:E; [|done].
  intros [= <- <-]. apply first_free_Some in E as (j & s & -> & Hj & Hz & Hmin).
  unfold load_count. rewrite N.add_0_l, Nat2N.id, Hj. simpl.
  pose proof (lookup_lt_Some _ _ _ Hj). split_and!; [lia|done|done|].
  intros h' Hh'. destruct (lookup_lt_is_Some_2 (m_slots m) (N.to_nat h')) as [s' Hs'];
    [lia|]. rewrite Hs'. simpl. eapply Hmin; [|done]. lia.
Qed.

Lemma dec_wrap32 x : (0 < x)%N → fits 32 x → wrap32 (x + (2 ^ 32 - 1)) = (x - 1)%N.
Proof.
  unfold fits, wrap. intros H0 H.
  replace (x + (2 ^ 32 - 1))%N with ((x - 1) + 1 * 2 ^ 32)%N by lia.
  rewrite N.Div0.mod_add. apply N.mod_small. lia.
Qed.

(** ** The invariant of the guard system *)

(** [1] for the slot a guard holds, [0] for every other slot. *)
Lemma holds_b2n k h k' h' g :
  m_manager g = Some k → m_handle g = h →
  Nat.b2n (holds k' h' g) = if decide ((k, h) = (k', h')) then 1 else 0.
Proof.
  intros Hk Hh. unfold holds. case_bool_decide; case_decide; try done; naive_solver.
Qed.

Lemma holds_none k h g : m_manager g = None → holds k h g = false.
Proof. intros Hg. unfold holds. rewrite bool_decide_false; [done|]. naive_solver. Qed.

Lemma holds_clear k h g : holds k h (clear_manager g) = false.
Proof. by apply holds_none. Qed.

Lemma filter_app_length (p : N * N) l1 l2 :
  length (filter (λ q, q = p) (l1 ++ l2)) =
  length (filter (λ q, q = p) l1) + length (filter (λ q, q = p) l2).
Proof. by rewrite filter_app, length_app. Qed.

Lemma filter_cons_length (p q : N * N) l :
  length (filter (λ q, q = p) (q :: l)) =
  (if decide (q = p) then 1 else 0) + length (filter (λ q, q = p) l).
Proof. rewrite filter_cons. by case_decide. Qed.

(** A change of one count that the owners mirror preserves the invariant. *)
Lemma guard_inv_update w w' k m h c :
  guard_inv w → gw_managers w' = <[k:=store_count m h c]> (gw_managers w) →
  gw_managers w !! k = Some m → (h < m_slot_count m)%N → fits 32 c →
  (∀ k' h', owners w' k' h' =
    if decide ((k, h) = (k', h')) then N.to_nat c else owners w k' h') →
  guard_inv w'.
Proof.
  intros (Hok & Hrc & Hfit) Hms Hk Hh Hc Hown.
  pose proof (Hok k m Hk) as Hm. simpl in Hm. unfold guard_inv. rewrite Hms.
  split_and!.
  - apply map_Forall_insert_2; [by apply manager_ok_store|done].
  - intros k' h'. rewrite (rc_of_store _ _ m) by done. rewrite Hown.
    case_decide; [lia|]. apply Hrc.
  - intros k' h'. rewrite (rc_of_store _ _ m) by done. case_decide; [done|]. apply Hfit.
Qed.

(** Nothing changes when the owners stay the same. *)
Lemma guard_inv_same w w' :
  guard_inv w → gw_managers w' = gw_managers w →
  (∀ k h, owners w' k h = owners w k h) → guard_inv w'.
Proof.
  intros (Hok & Hrc & Hfit) Hms Hown. unfold guard_inv. rewrite Hms.
  split_and!; [done| |done]. intros k h. by rewrite Hown.
Qed.

(** Releasing a slot that has an owner. *)
Lemma release_owned w k h :
  guard_inv w → 0 < owners w k h →
  ∃ m, gw_managers w !! k = Some m ∧ (h < m_slot_count m)%N ∧
    release_slot m h =
      (Ok tt, store_count m h (N.of_nat (owners w k h - 1))) ∧
    fits 32 (N.of_nat (owners w k h)).
Proof.
  intros (Hok & Hrc & Hfit) Hpos.
  destruct (rc_of_pos (gw_managers w) k h) as (m & Hk & Hh & Hl);
    [rewrite Hrc; lia|].
  exists m. pose proof (Hfit k h) as Hf. rewrite Hrc in Hl, Hf.
  split_and!; [done..| |done]. unfold release_slot. rewrite Hl. N_cmp.
  rewrite dec_wrap32 by (done || lia). do 2 f_equal. lia.
Qed.

Lemma has_slot_true g : has_slot g = true ↔ ∃ k, m_manager g = Some k.
Proof. unfold has_slot. by rewrite bool_decide_eq_true. Qed.

Lemma owners_guard w id g k :
  gw_guards w !! id = Some g → m_manager g = Some k → 0 < owners w k (m_handle g).
Proof.
  intros Hid Hk. unfold owners.
  enough (0 < map_count (holds k (m_handle g)) (gw_guards w)) by lia.
  eapply map_count_pos; [done|]. unfold holds. by rewrite bool_decide_true.
Qed.

Arguments store_count : simpl never.
Arguments allocate_slot : simpl never.
Arguments release_slot : simpl never.
Arguments add_consumer : simpl never.

(** [reset] on a live guard takes one owner away, and leaves the guard empty. *)
Lemma guard_reset_inv ms gs ext id g ms' g' :
  guard_inv (Build_Guard_world ms gs ext) → gs !! id = Some g →
  guard_reset ms g = (ms', g') →
  m_manager g' = None ∧
  guard_inv (Build_Guard_world ms' (<[id:=g']> gs) ext) ∧
  guard_inv (Build_Guard_world ms' (delete id gs) ext).
Proof.
  intros Hinv Hid. unfold guard_reset. destruct (has_slot g) eqn:Hg.
  - apply has_slot_true in Hg as [k Hk].
    destruct (release_owned _ k (m_handle g) Hinv) as (m & Hm & Hh & Hr & Hfit);
      [by eapply owners_guard|]. simpl in Hm.
    unfold on_manager. rewrite Hk, Hm, Hr. intros [= <- <-]. split; [done|].
    split; (eapply guard_inv_update; [exact Hinv|done|done|done| |]); simpl;
      try (unfold fits in *; lia); intros k' h'; unfold owners at 1; simpl.
    + pose proof (map_count_update (holds k' h') gs id g (clear_manager g) Hid) as E.
      rewrite holds_clear, (holds_b2n k (m_handle g)) in E by done. simpl in E.
      rewrite Nat2N.id. case_decide; simplify_eq/=; unfold owners; simpl; lia.
    + pose proof (map_count_delete (holds k' h') gs id g Hid) as E.
      rewrite (holds_b2n k (m_handle g)) in E by done.
      rewrite Nat2N.id. case_decide; simplify_eq/=; unfold owners; simpl; lia.
  - intros [= <- <-].
    assert (m_manager g = None) as Hn.
    { destruct (m_manager g) as [k|] eqn:E; [|done].
      rewrite (proj2 (has_slot_true g)) in Hg by eauto. done. }
    split; [done|]. split.
    + by rewrite insert_id.
    + eapply guard_inv_same; [exact Hinv|done|]. intros k h. unfold owners; simpl.
      rewrite (map_count_delete (holds k h) gs id g Hid), holds_none by done. done.
Qed.

(** A new guard for a slot that [allocate_slot] has found. *)
Lemma guard_allocate_inv ms gs ext k m h m' id :
  guard_inv (Build_Guard_world ms gs ext) → ms !! k = Some m →
  allocate_slot m = (Ok h, m') → gs !! id = None →
  guard_inv (Build_Guard_world (<[k:=m']> ms)
    (<[id:={| m_manager := Some k; m_handle := h |}]> gs) ext).
Proof.
  intros Hinv Hk Ha Hid. pose proof Hinv as (Hok & Hrc & _).
  destruct (allocate_slot_Ok m h m' (Hok k m Hk) Ha) as (Hh & Hz & -> & _).
  eapply guard_inv_update; [exact Hinv|done|done|done|done|].
  intros k' h'. unfold owners; simpl.
  rewrite map_count_insert, (holds_b2n k h) by done.
  pose proof (Hrc k' h') as E. unfold owners in E; simpl in E.
  case_decide; simplify_eq/=; [|done].
  unfold rc_of, get_reference_count in E. rewrite Hk, Hz in E.
  destruct (m_slot_count m <=? h')%N; lia.
Qed.

(** [add_consumer] makes one more owner. *)
Lemma add_consumer_counted w w' k m h m' :
  guard_inv w → gw_managers w !! k = Some m → add_consumer m h = (Ok tt, m') →
  gw_managers w' = <[k:=m']> (gw_managers w) →
  (∀ k' h', owners w' k' h' = (if decide ((k, h) = (k', h')) then 1 else 0) + owners w k' h') →
  counted w'.
Proof.
  intros Hinv Hk Ha Hms Hown. destruct (inv_counted w Hinv) as [Hok Hrc].
  destruct Hinv as (_ & Hn & _). pose proof (Hok k m Hk) as Hm. simpl in Hm.
  unfold add_consumer in Ha.
  destruct (N.leb_spec (m_slot_count m) h) as [|Hh]; [done|].
  destruct (load_count m h =? 0)%N; [done|]. simplify_eq/=. split; rewrite Hms.
  - apply map_Forall_insert_2; [by apply manager_ok_store|done].
  - intros k' h'. rewrite (rc_of_store _ _ m) by done. rewrite Hown.
    case_decide as E; [|apply Hrc]. injection E as <- <-. f_equal.
    specialize (Hn k h). unfold rc_of, get_reference_count in Hn.
    rewrite Hk, (proj2 (N.leb_gt _ _)) in Hn by done. lia.
Qed.

(** [release_slot] by an owner that is not a guard. *)
Lemma external_release_inv ms gs ext1 ext2 k h m r m' :
  guard_inv (Build_Guard_world ms gs (ext1 ++ (k, h) :: ext2)) → ms !! k = Some m →
  release_slot m h = (r, m') →
  guard_inv (Build_Guard_world (<[k:=m']> ms) gs (ext1 ++ ext2)).
Proof.
  intros Hinv Hk Hr.
  assert (0 < owners (Build_Guard_world ms gs (ext1 ++ (k, h) :: ext2)) k h) as Hpos.
  { unfold owners; simpl. rewrite filter_app_length, filter_cons_length.
    rewrite decide_True by done. lia. }
  destruct (release_owned _ k h Hinv Hpos) as (m1 & Hm1 & Hh & Hr1 & Hf).
  simpl in Hm1. simplify_eq/=. rewrite Hr1 in Hr. simplify_eq/=.
  eapply guard_inv_update; [exact Hinv|done|done|done| |]; [unfold fits in *; lia|].
  intros k' h'. unfold owners; simpl.
  rewrite !filter_app_length, !filter_cons_length.
  destruct (decide ((k, h) = (k', h'))) as [Heq|]; [|lia].
  injection Heq as <- <-. rewrite decide_True by done. lia.
Qed.

Lemma guard_move_inv ms gs ext id g id' :
  guard_inv (Build_Guard_world ms gs ext) → gs !! id = Some g → gs !! id' = None →
  guard_inv (Build_Guard_world ms (<[id':=g]> (<[id:=clear_manager g]> gs)) ext).
Proof.
  intros Hinv Hid Hid'. eapply guard_inv_same; [exact Hinv|done|]. intros k h.
  unfold owners; simpl. assert (id ≠ id') by congruence.
  rewrite map_count_insert by (by rewrite lookup_insert_ne).
  pose proof (map_count_update (holds k h) gs id g (clear_manager g) Hid) as E.
  rewrite holds_clear in E. simpl in E. lia.
Qed.

Lemma guard_move_assign_inv ms gs ext id g id' g' ms1 g1 g2 :
  guard_inv (Build_Guard_world ms gs ext) → gs !! id = Some g → gs !! id' = Some g' →
  id ≠ id' → guard_move_assign ms g g' = (ms1, g1, g2) →
  guard_inv (Build_Guard_world ms1 (<[id:=g1]> (<[id':=g2]> gs)) ext).
Proof.
  intros Hinv Hid Hid' Hne Hma. unfold guard_move_assign in Hma.
  destruct (guard_reset ms g) as [ms' gr] eqn:Hr. simplify_eq/=.
  destruct (guard_reset_inv ms gs ext id g ms1 gr Hinv Hid Hr) as (Hn & Hi & _).
  eapply guard_inv_same; [exact Hi|done|]. intros k h. unfold owners; simpl.
  pose proof (map_count_update (holds k h) gs id g gr Hid) as E1.
  pose proof (map_count_update (holds k h) (<[id':=clear_manager g1]> gs) id g g1) as E2.
  pose proof (map_count_update (holds k h) gs id' g1 (clear_manager g1) Hid') as E3.
  rewrite lookup_insert_ne in E2 by done. specialize (E2 Hid).
  rewrite holds_clear in E3. rewrite (holds_none k h gr Hn) in E1. simpl in *. lia.
Qed.

Lemma guard_release_inv ms gs ext id g k h g' :
  guard_inv (Build_Guard_world ms gs ext) → gs !! id = Some g → m_manager g = Some k →
  guard_release g = (Ok h, g') →
  guard_inv (Build_Guard_world ms (<[id:=g']> gs) ((k, h) :: ext)).
Proof.
  intros Hinv Hid Hk Hr. unfold guard_release in Hr. destruct (has_slot g); [|done].
  simplify_eq/=. eapply guard_inv_same; [exact Hinv|done|]. intros k' h'. unfold owners; simpl.
  rewrite filter_cons_length.
  pose proof (map_count_update (holds k' h') gs id g (clear_manager g) Hid) as E.
  rewrite holds_clear, (holds_b2n k (m_handle g)) in E by done. simpl in E. lia.
Qed.

Lemma guard_share_counted ms gs ext id g id' g' ms' k :
  guard_inv (Build_Guard_world ms gs ext) → gs !! id = Some g → gs !! id' = None →
  m_manager g = Some k → guard_share ms g = Done (g', ms') →
  counted (Build_Guard_world ms' (<[id':=g']> gs) ext).
Proof.
  intros Hinv Hid Hid' Hk Hs. unfold guard_share in Hs. destruct (has_slot g); [|done].
  unfold on_manager in Hs. rewrite Hk in Hs. destruct (ms !! k) as [m|] eqn:Hm; [|done].
  destruct (add_consumer m (m_handle g)) as [[[]|] m'] eqn:Ha; [|done]. simplify_eq/=.
  eapply add_consumer_counted; [exact Hinv|exact Hm|exact Ha|done|].
  intros k' h'. unfold owners; simpl.
  rewrite map_count_insert, (holds_b2n k (m_handle g)) by done. lia.
Qed.

(** Every operation on guards and managers keeps the counts. *)
Lemma guard_step_counted w w' : guard_step w w' → guard_inv w → counted w'.
Proof.
  intros Hstep Hinv.
  destruct Hstep as
    [ms gs ext k m h m' id Hk Ha Hid
    |ms gs ext id g id' g' ms' k Hid Hid' Hk Hs
    |ms gs ext id g id' Hid Hid'
    |ms gs ext id g id' g' ms1 g1 g2 Hid Hid' Hne Hma
    |ms gs ext id g ms' g' Hid Hr
    |ms gs ext id g ms' g' Hid Hr
    |ms gs ext id g k h g' Hid Hk Hr
    |ms gs ext1 ext2 k h m r m' Hk Hr
    |ms gs ext k h m m' Hk Hin Ha].
  - by eapply inv_counted, guard_allocate_inv.
  - by eapply guard_share_counted.
  - by eapply inv_counted, guard_move_inv.
  - by eapply inv_counted, guard_move_assign_inv.
  - by eapply inv_counted, guard_reset_inv.
  - by eapply inv_counted, guard_reset_inv.
  - by eapply inv_counted, guard_release_inv.
  - by eapply inv_counted, external_release_inv.
  - eapply add_consumer_counted; [exact Hinv|exact Hk|exact Ha|done|].
    intros k' h'. unfold owners; simpl. rewrite filter_cons_length. lia.
Qed.

Lemma guard_start_inv w : guard_start w → guard_inv w.
Proof.
  intros (Hg & He & Hm).
  assert (∀ k h, rc_of (gw_managers w) k h = 0%N) as Hz.
  { intros k h. unfold rc_of. destruct (gw_managers w !! k) as [m|] eqn:E; [|done].
    destruct (Hm k m E) as (size & count & p & base & ->).
    unfold get_reference_count. rewrite load_count_make. by N_case. }
  split_and!.
  - intros k m Hk. destruct (Hm k m Hk) as (size & count & p & base & ->).
    apply manager_ok_make.
  - intros k h. unfold owners. by rewrite Hz, Hg, He, map_count_empty.
  - intros k h. by rewrite Hz.
Qed.

Lemma guard_reachable_inv w : guard_reachable w → guard_inv w.
Proof.
  intros (w0 & H0 & Hs). apply guard_start_inv in H0.
  induction Hs as [|w w1 w2 [Hw Hf] _ IH]; [done|].
  by eapply IH, counted_inv, Hf; eapply guard_step_counted.
Qed.

(** ** Memory *)

Lemma get_memory_Ok m h s :
  manager_ok m → fits 64 (m_slot_count m * m_slot_size m) → get_memory m h = Ok s →
  (h < m_slot_count m)%N ∧
  s = {| sp_addr := m_base_address m + h * m_slot_size m; sp_size := m_slot_size m |}.
Proof.
  intros [Hl Ho] Hfit. unfold get_memory. N_case; [done|]. N_case; [done|].
  intros [= <-]. split; [done|]. f_equal. f_equal.
  destruct (lookup_lt_is_Some_2 (m_slots m) (N.to_nat h)) as [s Hs]; [lia|].
  rewrite Hs. simpl. rewrite (Ho _ _ Hs), N2Nat.id.
  apply wrap_small. unfold fits in *. nia.
Qed.

(** The memory of a slot whose count was just set. *)
Lemma get_memory_stored m h c :
  manager_ok m → fits 64 (m_slot_count m * m_slot_size m) → (h < m_slot_count m)%N →
  (0 < c)%N →
  get_memory (store_count m h c) h =
    Ok {| sp_addr := m_base_address m + h * m_slot_size m; sp_size := m_slot_size m |}.
Proof.
  intros Hok Hfit Hh Hc. pose proof (manager_ok_store m h c Hok) as Hok'.
  destruct (get_memory (store_count m h c) h) as [s|e] eqn:E.
  - by destruct (get_memory_Ok _ _ _ Hok' Hfit E) as [_ ->].
  - unfold get_memory, get_reference_count in E. rewrite load_count_store in E by done.
    rewrite (decide_True (P := h = h)) in E by done.
    rewrite (proj2 (N.leb_gt _ _)) in E by done.
    rewrite (proj2 (N.eqb_neq _ _)) in E by lia. done.
Qed.

(** A guard that holds a slot can read its memory. *)
Lemma guard_get_memory_inv w id g k :
  guard_inv w → gw_guards w !! id = Some g → m_manager g = Some k →
  ∃ m s, gw_managers w !! k = Some m ∧ manager_ok m ∧
    get_memory m (m_handle g) = Ok s ∧ guard_get_memory (gw_managers w) g = s.
Proof.
  intros (Hok & Hrc & _) Hid Hk. pose proof (owners_guard w id g k Hid Hk) as Hpos.
  destruct (rc_of_pos (gw_managers w) k (m_handle g)) as (m & Hm & Hh & Hl);
    [rewrite Hrc; lia|]. rewrite Hrc in Hl.
  eexists m, _. split_and!; [done|by eapply Hok| |].
  - unfold get_memory, get_reference_count. rewrite Hl. N_cmp. done.
  - unfold guard_get_memory. rewrite Hk. simpl. rewrite Hm.
    unfold get_memory, get_reference_count. rewrite Hl. by N_cmp.
Qed.

Lemma slots_disjoint m h1 h2 s1 s2 :
  manager_ok m → fits 64 (m_slot_count m * m_slot_size m) →
  get_memory m h1 = Ok s1 → get_memory m h2 = Ok s2 → h1 ≠ h2 → span_disjoint s1 s2.
Proof.
  intros Hok Hfit H1 H2 Hne.
  destruct (get_memory_Ok _ _ _ Hok Hfit H1) as [_ ->].
  destruct (get_memory_Ok _ _ _ Hok Hfit H2) as [_ ->].
  unfold span_disjoint; simpl. destruct (N.lt_total h1 h2) as [|[|]]; [left|done|right]; nia.
Qed.

Lemma slot_in_block m h s :
  manager_ok m → fits 64 (m_slot_count m * m_slot_size m) →
  get_memory m h = Ok s → span_in s (manager_block m).
Proof.
  intros Hok Hfit Hm. destruct (get_memory_Ok _ _ _ Hok Hfit Hm) as [Hh ->].
  unfold span_in, manager_block; simpl. rewrite wrap_small by done. nia.
Qed.

(** ** Configurations *)

Lemma lookup_insert_configuration c i n md i' n' :
  lookup_configuration (insert_configuration c i n md) i' n' =
    if decide (i = i' ∧ n = n') then Some md else lookup_configuration c i' n'.
Proof.
  unfold lookup_configuration, insert_configuration.
  destruct (decide (i = i')) as [<-|Hi].
  - rewrite lookup_insert_eq; simpl. rewrite lookup_insert.
    destruct (decide (n = n')); [by rewrite decide_True|].
    rewrite decide_False by naive_solver. by destruct (c !! i).
  - rewrite lookup_insert_ne by done. rewrite decide_False by naive_solver. done.
Qed.

Lemma elem_of_configuration_entries c i n md :
  (i, n, md) ∈ configuration_entries c ↔ lookup_configuration c i n = Some md.
Proof.
  unfold configuration_entries, lookup_configuration. rewrite list_elem_of_bind. split.
  - intros ([i' is'] & H & Hi%elem_of_map_to_list).
    apply list_elem_of_bind in H as ([n' md'] & H & Hn%elem_of_map_to_list).
    apply list_elem_of_singleton in H. simplify_eq. by rewrite Hi.
  - destruct (c !! i) as [is'|] eqn:Hi; [|done]. simpl. intros Hn.
    exists (i, is'). split; [|by apply elem_of_map_to_list].
    apply list_elem_of_bind. exists (n, md).
    split; [by apply list_elem_of_singleton|by apply elem_of_map_to_list].
Qed.

(** Names that fit the wire format's strings. *)
Definition names_fit (e : Service_interface_identifier * string * Shared_memory_metadata) : Prop :=
  String.length (sii_id e.1.1) ≤ 64 ∧ String.length e.1.2 ≤ 64.

Lemma fixed_string_fits Max s :
  (N.of_nat (String.length s) ≤ Max)%N → ∃ f, fixed_string_from_string Max s = Ok f.
Proof.
  intros Hle. unfold fixed_string_from_string. N_cmp. eauto.
Qed.

Lemma register_made_entry e :
  names_fit e → ∃ x, make_config_entry e = Done x ∧
    ∀ c, register_entry c x = Done (insert_configuration c e.1.1 e.1.2 e.2).
Proof.
  intros [H1 H2]. destruct e as [[[id ver] inst] md]; simpl in *.
  destruct (fixed_string_fits kMax_service_id_size id) as [f Hf];
    [unfold kMax_service_id_size; lia|].
  destruct (fixed_string_fits kMax_instance_id_size inst) as [g Hg];
    [unfold kMax_instance_id_size; lia|].
  unfold make_config_entry, make_service, make_instance_id; simpl.
  rewrite Hf, Hg; simpl. eexists; split; [done|]. intros c.
  unfold register_entry, to_socom_identifier; simpl.
  by rewrite (fixed_string_to_string_Ok _ _ _ Hf), (fixed_string_to_string_Ok _ _ _ Hg).
Qed.

Lemma register_made_entries l n c :
  Forall names_fit l → (n + N.of_nat (length l) ≤ kMax_find_service_elements)%N →
  ∃ xs, make_config_entries n l = Done xs ∧ length xs = length l ∧
    register_entries c xs =
      Done (foldl (λ c e, insert_configuration c e.1.1 e.1.2 e.2) c l).
Proof.
  intros Hf. revert n c. induction Hf as [|e l He _ IH]; intros n c Hn; simpl in *.
  { eauto. }
  rewrite (proj2 (N.ltb_lt n kMax_find_service_elements)) by lia.
  destruct (register_made_entry e He) as (x & Hx & Hr). rewrite Hx; simpl.
  destruct (IH (n + 1)%N (insert_configuration c e.1.1 e.1.2 e.2)) as (xs & Hxs & Hl & Hrs);
    [lia|]. rewrite Hxs; simpl. eexists; split; [done|]. simpl. rewrite Hl.
  split; [done|]. rewrite Hr. simpl. done.
Qed.

(** Inserting the entries of a list in which every pair has one value. *)
Lemma foldl_insert_configuration c l i n :
  (∀ i n md1 md2, (i, n, md1) ∈ l → (i, n, md2) ∈ l → md1 = md2) →
  lookup_configuration (foldl (λ c e, insert_configuration c e.1.1 e.1.2 e.2) c l) i n =
    match list_find (λ e, e.1 = (i, n)) l with
    | Some (_, e) => Some e.2
    | None => lookup_configuration c i n
    end.
Proof.
  revert c. induction l as [|[[i' n'] md] l IH]; intros c Huniq; simpl; [done|].
  rewrite IH by (intros; eapply Huniq; right; eauto).
  rewrite lookup_insert_configuration.
  destruct (decide ((i', n') = (i, n))) as [E|E]; simpl.
  - injection E as <- <-. rewrite (decide_True (P := _ ∧ _)) by done.
    destruct (list_find _ l) as [[j e]|] eqn:Hf; simpl; [|done].
    apply list_find_Some in Hf as (Hj & He & _). destruct e as [[i2 n2] md2].
    simplify_eq/=. f_equal. eapply Huniq; [right; by eapply list_elem_of_lookup_2|left].
  - rewrite (decide_False (P := _ ∧ _)) by naive_solver.
    by destruct (list_find _ l) as [[j e]|].
Qed.

(** ** Properties *)

(** C15: whatever sequence of allocations, shares, moves, move assignments,
    resets, releases and destructions the users of the slots perform, as long as no slot
    ever has [2^32] owners, the reference count of every slot is the number of its
    owners. One operation more, whatever it is, leaves the number modulo [2^32]: the
    operation that gives a slot [2^32] owners makes it count as free. *)
Theorem guard_reference_counts w w' k h :
  guard_reachable w →
  rc_of (gw_managers w) k h = N.of_nat (owners w k h) ∧
  (guard_step w w' → rc_of (gw_managers w') k h = wrap32 (N.of_nat (owners w' k h))).
Proof.
  intros Hinv%guard_reachable_inv. split; [apply Hinv|].
  intros Hs. by apply (guard_step_counted w w').
Qed.

(** [allocate_slot] in a reachable state. It never hands out a slot that
    some guard or caller still owns, it takes the first one that nobody owns
    and leaves the other counts alone, and it fails only when every slot has an
    owner, without changing the manager. *)
Theorem allocate_slot_spec w k m :
  guard_reachable w → gw_managers w !! k = Some m →
  match allocate_slot m with
  | (Ok h, m') =>
    (h < m_slot_count m)%N ∧ owners w k h = 0 ∧
    (∀ h', (h' < h)%N → 0 < owners w k h') ∧
    (∀ h', get_reference_count m' h' =
       if decide (h = h') then 1%N else get_reference_count m h')
  | (Err e, m') =>
    e = runtime_error_no_available_slots ∧ m' = m ∧
    ∀ h, (h < m_slot_count m)%N → 0 < owners w k h
  end.
Proof.
  intros (Hok & Hrc & _)%guard_reachable_inv Hk. pose proof (Hok k m Hk) as Hm.
  assert (∀ h, (h < m_slot_count m)%N → load_count m h = N.of_nat (owners w k h)) as Hl.
  { intros h Hh. rewrite <-Hrc. unfold rc_of, get_reference_count. rewrite Hk. by N_cmp. }
  destruct (allocate_slot m) as [[h|e] m'] eqn:E.
  - destruct (allocate_slot_Ok m h m' Hm E) as (Hh & Hz & -> & Hmin). split_and!.
    + done.
    + rewrite Hl in Hz by done. lia.
    + intros h' Hh'. pose proof (Hmin h' Hh') as Hp. rewrite Hl in Hp by lia. lia.
    + intros h'. unfold get_reference_count. simpl. rewrite load_count_store by done.
      case_decide; [subst; by N_cmp|done].
  - unfold allocate_slot in E. destruct (first_free 0 (m_slots m)) eqn:Ef; [done|].
    simplify_eq/=. split_and!; [done..|]. intros h Hh.
    apply first_free_None in Ef. destruct Hm as [Hlen _].
    destruct (lookup_lt_is_Some_2 (m_slots m') (N.to_nat h)) as [s Hs]; [lia|].
    pose proof (proj1 (Forall_lookup _ _) Ef _ _ Hs) as Hne.
    specialize (Hl h Hh). unfold load_count in Hl. rewrite Hs in Hl. simpl in *. lia.
Qed.

(** Memory ownership. In a reachable state two guards that hold different
    slots of one manager see disjoint memory, each of the full slot size and
    inside the block the manager was created on, provided the block's size
    [slot_count * slot_size] did not wrap. *)
Theorem guard_memory_disjoint w id1 id2 g1 g2 k m :
  guard_reachable w → gw_managers w !! k = Some m →
  gw_guards w !! id1 = Some g1 → gw_guards w !! id2 = Some g2 →
  m_manager g1 = Some k → m_manager g2 = Some k → m_handle g1 ≠ m_handle g2 →
  fits 64 (m_slot_count m * m_slot_size m) →
  span_disjoint (guard_get_memory (gw_managers w) g1) (guard_get_memory (gw_managers w) g2) ∧
  span_in (guard_get_memory (gw_managers w) g1) (manager_block m) ∧
  sp_size (guard_get_memory (gw_managers w) g1) = m_slot_size m.
Proof.
  intros Hinv%guard_reachable_inv Hm H1 H2 Hk1 Hk2 Hne Hfit.
  destruct (guard_get_memory_inv w id1 g1 k Hinv H1 Hk1) as (m1 & s1 & E1 & Hok & G1 & ->).
  destruct (guard_get_memory_inv w id2 g2 k Hinv H2 Hk2) as (m2 & s2 & E2 & _ & G2 & ->).
  simplify_eq/=. split_and!.
  - by eapply slots_disjoint.
  - by eapply slot_in_block.
  - by destruct (get_memory_Ok _ _ _ Hok Hfit G1) as [_ ->].
Qed.

(** A shared memory library that grants every request at one address. *)
Definition granting_shm (base : N) : Shm :=
  {| shm_create := λ _ _, true; shm_allocate := λ _ _, Some base;
     shm_open := λ _, Some base |}.

(** [create_shared_memory_slot_manager] does not check the product
    [slot_count * slot_size] for overflow. For two slots of [2^63 + 1] bytes it
    requests a block of two bytes, succeeds, and the first slot it hands out
    extends past the block. *)
Lemma create_size_wraps base :
  ∃ m m' s,
    @create_shared_memory_slot_manager (granting_shm base) "/shm" 2 (2 ^ 63 + 1) = Ok m ∧
    sp_size (manager_block m) = 2%N ∧
    allocate_slot m = (Ok 0%N, m') ∧ get_memory m' 0 = Ok s ∧
    sp_size s = (2 ^ 63 + 1)%N ∧ ¬ span_in s (manager_block m').
Proof.
  pose (m := make_slot_manager (2 ^ 63 + 1) 2 "/shm" base).
  exists m, (store_count m 0 1), {| sp_addr := base + 0; sp_size := 2 ^ 63 + 1 |}.
  split_and!; [reflexivity..|]. unfold span_in.
  change (manager_block (store_count m 0 1)) with {| sp_addr := base; sp_size := 2 |}.
  cbn [sp_addr sp_size]. lia.
Qed.

(** The 32-bit count wraps. A consumer added to a slot that has
    [2^32 - 1] of them makes the slot free, so that the next allocation can
    hand it out again; below that bound the count grows by one. *)
Theorem count_wraps_to_free m h :
  manager_ok m → (h < m_slot_count m)%N → (0 < load_count m h < 2 ^ 32)%N →
  ∃ m', add_consumer m h = (Ok tt, m') ∧
    get_reference_count m' h =
      if decide (load_count m h = 2 ^ 32 - 1)%N then 0%N else (load_count m h + 1)%N.
Proof.
  intros Hok Hh [Hpos Hlt]. unfold add_consumer. N_cmp. eexists. split; [done|].
  unfold get_reference_count. simpl. rewrite load_count_store, decide_True by done.
  N_cmp. case_decide as E.
  - by rewrite E.
  - apply wrap_small. unfold fits. lia.
Qed.

(** Views of two slots overlap when the offset of the last slot does not fit 64 bits. *)
Lemma wrapped_views_overlap {C} m (cb : C) :
  (0 < ro_slot_size m < 2 ^ 64)%N → (2 ^ 64 ≤ (ro_slot_count m - 1) * ro_slot_size m)%N →
  ∃ i p q, (0 < i)%N ∧
    get_payload m {| slot_index := i; used_bytes := ro_slot_size m |} cb = Some p ∧
    get_payload m {| slot_index := 0; used_bytes := ro_slot_size m |} cb = Some q ∧
    ¬ span_disjoint (m_data p) (m_data q).
Proof.
  intros Hs Hw. set (z := ro_slot_size m) in *. set (i := ((2 ^ 64 + (z - 1)) / z)%N).
  assert (2 ^ 64 ≤ i * z < 2 ^ 64 + z)%N as Hi.
  { pose proof (N.div_mod (2 ^ 64 + (z - 1)) z ltac:(lia)) as E. fold i in E.
    pose proof (N.mod_lt (2 ^ 64 + (z - 1)) z ltac:(lia)) as Hr.
    set (r := ((2 ^ 64 + (z - 1)) mod z)%N) in *. clearbody i r. lia. }
  clearbody i.
  assert (i < ro_slot_count m)%N as Hlt by nia.
  exists i. do 2 eexists. split; [nia|]. unfold get_payload. cbn [slot_index used_bytes].
  rewrite !(proj2 (N.leb_gt _ _)) by lia. split; [done|]. split; [done|].
  unfold span_disjoint. simpl. fold z. rewrite N.min_id, N.mul_0_l. unfold wrap.
  replace (i * z)%N with ((i * z - 2 ^ 64) + 1 * 2 ^ 64)%N by lia.
  rewrite N.Div0.mod_add, N.mod_small by lia.
  rewrite N.Div0.mod_0_l. lia.
Qed.

(** C37: the read-only manager. A handle past the announced slot count yields
    no payload; any other handle yields a view that starts at the slot's offset in 64 bits
    and has the announced number of bytes, at most the slot size. If the announced
    [slot_count * slot_size] fits 64 bits, which nothing checks, the view lies in the announced
    memory and views of different slots do not overlap; if already the offset of the last
    slot does not fit, the views of two slots do overlap. *)
Theorem get_payload_bounds {C} m (h1 h2 : Shared_memory_handle) (cb : C) :
  match get_payload m h1 cb with
  | None => (ro_slot_count m ≤ slot_index h1)%N
  | Some p =>
    (slot_index h1 < ro_slot_count m)%N ∧
    m_data p = {| sp_addr := ro_base_address m + wrap64 (slot_index h1 * ro_slot_size m);
                  sp_size := N.min (used_bytes h1) (ro_slot_size m) |} ∧
    get_slot_handle p = slot_index h1 ∧
    (fits 64 (ro_slot_count m * ro_slot_size m) →
      span_in (m_data p) {| sp_addr := ro_base_address m;
                            sp_size := ro_slot_count m * ro_slot_size m |} ∧
      ∀ p2, get_payload m h2 cb = Some p2 → slot_index h1 ≠ slot_index h2 →
        span_disjoint (m_data p) (m_data p2))
  end ∧
  ((0 < ro_slot_size m < 2 ^ 64)%N → (2 ^ 64 ≤ (ro_slot_count m - 1) * ro_slot_size m)%N →
    ∃ i p q, (0 < i)%N ∧
      get_payload m {| slot_index := i; used_bytes := ro_slot_size m |} cb = Some p ∧
      get_payload m {| slot_index := 0; used_bytes := ro_slot_size m |} cb = Some q ∧
      ¬ span_disjoint (m_data p) (m_data q)).
Proof.
  split; [|apply wrapped_views_overlap]. unfold get_payload. N_case; [done|].
  split_and!; [done..|]. intros Hfit. unfold fits in Hfit. simpl.
  rewrite wrap_small by (unfold fits; nia). split.
  - unfold span_in; simpl. nia.
  - intros p2. N_case; [done|]. intros [= <-] Hne. unfold span_disjoint; simpl.
    rewrite wrap_small by (unfold fits; nia).
    destruct (N.lt_total (slot_index h1) (slot_index h2)) as [|[|]]; [left|done|right]; nia.
Qed.

(** The shared memory configuration survives its trip in the Connect
    message. A configuration of at most 16 entries whose names fit is encoded
    without an assertion failing, and a server that registers the received
    container looks up exactly what the client configured. *)
Theorem shared_memory_configs_roundtrip c :
  Forall names_fit (configuration_entries c) →
  (N.of_nat (length (configuration_entries c)) ≤ kMax_find_service_elements)%N →
  ∃ cfgs c', make_shared_memory_configs c = Done cfgs ∧
    register_configuration ∅ cfgs = Done c' ∧
    ∀ interface instance,
      lookup_configuration c' interface instance = lookup_configuration c interface instance.
Proof.
  intros Hf Hn.
  destruct (register_made_entries (configuration_entries c) 0 ∅ Hf) as (xs & Hx & Hl & Hr);
    [lia|]. unfold make_shared_memory_configs. rewrite Hx; simpl.
  eexists _, _. split; [done|]. unfold register_configuration, fsc_in_bounds, fsc_elems; simpl.
  rewrite length_app, length_replicate, Nat2N.id.
  rewrite (proj2 (N.leb_le _ _)) by (unfold kMax_find_service_elements in *; lia).
  rewrite take_app_length_exact by done. split; [exact Hr|]. intros i n.
  rewrite foldl_insert_configuration.
  - destruct (list_find _ _) as [[j [[i' n'] md]]|] eqn:E.
    + apply list_find_Some in E as (Hj & [= -> ->] & _). symmetry.
      apply elem_of_configuration_entries. by eapply list_elem_of_lookup_2.
    + apply list_find_None in E. destruct (lookup_configuration c i n) as [md|] eqn:El; [|done].
      apply elem_of_configuration_entries in El. rewrite Forall_forall in E.
      by destruct (E _ El).
  - intros i' n' md1 md2 H1%elem_of_configuration_entries H2%elem_of_configuration_entries.
    congruence.
Qed.

(** ** Witnesses *)

(** Two slots: allocate both, share the second, destroy the first guard. *)
Definition demo_manager : Slot_manager := make_slot_manager 64 2 "/demo" 4096.
Definition demo_world : Guard_world :=
  Build_Guard_world {[7%N := demo_manager]} ∅ [].

Lemma demo_start : guard_start demo_world.
Proof.
  split_and!; [done..|]. intros k m Hm. unfold demo_world in Hm; cbn [gw_managers] in Hm.
  apply lookup_singleton_Some in Hm as [_ <-].
  by eexists _, _, _, _.
Qed.

(** A few owners fit. *)
Lemma owners_fit_small w :
  size (gw_guards w) + length (gw_external w) ≤ 8 → owners_fit w.
Proof.
  intros Hs k h. unfold owners, map_count, fits.
  pose proof (map_size_filter (λ p, holds k h p.2 = true) (gw_guards w)) as H1.
  pose proof (length_filter (λ p, p = (k, h)) (gw_external w)) as H2. lia.
Qed.

Lemma demo_reachable : ∃ w,
  guard_reachable w ∧
  gw_managers w !! 7%N = Some (store_count (store_count (store_count demo_manager 0 1) 1 1) 1 2) ∧
  gw_guards w = <[3%N := {| m_manager := Some 7%N; m_handle := 1 |}]>
    (<[2%N := {| m_manager := Some 7%N; m_handle := 1 |}]>
      {[1%N := {| m_manager := Some 7%N; m_handle := 0 |}]}).
Proof.
  eexists. split.
  - exists demo_world. split; [exact demo_start|].
    eapply rtc_l; [split; [by eapply (step_allocate _ _ _ 7 demo_manager 0 _ 1)|]|].
    { apply owners_fit_small. vm_compute. lia. }
    eapply rtc_l; [split; [by eapply (step_allocate _ _ _ 7 _ 1 _ 2)|]|].
    { apply owners_fit_small. vm_compute. lia. }
    eapply rtc_l; [split; [by eapply (step_share _ _ _ 2 _ 3 _ _ 7)|]|apply rtc_refl].
    apply owners_fit_small. vm_compute. lia.
  - split; reflexivity.
Qed.

Lemma guard_reference_counts_witness : ∃ w,
  guard_reachable w ∧ rc_of (gw_managers w) 7 1 = N.of_nat (owners w 7 1) ∧
  rc_of (gw_managers w) 7 1 = 2%N.
Proof.
  destruct demo_reachable as (w & Hw & Hm & Hg). exists w. split_and!; [done| |].
  - by apply (guard_reference_counts w w 7 1).
  - unfold rc_of. by rewrite Hm.
Defined.

Lemma allocate_slot_spec_witness : ∃ w m,
  guard_reachable w ∧ gw_managers w !! 7%N = Some m ∧
  allocate_slot m = (Err runtime_error_no_available_slots, m) ∧
  0 < owners w 7 0.
Proof.
  destruct demo_reachable as (w & Hw & Hm & Hg). eexists w, _. split_and!; [done..|].
  destruct (allocate_slot_spec w 7 _ Hw Hm) as (_ & _ & H). by apply H.
Defined.

Lemma guard_memory_disjoint_witness : ∃ w g1 g2,
  guard_reachable w ∧ gw_guards w !! 1%N = Some g1 ∧ gw_guards w !! 2%N = Some g2 ∧
  span_disjoint (guard_get_memory (gw_managers w) g1)
                (guard_get_memory (gw_managers w) g2).
Proof.
  destruct demo_reachable as (w & Hw & Hm & Hg).
  assert (gw_guards w !! 1%N = Some {| m_manager := Some 7%N; m_handle := 0 |}) as H1
    by by rewrite Hg.
  assert (gw_guards w !! 2%N = Some {| m_manager := Some 7%N; m_handle := 1 |}) as H2
    by by rewrite Hg.
  eexists w, _, _. split_and!; [done..|].
  refine (proj1 (guard_memory_disjoint w 1 2 _ _ 7 _ Hw Hm H1 H2 _ _ _ _)); done.
Defined.

Lemma count_wraps_to_free_witness :
  ∃ m', add_consumer (store_count demo_manager 1 (2 ^ 32 - 1)) 1 = (Ok tt, m') ∧
    get_reference_count m' 1 = 0%N.
Proof.
  destruct (count_wraps_to_free (store_count demo_manager 1 (2 ^ 32 - 1)) 1)
    as (m' & E & H); [apply manager_ok_store, manager_ok_make|done|done|].
  exists m'. split; [exact E|]. rewrite H. by rewrite decide_True.
Defined.

(** Two slots of 64 bytes, and slots of 2^63 bytes of which the third one lies on the
    first. *)
Lemma get_payload_bounds_witness :
  (let m := {| ro_base_address := 4096; ro_slot_size := 64; ro_slot_count := 2 |} in
   match get_payload m {| slot_index := 1; used_bytes := 80 |} tt with
   | Some p => m_data p = {| sp_addr := 4160; sp_size := 64 |} ∧
       span_in (m_data p) {| sp_addr := 4096; sp_size := 128 |}
   | None => False
   end) ∧
  (let m := {| ro_base_address := 4096; ro_slot_size := 2 ^ 63; ro_slot_count := 3 |} in
   ∃ i p q, (0 < i)%N ∧
     get_payload m {| slot_index := i; used_bytes := 2 ^ 63 |} tt = Some p ∧
     get_payload m {| slot_index := 0; used_bytes := 2 ^ 63 |} tt = Some q ∧
     ¬ span_disjoint (m_data p) (m_data q)).
Proof.
  split.
  - pose proof (get_payload_bounds
      {| ro_base_address := 4096; ro_slot_size := 64; ro_slot_count := 2 |}
      {| slot_index := 1; used_bytes := 80 |} {| slot_index := 0; used_bytes := 3 |} tt)
      as [(_ & _ & _ & H) _].
    split; [reflexivity|]. apply H. by vm_compute.
  - apply (get_payload_bounds
      {| ro_base_address := 4096; ro_slot_size := 2 ^ 63; ro_slot_count := 3 |}
      {| slot_index := 1; used_bytes := 80 |} {| slot_index := 0; used_bytes := 3 |} tt);
      simpl; lia.
Defined.

Definition demo_config : Shared_memory_configuration :=
  insert_configuration ∅
    {| sii_id := "TirePressure"; sii_version := {| major := 1; minor := 0 |} |}
    "front"
    {| path := zero_string; slot_size := 128; slot_count := 10 |}.

Lemma shared_memory_configs_roundtrip_witness : ∃ cfgs c',
  make_shared_memory_configs demo_config = Done cfgs ∧
  register_configuration ∅ cfgs = Done c' ∧
  lookup_configuration c'
    {| sii_id := "TirePressure"; sii_version := {| major := 1; minor := 0 |} |} "front"
  = Some {| path := zero_string; slot_size := 128; slot_count := 10 |}.
Proof.
  destruct (shared_memory_configs_roundtrip demo_config) as (cfgs & c' & E1 & E2 & H).
  - unfold demo_config. vm_compute configuration_entries. repeat constructor.
  - by vm_compute.
  - exists cfgs, c'. split_and!; [done..|]. by rewrite H.
Defined.
