(* ===== verification/SlotContract.v ===== *)
(** * The contract of the shared memory slots

    The header [src/score/gateway_ipc_binding/shared_memory_slot_manager.hpp] is what the
    users of shared memory see: abstract classes whose comments promise a behaviour. Here
    the virtual functions are a class of operations, the comments are statements about
    them, and a manager that keeps them is an instance of the contract. What a user can
    rely on is proved from the contract alone; the manager of [SlotManager] and a plain
    pool of counters both keep it, and nobody can tell them apart. *)

From stdpp Require Import base numbers list gmap strings.
From S2P Require Import Prelude.
From S2P Require Import IpcTypes.
From S2P Require Import Payload.
From S2P Require Import SlotManager.

(** ** The interface *)

(** The pure virtual functions of [Shared_memory_slot_manager]. The guard that
    [allocate_slot] returns is the handle that it owns. *)
Class Shared_memory_slot_manager (P : Type) := {
  i_allocate_slot : P → Result Shared_memory_manager_error N * P;
  i_add_consumer : P → N → Result Shared_memory_manager_error unit * P;
  i_release_slot : P → N → Result Shared_memory_manager_error unit * P;
  i_get_slot_count : P → N;
  i_get_slot_size : P → N;
  i_get_allocated_slot_count : P → N;
  i_get_reference_count : P → N → N;
  i_get_memory : P → N → Result Shared_memory_manager_error Span;
  i_get_path : P → string;
}.

Section promises.
Context {P : Type} `{Shared_memory_slot_manager P}.

(** The handles are 0 to [slot_count - 1]. *)
Definition valid_handle (p : P) (h : N) : Prop := (h < i_get_slot_count p)%N.
Definition allocated (p : P) (h : N) : Prop := (0 < i_get_reference_count p h)%N.
#[export] Instance valid_handle_dec p h : Decision (valid_handle p h).
Proof. apply N.lt_dec. Defined.
#[export] Instance allocated_dec p h : Decision (allocated p h).
Proof. apply N.lt_dec. Defined.

(** One slot gets another count and all else is as it was. *)
Definition recounted (p p' : P) (h c : N) : Prop :=
  (∀ h', i_get_reference_count p' h' = if decide (h = h') then c else i_get_reference_count p h') ∧
  i_get_slot_count p' = i_get_slot_count p ∧ i_get_slot_size p' = i_get_slot_size p ∧
  i_get_path p' = i_get_path p.

(** "Finds the first available slot, marks it as allocated with reference count 1 ... or an
    error if no slots available". *)
Definition allocate_promise (p : P) : Prop :=
  match i_allocate_slot p with
  | (Ok h, p') => valid_handle p h ∧ ¬ allocated p h ∧ (∀ h', (h' < h)%N → allocated p h') ∧
      recounted p p' h 1
  | (Err _, p') => (∀ h, valid_handle p h → allocated p h) ∧ p' = p
  end.

(** "Increments the reference count for the slot ... error if handle is invalid or slot is
    not allocated". *)
Definition add_consumer_promise (p : P) (h : N) : Prop :=
  match i_add_consumer p h with
  | (Ok _, p') => valid_handle p h ∧ allocated p h ∧ recounted p p' h (i_get_reference_count p h +
    1)
  | (Err _, p') => (¬ valid_handle p h ∨ ¬ allocated p h) ∧ p' = p
  end.

(** "Decrements the reference count for the slot. When the count reaches zero, the slot is
    marked as free and becomes available for reuse". *)
Definition release_slot_promise (p : P) (h : N) : Prop :=
  match i_release_slot p h with
  | (Ok _, p') => valid_handle p h ∧ allocated p h ∧ recounted p p' h (i_get_reference_count p h -
    1)
  | (Err _, p') => (¬ valid_handle p h ∨ ¬ allocated p h) ∧ p' = p
  end.

(** "Number of slots with reference count > 0", and "0 if invalid handle". *)
Definition counts_promise (p : P) : Prop :=
  i_get_allocated_slot_count p = N.of_nat (length (filter (λ h, allocated p (N.of_nat h))
    (seq 0 (N.to_nat (i_get_slot_count p))))) ∧
  ∀ h, ¬ valid_handle p h → i_get_reference_count p h = 0%N.

(** "Span of slot memory if valid and allocated, or an error otherwise". *)
Definition get_memory_promise (p : P) (h : N) : Prop :=
  match i_get_memory p h with
  | Ok s => valid_handle p h ∧ allocated p h ∧ sp_size s = i_get_slot_size p
  | Err _ => ¬ valid_handle p h ∨ ¬ allocated p h
  end.
End promises.

(** The 32-bit count has room for one more. *)
Definition max_consumers : N := 2 ^ 32 - 1.

(** The contract. [sound] are the managers that can arise. *)
Class Slot_manager_contract (P : Type) `{Shared_memory_slot_manager P} := {
  sound : P → Prop;
  allocate_kept p : sound p → allocate_promise p ∧ sound (i_allocate_slot p).2;
  add_consumer_kept p h : sound p → (i_get_reference_count p h < max_consumers)%N →
    add_consumer_promise p h ∧ sound (i_add_consumer p h).2;
  release_slot_kept p h : sound p →
    release_slot_promise p h ∧ sound (i_release_slot p h).2;
  counts_kept p : sound p → counts_promise p;
  get_memory_kept p h : sound p → get_memory_promise p h;
}.

(** ** What users can rely on *)

(** *** A shared slot comes back

    A guard that holds a slot is its handle. [share] adds a consumer, and a guard that ends
    releases the slot; both ignore nothing but the error. *)
Section users.
Context {P : Type} `{Slot_manager_contract P}.

(** [n] guards made by [share], and [n] guards that end. *)
Fixpoint share_times (n : nat) (h : N) (p : P) : option P :=
  match n with
  | 0 => Some p
  | S n => match i_add_consumer p h with (Ok _, p') => share_times n h p' | (Err _, _) => None end
  end.
Fixpoint end_guards (n : nat) (h : N) (p : P) : P :=
  match n with 0 => p | S n => end_guards n h (i_release_slot p h).2 end.

Lemma share_times_counts n h p :
  sound p → allocated p h → (i_get_reference_count p h + N.of_nat n <= max_consumers)%N →
  ∃ p', share_times n h p = Some p' ∧ sound p' ∧
    recounted p p' h (i_get_reference_count p h + N.of_nat n).
Proof.
  revert p. induction n as [|n IH]; intros p Hs Ha Hn; simpl.
  - exists p. unfold recounted. split_and!; try done. intros h'. rewrite N.add_0_r.
    by case_decide; subst.
  - destruct (add_consumer_kept p h Hs) as [Hp Hs']; [lia|]. unfold add_consumer_promise in Hp.
    destruct (i_add_consumer p h) as [[[]|] p1].
    + destruct Hp as (_ & _ & Hc & Hcnt & Hsz & Hpath). simpl in Hs'.
      pose proof (Hc h) as Hh. rewrite decide_True in Hh by done.
      destruct (IH p1) as (p' & E & Hs2 & Hc' & ? & ? & ?); [done|unfold allocated; lia|lia|].
      exists p'. unfold recounted. split_and!; try done; [|congruence..]. intros h'.
      rewrite Hc', Hh. case_decide; [lia|by rewrite Hc, decide_False].
    + destruct Hp as [[Hv|Hna] _]; [|done]. destruct (counts_kept p Hs) as [_ Hz].
      unfold allocated in Ha. rewrite (Hz h Hv) in Ha. lia.
Qed.

Lemma end_guards_counts n h p :
  sound p → (N.of_nat n <= i_get_reference_count p h)%N →
  sound (end_guards n h p) ∧ recounted p (end_guards n h p) h (i_get_reference_count p h - N.of_nat
    n).
Proof.
  revert p. induction n as [|n IH]; intros p Hs Hn; simpl.
  - unfold recounted. split_and!; try done. intros h'. rewrite N.sub_0_r. by case_decide; subst.
  - destruct (release_slot_kept p h Hs) as [Hp Hs']. unfold release_slot_promise in Hp.
    assert (allocated p h) as Ha by (unfold allocated; lia).
    destruct (i_release_slot p h) as [[[]|] p1].
    + destruct Hp as (_ & _ & Hc & Hcnt & Hsz & Hpath). simpl in Hs'.
      pose proof (Hc h) as Hh. rewrite decide_True in Hh by done.
      destruct (IH p1) as (Hs2 & Hc' & ? & ? & ?); [done|lia|].
      cbn [snd]. unfold recounted. split_and!; try done; [|congruence..]. intros h'.
      rewrite Hc', Hh. case_decide; [lia|by rewrite Hc, decide_False].
    + destruct Hp as [[Hv|Hna] _]; [|done]. destruct (counts_kept p Hs) as [_ Hz].
      unfold allocated in Ha. rewrite (Hz h Hv) in Ha. lia.
Qed.

(** Whatever manager keeps the contract: a slot that is allocated and shared [n] times has
    [n + 1] owners, and when all of them have ended every count is what it was. *)
Lemma shared_slot_comes_back p h p1 n :
  sound p → i_allocate_slot p = (Ok h, p1) → (N.of_nat n < max_consumers)%N →
  ∃ p2, share_times n h p1 = Some p2 ∧ i_get_reference_count p2 h = (N.of_nat n + 1)%N ∧
    ∀ h', i_get_reference_count (end_guards (S n) h p2) h' = i_get_reference_count p h'.
Proof.
  intros Hs E Hn. destruct (allocate_kept p Hs) as [Hp Hs1]. unfold allocate_promise in Hp.
  rewrite E in Hp, Hs1. destruct Hp as (Hv & Ha & _ & Hc & _). simpl in Hs1.
  pose proof (Hc h) as Hh. rewrite decide_True in Hh by done.
  destruct (share_times_counts n h p1) as (p2 & E2 & Hs2 & Hc2 & _);
    [done|unfold allocated; lia|lia|].
  pose proof (Hc2 h) as Hh2. rewrite decide_True in Hh2 by done.
  exists p2. split_and!; [done|lia|]. intros h'.
  destruct (end_guards_counts (S n) h p2 Hs2) as (_ & Hc3 & _); [lia|]. rewrite Hc3, Hh2.
  case_decide as Hd; [subst h'|].
  - unfold allocated in Ha. lia.
  - by rewrite Hc2, decide_False, Hc, decide_False.
Qed.

(** *** The contract determines every answer *)

Inductive Slot_call : Type :=
  | Call_allocate_slot
  | Call_add_consumer (h : N)
  | Call_release_slot (h : N)
  | Call_get_slot_count
  | Call_get_slot_size
  | Call_get_allocated_slot_count
  | Call_get_reference_count (h : N)
  | Call_get_memory (h : N).

(** What the caller learns: a handle, a number or the size of the memory, or that there was
    an error. *)
Definition Slot_answer : Type := option N.
Definition told {E A} (f : A → N) (r : Result E A) : Slot_answer :=
  match r with Ok a => Some (f a) | Err _ => None end.

Definition call_slot (p : P) (c : Slot_call) : Slot_answer * P :=
  match c with
  | Call_allocate_slot => let '(r, p') := i_allocate_slot p in (told (λ h, h) r, p')
  | Call_add_consumer h => let '(r, p') := i_add_consumer p h in (told (λ _, 0%N) r, p')
  | Call_release_slot h => let '(r, p') := i_release_slot p h in (told (λ _, 0%N) r, p')
  | Call_get_slot_count => (Some (i_get_slot_count p), p)
  | Call_get_slot_size => (Some (i_get_slot_size p), p)
  | Call_get_allocated_slot_count => (Some (i_get_allocated_slot_count p), p)
  | Call_get_reference_count h => (Some (i_get_reference_count p h), p)
  | Call_get_memory h => (told sp_size (i_get_memory p h), p)
  end.
Fixpoint call_slots (p : P) (cs : list Slot_call) : list Slot_answer :=
  match cs with [] => [] | c :: cs => (call_slot p c).1 :: call_slots (call_slot p c).2 cs end.
End users.

(** Two managers in the same state, as far as users can see it. *)
Definition same_slots {P Q} `{Shared_memory_slot_manager P, Shared_memory_slot_manager Q}
    (p : P) (q : Q) : Prop :=
  (∀ h, i_get_reference_count p h = i_get_reference_count q h) ∧
  i_get_slot_count p = i_get_slot_count q ∧ i_get_slot_size p = i_get_slot_size q.

Section determined.
Context {P Q : Type} `{Slot_manager_contract P} `{Slot_manager_contract Q}.

Lemma same_recounted (p p' : P) (q q' : Q) h c :
  same_slots p q → recounted p p' h c → recounted q q' h c → same_slots p' q'.
Proof.
  intros (Hc & Hn & Hs) (Hc1 & Hn1 & Hs1 & _) (Hc2 & Hn2 & Hs2 & _).
  unfold same_slots. split_and!; [|congruence..]. intros h'. by rewrite Hc1, Hc2, Hc.
Qed.

Lemma same_valid (p : P) (q : Q) h : same_slots p q → valid_handle p h ↔ valid_handle q h.
Proof. intros (_ & E & _). unfold valid_handle. by rewrite E. Qed.
Lemma same_allocated (p : P) (q : Q) h : same_slots p q → allocated p h ↔ allocated q h.
Proof. intros (E & _). unfold allocated. by rewrite E. Qed.

(** The managers answer one call alike and stay alike. *)
Lemma call_slot_same (p : P) (q : Q) c :
  sound p → sound q → same_slots p q →
  (∀ h, (i_get_reference_count p h < max_consumers)%N) →
  (call_slot p c).1 = (call_slot q c).1 ∧ sound (call_slot p c).2 ∧ sound (call_slot q c).2 ∧
  same_slots (call_slot p c).2 (call_slot q c).2 ∧
  ∀ h, (i_get_reference_count (call_slot p c).2 h <= 1 + i_get_reference_count p h)%N.
Proof.
  intros Hp Hq Hs Hmax. pose proof Hs as (Hc & Hn & Hz).
  assert (∀ h, (i_get_reference_count q h < max_consumers)%N) as Hmax' by (intros h;
    by rewrite <-Hc).
  destruct c as [|h|h| | | |h|h]; simpl.
  - destruct (allocate_kept p Hp) as [Ap Sp], (allocate_kept q Hq) as [Aq Sq].
    unfold allocate_promise in *.
    destruct (i_allocate_slot p) as [[h|] p'], (i_allocate_slot q) as [[h'|] q']; simpl in *.
    + destruct Ap as (Vp & Np & Mp & Rp), Aq as (Vq & Nq & Mq & Rq).
      assert (h = h') as <-.
      { destruct (N.lt_total h h') as [Hl|[?|Hl]]; [|done|].
        - destruct Np. by apply (same_allocated p q), Mq.
        - destruct Nq. by apply (same_allocated p q), Mp. }
      split_and!; try done; [by eapply same_recounted|]. intros h'.
      destruct Rp as [Rp _]. rewrite Rp. case_decide; lia.
    + destruct Ap as (Vp & Np & _), Aq as [Aq _]. destruct Np.
      by apply (same_allocated p q), Aq, (same_valid p q).
    + destruct Aq as (Vq & Nq & _), Ap as [Ap _]. destruct Nq.
      by apply (same_allocated p q), Ap, (same_valid p q).
    + destruct Ap as [_ ->], Aq as [_ ->]. split_and!; try done. lia.
  - destruct (add_consumer_kept p h Hp (Hmax h)) as [Ap Sp],
      (add_consumer_kept q h Hq (Hmax' h)) as [Aq Sq].
    unfold add_consumer_promise in *. rewrite <-Hc in Aq.
    pose proof (same_valid p q h Hs). pose proof (same_allocated p q h Hs).
    destruct (i_add_consumer p h) as [[[]|] p'], (i_add_consumer q h) as [[[]|] q']; simpl in *;
      try tauto.
    + destruct Ap as (_ & _ & Rp), Aq as (_ & _ & Rq).
      split_and!; try done; [by eapply same_recounted|]. intros h'.
      destruct Rp as [Rp _]. rewrite Rp. case_decide; subst; lia.
    + destruct Ap as [_ ->], Aq as [_ ->]. split_and!; try done. lia.
  - destruct (release_slot_kept p h Hp) as [Ap Sp], (release_slot_kept q h Hq) as [Aq Sq].
    unfold release_slot_promise in *. rewrite <-Hc in Aq.
    pose proof (same_valid p q h Hs). pose proof (same_allocated p q h Hs).
    destruct (i_release_slot p h) as [[[]|] p'], (i_release_slot q h) as [[[]|] q']; simpl in *;
      try tauto.
    + destruct Ap as (_ & _ & Rp), Aq as (_ & _ & Rq).
      split_and!; try done; [by eapply same_recounted|]. intros h'.
      destruct Rp as [Rp _]. rewrite Rp. case_decide; subst; lia.
    + destruct Ap as [_ ->], Aq as [_ ->]. split_and!; try done. lia.
  - split_and!; try done; [congruence|lia].
  - split_and!; try done; [congruence|lia].
  - destruct (counts_kept p Hp) as [Ap _], (counts_kept q Hq) as [Aq _]. rewrite Ap, Aq, <-Hn.
    split_and!; try done; [|lia]. do 3 f_equal. apply list_filter_iff. intros h.
    by apply same_allocated.
  - split_and!; try done; [congruence|lia].
  - pose proof (get_memory_kept p h Hp) as Ap. pose proof (get_memory_kept q h Hq) as Aq.
    unfold get_memory_promise in *. pose proof (same_valid p q h Hs).
    pose proof (same_allocated p q h Hs).
    destruct (i_get_memory p h), (i_get_memory q h); simpl; try tauto; split_and!; try done;
      try lia.
    destruct Ap as (_ & _ & ->), Aq as (_ & _ & ->). by rewrite Hz.
Qed.

(** Managers that keep the contract and start alike answer every sequence of calls alike. *)
Lemma call_slots_same k (p : P) (q : Q) cs :
  sound p → sound q → same_slots p q →
  (∀ h, (i_get_reference_count p h <= k)%N) → (k + N.of_nat (length cs) <= max_consumers)%N →
  call_slots p cs = call_slots q cs.
Proof.
  revert k p q. induction cs as [|c cs IH]; intros k p q Hp Hq Hs Hk Hl; simpl; [done|].
  simpl in Hl. destruct (call_slot_same p q c Hp Hq Hs) as (E & Hp' & Hq' & Hs' & Hm).
  { intros h. specialize (Hk h). lia. }
  f_equal; [done|]. apply (IH (1 + k)%N); try done; [|lia].
  intros h. specialize (Hm h). specialize (Hk h). lia.
Qed.
End determined.

(** ** Managers that keep the contract *)

(** Counting the positions or the elements is the same. *)
Lemma count_by_position (l : list N) (f : nat → N) k :
  (∀ i, i < length l → f (k + i) = default 0%N (l !! i)) →
  length (filter (λ i, (0 < f i)%N) (seq k (length l))) = length (filter (λ c, (0 < c)%N) l).
Proof.
  revert k. induction l as [|c l IH]; intros k Hf; [done|]. simpl.
  pose proof (Hf 0 ltac:(simpl; lia)) as Hc. rewrite Nat.add_0_r in Hc. simpl in Hc.
  rewrite !filter_cons, Hc.
  assert (length (filter (λ i, (0 < f i)%N) (seq (S k) (length l))) =
    length (filter (λ c, (0 < c)%N) l)) as Hl.
  { apply IH. intros i Hi. rewrite Nat.add_succ_comm. apply (Hf (S i)). simpl. lia. }
  case_decide; simpl; by rewrite Hl.
Qed.

(** *** The plain pool

    A list of counters, which is all that the contract talks about. *)
Record Slot_pool : Type := {
  pool_counts : list N;
  pool_slot_size : N;
  pool_path : string;
}.
Definition pool_count (p : Slot_pool) (h : N) : N := default 0%N (pool_counts p !! N.to_nat h).
Definition set_count (p : Slot_pool) (h c : N) : Slot_pool :=
  {| pool_counts := <[N.to_nat h := c]> (pool_counts p); pool_slot_size := pool_slot_size p;
     pool_path := pool_path p |}.
Definition recount (p : Slot_pool) (h c : N) : Result Shared_memory_manager_error unit * Slot_pool
  :=
  if (pool_count p h =? 0)%N then (Err runtime_error_slot_not_allocated, p)
  else (Ok tt, set_count p h c).

#[export] Instance pool_interface : Shared_memory_slot_manager Slot_pool := {|
  i_allocate_slot p :=
    match list_find (λ c, c = 0%N) (pool_counts p) with
    | Some (i, _) => (Ok (N.of_nat i), set_count p (N.of_nat i) 1)
    | None => (Err runtime_error_no_available_slots, p)
    end;
  i_add_consumer p h := recount p h (pool_count p h + 1);
  i_release_slot p h := recount p h (pool_count p h - 1);
  i_get_slot_count p := N.of_nat (length (pool_counts p));
  i_get_slot_size := pool_slot_size;
  i_get_allocated_slot_count p := N.of_nat (length (filter (λ c, (0 < c)%N) (pool_counts p)));
  i_get_reference_count := pool_count;
  i_get_memory p h :=
    if (pool_count p h =? 0)%N then Err runtime_error_slot_not_allocated
    else Ok {| sp_addr := h * pool_slot_size p; sp_size := pool_slot_size p |};
  i_get_path := pool_path;
|}.

Lemma pool_count_valid p h : (0 < pool_count p h)%N → valid_handle p h.
Proof.
  unfold pool_count, valid_handle; simpl. destruct (_ !! _) eqn:E; simpl; [|lia].
  apply lookup_lt_Some in E. lia.
Qed.

Lemma set_count_recounted p h c : valid_handle p h → recounted p (set_count p h c) h c.
Proof.
  unfold valid_handle; simpl. intros Hh. split_and!; try done; simpl.
  - intros h'. unfold pool_count; simpl. case_decide as E; subst.
    + by rewrite list_lookup_insert_eq by lia.
    + by rewrite list_lookup_insert_ne by lia.
  - by rewrite length_insert.
Qed.

#[export, refine] Instance pool_contract : Slot_manager_contract Slot_pool :=
  {| sound _ := True |}.
Proof.
  - intros p _. split; [|done]. unfold allocate_promise; simpl.
    destruct (list_find _ _) as [[i c]|] eqn:E.
    + apply list_find_Some in E as (Hi & -> & Hmin). pose proof (lookup_lt_Some _ _ _ Hi).
      assert (valid_handle p (N.of_nat i)) as Hv by (unfold valid_handle; simpl; lia).
      split_and!; [done| | |by apply set_count_recounted].
      * unfold allocated; simpl. unfold pool_count. rewrite Nat2N.id, Hi. simpl. lia.
      * intros h' Hh'. unfold allocated; simpl. unfold pool_count.
        destruct (lookup_lt_is_Some_2 (pool_counts p) (N.to_nat h')) as [c Hc]; [lia|].
        rewrite Hc. simpl. specialize (Hmin _ _ Hc ltac:(lia)). lia.
    + split; [|done]. apply list_find_None in E. intros h Hh.
      unfold valid_handle in Hh; simpl in Hh.
      unfold allocated; simpl. unfold pool_count.
      destruct (lookup_lt_is_Some_2 (pool_counts p) (N.to_nat h)) as [c Hc]; [lia|].
      rewrite Hc. simpl. pose proof (proj1 (Forall_lookup _ _) E _ _ Hc). simpl in *. lia.
  - intros p h _ _. split; [|done]. unfold add_consumer_promise; simpl. unfold recount. N_case.
    + split; [|done]. right. unfold allocated; simpl. lia.
    + assert (valid_handle p h) by (apply pool_count_valid; lia).
      split_and!; [done|unfold allocated; simpl; lia|]. by apply set_count_recounted.
  - intros p h _. split; [|done]. unfold release_slot_promise; simpl. unfold recount. N_case.
    + split; [|done]. right. unfold allocated; simpl. lia.
    + assert (valid_handle p h) by (apply pool_count_valid; lia).
      split_and!; [done|unfold allocated; simpl; lia|]. by apply set_count_recounted.
  - intros p _. split; simpl.
    + f_equal. symmetry. rewrite Nat2N.id.
      apply (count_by_position _ (λ i, pool_count p (N.of_nat i))).
      intros i _. unfold pool_count. by rewrite Nat2N.id.
    + unfold valid_handle; simpl. intros h Hh. unfold pool_count.
      by rewrite lookup_ge_None_2 by lia.
  - intros p h _. unfold get_memory_promise; simpl. N_case.
    + right. unfold allocated; simpl. lia.
    + split_and!; [apply pool_count_valid; lia|unfold allocated; simpl; lia|done].
Defined.

(** *** The manager of the implementation *)

#[export] Instance manager_interface : Shared_memory_slot_manager Slot_manager := {|
  i_allocate_slot := allocate_slot;
  i_add_consumer := add_consumer;
  i_release_slot := release_slot;
  i_get_slot_count := get_slot_count;
  i_get_slot_size := get_slot_size;
  i_get_allocated_slot_count := get_allocated_slot_count;
  i_get_reference_count := get_reference_count;
  i_get_memory := get_memory;
  i_get_path := get_path;
|}.

(** The layout is intact and the counts fit their 32 bits. *)
Definition manager_sound (m : Slot_manager) : Prop :=
  manager_ok m ∧ ∀ h, fits 32 (load_count m h).

Lemma store_recounted m h c :
  manager_ok m → (h < m_slot_count m)%N → recounted m (store_count m h c) h c.
Proof.
  intros Hok Hh. split_and!; try done. simpl. intros h'. unfold get_reference_count. simpl.
  rewrite load_count_store by done. N_case; [|done]. case_decide; [lia|done].
Qed.

Lemma store_sound m h c :
  manager_sound m → (h < m_slot_count m)%N → fits 32 c → manager_sound (store_count m h c).
Proof.
  intros [Hok Hf] Hh Hc. split; [by apply manager_ok_store|]. intros h'.
  rewrite load_count_store by done. by case_decide.
Qed.

Lemma get_reference_count_load m h :
  manager_ok m → get_reference_count m h = load_count m h.
Proof.
  intros [Hl _]. unfold get_reference_count. N_case; [|done]. unfold load_count.
  by rewrite lookup_ge_None_2 by lia.
Qed.

Lemma allocated_slots m :
  get_allocated_slot_count m =
    N.of_nat (length (filter (λ c, (0 < c)%N) (reference_count <$> m_slots m))).
Proof.
  unfold get_allocated_slot_count.
  assert (∀ l k, foldl (λ count s, if (0 <? reference_count s)%N then (count + 1)%N else count) k l
    =
    (k + N.of_nat (length (filter (λ c, (0 < c)%N) (reference_count <$> l))))%N) as Hl.
  { induction l as [|s l IH]; intros k; [simpl; lia|]. csimpl. rewrite IH, filter_cons.
    N_case; case_decide; csimpl in *; lia. }
  by rewrite Hl.
Qed.

#[export, refine] Instance manager_contract : Slot_manager_contract Slot_manager :=
  {| sound := manager_sound |}.
Proof.
  - intros m [Hok Hf]. unfold allocate_promise; simpl.
    destruct (allocate_slot m) as [[h|e] m'] eqn:E; simpl.
    + destruct (allocate_slot_Ok m h m' Hok E) as (Hh & Hz & -> & Hmin).
      unfold allocated; simpl. setoid_rewrite get_reference_count_load; [|done..].
      split; [|by apply store_sound].
      split_and!; [done|lia|intros h' Hh'; specialize (Hmin h' Hh'); lia|by apply store_recounted].
    + unfold allocate_slot in E. destruct (first_free 0 (m_slots m)) eqn:Ef; [done|].
      simplify_eq/=. split; [|done]. split; [|done]. apply first_free_None in Ef.
      intros h Hh. unfold allocated; simpl. rewrite get_reference_count_load by done.
      destruct Hok as [Hl _]. unfold valid_handle in Hh; simpl in Hh. unfold get_slot_count in Hh.
      destruct (lookup_lt_is_Some_2 (m_slots m') (N.to_nat h)) as [s Hs]; [lia|].
      unfold load_count. rewrite Hs. simpl.
      pose proof (proj1 (Forall_lookup _ _) Ef _ _ Hs). simpl in *. lia.
  - intros m h [Hok Hf] Hmax. simpl in Hmax. rewrite get_reference_count_load in Hmax by done.
    unfold add_consumer_promise, valid_handle, allocated; simpl.
    rewrite get_reference_count_load by done. unfold add_consumer, get_slot_count.
    N_case; [split; [|done]; split; [left; lia|done]|].
    N_case; [split; [|done]; split; [right; lia|done]|].
    unfold max_consumers in Hmax. assert (fits 32 (load_count m h + 1)) by (unfold fits; lia).
    rewrite wrap_small by done. split; [|by apply store_sound].
    split_and!; [done|lia|by apply store_recounted].
  - intros m h [Hok Hf].
    unfold release_slot_promise, valid_handle, allocated; simpl.
    rewrite get_reference_count_load by done. unfold release_slot, get_slot_count.
    N_case; [split; [|done]; split; [left; lia|done]|].
    N_case; [split; [|done]; split; [right; lia|done]|].
    rewrite dec_wrap32 by (done || lia). specialize (Hf h) as Hfh. unfold fits in Hfh.
    split; [|apply store_sound; [done..|unfold fits; lia]].
    split_and!; [done|lia|by apply store_recounted].
  - intros m [Hok Hf]. split; simpl.
    + rewrite allocated_slots. f_equal. symmetry. unfold get_slot_count. pose proof Hok as [Hl _].
      rewrite <-Hl, <-(length_fmap reference_count).
      apply (count_by_position _ (λ i, get_reference_count m (N.of_nat i))).
      intros i _. rewrite get_reference_count_load by done. unfold load_count.
      rewrite Nat2N.id, list_lookup_fmap. simpl. by destruct (m_slots m !! i).
    + unfold valid_handle; simpl. unfold get_slot_count, get_reference_count. intros h Hh.
      by N_case.
  - intros m h [Hok Hf]. unfold get_memory_promise, valid_handle, allocated; simpl.
    unfold get_memory, get_slot_count. N_case; [left; lia|]. N_case; [right; lia|].
    split_and!; [done|lia|done].
Defined.

(** ** The implementation and the plain pool *)

Definition make_pool (size count : N) (p : string) : Slot_pool :=
  {| pool_counts := replicate (N.to_nat count) 0%N; pool_slot_size := size; pool_path := p |}.

(** C16: the manager is a plain pool of counters. A manager that has just been made answers
    every sequence of fewer than 2^32 calls as a list of counters does, in which handles,
    errors, counts and the sizes of the memory are what the header says and nothing else is
    left open: no sequence of calls tells whether the slots are scanned with
    compare-exchange over atomic counters of 32 bits. *)
Theorem slot_manager_is_a_pool size count p base cs :
  (N.of_nat (length cs) < 2 ^ 32)%N →
  call_slots (make_slot_manager size count p base) cs = call_slots (make_pool size count p) cs.
Proof.
  intros Hl. apply (call_slots_same 0).
  - split; [apply manager_ok_make|]. intros h. by rewrite load_count_make.
  - done.
  - assert (∀ h, get_reference_count (make_slot_manager size count p base) h =
      pool_count (make_pool size count p) h) as Hc.
    { intros h. rewrite get_reference_count_load, load_count_make by apply manager_ok_make.
      unfold pool_count; simpl. destruct (replicate _ _ !! _) eqn:E; [|done].
      by apply lookup_replicate in E as [-> _]. }
    split_and!; simpl; [done| |done]. rewrite length_replicate, N2Nat.id. done.
  - intros h. simpl. rewrite get_reference_count_load, load_count_make by apply manager_ok_make.
    done.
  - unfold max_consumers. lia.
Qed.

Lemma slot_manager_is_a_pool_witness :
  call_slots (make_slot_manager 64 2 "/m" 4096) [Call_allocate_slot; Call_add_consumer 0;
    Call_allocate_slot; Call_allocate_slot; Call_release_slot 0; Call_release_slot 0;
    Call_get_allocated_slot_count; Call_get_memory 0; Call_allocate_slot; Call_get_memory 0] =
  [Some 0; Some 0; Some 1; None; Some 0; Some 0; Some 1; None; Some 0; Some 64]%N.
Proof. rewrite slot_manager_is_a_pool; [reflexivity|]. vm_compute. reflexivity. Defined.

(** ** Guards

    What the comments of [Shared_memory_slot_guard] promise about a guard in a store of
    managers. [held] is the manager and the slot of a guard that holds one. *)

Definition held (ms : Managers) (g : Slot_guard) : option (Slot_manager * N) :=
  (λ m, (m, m_handle g)) <$> (m_manager g ≫= (ms !!.)).

(** The store in which one manager counts a slot differently. *)
Definition store_recounted_at (ms ms' : Managers) (g : Slot_guard) (f : N → N) : Prop :=
  ∃ k m m', m_manager g = Some k ∧ ms !! k = Some m ∧ ms' = <[k := m']> ms ∧
    recounted m m' (m_handle g) (f (i_get_reference_count m (m_handle g))).

Record guard_promises (ms : Managers) (g : Slot_guard) : Prop := {
  (* "true if a valid slot is held" *)
  promise_has_slot : has_slot g = true ↔ is_Some (held ms g);
  (* "Increments the reference count and returns a new guard that manages a reference to the
     same slot" *)
  promise_share : ∀ m h, held ms g = Some (m, h) →
    (i_get_reference_count m h < max_consumers)%N →
    ∃ g' ms', guard_share ms g = Done (g', ms') ∧ store_recounted_at ms ms' g N.succ ∧
      m_manager g' = m_manager g ∧ m_handle g' = m_handle g;
  (* "Slot handle, or an error if no valid slot is held" *)
  promise_get_handle : guard_get_handle g =
    from_option (λ mh, Ok mh.2) (Err runtime_error_slot_not_allocated) (held ms g);
  (* "Span of slot memory, or empty span if no valid slot" *)
  promise_get_memory : match held ms g with
    | Some (m, h) => i_get_memory m h = Ok (guard_get_memory ms g)
    | None => guard_get_memory ms g = empty_span
    end;
  (* "Release the slot early", and "Automatically releases the slot if valid" *)
  promise_reset : let '(ms', g') := guard_reset ms g in has_slot g' = false ∧
    if has_slot g then store_recounted_at ms ms' g N.pred else ms' = ms;
  (* "the slot will NOT be released back to the manager's pool" *)
  promise_release : let '(r, g') := guard_release g in has_slot g' = false ∧ r = guard_get_handle g;
}.

(** Guards of every reachable state keep the promises, provided the slot is allocated. *)
Lemma guard_promises_kept w id g :
  guard_reachable w → gw_guards w !! id = Some g → guard_promises (gw_managers w) g.
Proof.
  intros Hinv%guard_reachable_inv Hid. pose proof Hinv as (Hok & Hrc & Hfit).
  destruct g as [[k|] h]; simpl in *.
  - destruct (guard_get_memory_inv w id _ k Hinv Hid eq_refl) as (m & s & Hm & Hmok & Hmem & Hs).
    simpl in Hmem. assert (held (gw_managers w) {| m_manager := Some k;
      m_handle := h |} = Some (m, h))
      as Hheld by (unfold held; simpl; by rewrite Hm).
    assert (sound m) as Hms.
    { split; [done|]. intros h'. pose proof (Hfit k h') as Hf. unfold rc_of in Hf.
      rewrite Hm in Hf. by rewrite <-get_reference_count_load. }
    pose proof (get_memory_kept m h Hms) as Hk. unfold get_memory_promise in Hk. simpl in Hk.
    rewrite Hmem in Hk. destruct Hk as (Hv & Ha & _).
    split; rewrite ?Hheld; try done.
    + intros ? ? [= <- <-] Hmax. unfold guard_share, on_manager. simpl. rewrite Hm.
      destruct (add_consumer_kept m h Hms Hmax) as [Hp _]. unfold add_consumer_promise in Hp.
      simpl in Hp. destruct (add_consumer m h) as [[[]|] m'].
      * eexists _, _. split_and!; try done. eexists k, m, m'. split_and!; try done.
        rewrite <-N.add_1_r. apply Hp.
      * tauto.
    + unfold guard_get_memory in *. simpl. rewrite Hm. simpl. by rewrite Hmem.
    + unfold guard_reset, on_manager; simpl. rewrite Hm.
      destruct (release_slot_kept m h Hms) as [Hp _]. unfold release_slot_promise in Hp.
      simpl in Hp.
      destruct (release_slot m h) as [[[]|] m']; [|tauto]. split; [done|].
      eexists k, m, m'. split_and!; try done. rewrite <-N.sub_1_r. apply Hp.
  - split; try done. simpl. split; [done|by intros [? ?]].
Qed.

(** [share] on a guard without a slot does not return an invalid guard: it asserts. *)
Lemma share_without_slot ms g :
  held ms g = None → has_slot g = false → guard_share ms g = Fault Assertion_failed.
Proof. intros _ Hs. unfold guard_share. by rewrite Hs. Qed.

(** ** The read-only manager *)

(** "Payload object on success, or std::nullopt on failure"; "the payload object will call
    the provided callback when it is destroyed". *)
Definition get_payload_promise {C} (m : Read_only_slot_manager) (handle : Shared_memory_handle)
    (callback : C) : Prop :=
  match get_payload m handle callback with
  | Some p => (slot_index handle < ro_slot_count m)%N ∧ m_payload_destroyed p = Some callback ∧
      (sp_size (m_data p) <= ro_slot_size m)%N
  | None => (ro_slot_count m <= slot_index handle)%N
  end.

Lemma get_payload_kept {C} m handle (callback : C) : get_payload_promise m handle callback.
Proof.
  unfold get_payload_promise, get_payload. N_case; [done|]. simpl. split_and!; [done..|lia].
Qed.

(** ** The factory *)

(** The service instance of a configuration entry. *)
Definition entry_key (e : Service_shared_memory_config) :
    option (Service_interface_identifier * string) :=
  match to_socom_identifier (ssmc_service e), fixed_string_to_string (ssmc_instance_id e) with
  | Done i, Done n => Some (i, n)
  | _, _ => None
  end.

(** The configuration of an instance after some entries: each overwrites the one before. *)
Fixpoint last_entry (l : list Service_shared_memory_config) (i : Service_interface_identifier)
    (n : string) (old : option Shared_memory_metadata) : option Shared_memory_metadata :=
  match l with
  | [] => old
  | e :: l => last_entry l i n
      (if decide (entry_key e = Some (i, n)) then Some (ssmc_metadata e) else old)
  end.

Record factory_promises `{Shm} (c : Shared_memory_configuration) : Prop := {
  (* "Calling this with an already-registered pair overwrites the previous configuration" *)
  promise_register : ∀ configs c' i n, register_configuration c configs = Done c' →
    lookup_configuration c' i n = last_entry (fsc_elems configs) i n (lookup_configuration c i n);
  (* the manager of a configured instance is as configured, with all slots free *)
  promise_create : ∀ i n md m, lookup_configuration c i n = Some md →
    factory_create c i n = Done (Ok m) →
    sound m ∧ i_get_slot_count m = slot_count md ∧ i_get_slot_size m = slot_size md ∧
    fixed_string_to_string (path md) = Done (i_get_path m) ∧
    ∀ h, i_get_reference_count m h = 0%N;
  (* "Result containing a unique pointer", so an error without a configuration *)
  promise_unknown : ∀ i n, lookup_configuration c i n = None →
    ∃ e, factory_create c i n = Done (Err e);
  (* "Open a Shared_memory_slot_manager for existing read only shared memory" *)
  promise_open : ∀ md m, factory_open md = Done (Ok m) →
    ro_slot_count m = slot_count md ∧ ro_slot_size m = slot_size md ∧
    (0 < slot_count md)%N ∧ (0 < slot_size md)%N;
}.

Lemma register_entries_last l : ∀ c c' i n,
  register_entries c l = Done c' →
  lookup_configuration c' i n = last_entry l i n (lookup_configuration c i n).
Proof.
  induction l as [|e l IH]; intros c c' i n; simpl; [by intros [= ->]|].
  unfold register_entry, entry_key.
  destruct (to_socom_identifier (ssmc_service e)) as [i1|] eqn:Ei; [|done]. simpl.
  destruct (fixed_string_to_string (ssmc_instance_id e)) as [n1|] eqn:En; [|done]. simpl.
  intros Hr%(λ H, IH _ _ i n H). rewrite Hr, lookup_insert_configuration. f_equal.
  destruct (decide (i1 = i ∧ n1 = n)) as [[-> ->]|Hne].
  - by rewrite decide_True.
  - rewrite decide_False; [done|]. by intros [= -> ->]; apply Hne.
Qed.

Lemma factory_promises_kept `{Shm} c : factory_promises c.
Proof.
  split.
  - intros configs c' i n. unfold register_configuration.
    destruct (fsc_in_bounds configs); [|done]. apply register_entries_last.
  - intros i n md m. unfold lookup_configuration, factory_create.
    destruct (c !! i) as [insts|]; [simpl; intros ->|done].
    destruct (fixed_string_to_string (path md)) as [p|]; [simpl|done].
    unfold create_shared_memory_slot_manager. destruct (_ =? _)%N; [done|].
    destruct (_ =? _)%N; [done|]. destruct (negb _); [done|].
    destruct (shm_allocate _ _) as [base|]; [|done]. intros [= <-].
    pose proof (manager_ok_make (slot_size md) (slot_count md) p base).
    split_and!; try done.
    + split; [done|]. intros h. by rewrite load_count_make.
    + intros h. simpl. by rewrite get_reference_count_load, load_count_make.
  - intros i n. unfold lookup_configuration, factory_create.
    destruct (c !! i) as [insts|]; simpl; [intros ->|]; by eexists.
  - intros md m. unfold factory_open, make_read_only_slot_manager.
    destruct (fixed_string_to_string _); [simpl|done]. destruct (shm_open _); [|done].
    N_case; simpl; [|done]. N_case; [|done]. by intros [= <-].
Qed.
