(* ===== verification/Keys.v ===== *)
(** * Keys of service instances

    [src/score/gateway_ipc_binding/impl/key.hpp] and [Id_generator] of
    [impl/gateway_ipc_binding_util.hpp]: every service/instance pair gets a
    number that the rest of the binding uses in its place.

    The nested [std::unordered_map] compares its keys with [operator==]. On
    in-bounds values that comparison is equality of the socom identifiers
    ([Service_eqb_socom], [fsc_eqb_string]), so the maps here are indexed by
    the identifier and carry the key object that was inserted first, which is
    what [get(Key_t)] hands out. A length past the array makes the hash and the
    comparison read out of bounds: there [keys_get] faults. *)

From stdpp Require Import base numbers list gmap strings.
From Stdlib Require Import Strings.Ascii.
From S2P Require Import Prelude.
From S2P Require Import IpcTypes.

(** ** Definitions *)

(** [Id_generator<T>::get_next_id] for a 64-bit [T]: the id, and the state. *)
Definition get_next_id (m_next_id : N) : N * N := (m_next_id, wrap64 (m_next_id + 1)).

Abbreviation Instance_to_key_map := (gmap string (Instance_id * N)).
Abbreviation Service_to_instance_key_map :=
  (gmap Service_interface_identifier (Service * Instance_to_key_map)).

Record Keys : Type := {
  m_keys : Service_to_instance_key_map;
  m_next_key : N;
}.

Definition keys_init : Keys := {| m_keys := ∅; m_next_key := 0 |}.

(** The key of a pair that is in the map. *)
Definition keys_lookup (ks : Keys) (s : Service_interface_identifier) (i : string) :
    option Key_t :=
  '(_, instances) ← m_keys ks !! s;
  '(_, key) ← instances !! i;
  Some key.

(** [m_keys[service][instance] = key]. *)
Definition keys_insert (ks : Keys) (s : Service_interface_identifier) (i : string)
    (service : Service) (instance : Instance_id) (key : Key_t) (next : N) : Keys :=
  let '(service0, instances) := default (service, ∅) (m_keys ks !! s) in
  let '(instance0, _) := default (instance, key) (instances !! i) in
  {| m_keys := <[s := (service0, <[i := (instance0, key)]> instances)]> (m_keys ks);
     m_next_key := next |}.

(** [get(Service const&, Instance_id const&)]. *)
Definition keys_get (ks : Keys) (service : Service) (instance : Instance_id) :
    outcome (Key_t * Keys) :=
  s ← to_socom_identifier service;
  i ← fixed_string_to_string instance;
  match keys_lookup ks s i with
  | Some key => Done (key, ks)
  | None =>
    let '(key, next) := get_next_id (m_next_key ks) in
    Done (key, keys_insert ks s i service instance key next)
  end.

(** [get(socom::Service_interface_identifier const&, socom::Service_instance const&)]. *)
Definition keys_get_socom (ks : Keys) (configuration : Service_interface_identifier)
    (instance : Service_instance) : outcome (Key_t * Keys) :=
  service ← make_service configuration;
  instance_id ← make_instance_id instance;
  keys_get ks service instance_id.

(** The entries in the order the nested loops of [get(Key_t const&)] visit
    them. *)
Definition keys_entries (ks : Keys) : list (Service * Instance_id * Key_t) :=
  '(_, (service, instances)) ← map_to_list (m_keys ks);
  '(_, (instance, key)) ← map_to_list instances;
  [(service, instance, key)].

(** [get(Key_t const&)]: the first entry with that key. *)
Definition keys_find (ks : Keys) (key : Key_t) : option (Service * Instance_id) :=
  '(_, (service, instance, _)) ← list_find (λ e, e.2 = key) (keys_entries ks);
  Some (service, instance).

(** A sequence of calls of [get], with the keys returned. *)
Fixpoint keys_run (ks : Keys) (l : list (Service * Instance_id)) :
    outcome (list Key_t * Keys) :=
  match l with
  | [] => Done ([], ks)
  | (service, instance) :: l' =>
    '(key, ks1) ← keys_get ks service instance;
    '(keys, ks2) ← keys_run ks1 l';
    Done (key :: keys, ks2)
  end.

(** What a service/instance pair denotes. *)
Definition denotes (service : Service) (instance : Instance_id)
    (p : Service_interface_identifier * string) : Prop :=
  to_socom_identifier service = Done p.1 ∧ fixed_string_to_string instance = Done p.2.

(** The invariant: the stored key objects denote their index, the keys in use
    are below the next one and no two pairs share one. *)
Record keys_ok (ks : Keys) : Prop := {
  ko_denotes : ∀ s i service instances instance key,
    m_keys ks !! s = Some (service, instances) → instances !! i = Some (instance, key) →
    denotes service instance (s, i);
  ko_service : ∀ s service instances,
    m_keys ks !! s = Some (service, instances) → to_socom_identifier service = Done s;
  ko_below : ∀ s i key, keys_lookup ks s i = Some key → (key < m_next_key ks)%N;
  ko_inj : ∀ s i s' i' key,
    keys_lookup ks s i = Some key → keys_lookup ks s' i' = Some key → (s, i) = (s', i');
}.

(** ** Lemmas *)

Lemma keys_lookup_Some ks s i key :
  keys_lookup ks s i = Some key ↔
  ∃ service instances instance,
    m_keys ks !! s = Some (service, instances) ∧ instances !! i = Some (instance, key).
Proof.
  unfold keys_lookup. destruct (m_keys ks !! s) as [[service instances]|]; simpl.
  - destruct (instances !! i) as [[instance k]|] eqn:Ei; simpl.
    + split; [intros [= <-]; eauto|]. naive_solver.
    + naive_solver.
  - naive_solver.
Qed.

Lemma keys_lookup_insert ks s i service instance key next s' i' :
  keys_lookup (keys_insert ks s i service instance key next) s' i' =
  if decide ((s, i) = (s', i')) then Some key else keys_lookup ks s' i'.
Proof.
  unfold keys_insert, keys_lookup.
  destruct (default (service, ∅) (m_keys ks !! s)) as [service0 instances] eqn:Ed.
  destruct (default (instance, key) (instances !! i)) as [instance0 k0] eqn:Ei. simpl.
  destruct (decide (s = s')) as [<-|Hs].
  - rewrite lookup_insert_eq. simpl. destruct (decide (i = i')) as [<-|Hi].
    + by rewrite lookup_insert_eq, decide_True.
    + rewrite lookup_insert_ne, decide_False by congruence.
      destruct (m_keys ks !! s) as [[sv ins]|]; simplify_eq/=; [done|].
      by rewrite lookup_empty.
  - by rewrite lookup_insert_ne, decide_False by congruence.
Qed.

Lemma keys_next_insert ks s i service instance key next :
  m_next_key (keys_insert ks s i service instance key next) = next.
Proof. unfold keys_insert. by repeat case_match. Qed.

Lemma keys_ok_init : keys_ok keys_init.
Proof.
  split; unfold keys_lookup; simpl; intros *; by rewrite ?lookup_empty.
Qed.

(** The entry a fresh pair creates. *)
Lemma keys_insert_entries ks s i service instance key next :
  keys_lookup ks s i = None →
  ∃ service0 instances,
    m_keys (keys_insert ks s i service instance key next) =
      <[s := (service0, <[i := (instance, key)]> instances)]> (m_keys ks) ∧
    (m_keys ks !! s = Some (service0, instances) ∨
     m_keys ks !! s = None ∧ service0 = service ∧ instances = ∅).
Proof.
  unfold keys_insert, keys_lookup. intros Hn.
  destruct (m_keys ks !! s) as [[sv ins]|] eqn:Es; simpl in *.
  - destruct (ins !! i) as [[? ?]|] eqn:Ei; [done|]. simpl. eauto 10.
  - rewrite lookup_empty. simpl. eauto 10.
Qed.

Lemma keys_ok_insert ks s i service instance :
  keys_ok ks → denotes service instance (s, i) → keys_lookup ks s i = None →
  (m_next_key ks + 1 < 2 ^ 64)%N →
  keys_ok (keys_insert ks s i service instance (m_next_key ks) (wrap64 (m_next_key ks + 1))).
Proof.
  intros Hok [Hs Hi] Hn Hw. simpl in *.
  destruct (keys_insert_entries ks s i service instance (m_next_key ks)
    (wrap64 (m_next_key ks + 1)) Hn) as (sv0 & ins0 & Em & Hor).
  split; rewrite ?Em.
  - intros s' i' sv ins inst key. rewrite lookup_insert. case_decide; simplify_eq/=.
    + intros [= <- <-]. rewrite lookup_insert. case_decide; simplify_eq/=.
      * intros [= <- <-]. destruct Hor as [Ho|(_ & -> & _)]; [|done].
        split; [|done]. by eapply ko_service.
      * intros Hl. destruct Hor as [Ho|(_ & _ & ->)]; [|by rewrite lookup_empty in Hl].
        by eapply ko_denotes.
    + intros H1 H2. by eapply ko_denotes.
  - intros s' sv ins. rewrite lookup_insert. case_decide; simplify_eq/=.
    + intros [= <- <-]. destruct Hor as [Ho|(_ & -> & _)]; [|done]. by eapply ko_service.
    + intros H1. by eapply ko_service.
  - intros s' i' key. rewrite keys_lookup_insert, keys_next_insert, wrap_small by done.
    case_decide; [intros [= <-]; lia|]. intros Hlt%ko_below; [lia|done].
  - intros s1 i1 s2 i2 key. rewrite !keys_lookup_insert.
    repeat case_decide; [congruence| | |by eapply ko_inj]; intros H1 H2; simplify_eq.
    + apply ko_below in H2; [lia|done].
    + apply ko_below in H1; [lia|done].
Qed.

(** One call of [get]: the pair keeps or obtains its key, no other pair is
    affected. *)
Lemma keys_get_spec ks service instance s i :
  keys_ok ks → denotes service instance (s, i) → (m_next_key ks + 1 < 2 ^ 64)%N →
  ∃ key ks', keys_get ks service instance = Done (key, ks') ∧ keys_ok ks' ∧
    keys_lookup ks' s i = Some key ∧
    (∀ s' i' k, keys_lookup ks s' i' = Some k → keys_lookup ks' s' i' = Some k) ∧
    (m_next_key ks' ≤ m_next_key ks + 1)%N.
Proof.
  intros Hok [Hs Hi] Hw. unfold keys_get. simpl in *. rewrite Hs; simpl. rewrite Hi; simpl.
  destruct (keys_lookup ks s i) as [key|] eqn:El.
  - exists key, ks. split_and!; auto. lia.
  - eexists _, _. split; [done|]. split_and!.
    + by apply keys_ok_insert.
    + rewrite keys_lookup_insert, decide_True by done. done.
    + intros s' i' k Hk. rewrite keys_lookup_insert.
      case_decide; [simplify_eq|done].
    + rewrite keys_next_insert, wrap_small by done. lia.
Qed.

(** A key that is in the map. *)
Lemma keys_get_known ks service instance s i key :
  denotes service instance (s, i) → keys_lookup ks s i = Some key →
  keys_get ks service instance = Done (key, ks).
Proof.
  intros [Hs Hi] El. unfold keys_get. simpl in *. rewrite Hs; simpl. rewrite Hi; simpl.
  by rewrite El.
Qed.

Lemma elem_of_keys_entries ks service instance key :
  (service, instance, key) ∈ keys_entries ks ↔
  ∃ s i instances, m_keys ks !! s = Some (service, instances) ∧
    instances !! i = Some (instance, key).
Proof.
  unfold keys_entries. rewrite list_elem_of_bind. split.
  - intros ([s [sv ins]] & He & Hs%elem_of_map_to_list).
    apply list_elem_of_bind in He as ([i [inst k]] & He & Hi%elem_of_map_to_list).
    apply list_elem_of_singleton in He. simplify_eq. eauto.
  - intros (s & i & ins & Hs & Hi). exists (s, (service, ins)).
    split; [|by apply elem_of_map_to_list]. apply list_elem_of_bind.
    exists (i, (instance, key)). split; [by apply list_elem_of_singleton|].
    by apply elem_of_map_to_list.
Qed.

(** The search by key finds the pair the key was given to. *)
Lemma keys_find_Some ks s i key :
  keys_ok ks → keys_lookup ks s i = Some key →
  ∃ service instance, keys_find ks key = Some (service, instance) ∧
    denotes service instance (s, i).
Proof.
  intros Hok Hl. unfold keys_find.
  pose proof Hl as (sv & ins & inst & Hs & Hi)%keys_lookup_Some.
  destruct (list_find (λ e, e.2 = key) (keys_entries ks)) as [[j [[sv' inst'] k]]|] eqn:Ef.
  - apply list_find_Some in Ef as (Hj & Hk & _). simpl in *. subst k.
    eexists _, _. split; [done|].
    apply list_elem_of_lookup_2, elem_of_keys_entries in Hj as (s' & i' & ins' & Hs' & Hi').
    assert (keys_lookup ks s' i' = Some key) as Hl'
      by (apply keys_lookup_Some; eauto).
    pose proof (ko_inj ks Hok _ _ _ _ _ Hl Hl'). simplify_eq.
    by eapply ko_denotes.
  - apply list_find_None in Ef. rewrite Forall_forall in Ef.
    destruct (Ef (sv, inst, key)); [|done]. apply elem_of_keys_entries. eauto.
Qed.

Lemma keys_find_inv ks key service instance :
  keys_ok ks → keys_find ks key = Some (service, instance) →
  ∃ s i, denotes service instance (s, i) ∧ keys_lookup ks s i = Some key.
Proof.
  intros Hok. unfold keys_find.
  destruct (list_find _ _) as [[j [[sv' inst'] k]]|] eqn:Ef; simpl; [|done].
  intros [= <- <-]. apply list_find_Some in Ef as (Hj & Hk & _). simpl in *. subst k.
  apply list_elem_of_lookup_2, elem_of_keys_entries in Hj as (s' & i' & ins' & Hs' & Hi').
  exists s', i'. split; [by eapply ko_denotes|]. apply keys_lookup_Some. eauto.
Qed.

Lemma keys_run_spec l ps : ∀ ks,
  keys_ok ks → Forall2 (λ p d, denotes p.1 p.2 d) l ps →
  (m_next_key ks + N.of_nat (length l) < 2 ^ 64)%N →
  ∃ keys ks', keys_run ks l = Done (keys, ks') ∧ keys_ok ks' ∧
    Forall2 (λ d key, keys_lookup ks' d.1 d.2 = Some key) ps keys ∧
    (∀ s' i' k, keys_lookup ks s' i' = Some k → keys_lookup ks' s' i' = Some k).
Proof.
  intros ks Hok Hf. revert ks Hok.
  induction Hf as [|[service instance] [s i] l ps Hd Hf IH]; intros ks Hok Hn; simpl in *.
  { exists [], ks. split_and!; eauto. }
  destruct (keys_get_spec ks service instance s i Hok Hd) as (key & ks1 & -> & Hok1 & Hl1 & Hm1 &
    Hle1);
    [lia|]. simpl.
  destruct (IH ks1 Hok1) as (keys & ks2 & -> & Hok2 & Hf2 & Hm2); [lia|]. simpl.
  exists (key :: keys), ks2. split_and!; eauto.
Qed.

Lemma denotes_in_bounds service instance :
  fsc_in_bounds (service_id service) = true → fsc_in_bounds instance = true →
  ∃ d, denotes service instance d.
Proof.
  intros Hs Hi. unfold denotes, to_socom_identifier, fixed_string_to_string.
  rewrite Hs, Hi. by eexists (_, _).
Qed.

Lemma denotes_all l :
  Forall (λ p, fsc_in_bounds (service_id p.1) = true ∧ fsc_in_bounds p.2 = true) l →
  ∃ ps, Forall2 (λ p d, denotes p.1 p.2 d) l ps.
Proof.
  induction 1 as [|p l [Hs Hi] _ [ps IH]]; [by exists []|].
  destruct (denotes_in_bounds p.1 p.2 Hs Hi) as [d Hd]. exists (d :: ps). by constructor.
Qed.

(** Equal denotations are what the comparison operators decide. *)
Lemma denotes_eqb s1 i1 d1 s2 i2 d2 :
  denotes s1 i1 d1 → denotes s2 i2 d2 →
  (Service_eqb s1 s2 = true ∧ fsc_eqb i1 i2 = true) ↔ d1 = d2.
Proof.
  intros [Hs1 Hi1] [Hs2 Hi2].
  rewrite (Service_eqb_socom _ _ _ _ Hs1 Hs2), (fsc_eqb_string _ _ _ _ Hi1 Hi2).
  destruct d1, d2; simpl. naive_solver.
Qed.

(** ** Properties *)

(** The keys. In every sequence of fewer than [2^64] calls of [get] on
    in-bounds pairs, [get] succeeds, two calls return the same key exactly when
    their services compare equal and their instances do, and the search by key
    finds, at the end, a pair that compares equal to the one the key was
    returned for. *)
Theorem keys_faithful l :
  Forall (λ p, fsc_in_bounds (service_id p.1) = true ∧ fsc_in_bounds p.2 = true) l →
  (N.of_nat (length l) < 2 ^ 64)%N →
  ∃ keys ks, keys_run keys_init l = Done (keys, ks) ∧ length keys = length l ∧
    ∀ a sa ia ka, l !! a = Some (sa, ia) → keys !! a = Some ka →
      (∃ s i, keys_find ks ka = Some (s, i) ∧
        Service_eqb sa s = true ∧ fsc_eqb ia i = true) ∧
      (∀ b sb ib kb, l !! b = Some (sb, ib) → keys !! b = Some kb →
        ka = kb ↔ Service_eqb sa sb = true ∧ fsc_eqb ia ib = true).
Proof.
  intros [ps Hps]%denotes_all Hn.
  destruct (keys_run_spec l ps keys_init keys_ok_init Hps) as (keys & ks & Hr & Hok & Hk & _);
    [simpl; lia|].
  exists keys, ks. split; [done|]. split.
  { by rewrite <-(Forall2_length _ _ _ Hk), <-(Forall2_length _ _ _ Hps). }
  assert (∀ a sa ia ka, l !! a = Some (sa, ia) → keys !! a = Some ka →
    ∃ d, denotes sa ia d ∧ keys_lookup ks d.1 d.2 = Some ka) as Hd.
  { intros a sa ia ka Ha Hka. destruct (Forall2_lookup_l _ _ _ _ _ Hps Ha) as (d & Hpa & Hda).
    destruct (Forall2_lookup_l _ _ _ _ _ Hk Hpa) as (k & Hka' & Hl). simplify_eq/=. eauto. }
  intros a sa ia ka Ha Hka. destruct (Hd _ _ _ _ Ha Hka) as ([s i] & Hda & Hla). split.
  - destruct (keys_find_Some ks s i ka Hok Hla) as (sv & inst & Hf & Hdf).
    exists sv, inst. split; [done|]. by apply (denotes_eqb _ _ _ _ _ _ Hda Hdf).
  - intros b sb ib kb Hb Hkb. destruct (Hd _ _ _ _ Hb Hkb) as ([s' i'] & Hdb & Hlb).
    rewrite (denotes_eqb _ _ _ _ _ _ Hda Hdb). simpl in *. split.
    + intros <-. by eapply ko_inj.
    + intros [= <- <-]. congruence.
Qed.

(** ** Witnesses *)

Definition demo_id (c : Ascii.ascii) : Instance_id :=
  {| fsc_size := 1; fsc_data := c :: replicate 63 Ascii.zero |}.
Definition demo_service (c : Ascii.ascii) : Service :=
  {| service_id := {| fsc_size := 1; fsc_data := c :: replicate 63 Ascii.zero |};
     version := {| major := 1; minor := 0 |} |}.

Lemma keys_faithful_witness : ∃ keys ks,
  let l := [(demo_service "a"%char, demo_id "x"%char); (demo_service "b"%char, demo_id "x"%char);
            (demo_service "a"%char, demo_id "x"%char)] in
  keys_run keys_init l = Done (keys, ks) ∧ keys = [0; 1; 0]%N ∧
  keys_find ks 1 = Some (demo_service "b"%char, demo_id "x"%char).
Proof.
  destruct (keys_faithful [(demo_service "a"%char, demo_id "x"%char); (demo_service "b"%char, demo_id "x"%char);
            (demo_service "a"%char, demo_id "x"%char)]) as (keys & ks & Hr & Hl & _).
  - repeat constructor.
  - done.
  - exists keys, ks. split; [exact Hr|]. vm_compute in Hr. by simplify_eq.
Defined.
