(* ===== verification/ConnectionMetadata.v ===== *)
(** * Established connections

    [src/score/gateway_ipc_binding/impl/connection_metadata.hpp]: for every
    client the connected services, with a second map from a service key to the
    position of its entry in each client's vector. The event path only uses
    the second map ([for_each_client]); everything else searches the vectors.
    [cm_refinement] shows that the pair behaves as the vectors alone. *)

From stdpp Require Import base numbers list gmap.
From S2P Require Import Prelude.
From S2P Require Import IpcTypes.

(** ** Definitions *)

Record Ids : Type := {
  ids_key : Key_t;
  ids_local_handle : Remote_handle;
  ids_remote_handle : Remote_handle;
  ids_local_metadata : Shared_memory_metadata;
  ids_remote_metadata : Shared_memory_metadata;
}.

#[export] Instance Ids_eq_dec : EqDecision Ids.
Proof. solve_decision. Defined.

Abbreviation Client_id_to_metadata := (gmap N (list Ids)).
Abbreviation Key_to_client_indices := (gmap N (gmap N nat)).

Record Connection_metadata : Type := {
  m_id_to_key : Client_id_to_metadata;
  m_key_to_client_indices : Key_to_client_indices;
}.

Definition cm_init : Connection_metadata :=
  {| m_id_to_key := ∅; m_key_to_client_indices := ∅ |}.

(** The calls [func(client_id, ids)] that [for_each_client] makes. *)
Definition for_each_client (cm : Connection_metadata) (key : Key_t) :
    list (Client_id * Ids) :=
  match m_key_to_client_indices cm !! key with
  | None => []
  | Some clients =>
    omap (λ '(client_id, index),
      match m_id_to_key cm !! client_id with
      | None => None
      | Some vec => (λ ids, (client_id, ids)) <$> vec !! index
      end) (map_to_list clients)
  end.

(** The loop of [is_mapping_present] over the client's entries. *)
Fixpoint is_mapping_present_in (vec : list Ids) (ids : Ids) : outcome bool :=
  match vec with
  | [] => Done false
  | e :: vec' =>
    let same_handle := (ids_local_handle e =? ids_local_handle ids)%N in
    let same_key := (ids_key e =? ids_key ids)%N in
    if same_handle || same_key then
      if same_handle && same_key then Done true else Fault Assertion_failed
    else is_mapping_present_in vec' ids
  end.

Definition is_mapping_present (cm : Connection_metadata) (client_id : Client_id)
    (ids : Ids) : outcome bool :=
  match m_id_to_key cm !! client_id with
  | Some vec => is_mapping_present_in vec ids
  | None => Done false
  end.

(** [m_key_to_client_indices[key][client_id] = index]. *)
Definition set_index (m : Key_to_client_indices) (key : Key_t) (client_id : Client_id)
    (index : nat) : Key_to_client_indices :=
  <[key := <[client_id := index]> (default ∅ (m !! key))]> m.

Definition add_mapping (cm : Connection_metadata) (client_id : Client_id) (ids : Ids) :
    outcome Connection_metadata :=
  present ← is_mapping_present cm client_id ids;
  if (present : bool) then Fault Assertion_failed
  else
    let vec := default [] (m_id_to_key cm !! client_id) in
    Done {| m_id_to_key := <[client_id := vec ++ [ids]]> (m_id_to_key cm);
            m_key_to_client_indices :=
              set_index (m_key_to_client_indices cm) (ids_key ids) client_id (length vec) |}.

(** The first entry of a client that satisfies a condition. *)
Definition find_ids (cm : Connection_metadata) (client_id : Client_id)
    (P : Ids → Prop) `{!∀ x, Decision (P x)} : option Ids :=
  vec ← m_id_to_key cm !! client_id;
  snd <$> list_find P vec.

Definition get_by_remote_handle (cm : Connection_metadata) (client_id : Client_id)
    (remote_handle : Remote_handle) : option Ids :=
  find_ids cm client_id (λ ids, ids_remote_handle ids = remote_handle).

Definition get_by_local_handle (cm : Connection_metadata) (client_id : Client_id)
    (local_handle : Remote_handle) : option Ids :=
  find_ids cm client_id (λ ids, ids_local_handle ids = local_handle).

(** The loop erases the client from every inner map, and the inner maps that
    are empty then. *)
Definition remove_client_from_key_indices (client_id : Client_id)
    (m : Key_to_client_indices) : Key_to_client_indices :=
  omap (λ clients, let clients' := delete client_id clients in
    if decide (clients' = ∅) then None else Some clients') m.

(** The loop of [rebuild_client_key_indices] from position [i] on. *)
Fixpoint set_indices (m : Key_to_client_indices) (client_id : Client_id) (i : nat)
    (vec : list Ids) : Key_to_client_indices :=
  match vec with
  | [] => m
  | ids :: vec' => set_indices (set_index m (ids_key ids) client_id i) client_id (S i) vec'
  end.

Definition rebuild_client_key_indices (cm : Connection_metadata) (client_id : Client_id) :
    Connection_metadata :=
  let m := remove_client_from_key_indices client_id (m_key_to_client_indices cm) in
  {| m_id_to_key := m_id_to_key cm;
     m_key_to_client_indices :=
       match m_id_to_key cm !! client_id with
       | None => m
       | Some vec => set_indices m client_id 0 vec
       end |}.

Definition cm_remove_client (cm : Connection_metadata) (client_id : Client_id) :
    Connection_metadata :=
  {| m_id_to_key := delete client_id (m_id_to_key cm);
     m_key_to_client_indices :=
       remove_client_from_key_indices client_id (m_key_to_client_indices cm) |}.

(** Keep the entries of one client that satisfy [keep]; the client goes when
    none does. *)
Definition erase_entries (cm : Connection_metadata) (client_id : Client_id)
    (keep : Ids → Prop) `{!∀ x, Decision (keep x)} (vec : list Ids) : Connection_metadata :=
  match filter keep vec with
  | [] => cm_remove_client cm client_id
  | vec' => rebuild_client_key_indices
      {| m_id_to_key := <[client_id := vec']> (m_id_to_key cm);
         m_key_to_client_indices := m_key_to_client_indices cm |} client_id
  end.

Definition remove_mapping_for_client_and_key (cm : Connection_metadata)
    (client_id : Client_id) (key : Key_t) : Connection_metadata :=
  match m_id_to_key cm !! client_id with
  | None => cm
  | Some vec => erase_entries cm client_id (λ ids, ids_key ids ≠ key) vec
  end.

Definition remove_mapping (cm : Connection_metadata) (client_id : Client_id)
    (remote_handle : Remote_handle) : Connection_metadata :=
  match m_id_to_key cm !! client_id with
  | None => cm
  | Some vec => erase_entries cm client_id (λ ids, ids_remote_handle ids ≠ remote_handle) vec
  end.

(** The loop of [remove_service] over the clients. *)
Definition cm_remove_service (cm : Connection_metadata) (key : Key_t) : Connection_metadata :=
  foldl (λ cm '(client_id, vec), erase_entries cm client_id (λ ids, ids_key ids ≠ key) vec)
    cm (map_to_list (m_id_to_key cm)).

(** ** Sequences of operations *)

Inductive cm_op : Type :=
  | Add_mapping (client_id : Client_id) (ids : Ids)
  | Remove_client (client_id : Client_id)
  | Remove_mapping_for_client_and_key (client_id : Client_id) (key : Key_t)
  | Remove_mapping (client_id : Client_id) (remote_handle : Remote_handle)
  | Remove_service (key : Key_t).

Definition cm_step (cm : Connection_metadata) (op : cm_op) : outcome Connection_metadata :=
  match op with
  | Add_mapping c ids => add_mapping cm c ids
  | Remove_client c => Done (cm_remove_client cm c)
  | Remove_mapping_for_client_and_key c key =>
      Done (remove_mapping_for_client_and_key cm c key)
  | Remove_mapping c h => Done (remove_mapping cm c h)
  | Remove_service key => Done (cm_remove_service cm key)
  end.

Fixpoint cm_run (cm : Connection_metadata) (ops : list cm_op) : outcome Connection_metadata :=
  match ops with
  | [] => Done cm
  | op :: ops' => cm' ← cm_step cm op; cm_run cm' ops'
  end.

(** ** Specification: the vectors alone *)

Definition keep_entries (keep : Ids → Prop) `{!∀ x, Decision (keep x)} (vec : list Ids) :
    option (list Ids) :=
  match filter keep vec with [] => None | vec' => Some vec' end.

(** Two entries of one client may share neither the handle nor the key. *)
Definition clash (ids e : Ids) : Prop :=
  ids_local_handle e = ids_local_handle ids ∨ ids_key e = ids_key ids.

Definition spec_step (m : Client_id_to_metadata) (op : cm_op) :
    option Client_id_to_metadata :=
  match op with
  | Add_mapping c ids =>
    let vec := default [] (m !! c) in
    if decide (Exists (clash ids) vec) then None else Some (<[c := vec ++ [ids]]> m)
  | Remove_client c => Some (delete c m)
  | Remove_mapping_for_client_and_key c key =>
      Some (partial_alter (λ o, o ≫= keep_entries (λ ids, ids_key ids ≠ key)) c m)
  | Remove_mapping c h =>
      Some (partial_alter (λ o, o ≫= keep_entries (λ ids, ids_remote_handle ids ≠ h)) c m)
  | Remove_service key => Some (omap (keep_entries (λ ids, ids_key ids ≠ key)) m)
  end.

Fixpoint spec_run (m : Client_id_to_metadata) (ops : list cm_op) :
    option Client_id_to_metadata :=
  match ops with
  | [] => Some m
  | op :: ops' => m' ← spec_step m op; spec_run m' ops'
  end.

(** The connections of a service, by a scan of all entries. *)
Definition spec_clients (m : Client_id_to_metadata) (key : Key_t) : list (Client_id * Ids) :=
  '(client_id, vec) ← map_to_list m;
  (λ ids, (client_id, ids)) <$> filter (λ ids, ids_key ids = key) vec.

(** [m_key_to_client_indices[key][client_id]], when there is such an entry. *)
Definition index_of (m : Key_to_client_indices) (key : Key_t) (c : Client_id) : option nat :=
  clients ← m !! key; clients !! c.

(** The invariant: handles and keys are unique per client, no vector is empty,
    and the index holds the position of every entry and nothing else. *)
Record cm_ok (cm : Connection_metadata) : Prop := {
  co_keys : ∀ c vec, m_id_to_key cm !! c = Some vec → NoDup (ids_key <$> vec);
  co_handles : ∀ c vec, m_id_to_key cm !! c = Some vec → NoDup (ids_local_handle <$> vec);
  co_nonempty : ∀ c vec, m_id_to_key cm !! c = Some vec → vec ≠ [];
  co_index : ∀ key c i,
    index_of (m_key_to_client_indices cm) key c = Some i ↔
    ∃ vec ids, m_id_to_key cm !! c = Some vec ∧ vec !! i = Some ids ∧ ids_key ids = key;
}.

(** ** Lemmas *)

Lemma index_of_set_index m key c i key' c' :
  index_of (set_index m key c i) key' c' =
  if decide ((key, c) = (key', c')) then Some i else index_of m key' c'.
Proof.
  unfold index_of, set_index. destruct (decide (key = key')) as [<-|].
  - rewrite lookup_insert_eq. simpl. rewrite lookup_insert.
    repeat case_decide; simplify_eq; [done|].
    by destruct (m !! key); simpl; rewrite ?lookup_empty.
  - by rewrite lookup_insert_ne, decide_False by congruence.
Qed.

Lemma index_of_remove m c key c' :
  index_of (remove_client_from_key_indices c m) key c' =
  if decide (c = c') then None else index_of m key c'.
Proof.
  unfold index_of, remove_client_from_key_indices. rewrite lookup_omap.
  destruct (m !! key) as [clients|]; simpl; [|by case_decide].
  case_decide as E; simpl.
  - assert (delete c clients !! c' = None) as Hd by by rewrite E.
    rewrite lookup_delete in Hd. by case_decide.
  - by rewrite lookup_delete.
Qed.

Lemma index_of_set_indices vec : ∀ m c i key c' j,
  NoDup (ids_key <$> vec) →
  index_of (set_indices m c i vec) key c' = Some j ↔
  (c = c' ∧ i ≤ j ∧ ∃ ids, vec !! (j - i) = Some ids ∧ ids_key ids = key) ∨
  ((c ≠ c' ∨ key ∉ ids_key <$> vec) ∧ index_of m key c' = Some j).
Proof.
  induction vec as [|e vec IH]; intros m c i key c' j Hnd; simpl in *.
  { split; [set_solver|]. intros [(_ & _ & ids & Hl & _)|[_ H]]; [done|done]. }
  apply NoDup_cons in Hnd as [He Hnd]. rewrite IH, index_of_set_index by done. clear IH.
  split.
  - intros [(-> & Hle & ids & Hl & Hk)|[Hor Hi]].
    + left. split_and!; [done|lia|]. exists ids. split; [|done].
      replace (j - i) with (S (j - S i)) by lia. done.
    + case_decide; simplify_eq.
      * left. split_and!; [done|done|]. exists e. by rewrite Nat.sub_diag.
      * right. split; [|done]. destruct Hor as [?|Hn]; [by left|].
        destruct (decide (c = c')) as [<-|]; [right|by left].
        rewrite not_elem_of_cons. split; [congruence|done].
  - intros [(<- & Hle & ids & Hl & Hk)|[Hor Hi]].
    + destruct (decide (i = j)) as [<-|Hne].
      * rewrite Nat.sub_diag in Hl. simplify_eq/=. right. split; [by right|].
        by rewrite decide_True.
      * left. split_and!; [done|lia|]. exists ids. split; [|done].
        by replace (j - i) with (S (j - S i)) in Hl by lia.
    + right. rewrite not_elem_of_cons in Hor. split; [naive_solver|].
      rewrite decide_False; [done|]. naive_solver.
Qed.

(** A client's vector replaced by a selection of its entries. *)
Lemma cm_ok_rebuild cm c vec :
  cm_ok cm → vec ≠ [] → NoDup (ids_key <$> vec) → NoDup (ids_local_handle <$> vec) →
  cm_ok (rebuild_client_key_indices
    {| m_id_to_key := <[c := vec]> (m_id_to_key cm);
       m_key_to_client_indices := m_key_to_client_indices cm |} c).
Proof.
  intros Hok Hne Hk Hh. unfold rebuild_client_key_indices; simpl. rewrite lookup_insert_eq.
  split; simpl; [intros c' v; rewrite lookup_insert; case_decide; [by intros [= <-]|eauto using
    co_keys, co_handles, co_nonempty]..|].
  intros key c' i. rewrite index_of_set_indices by done. rewrite index_of_remove, lookup_insert.
  rewrite Nat.sub_0_r. case_decide; simplify_eq; split.
  - intros [(_ & _ & ids & ? & ?)|[_ ?]]; [eauto|done].
  - intros (v & ids & [= <-] & ? & ?). left. split_and!; [done|lia|eauto].
  - intros [(? & _)|[_ Hi]]; [done|]. by apply (co_index cm Hok).
  - intros Hi. right. split; [by left|]. by apply (co_index cm Hok).
Qed.

Lemma cm_ok_remove_client cm c : cm_ok cm → cm_ok (cm_remove_client cm c).
Proof.
  intros Hok. split; simpl; [intros c' v [_ ?]%lookup_delete_Some;
    eauto using co_keys, co_handles, co_nonempty..|].
  intros key c' i. rewrite index_of_remove, lookup_delete. case_decide.
  - naive_solver.
  - apply (co_index cm Hok).
Qed.

(** Erasing entries of a client: the invariant, and the vectors. *)
Lemma erase_entries_spec cm c keep `{!∀ x, Decision (keep x)} vec :
  cm_ok cm → m_id_to_key cm !! c = Some vec →
  cm_ok (erase_entries cm c keep vec) ∧
  m_id_to_key (erase_entries cm c keep vec) =
    partial_alter (λ o, o ≫= keep_entries keep) c (m_id_to_key cm).
Proof.
  intros Hok Hc. unfold erase_entries.
  pose proof (NoDup_fmap_filter ids_key keep vec (co_keys cm Hok c vec Hc)) as Hk.
  pose proof (NoDup_fmap_filter ids_local_handle keep vec (co_handles cm Hok c vec Hc)) as Hh.
  assert (∀ v, filter keep vec = v →
    partial_alter (λ o, o ≫= keep_entries keep) c (m_id_to_key cm) =
    match v with [] => delete c (m_id_to_key cm) | _ => <[c := v]> (m_id_to_key cm) end) as E.
  { intros v Hv. apply map_eq. intros c'. destruct (decide (c = c')) as [<-|].
    - rewrite lookup_partial_alter_eq, Hc. simpl. unfold keep_entries. rewrite Hv.
      destruct v; [by rewrite lookup_delete_eq|by rewrite lookup_insert_eq].
    - rewrite lookup_partial_alter_ne by done.
      destruct v; [by rewrite lookup_delete_ne|by rewrite lookup_insert_ne]. }
  rewrite (E _ eq_refl). destruct (filter keep vec) as [|e v] eqn:Ef.
  - split; [by apply cm_ok_remove_client|done].
  - split; [by apply cm_ok_rebuild|done].
Qed.

Lemma erase_client_spec cm c keep `{!∀ x, Decision (keep x)} :
  cm_ok cm →
  let cm' := match m_id_to_key cm !! c with
             | None => cm | Some vec => erase_entries cm c keep vec end in
  cm_ok cm' ∧
  m_id_to_key cm' = partial_alter (λ o, o ≫= keep_entries keep) c (m_id_to_key cm).
Proof.
  intros Hok. destruct (m_id_to_key cm !! c) as [vec|] eqn:Hc; simpl.
  - by apply erase_entries_spec.
  - split; [done|]. apply map_eq. intros c'. destruct (decide (c = c')) as [<-|].
    + by rewrite lookup_partial_alter_eq, Hc.
    + by rewrite lookup_partial_alter_ne.
Qed.

(** The loop of [remove_service]. *)
Lemma remove_service_loop key l : ∀ cm,
  cm_ok cm → NoDup l.*1 → (∀ c vec, (c, vec) ∈ l → m_id_to_key cm !! c = Some vec) →
  let cm' := foldl (λ cm '(c, vec), erase_entries cm c (λ ids, ids_key ids ≠ key) vec) cm l in
  cm_ok cm' ∧ ∀ c, m_id_to_key cm' !! c =
    if decide (c ∈ l.*1) then
      m_id_to_key cm !! c ≫= keep_entries (λ ids, ids_key ids ≠ key)
    else m_id_to_key cm !! c.
Proof.
  induction l as [|[c vec] l IH]; intros cm Hok Hnd Hin; csimpl in *; [done|].
  apply NoDup_cons in Hnd as [Hc Hnd].
  destruct (erase_entries_spec cm c (λ ids, ids_key ids ≠ key) vec Hok) as [Hok1 Hm1];
    [apply Hin; left|].
  destruct (IH _ Hok1 Hnd) as [Hok2 Hm2].
  { intros c' vec' H'. rewrite Hm1, lookup_partial_alter_ne; [apply Hin; by right|].
    intros <-. apply Hc, list_elem_of_fmap. by exists (c, vec'). }
  split; [done|]. intros c'. rewrite Hm2, Hm1. destruct (decide (c = c')) as [<-|Hne].
  - rewrite (decide_False (P := c ∈ l.*1)) by done.
    rewrite (decide_True (P := c ∈ c :: l.*1)) by left. by rewrite lookup_partial_alter_eq.
  - rewrite lookup_partial_alter_ne by done.
    by destruct (decide (c' ∈ l.*1)) as [Hc'|Hc'];
      [rewrite decide_True by set_solver|rewrite decide_False by set_solver].
Qed.

Lemma remove_service_spec cm key :
  cm_ok cm → cm_ok (cm_remove_service cm key) ∧
  m_id_to_key (cm_remove_service cm key) =
    omap (keep_entries (λ ids, ids_key ids ≠ key)) (m_id_to_key cm).
Proof.
  intros Hok. destruct (remove_service_loop key (map_to_list (m_id_to_key cm)) cm Hok)
    as [Hok' Hm]; [apply NoDup_fst_map_to_list|by intros ?? ?%elem_of_map_to_list|].
  split; [done|]. apply map_eq. intros c. rewrite Hm, lookup_omap.
  case_decide as Hin; [done|]. destruct (m_id_to_key cm !! c) as [vec|] eqn:Hc; [|done].
  destruct Hin. apply list_elem_of_fmap. exists (c, vec). split; [done|].
  by apply elem_of_map_to_list.
Qed.

(** The assert of [is_mapping_present] cannot be told from the one of
    [add_mapping]: both fire on a clash. *)
Lemma add_mapping_clash cm c ids :
  Exists (clash ids) (default [] (m_id_to_key cm !! c)) →
  add_mapping cm c ids = Fault Assertion_failed.
Proof.
  unfold add_mapping, is_mapping_present. destruct (m_id_to_key cm !! c) as [vec|]; simpl;
    [|by intros ?%Exists_nil].
  intros Hex. cut (is_mapping_present_in vec ids = Done true ∨
    is_mapping_present_in vec ids = Fault Assertion_failed); [by intros [-> | ->]|].
  induction vec as [|e vec IH]; simpl; [by apply Exists_nil in Hex|].
  apply Exists_cons in Hex.
  destruct (N.eqb_spec (ids_local_handle e) (ids_local_handle ids)) as [|Hn1];
    destruct (N.eqb_spec (ids_key e) (ids_key ids)) as [|Hn2]; simpl; auto.
  apply IH. destruct Hex as [[|]|]; done.
Qed.

Lemma add_mapping_fresh cm c ids :
  let vec := default [] (m_id_to_key cm !! c) in
  ¬ Exists (clash ids) vec →
  add_mapping cm c ids = Done
    {| m_id_to_key := <[c := vec ++ [ids]]> (m_id_to_key cm);
       m_key_to_client_indices :=
         set_index (m_key_to_client_indices cm) (ids_key ids) c (length vec) |}.
Proof.
  intros vec Hex. unfold add_mapping, is_mapping_present, vec in *.
  destruct (m_id_to_key cm !! c) as [v|]; simpl in *; [|done].
  enough (is_mapping_present_in v ids = Done false) as -> by done.
  clear vec. induction v as [|e v IH]; simpl; [done|].
  rewrite Exists_cons in Hex. apply Decidable.not_or in Hex as [Hc Hv].
  unfold clash in Hc. apply Decidable.not_or in Hc as [H1 H2].
  rewrite (proj2 (N.eqb_neq _ _) H1), (proj2 (N.eqb_neq _ _) H2). simpl. auto.
Qed.

Lemma cm_ok_add cm c ids cm' :
  cm_ok cm → add_mapping cm c ids = Done cm' → cm_ok cm'.
Proof.
  intros Hok Ha. pose (vec := default [] (m_id_to_key cm !! c)).
  destruct (decide (Exists (clash ids) vec)) as [Hex|Hex];
    [by rewrite add_mapping_clash in Ha|].
  rewrite add_mapping_fresh in Ha by done. fold vec in Ha. injection Ha as <-.
  rewrite <-Forall_Exists_neg, Forall_forall in Hex.
  assert (NoDup (ids_key <$> vec) ∧ NoDup (ids_local_handle <$> vec)) as [Hk Hh].
  { unfold vec. destruct (m_id_to_key cm !! c) eqn:E; simpl;
      eauto using co_keys, co_handles, NoDup_nil_2. }
  split; simpl.
  - intros c' v. rewrite lookup_insert. case_decide; [intros [= <-]|eauto using co_keys].
    rewrite fmap_app. apply NoDup_app. split_and!; [done| |apply NoDup_singleton].
    intros x (e & -> & He)%list_elem_of_fmap Hx%list_elem_of_singleton.
    apply (Hex e He). by right.
  - intros c' v. rewrite lookup_insert. case_decide; [intros [= <-]|eauto using co_handles].
    rewrite fmap_app. apply NoDup_app. split_and!; [done| |apply NoDup_singleton].
    intros x (e & -> & He)%list_elem_of_fmap Hx%list_elem_of_singleton.
    apply (Hex e He). by left.
  - intros c' v. rewrite lookup_insert. case_decide; [intros [= <-]|eauto using co_nonempty].
    by destruct vec.
  - intros key c' i. rewrite index_of_set_index, lookup_insert.
    assert (index_of (m_key_to_client_indices cm) key c = Some i ↔
      ∃ ids, vec !! i = Some ids ∧ ids_key ids = key) as Hi.
    { rewrite (co_index cm Hok). unfold vec. destruct (m_id_to_key cm !! c); simpl;
        [naive_solver|set_solver]. }
    destruct (decide (c = c')) as [<-|]; [|rewrite decide_False by congruence;
      apply (co_index cm Hok)].
    destruct (decide (ids_key ids = key)) as [<-|Hne].
    + rewrite decide_True by done. split.
      * intros [= <-]. eexists _, ids. split_and!; [done| |done].
        by rewrite lookup_app_r, Nat.sub_diag by lia.
      * intros (v & e & [= <-] & Hv & He). apply lookup_app_Some in Hv as [Hv|[Hge Hv]].
        { apply list_elem_of_lookup_2 in Hv. destruct (Hex e Hv). by right. }
        apply list_lookup_singleton_Some in Hv as [Hv _]. f_equal. lia.
    + rewrite decide_False by congruence. rewrite Hi. split.
      * intros (e & Hv & He). eexists _, e. split_and!; [done| |done].
        by apply lookup_app_l_Some.
      * intros (v & e & [= <-] & Hv & He). exists e. split; [|done].
        apply lookup_app_Some in Hv as [Hv|[Hge Hv]]; [done|].
        apply list_lookup_singleton_Some in Hv as [_ <-]. done.
Qed.

(** One operation: it commutes with the abstraction to the vectors. *)
Lemma cm_step_refines cm op :
  cm_ok cm →
  match cm_step cm op, spec_step (m_id_to_key cm) op with
  | Done cm', Some m' => cm_ok cm' ∧ m_id_to_key cm' = m'
  | Fault f, None => f = Assertion_failed
  | _, _ => False
  end.
Proof.
  intros Hok. destruct op as [c ids|c|c key|c h|key]; simpl.
  - destruct (decide (Exists _ _)) as [Hex|Hex].
    + by rewrite add_mapping_clash.
    + pose proof (add_mapping_fresh cm c ids Hex) as Ha. rewrite Ha.
      split; [by eapply cm_ok_add|done].
  - split; [by apply cm_ok_remove_client|done].
  - by apply erase_client_spec.
  - by apply erase_client_spec.
  - by apply remove_service_spec.
Qed.

Lemma cm_ok_init : cm_ok cm_init.
Proof.
  split; simpl; [intros c vec; by rewrite lookup_empty..|].
  intros key c i. unfold index_of. rewrite lookup_empty. simpl.
  split; [done|]. intros (vec & ids & Hc & _). by rewrite lookup_empty in Hc.
Qed.

Lemma elem_of_for_each_client cm key c ids :
  cm_ok cm → (c, ids) ∈ for_each_client cm key ↔
  ∃ vec, m_id_to_key cm !! c = Some vec ∧ ids ∈ vec ∧ ids_key ids = key.
Proof.
  intros Hok. trans (∃ i vec, index_of (m_key_to_client_indices cm) key c = Some i ∧
    m_id_to_key cm !! c = Some vec ∧ vec !! i = Some ids).
  - unfold for_each_client, index_of.
    destruct (m_key_to_client_indices cm !! key) as [clients|]; simpl; [|set_solver].
    rewrite list_elem_of_omap. split.
    + intros ([c' i] & Hin%elem_of_map_to_list & Hf).
      destruct (m_id_to_key cm !! c') as [vec|] eqn:Hc; simpl in Hf; [|done].
      destruct (vec !! i) eqn:Hi; simplify_eq/=. eauto.
    + intros (i & vec & Hi & Hc & Hv). exists (c, i). split; [by apply elem_of_map_to_list|].
      by rewrite Hc, Hv.
  - setoid_rewrite (co_index cm Hok). split.
    + intros (i & vec & (vec' & e & ? & ? & ?) & ? & ?). simplify_eq.
      eauto using list_elem_of_lookup_2.
    + intros (vec & Hc & [i Hi]%list_elem_of_lookup_1 & Hk). eauto 10.
Qed.

Lemma elem_of_spec_clients m key c ids :
  (c, ids) ∈ spec_clients m key ↔
  ∃ vec, m !! c = Some vec ∧ ids ∈ vec ∧ ids_key ids = key.
Proof.
  unfold spec_clients. rewrite list_elem_of_bind. split.
  - intros ([c' vec] & (e & ? & [? ?]%list_elem_of_filter)%list_elem_of_fmap
      & ?%elem_of_map_to_list). simplify_eq. eauto.
  - intros (vec & Hc & Hin & Hk). exists (c, vec).
    split; [|by apply elem_of_map_to_list]. apply list_elem_of_fmap_2.
    by apply list_elem_of_filter.
Qed.

(** The index finds every connection of a service exactly once. *)
Lemma for_each_client_scan cm key :
  cm_ok cm → for_each_client cm key ≡ₚ spec_clients (m_id_to_key cm) key.
Proof.
  intros Hok. apply NoDup_Permutation.
  - unfold for_each_client. destruct (_ !! key) as [clients|]; [|apply NoDup_nil_2].
    rewrite omap_as_bind. apply NoDup_bind_fst; [apply NoDup_fst_map_to_list|].
    intros c i _. destruct (m_id_to_key cm !! c) as [vec|]; simpl; [|split;
      [apply NoDup_nil_2|set_solver]].
    destruct (vec !! i); simpl; [|split; [apply NoDup_nil_2|set_solver]].
    split; [apply NoDup_singleton|]. by intros x ->%list_elem_of_singleton.
  - unfold spec_clients. apply NoDup_bind_fst; [apply NoDup_fst_map_to_list|].
    intros c vec Hc%elem_of_map_to_list. split.
    + apply (NoDup_fmap_2 _), NoDup_filter. eapply NoDup_fmap_1, co_keys; eauto.
    + by intros x (ids & -> & _)%list_elem_of_fmap.
  - intros [c ids]. rewrite elem_of_for_each_client, elem_of_spec_clients by done. done.
Qed.

(** ** Properties *)

(** C17: the two maps of [Connection_metadata] behave as the vectors alone. Run
    any sequence of operations: the code's assertions fire exactly when the
    specification refuses (an entry with the handle or the key of another one
    of the same client), the vectors agree, and [for_each_client], which only
    consults the index, visits exactly the connections a scan of all entries
    finds, each once. *)
Theorem cm_refinement ops :
  match cm_run cm_init ops, spec_run ∅ ops with
  | Done cm, Some m =>
    m_id_to_key cm = m ∧ ∀ key, for_each_client cm key ≡ₚ spec_clients m key
  | Fault f, None => f = Assertion_failed
  | _, _ => False
  end.
Proof.
  change ∅ with (m_id_to_key cm_init). generalize cm_ok_init. generalize cm_init.
  induction ops as [|op ops IH]; intros cm Hok; simpl.
  - split; [done|]. intros key. by apply for_each_client_scan.
  - pose proof (cm_step_refines cm op Hok) as Hs.
    destruct (cm_step cm op) as [cm'|f], (spec_step _ op) as [m'|]; simpl; try done.
    destruct Hs as [Hok' <-]. by apply IH.
Qed.
