(* ===== verification/SharedMemoryManagers.v ===== *)
(** * Shared memory of the services of a binding

    [src/score/gateway_ipc_binding/impl/shared_memory_managers.hpp] and
    [impl/shared_memory_payload.hpp]: one slot manager per service key, the
    payloads that are kept until their recipients have consumed them, and the
    read-only managers opened on the peers' memory.

    A slot manager is owned by the entry of its key and is never replaced, so
    the key is the identity guards point to. The payloads an operation destroys
    are part of its result. Exhaustion of memory while a vector grows is not
    modelled. *)

From stdpp Require Import base numbers list gmap strings.
From Stdlib Require Import Strings.Ascii.
From S2P Require Import Prelude.
From S2P Require Import IpcTypes.
From S2P Require Import Payload.
From S2P Require Import SlotManager.
From S2P Require Import Keys.

(** ** Writable payloads *)

Section writable.
Context {C : Type} (owns : Slot_guard → C).

(** [make_shared_memory_writable_payload]: the callback [owns guard] keeps the
    guard alive as long as the payload. *)
Definition make_shared_memory_writable_payload (ms : Managers) (guard : Slot_guard) :
    outcome (Payload C) :=
  let mem_result := guard_get_memory ms guard in
  if (sp_size mem_result =? 0)%N then Fault Assertion_failed
  else
    match guard_get_handle guard with
    | Err _ => Fault Null_dereference
    | Ok handle =>
      if (handle =? kNoSlotHandle)%N then Fault Assertion_failed
      else Done (make_payload mem_result handle (owns (guard_move guard).1) 0 0)
    end.
End writable.

(** ** Pending allocations *)

Section allocations.
Context {C : Type}.

Record Shared_memory_allocation : Type := {
  sma_payload : option (Payload C);
  sma_pending_consumers : N;
}.

Abbreviation Allocations := (gmap N (list Shared_memory_allocation)).

(** [Shared_memory_allocation{}]. *)
Definition no_allocation : Shared_memory_allocation :=
  {| sma_payload := None; sma_pending_consumers := 0 |}.

(** [allocations.resize(n)]. *)
Definition resize_allocations (n : N) (l : list Shared_memory_allocation) :
    list Shared_memory_allocation :=
  take (N.to_nat n) l ++ replicate (N.to_nat n - length l) no_allocation.

(** [allocations[i]]; the behaviour past the end is undefined. *)
Definition at_index (l : list Shared_memory_allocation) (i : N) :
    outcome Shared_memory_allocation :=
  match l !! N.to_nat i with Some a => Done a | None => Fault Out_of_bounds end.

(** [insert_allocation]: the new map, and the payloads destroyed on the way
    (the argument, when nobody waits for it or the slot already holds one). *)
Definition insert_allocation (m : Allocations) (key : Key_t) (payload : Payload C)
    (consumer_count : N) : outcome (Allocations * list (Payload C)) :=
  if (consumer_count =? 0)%N then Done (m, [payload])
  else
    let allocations := default [] (m !! key) in
    let slot_handle := get_slot_handle payload in
    let allocations :=
      if (N.of_nat (length allocations) <=? slot_handle)%N
      then resize_allocations (wrap64 (slot_handle + 1)) allocations else allocations in
    allocation ← at_index allocations slot_handle;
    let '(kept, dropped) :=
      match sma_payload allocation with
      | None => (payload, [])
      | Some p => (p, [payload])
      end in
    Done (<[key := <[N.to_nat slot_handle :=
            {| sma_payload := Some kept;
               sma_pending_consumers :=
                 wrap64 (sma_pending_consumers allocation + consumer_count) |}]>
          allocations]> m, dropped).

(** [payload_consumed]: the new map, and the payload destroyed with the last
    consumer. *)
Definition payload_consumed (m : Allocations) (key : Key_t) (msg : Payload_consumed) :
    Allocations * list (Payload C) :=
  match m !! key with
  | None => (m, [])
  | Some allocations =>
    let slot_handle := slot_index (pc_handle msg) in
    match allocations !! N.to_nat slot_handle with
    | None => (m, [])
    | Some allocation =>
      if (sma_pending_consumers allocation =? 0)%N then (m, [])
      else if (1 <? sma_pending_consumers allocation)%N then
        (<[key := <[N.to_nat slot_handle :=
           {| sma_payload := sma_payload allocation;
              sma_pending_consumers := sma_pending_consumers allocation - 1 |}]>
           allocations]> m, [])
      else
        (<[key := <[N.to_nat slot_handle := no_allocation]> allocations]> m,
         option_list (sma_payload allocation))
    end
  end.

(** The allocation recorded for a slot. *)
Definition allocation_at (m : Allocations) (key : Key_t) (slot : N) :
    Shared_memory_allocation :=
  default no_allocation (l ← m !! key; l !! N.to_nat slot).

(** A sequence of notifications, with the payloads destroyed by each. *)
Fixpoint consume_run (m : Allocations) (msgs : list (Key_t * Payload_consumed)) :
    Allocations * list (Key_t * N * Payload C) :=
  match msgs with
  | [] => (m, [])
  | (key, msg) :: msgs' =>
    let '(m1, dropped) := payload_consumed m key msg in
    let '(m2, rest) := consume_run m1 msgs' in
    (m2, ((λ p, (key, slot_index (pc_handle msg), p)) <$> dropped) ++ rest)
  end.
End allocations.
Arguments Shared_memory_allocation C : clear implicits.

(** ** The managers of the services *)

Section managers.
Context {C : Type} `{Shm}.

Record Shared_memory_managers : Type := {
  smm_configuration : Shared_memory_configuration;  (* of the factory *)
  m_slot_managers : Managers;
  m_shared_memory_allocations : gmap N (list (Shared_memory_allocation C));
}.

Definition set_m_slot_managers (s : Shared_memory_managers) (ms : Managers) :
    Shared_memory_managers :=
  {| smm_configuration := smm_configuration s; m_slot_managers := ms;
     m_shared_memory_allocations := m_shared_memory_allocations s |}.

Definition set_m_allocations (s : Shared_memory_managers)
    (m : gmap N (list (Shared_memory_allocation C))) : Shared_memory_managers :=
  {| smm_configuration := smm_configuration s; m_slot_managers := m_slot_managers s;
     m_shared_memory_allocations := m |}.

Definition get_shared_memory_slot_manager (m_keys : Keys) (s : Shared_memory_managers)
    (key : Key_t) : outcome (Slot_manager * Shared_memory_managers) :=
  match m_slot_managers s !! key with
  | Some m => Done (m, s)
  | None =>
    match keys_find m_keys key with
    | None => Fault Key_missing
    | Some (service, instance) =>
      interface ← to_socom_identifier service;
      instance_id ← fixed_string_to_string instance;
      slot_manager_result ← factory_create (smm_configuration s) interface instance_id;
      m ← assert_ok slot_manager_result;
      Done (m, set_m_slot_managers s (<[key := m]> (m_slot_managers s)))
    end
  end.

(** [get_shared_memory_metadata(Shared_memory_slot_manager const&)]. *)
Definition get_shared_memory_metadata_of (m : Slot_manager) : outcome Shared_memory_metadata :=
  p ← assert_ok (fixed_string_from_string kMax_shared_memory_path_size (get_path m));
  Done {| path := p; slot_size := get_slot_size m; slot_count := get_slot_count m |}.

(** [get_shared_memory_metadata(Key_t const&)]. *)
Definition get_shared_memory_metadata (m_keys : Keys) (s : Shared_memory_managers)
    (key : Key_t) : outcome (Shared_memory_metadata * Shared_memory_managers) :=
  '(m, s') ← get_shared_memory_slot_manager m_keys s key;
  metadata ← get_shared_memory_metadata_of m;
  Done (metadata, s').

(** [register_configuration]: the factory's result is always a success. *)
Definition smm_register_configuration (s : Shared_memory_managers)
    (configs : Shared_memory_configs) : outcome Shared_memory_managers :=
  c ← register_configuration (smm_configuration s) configs;
  Done {| smm_configuration := c; m_slot_managers := m_slot_managers s;
          m_shared_memory_allocations := m_shared_memory_allocations s |}.

(** ** The peers' memory *)

Abbreviation Read_only_memory_managers := (gmap string Read_only_slot_manager).

(** [get_read_only_shared_memory_slot_manager]: the map is searched by path
    only. *)
Definition get_read_only_shared_memory_slot_manager (ro : Read_only_memory_managers)
    (metadata : Shared_memory_metadata) :
    outcome (Read_only_slot_manager * Read_only_memory_managers) :=
  p ← fixed_string_to_string (path metadata);
  match ro !! p with
  | Some m => Done (m, ro)
  | None =>
    slot_manager_result ← factory_open metadata;
    m ← assert_ok slot_manager_result;
    Done (m, <[p := m]> ro)
  end.
End managers.
Arguments Shared_memory_managers C : clear implicits.

(** ** Lemmas *)

Section allocation_lemmas.
Context {C : Type}.
Implicit Types (m : gmap N (list (Shared_memory_allocation C))) (p : Payload C).

(** The messages that concern one slot. *)
Definition concerns (key : Key_t) (slot : N) (x : Key_t * Payload_consumed) : Prop :=
  x.1 = key ∧ slot_index (pc_handle x.2) = slot.

#[export] Instance concerns_dec key slot x : Decision (concerns key slot x) := _.

Definition consumptions (key : Key_t) (slot : N) (msgs : list (Key_t * Payload_consumed)) : N :=
  N.of_nat (length (filter (concerns key slot) msgs)).

Lemma allocation_at_insert m key l slot a key' slot' :
  m !! key = Some l → N.to_nat slot < length l →
  allocation_at (<[key := <[N.to_nat slot := a]> l]> m) key' slot' =
  if decide ((key, slot) = (key', slot')) then a else allocation_at m key' slot'.
Proof.
  intros Hl Hlt. unfold allocation_at. destruct (decide (key = key')) as [<-|].
  - rewrite lookup_insert_eq, Hl. simpl. destruct (decide (slot = slot')) as [<-|].
    + by rewrite list_lookup_insert_eq, decide_True.
    + rewrite list_lookup_insert_ne, decide_False by (congruence || lia). done.
  - by rewrite lookup_insert_ne, decide_False by congruence.
Qed.

Lemma allocation_at_lookup m key l slot a :
  m !! key = Some l → l !! N.to_nat slot = Some a → allocation_at m key slot = a.
Proof. intros Hl Ha. unfold allocation_at. rewrite Hl. simpl. by rewrite Ha. Qed.

(** What one notification does to the record of every slot. *)
Lemma payload_consumed_spec m key msg m' dropped :
  payload_consumed m key msg = (m', dropped) →
  let a := allocation_at m key (slot_index (pc_handle msg)) in
  (∀ key' slot', allocation_at m' key' slot' =
    if decide (concerns key' slot' (key, msg)) then
      if decide (sma_pending_consumers a = 0%N) then a
      else if decide (sma_pending_consumers a = 1%N) then no_allocation
      else {| sma_payload := sma_payload a;
              sma_pending_consumers := sma_pending_consumers a - 1 |}
    else allocation_at m key' slot') ∧
  dropped = if decide (sma_pending_consumers a = 1%N) then option_list (sma_payload a) else [].
Proof.
  unfold payload_consumed, concerns; simpl. set (slot := slot_index (pc_handle msg)).
  destruct (m !! key) as [l|] eqn:Hl; [destruct (l !! N.to_nat slot) as [a|] eqn:Ha|].
  - pose proof (lookup_lt_Some _ _ _ Ha) as Hlt.
    rewrite (allocation_at_lookup m key l slot a Hl Ha).
    destruct (N.eqb_spec (sma_pending_consumers a) 0) as [E0|E0];
      [|destruct (N.ltb_spec 1 (sma_pending_consumers a))]; intros [= <- <-].
    + rewrite (decide_True (P := _ = 0%N)), (decide_False (P := _ = 1%N)) by lia.
      split; [|done]. intros key' slot'. case_decide as E; [|done].
      destruct E as [<- <-]. by eapply allocation_at_lookup.
    + rewrite (decide_False (P := _ = 0%N)), !(decide_False (P := _ = 1%N)) by lia.
      split; [|done]. intros key' slot'. rewrite allocation_at_insert by done.
      repeat case_decide; naive_solver.
    + rewrite (decide_False (P := _ = 0%N)), !(decide_True (P := _ = 1%N)) by lia.
      split; [|done]. intros key' slot'. rewrite allocation_at_insert by done.
      repeat case_decide; naive_solver.
  - assert (allocation_at m key slot = no_allocation) as En
      by (unfold allocation_at; rewrite Hl; simpl; by rewrite Ha).
    intros [= <- <-]. rewrite En. split; [|done]. intros key' slot'.
    case_decide as E; [|done]. by destruct E as [<- <-].
  - assert (allocation_at m key slot = no_allocation) as En
      by (unfold allocation_at; by rewrite Hl).
    intros [= <- <-]. rewrite En. split; [|done]. intros key' slot'.
    case_decide as E; [|done]. by destruct E as [<- <-].
Qed.

(** The record of a slot over a sequence of notifications. *)
Lemma consume_run_spec msgs key slot p : ∀ m n m' out,
  allocation_at m key slot =
    (if decide (n = 0%N) then no_allocation
     else {| sma_payload := Some p; sma_pending_consumers := n |}) →
  consume_run m msgs = (m', out) →
  let k := consumptions key slot msgs in
  allocation_at m' key slot =
    (if (k <? n)%N then {| sma_payload := Some p; sma_pending_consumers := n - k |}
     else no_allocation) ∧
  filter (λ x, x.1 = (key, slot)) out =
    (if decide (n = 0%N) then [] else if (k <? n)%N then [] else [((key, slot), p)]).
Proof.
  induction msgs as [|[key1 msg] msgs IH]; intros m n m' out Hm; simpl.
  { intros [= <- <-]. rewrite Hm. unfold consumptions. simpl. case_decide.
    - subst. done.
    - rewrite N.sub_0_r. by N_cmp. }
  destruct (payload_consumed m key1 msg) as [m1 dropped] eqn:E1.
  destruct (consume_run m1 msgs) as [m2 rest] eqn:E2. intros [= <- <-].
  apply payload_consumed_spec in E1 as [Ha Hd]. specialize (Ha key slot).
  unfold consumptions. rewrite filter_cons.
  destruct (decide (concerns key slot (key1, msg))) as [[Ek Es]|Hc]; simpl in *.
  - subst key1. rewrite Es, Hm in Ha, Hd. rewrite filter_app.
    destruct (decide (n = 0%N)) as [->|Hn]; simpl in *.
    + destruct (IH m1 0%N m2 rest Ha E2) as [H1 H2]. rewrite H1, H2, Hd. simpl.
      by N_cmp.
    + rewrite (decide_False (P := n = 0%N)) in Ha by done.
      destruct (decide (n = 1%N)) as [->|Hn1]; simpl in *.
      * destruct (IH m1 0%N m2 rest Ha E2) as [H1 H2]. rewrite H1, H2, Hd. simpl.
        rewrite filter_cons_True by (simpl; congruence). rewrite Es. by N_cmp.
      * destruct (IH m1 (n - 1)%N m2 rest) as [H1 H2]; [by rewrite decide_False by lia|done|].
        rewrite H1, H2, Hd. simpl. rewrite decide_False by lia. unfold consumptions.
        repeat N_case; try lia; (split; [|done]); f_equal; lia.
  - destruct (IH m1 n m2 rest) as [H1 H2]; [congruence|done|]. rewrite H1. split; [done|].
    rewrite filter_app, H2, filter_none; [done|].
    intros x (q & -> & _)%list_elem_of_fmap [= <- Hs]. by destruct Hc.
Qed.
End allocation_lemmas.

(** What is recorded for a slot: the first payload stays, the consumers add up. *)
Lemma insert_allocation_spec {C} m key (p : Payload C) n :
  (get_slot_handle p < kNoSlotHandle)%N → (0 < n)%N →
  let old := allocation_at m key (get_slot_handle p) in
  ∃ m', insert_allocation m key p n =
      Done (m', match sma_payload old with None => [] | Some _ => [p] end) ∧
    ∀ key' slot', allocation_at m' key' slot' =
      if decide ((key, get_slot_handle p) = (key', slot'))
      then {| sma_payload := Some (default p (sma_payload old));
              sma_pending_consumers := wrap64 (sma_pending_consumers old + n) |}
      else allocation_at m key' slot'.
Proof.
  intros Hs Hn old. unfold insert_allocation. rewrite (proj2 (N.eqb_neq n 0)) by lia.
  set (l := default [] (m !! key)). set (slot := get_slot_handle p) in *.
  rewrite wrap_small by (unfold fits, kNoSlotHandle, size_max in *; lia).
  set (l' := if (N.of_nat (length l) <=? slot)%N then resize_allocations (slot + 1) l else l).
  assert (∀ i, default no_allocation (l' !! i) = default no_allocation (l !! i)) as Hl'.
  { intros i. unfold l'. N_case; [|done]. unfold resize_allocations.
    rewrite take_ge by lia. destruct (l !! i) as [a|] eqn:E.
    - by rewrite (lookup_app_l_Some _ _ _ _ E).
    - rewrite lookup_app_r by (by apply lookup_ge_None). 
      destruct (replicate _ _ !! _) eqn:Er; [|done].
      by apply lookup_replicate in Er as [-> _]. }
  assert (N.to_nat slot < length l') as Hlt.
  { unfold l'. N_case; [|lia]. unfold resize_allocations.
    rewrite length_app, length_take, length_replicate. lia. }
  assert (∀ s, allocation_at (<[key := l']> m) key s = allocation_at m key s) as Hat.
  { intros s. unfold allocation_at. rewrite lookup_insert_eq. simpl. rewrite Hl'. unfold l.
    by destruct (m !! key). }
  destruct (lookup_lt_is_Some_2 l' (N.to_nat slot) Hlt) as [a Ha].
  assert (a = old) as ->.
  { unfold old. rewrite <-Hat. symmetry. eapply allocation_at_lookup; [|exact Ha].
    apply lookup_insert_eq. }
  unfold at_index. rewrite Ha. simpl.
  assert (∀ kept dropped, (match sma_payload old with None => (p, []) | Some p0 => (p0, [p]) end)
    = (kept, dropped) → kept = default p (sma_payload old) ∧
      dropped = match sma_payload old with None => [] | Some _ => [p] end) as Hkept
    by (by destruct (sma_payload old); intros ? ? [= <- <-]).
  destruct (match sma_payload old with None => _ | Some _ => _ end) as [kept dropped].
  destruct (Hkept kept dropped eq_refl) as [-> ->].
  eexists. split; [done|]. intros key' slot'.
  match goal with |- allocation_at (<[key := ?x]> m) _ _ = _ =>
    assert (<[key := x]> m = <[key := x]> (<[key := l']> m)) as -> by by rewrite insert_insert_eq
  end.
  rewrite (allocation_at_insert _ key l') by (apply lookup_insert_eq || done).
  case_decide as E; [done|]. unfold allocation_at at 1.
  destruct (decide (key = key')) as [<-|].
  - apply Hat.
  - by rewrite lookup_insert_ne.
Qed.

(** A fresh record for a slot. *)
Lemma insert_allocation_fresh {C} m key (p : Payload C) n :
  allocation_at m key (get_slot_handle p) = no_allocation →
  (get_slot_handle p < kNoSlotHandle)%N → (0 < n)%N → fits 64 n →
  ∃ m', insert_allocation m key p n = Done (m', []) ∧
    ∀ key' slot', allocation_at m' key' slot' =
      if decide ((key, get_slot_handle p) = (key', slot'))
      then {| sma_payload := Some p; sma_pending_consumers := n |}
      else allocation_at m key' slot'.
Proof.
  intros Hm Hs Hn Hf. pose proof (insert_allocation_spec m key p n Hs Hn) as Hi.
  rewrite Hm in Hi. simpl in Hi. by rewrite wrap_small in Hi.
Qed.

(** The manager of a key is in the map afterwards. *)
Lemma slot_manager_stored {C} `{Shm} ks (s s' : Shared_memory_managers C) key m :
  get_shared_memory_slot_manager ks s key = Done (m, s') → m_slot_managers s' !! key = Some m.
Proof.
  unfold get_shared_memory_slot_manager.
  destruct (m_slot_managers s !! key) as [m0|] eqn:E; [by intros [= -> ->]|].
  destruct (keys_find ks key) as [[sv inst]|]; [|done].
  intros (i & _ & Hk)%outcome_bind_Done. apply outcome_bind_Done in Hk as (j & _ & Hk).
  apply outcome_bind_Done in Hk as (r & _ & Hk). apply outcome_bind_Done in Hk as (x & _ & Hk).
  injection Hk as <- <-. simpl. apply lookup_insert_eq.
Qed.

(** What the metadata of a key says. *)
Lemma announced_metadata {C} `{Shm} ks (s s' : Shared_memory_managers C) key md :
  get_shared_memory_metadata ks s key = Done (md, s') →
  ∃ m, m_slot_managers s' !! key = Some m ∧
    fixed_string_to_string (path md) = Done (get_path m) ∧
    slot_size md = m_slot_size m ∧ slot_count md = m_slot_count m.
Proof.
  unfold get_shared_memory_metadata. intros ([m s1] & Hm & Hk)%outcome_bind_Done.
  apply outcome_bind_Done in Hk as (md1 & Hmd & Hk). injection Hk as -> ->.
  exists m. split; [by eapply slot_manager_stored|].
  unfold get_shared_memory_metadata_of in Hmd.
  apply outcome_bind_Done in Hmd as (p & Hp & Hk). injection Hk as <-. simpl.
  destruct (fixed_string_from_string _ _) eqn:E; simplify_eq/=.
  by apply fixed_string_to_string_Ok in E.
Qed.

(** The manager a peer opens. *)
Lemma opened_manager `{Shm} ro md p r ro' :
  fixed_string_to_string (path md) = Done p → ro !! p = None →
  get_read_only_shared_memory_slot_manager ro md = Done (r, ro') →
  ro_slot_size r = slot_size md ∧ ro_slot_count r = slot_count md ∧ ro' = <[p := r]> ro.
Proof.
  intros Hp Hro. unfold get_read_only_shared_memory_slot_manager. rewrite Hp. simpl.
  rewrite Hro. intros (x & Hx & Hk)%outcome_bind_Done.
  apply outcome_bind_Done in Hk as (m & Hm & Hk). injection Hk as <- <-.
  destruct x as [x|]; simplify_eq/=. unfold factory_open in Hx. rewrite Hp in Hx. simpl in Hx.
  destruct (shm_open p); [|done]. apply outcome_bind_Done in Hx as (y & Hy & Hk).
  injection Hk as <-. unfold make_read_only_slot_manager in Hy.
  destruct (_ && _); [|done]. by injection Hy as <-.
Qed.

(** ** Properties *)

(** C19: the lifetime of an event payload in shared memory. Recorded for [n]
    recipients in a slot with no pending payload, it is kept, its slot still
    owned, through every sequence of Payload_consumed messages with fewer than
    [n] of them for this service and slot; the [n]-th one destroys it, once,
    and frees the record; messages for other services and slots do not count. *)
Theorem pending_payload_lifetime {C} m key (p : Payload C) n msgs :
  allocation_at m key (get_slot_handle p) = no_allocation →
  (get_slot_handle p < kNoSlotHandle)%N → (0 < n)%N → fits 64 n →
  ∃ m' m'' out,
    insert_allocation m key p n = Done (m', []) ∧
    consume_run m' msgs = (m'', out) ∧
    let k := consumptions key (get_slot_handle p) msgs in
    allocation_at m'' key (get_slot_handle p) =
      (if (k <? n)%N then {| sma_payload := Some p; sma_pending_consumers := n - k |}
       else no_allocation) ∧
    filter (λ x, x.1 = (key, get_slot_handle p)) out =
      (if (k <? n)%N then [] else [((key, get_slot_handle p), p)]).
Proof.
  intros Hm Hs Hn Hf.
  destruct (insert_allocation_fresh m key p n Hm Hs Hn Hf) as (m' & Hi & Ha).
  destruct (consume_run m' msgs) as [m'' out] eqn:E. exists m', m'', out.
  split; [done|]. split; [done|].
  destruct (consume_run_spec msgs key (get_slot_handle p) p m' n m'' out) as [H1 H2].
  - rewrite Ha, decide_True by done. by rewrite decide_False by lia.
  - done.
  - split; [done|]. rewrite H2. by rewrite decide_False by lia.
Qed.

(** A payload that is not in shared memory ([kNoSlotHandle]) breaks
    [insert_allocation]: with at least one recipient, [slot_handle + 1] wraps
    to zero, the vector is emptied and indexed past its end. *)
Lemma insert_no_slot_faults {C} m key (p : Payload C) n :
  get_slot_handle p = kNoSlotHandle → (0 < n)%N →
  (N.of_nat (length (default [] (m !! key))) < 2 ^ 64)%N →
  insert_allocation m key p n = Fault Out_of_bounds.
Proof.
  intros Hs Hn Hl. unfold insert_allocation. rewrite (proj2 (N.eqb_neq n 0)) by lia.
  rewrite Hs. unfold kNoSlotHandle, size_max. rewrite (proj2 (N.leb_le _ _)) by lia. done.
Qed.

(** The payload a peer makes covers the slot. *)
Lemma peer_payload_covers_slot {C D} `{Shm} ks (s s' : Shared_memory_managers C) key md mgr
    ro ro' r h u w (cb : D) :
  get_shared_memory_metadata ks s key = Done (md, s') →
  m_slot_managers s' !! key = Some mgr → manager_ok mgr →
  fits 64 (m_slot_count mgr * m_slot_size mgr) →
  ro !! get_path mgr = None →
  get_read_only_shared_memory_slot_manager ro md = Done (r, ro') →
  get_memory mgr h = Ok w → (u ≤ m_slot_size mgr)%N →
  ∃ p, get_payload r {| slot_index := h; used_bytes := u |} cb = Some p ∧
    get_slot_handle p = h ∧
    (sp_addr (m_data p) - ro_base_address r = sp_addr w - m_base_address mgr)%N ∧
    sp_size (m_data p) = u ∧ sp_size w = m_slot_size mgr.
Proof.
  intros Hmd Hmgr Hok Hfit Hro Hr Hw Hu.
  apply announced_metadata in Hmd as (mgr' & Hmgr' & Hp & Hsz & Hct).
  assert (mgr' = mgr) as -> by congruence.
  apply (opened_manager ro md _ r ro' Hp Hro) in Hr as (Hrs & Hrc & _).
  destruct (get_memory_Ok mgr h w Hok Hfit Hw) as [Ha ->].
  unfold get_payload; simpl. rewrite Hrc, Hct, Hrs, Hsz. N_cmp.
  eexists. split; [done|]. unfold fits in Hfit. simpl.
  rewrite wrap_small by (unfold fits; nia). split_and!; try done; lia.
Qed.

(** What the producer writes is what the consumer reads. When a service's
    manager announces its memory and a peer opens it for the first time, the
    payload the peer makes for a slot covers, relative to its own mapping, the
    bytes of that slot in the producer's mapping, cut to the announced length. *)
Theorem consumer_sees_slot {C D} `{Shm} ks (s s' : Shared_memory_managers C) key md mgr
    ro ro' r h u w (cb : D) :
  get_shared_memory_metadata ks s key = Done (md, s') →
  m_slot_managers s' !! key = Some mgr → manager_ok mgr →
  fits 64 (m_slot_count mgr * m_slot_size mgr) →
  ro !! get_path mgr = None →
  get_read_only_shared_memory_slot_manager ro md = Done (r, ro') →
  get_memory mgr h = Ok w → (u ≤ m_slot_size mgr)%N →
  ∃ p, get_payload r {| slot_index := h; used_bytes := u |} cb = Some p ∧
    get_slot_handle p = h ∧
    (sp_addr (m_data p) - ro_base_address r = sp_addr w - m_base_address mgr)%N ∧
    sp_size (m_data p) = u ∧ sp_size w = m_slot_size mgr.
Proof. apply peer_payload_covers_slot. Qed.

(** The map of opened memory is searched by path alone. Metadata that
    announces another slot size under a path that is already open yields the
    old manager, and the payload for slot 1 starts at the old slot size. *)
Theorem reopened_memory_is_stale {C} `{Shm} (ro : gmap string Read_only_slot_manager)
    r md p (cb : C) :
  fixed_string_to_string (path md) = Done p → ro !! p = Some r →
  (1 < ro_slot_count r)%N → fits 64 (ro_slot_size r) →
  get_read_only_shared_memory_slot_manager ro md = Done (r, ro) ∧
  ∃ q, get_payload r {| slot_index := 1; used_bytes := slot_size md |} cb = Some q ∧
    m_data q = {| sp_addr := ro_base_address r + ro_slot_size r;
                  sp_size := N.min (slot_size md) (ro_slot_size r) |}.
Proof.
  intros Hp Hro Hc Hf. unfold get_read_only_shared_memory_slot_manager. rewrite Hp. simpl.
  rewrite Hro. split; [done|]. unfold get_payload. simpl. N_cmp. eexists. split; [done|].
  unfold make_read_only_shared_memory_payload, make_payload. cbn [m_data].
  by rewrite N.mul_1_l, wrap_small.
Qed.

(** ** Witnesses *)

Definition demo_payload : Payload unit :=
  make_payload {| sp_addr := 4096; sp_size := 64 |} 1 tt 0 0.
Definition demo_consumed (slot : N) : Payload_consumed :=
  {| pc_required_id := 1; pc_handle := {| slot_index := slot; used_bytes := 64 |} |}.

Lemma pending_payload_lifetime_witness : ∃ m' m'' out,
  insert_allocation ∅ 7 demo_payload 2 = Done (m', []) ∧
  consume_run m' [(7%N, demo_consumed 1); (7%N, demo_consumed 0); (7%N, demo_consumed 1)]
    = (m'', out) ∧
  filter (λ x, x.1 = (7, 1)%N) out = [((7, 1)%N, demo_payload)].
Proof.
  destruct (pending_payload_lifetime ∅ 7 demo_payload 2
    [(7%N, demo_consumed 1); (7%N, demo_consumed 0); (7%N, demo_consumed 1)])
    as (m' & m'' & out & H1 & H2 & _ & H3); [done..|].
  exists m', m'', out. by split_and!.
Defined.

Lemma insert_no_slot_faults_witness :
  insert_allocation (C := unit) ∅ 7
    (make_payload {| sp_addr := 0; sp_size := 8 |} kNoSlotHandle tt 0 0) 1 = Fault Out_of_bounds.
Proof. by apply insert_no_slot_faults. Defined.

Definition demo_keys : Keys :=
  keys_insert keys_init
    {| sii_id := "a"; sii_version := {| major := 1; minor := 0 |} |} "x"
    (demo_service "a"%char) (demo_id "x"%char) 0 1.

Definition demo_metadata : Shared_memory_metadata :=
  {| path := {| fsc_size := 2; fsc_data := "/"%char :: "m"%char :: replicate 253 Ascii.zero |};
     slot_size := 64; slot_count := 2 |}.

Definition demo_managers : Shared_memory_managers unit :=
  {| smm_configuration := insert_configuration ∅
       {| sii_id := "a"; sii_version := {| major := 1; minor := 0 |} |} "x" demo_metadata;
     m_slot_managers :=
       {[ 0%N := store_count (make_slot_manager 64 2 "/m" 4096) 1 1 ]};
     m_shared_memory_allocations := ∅ |}.

Lemma consumer_sees_slot_witness : ∃ md s' mgr r ro' w p,
  @get_shared_memory_metadata _ (granting_shm 9000) demo_keys demo_managers 0 = Done (md, s') ∧
  m_slot_managers s' !! 0%N = Some mgr ∧ get_memory mgr 1 = Ok w ∧
  get_payload r {| slot_index := 1; used_bytes := 10 |} tt = Some p ∧
  @get_read_only_shared_memory_slot_manager (granting_shm 9000) ∅ md = Done (r, ro') ∧
  sp_addr (m_data p) = 9064%N ∧ sp_addr w = 4160%N ∧ sp_size (m_data p) = 10%N.
Proof.
  eexists _, _, _, _, _, _.
  destruct (@consumer_sees_slot unit unit (granting_shm 9000) demo_keys demo_managers
    demo_managers 0 demo_metadata (store_count (make_slot_manager 64 2 "/m" 4096) 1 1)
    ∅ {[ "/m" := {| ro_base_address := 9000; ro_slot_size := 64; ro_slot_count := 2 |} ]}
    {| ro_base_address := 9000; ro_slot_size := 64; ro_slot_count := 2 |} 1 10
    {| sp_addr := 4160; sp_size := 64 |} tt) as (p & Hp & _ & _ & Hsz & _);
    [reflexivity|reflexivity|apply manager_ok_store, manager_ok_make|by vm_compute
    |reflexivity|reflexivity|reflexivity|by vm_compute|].
  exists p. split_and!; [reflexivity|reflexivity|reflexivity|exact Hp|reflexivity|
    |reflexivity|done].
  by injection Hp as <-.
Defined.

Lemma reopened_memory_is_stale_witness :
  let r := {| ro_base_address := 9000; ro_slot_size := 32; ro_slot_count := 2 |} in
  slot_size demo_metadata = 64%N ∧
  ∃ q, get_payload r {| slot_index := 1; used_bytes := 64 |} tt = Some q ∧
    m_data q = {| sp_addr := 9032; sp_size := 32 |}.
Proof.
  split; [done|].
  destruct (@reopened_memory_is_stale unit (granting_shm 9000)
    {[ "/m" := {| ro_base_address := 9000; ro_slot_size := 32; ro_slot_count := 2 |} ]}
    {| ro_base_address := 9000; ro_slot_size := 32; ro_slot_count := 2 |}
    demo_metadata "/m" tt) as [_ H]; [reflexivity..|exact H].
Defined.
