(* ===== verification/ServiceState.v ===== *)
(** * Service states

    [src/score/gateway_ipc_binding/impl/service_state.hpp] and
    [impl/pending_connects.hpp]: what a binding knows about each service key
    (who requested it, which peers offer it, the connectors it created and the
    event subscriptions of the peers), and the handshakes under way.

    Connectors are objects of the socom runtime; a connector is its identity
    here and the calls the code makes on it ([Connector_call]) are part of an
    operation's result. An iteration over an unordered map visits the entries
    in the order of [map_to_list], which stands for any fixed order. *)

From stdpp Require Import base numbers list gmap strings.
From S2P Require Import Prelude.
From S2P Require Import IpcTypes.

(** ** Data *)

Abbreviation Connector := N (only parsing).

Record Event_subscription_endpoint : Type := {
  ep_client_id : Client_id;
  ep_provided_id : Remote_handle;
}.

#[export] Instance Event_subscription_endpoint_eq_dec :
  EqDecision Event_subscription_endpoint.
Proof. solve_decision. Defined.
#[export] Instance Event_subscription_endpoint_countable :
  Countable Event_subscription_endpoint.
Proof.
  refine (inj_countable' (λ e, (ep_client_id e, ep_provided_id e))
    (λ p, Build_Event_subscription_endpoint p.1 p.2) _).
  by intros [].
Defined.

Abbreviation Event_subscriber_set := (gset Event_subscription_endpoint).
Abbreviation Event_subscribers := (gmap N Event_subscriber_set).

Record Service_counts : Type := { num_methods : N; num_events : N }.

Record Offer_state : Type := {
  offered : bool;
  connect_sent : bool;
  os_required_id : Remote_handle;
}.

(** [Offer_state{}]. *)
Definition no_offer : Offer_state :=
  {| offered := false; connect_sent := false; os_required_id := 0 |}.

Record Service_state : Type := {
  ss_service : Service_interface_identifier;
  ss_instance : Service_instance;
  ss_counts : Service_counts;
  ss_requested : bool;
  ss_offers : gmap N Offer_state;
  ss_client_connector : option Connector;
  ss_client_connector_pending : bool;
  ss_enabled_connector : option Connector;
  ss_event_subscriptions : Event_subscribers;
}.

(** What the code does to a client connector. *)
Inductive Connector_call : Type :=
  | subscribe_event (connector : Connector) (event_id : Event_id)
  | unsubscribe_event (connector : Connector) (event_id : Event_id).

(** The constructor [Service_state(service, instance)]. *)
Definition make_service_state (service : Service_interface_identifier)
    (instance : Service_instance) : Service_state :=
  {| ss_service := service; ss_instance := instance;
     ss_counts := {| num_methods := 0; num_events := 0 |};
     ss_requested := false; ss_offers := ∅; ss_client_connector := None;
     ss_client_connector_pending := false; ss_enabled_connector := None;
     ss_event_subscriptions := ∅ |}.

(** Assignments to the members. *)
Section updates.
Context (s : Service_state).
Definition set_requested (c : Service_counts) (b : bool) : Service_state :=
  {| ss_service := ss_service s; ss_instance := ss_instance s; ss_counts := c;
     ss_requested := b; ss_offers := ss_offers s;
     ss_client_connector := ss_client_connector s;
     ss_client_connector_pending := ss_client_connector_pending s;
     ss_enabled_connector := ss_enabled_connector s;
     ss_event_subscriptions := ss_event_subscriptions s |}.
Definition set_offers (o : gmap N Offer_state) : Service_state :=
  {| ss_service := ss_service s; ss_instance := ss_instance s; ss_counts := ss_counts s;
     ss_requested := ss_requested s; ss_offers := o;
     ss_client_connector := ss_client_connector s;
     ss_client_connector_pending := ss_client_connector_pending s;
     ss_enabled_connector := ss_enabled_connector s;
     ss_event_subscriptions := ss_event_subscriptions s |}.
Definition set_client_connector (c : option Connector) (pending : bool) : Service_state :=
  {| ss_service := ss_service s; ss_instance := ss_instance s; ss_counts := ss_counts s;
     ss_requested := ss_requested s; ss_offers := ss_offers s;
     ss_client_connector := c; ss_client_connector_pending := pending;
     ss_enabled_connector := ss_enabled_connector s;
     ss_event_subscriptions := ss_event_subscriptions s |}.
Definition set_enabled_connector (c : option Connector) : Service_state :=
  {| ss_service := ss_service s; ss_instance := ss_instance s; ss_counts := ss_counts s;
     ss_requested := ss_requested s; ss_offers := ss_offers s;
     ss_client_connector := ss_client_connector s;
     ss_client_connector_pending := ss_client_connector_pending s;
     ss_enabled_connector := c;
     ss_event_subscriptions := ss_event_subscriptions s |}.
Definition set_event_subscriptions (e : Event_subscribers) : Service_state :=
  {| ss_service := ss_service s; ss_instance := ss_instance s; ss_counts := ss_counts s;
     ss_requested := ss_requested s; ss_offers := ss_offers s;
     ss_client_connector := ss_client_connector s;
     ss_client_connector_pending := ss_client_connector_pending s;
     ss_enabled_connector := ss_enabled_connector s;
     ss_event_subscriptions := e |}.
End updates.

(** ** Event subscriptions *)

(** [connector->unsubscribe_event(e)] unless the connector is null. *)
Definition unsubscribe_calls (connector : option Connector) (es : list Event_id) :
    list Connector_call :=
  match connector with
  | None => []
  | Some c => unsubscribe_event c <$> es
  end.

(** The common loop of [remove_event_subscriptions] and
    [remove_event_subscription]: [f] erases endpoints from one set; an event
    whose set is empty then is unsubscribed and erased. *)
Definition erase_subscribers (f : Event_subscriber_set → Event_subscriber_set)
    (connector : option Connector) (subs : Event_subscribers) :
    Event_subscribers * list Connector_call :=
  (omap (λ s, if decide (f s = ∅) then None else Some (f s)) subs,
   unsubscribe_calls connector (filter (λ e, f (subs !!! e) = ∅) (map_to_list subs).*1)).

Definition remove_event_subscriptions (s : Service_state) (client_id : Client_id)
    (connector : option Connector) : Service_state * list Connector_call :=
  let '(subs, calls) := erase_subscribers
    (filter (λ e, ep_client_id e ≠ client_id)) connector (ss_event_subscriptions s) in
  (set_event_subscriptions s subs, calls).

Definition remove_event_subscription (s : Service_state)
    (endpoint : Event_subscription_endpoint) (connector : option Connector) :
    Service_state * list Connector_call :=
  let '(subs, calls) := erase_subscribers
    (.∖ {[ endpoint ]}) connector (ss_event_subscriptions s) in
  (set_event_subscriptions s subs, calls).

(** The part of [Service_states::update_event_subscription] after the state
    was found. *)
Definition update_subscription (s : Service_state) (endpoint : Event_subscription_endpoint)
    (event_id : Event_id) (subscribe : bool) : Service_state * list Connector_call :=
  let subs := ss_event_subscriptions s in
  let connector := ss_client_connector s in
  if subscribe then
    let subscribers := default ∅ (subs !! event_id) in
    let inserted := bool_decide (endpoint ∉ subscribers) in
    let subscribers' := {[ endpoint ]} ∪ subscribers in
    (set_event_subscriptions s (<[event_id := subscribers']> subs),
     match connector with
     | Some c =>
       if inserted && (size subscribers' =? 1) then [subscribe_event c event_id] else []
     | None => []
     end)
  else
    match subs !! event_id with
    | None => (s, [])
    | Some subscribers =>
      let subscribers' := subscribers ∖ {[ endpoint ]} in
      if decide (subscribers' = ∅) then
        (set_event_subscriptions s (delete event_id subs),
         unsubscribe_calls connector [event_id])
      else (set_event_subscriptions s (<[event_id := subscribers']> subs), [])
    end.

(** ** The states of all services *)

Abbreviation Service_states := (gmap N Service_state).

(** [get_or_create]: the identifiers are built before the lookup. *)
Definition get_or_create (m : Service_states) (key : Key_t) (interface : Service)
    (instance : Instance_id) : outcome (Service_state * Service_states) :=
  service ← to_socom_identifier interface;
  inst ← fixed_string_to_string instance;
  match m !! key with
  | Some s => Done (s, m)
  | None => let s := make_service_state service inst in Done (s, <[key := s]> m)
  end.

Definition add_service (m : Service_states) (key : Key_t) (interface : Service)
    (instance : Instance_id) (counts : Service_counts) : outcome Service_states :=
  '(s, m) ← get_or_create m key interface instance;
  Done (<[key := set_requested s counts true]> m).

(** [process_offer]: the states, and the server connector to be destroyed. *)
Definition process_offer (m : Service_states) (key : Key_t) (client_id : Client_id)
    (msg : Offer_service) : outcome (Service_states * option Connector) :=
  '(s, m) ← get_or_create m key (os_service_id msg) (os_instance_id msg);
  if negb (os_offered msg) then
    Done (<[key := set_enabled_connector (set_offers s (delete client_id (ss_offers s))) None]> m,
          ss_enabled_connector s)
  else
    let o := default no_offer (ss_offers s !! client_id) in
    Done (<[key := set_offers s (<[client_id :=
            {| offered := true; connect_sent := connect_sent o;
               os_required_id := os_required_id o |}]> (ss_offers s))]> m, None).

(** [process_request_service]: the states, whether a state is returned, the
    server connector handed back, and the client connector that an erased state
    takes with it. *)
Definition process_request_service (m : Service_states) (key : Key_t)
    (counts : Service_counts) (msg : Request_service) :
    outcome (Service_states * bool * option Connector * option Connector) :=
  '(s, m) ← get_or_create m key (rs_service_id msg) (rs_instance_id msg);
  if negb (rs_in_use msg) then
    Done (delete key m, false, ss_enabled_connector s, ss_client_connector s)
  else Done (<[key := set_requested s counts true]> m, true, None, None).

(** [add_server_connector]: the states, and the connector the assignment (or
    the early return) destroys. *)
Definition add_server_connector (m : Service_states) (key : Key_t) (connector : Connector) :
    Service_states * option Connector :=
  match m !! key with
  | None => (m, Some connector)
  | Some s =>
    (<[key := set_enabled_connector s (Some connector)]> m, ss_enabled_connector s)
  end.

Definition mark_client_connector_pending (m : Service_states) (key : Key_t)
    (interface : Service) (instance : Instance_id) : outcome Service_states :=
  '(s, m) ← get_or_create m key interface instance;
  Done (<[key := set_client_connector s (ss_client_connector s) true]> m).

Definition clear_client_connector_pending (m : Service_states) (key : Key_t) : Service_states :=
  alter (λ s, set_client_connector s (ss_client_connector s) false) key m.

(** [add_client_connector]: asserts that the state exists; the connector it
    replaces is destroyed. *)
Definition add_client_connector (m : Service_states) (key : Key_t) (connector : Connector) :
    outcome (Service_states * option Connector) :=
  match m !! key with
  | None => Fault Assertion_failed
  | Some s =>
    Done (<[key := set_client_connector s (Some connector) false]> m, ss_client_connector s)
  end.

Definition remove_client_connector (m : Service_states) (key : Key_t) :
    Service_states * option Connector :=
  match m !! key with
  | None => (m, None)
  | Some s => (<[key := set_client_connector s None false]> m, ss_client_connector s)
  end.

(** One iteration of [remove_offers]. *)
Definition remove_offer (client_id : Client_id) (s : Service_state) :
    Service_state * option Connector :=
  match ss_offers s !! client_id with
  | None => (s, None)
  | Some _ =>
    let s := set_offers s (delete client_id (ss_offers s)) in
    if decide (ss_offers s = ∅) then
      (set_enabled_connector (set_event_subscriptions s ∅) None, ss_enabled_connector s)
    else (s, None)
  end.

Definition remove_offers (m : Service_states) (client_id : Client_id) :
    Service_states * list Connector :=
  ((λ s, (remove_offer client_id s).1) <$> m,
   omap (λ '(_, s), (remove_offer client_id s).2) (map_to_list m)).

Definition release_client_connectors (m : Service_states) : Service_states * list Connector :=
  ((λ s, set_client_connector s None false) <$> m,
   omap (λ '(_, s), ss_client_connector s) (map_to_list m)).

Definition has_connector (m : Service_states) (key : Key_t) : bool :=
  match m !! key with
  | Some s => bool_decide (is_Some (ss_enabled_connector s))
  | None => false
  end.

Definition has_client_connector (m : Service_states) (key : Key_t) : bool :=
  match m !! key with
  | Some s => ss_client_connector_pending s || bool_decide (is_Some (ss_client_connector s))
  | None => false
  end.

Definition update_event_subscription (m : Service_states) (key : Key_t)
    (endpoint : Event_subscription_endpoint) (event_id : Event_id) (subscribe : bool) :
    Service_states * list Connector_call :=
  match m !! key with
  | None => (m, [])
  | Some s =>
    let '(s', calls) := update_subscription s endpoint event_id subscribe in
    (<[key := s']> m, calls)
  end.

Definition remove_event_subscriptions_for_client (m : Service_states) (client_id : Client_id) :
    Service_states * list Connector_call :=
  ((λ s, (remove_event_subscriptions s client_id (ss_client_connector s)).1) <$> m,
   '(_, s) ← map_to_list m;
   (remove_event_subscriptions s client_id (ss_client_connector s)).2).

Definition remove_event_subscriptions_for_connection (m : Service_states) (key : Key_t)
    (client_id : Client_id) (provided_id : Remote_handle) :
    Service_states * list Connector_call :=
  match m !! key with
  | None => (m, [])
  | Some s =>
    let '(s', calls) := remove_event_subscription s
      {| ep_client_id := client_id; ep_provided_id := provided_id |}
      (ss_client_connector s) in
    (<[key := s']> m, calls)
  end.

Definition clear_event_subscriptions (m : Service_states) (key : Key_t) : Service_states :=
  alter (λ s, set_event_subscriptions s ∅) key m.

(** ** Pending handshakes *)

Record Pending_connect : Type := {
  pcn_key : Key_t;
  pcn_client_id : Client_id;
}.

Abbreviation Pending_connects := (gmap N Pending_connect).

Definition clear_pending_connects (checker : Pending_connect → bool) (m : Pending_connects) :
    Pending_connects :=
  filter (λ kv, checker kv.2 = false) m.

Definition clear_pending_connects_for_key (key : Key_t) : Pending_connects → Pending_connects :=
  clear_pending_connects (λ val, (pcn_key val =? key)%N).

(** [emplace]: does nothing when the handle is already there. *)
Definition pending_emplace (m : Pending_connects) (remote_handle : Remote_handle)
    (t : Pending_connect) : Pending_connects :=
  match m !! remote_handle with
  | Some _ => m
  | None => <[remote_handle := t]> m
  end.

(** ** Sequences of subscription changes *)

(** The operations on one state that change its subscriptions, its offers or its client
    connector. *)
Inductive sub_op : Type :=
  | Update (endpoint : Event_subscription_endpoint) (event_id : Event_id) (subscribe : bool)
  | Drop_client (client_id : Client_id)
  | Drop_endpoint (endpoint : Event_subscription_endpoint)
  | Clear_subscriptions
  | Offered (client_id : Client_id)
  | Withdrawn (client_id : Client_id)
  | Remove_offers (client_id : Client_id)
  | Set_connector (connector : Connector)
  | Reset_connector.

Definition sub_step (s : Service_state) (op : sub_op) : Service_state * list Connector_call :=
  match op with
  | Update ep e b => update_subscription s ep e b
  | Drop_client c => remove_event_subscriptions s c (ss_client_connector s)
  | Drop_endpoint ep => remove_event_subscription s ep (ss_client_connector s)
  | Clear_subscriptions => (set_event_subscriptions s ∅, [])
  | Offered c =>
    let o := default no_offer (ss_offers s !! c) in
    (set_offers s (<[c := {| offered := true; connect_sent := connect_sent o;
                             os_required_id := os_required_id o |}]> (ss_offers s)), [])
  | Withdrawn c =>
    (set_enabled_connector (set_offers s (delete c (ss_offers s))) None, [])
  | Remove_offers c => ((remove_offer c s).1, [])
  | Set_connector c => (set_client_connector s (Some c) false, [])
  | Reset_connector => (set_client_connector s None false, [])
  end.

(** The calls on the connector, operation by operation. *)
Fixpoint sub_run (s : Service_state) (ops : list sub_op) :
    Service_state * list (list Connector_call) :=
  match ops with
  | [] => (s, [])
  | op :: ops' =>
    let '(s1, calls1) := sub_step s op in
    let '(s2, calls2) := sub_run s1 ops' in
    (s2, calls1 :: calls2)
  end.

(** Specification: the set of (event, endpoint) pairs that are subscribed, the peers that
    offer the service, and the connector. *)
Record Subscriptions : Type := {
  sb_pairs : gset (Event_id * Event_subscription_endpoint);
  sb_offers : gset Client_id;
  sb_connector : option Connector;
}.

Definition no_subscriptions : Subscriptions :=
  {| sb_pairs := ∅; sb_offers := ∅; sb_connector := None |}.
Definition with_pairs (t : Subscriptions) pairs : Subscriptions :=
  {| sb_pairs := pairs; sb_offers := sb_offers t; sb_connector := sb_connector t |}.
Definition with_offers (t : Subscriptions) offers : Subscriptions :=
  {| sb_pairs := sb_pairs t; sb_offers := offers; sb_connector := sb_connector t |}.
Definition with_connector (t : Subscriptions) connector : Subscriptions :=
  {| sb_pairs := sb_pairs t; sb_offers := sb_offers t; sb_connector := connector |}.

Definition spec_sub (t : Subscriptions) (op : sub_op) : Subscriptions :=
  match op with
  | Update ep e true => with_pairs t ({[ (e, ep) ]} ∪ sb_pairs t)
  | Update ep e false => with_pairs t (sb_pairs t ∖ {[ (e, ep) ]})
  | Drop_client c => with_pairs t (filter (λ x, ep_client_id x.2 ≠ c) (sb_pairs t))
  | Drop_endpoint ep => with_pairs t (filter (λ x, x.2 ≠ ep) (sb_pairs t))
  | Clear_subscriptions => with_pairs t ∅
  | Offered c => with_offers t ({[ c ]} ∪ sb_offers t)
  | Withdrawn c => with_offers t (sb_offers t ∖ {[ c ]})
  | Remove_offers c =>
    with_offers (if decide (sb_offers t = {[ c ]}) then with_pairs t ∅ else t)
      (sb_offers t ∖ {[ c ]})
  | Set_connector c => with_connector t (Some c)
  | Reset_connector => with_connector t None
  end.

(** The events that have a subscriber. *)
Definition sb_events (t : Subscriptions) : gset Event_id := set_map fst (sb_pairs t).

(** The calls of an operation: the first subscriber of an event subscribes the connector,
    the last one that is removed unsubscribes it. Clearing calls nothing. *)
Definition spec_calls (t : Subscriptions) (op : sub_op) : list Connector_call :=
  match op, sb_connector t with
  | Update _ _ _, Some c | Drop_client _, Some c | Drop_endpoint _, Some c =>
    let t' := spec_sub t op in
    (subscribe_event c <$> elements (sb_events t' ∖ sb_events t)) ++
    (unsubscribe_event c <$> elements (sb_events t ∖ sb_events t'))
  | _, _ => []
  end.

Fixpoint spec_run_calls (t : Subscriptions) (ops : list sub_op) : list (list Connector_call) :=
  match ops with
  | [] => []
  | op :: ops => spec_calls t op :: spec_run_calls (spec_sub t op) ops
  end.

(** Operations that neither clear subscriptions nor replace the connector. *)
Definition undisturbed (op : sub_op) : bool :=
  match op with
  | Clear_subscriptions | Remove_offers _ | Set_connector _ | Reset_connector => false
  | _ => true
  end.

(** The events a connector is subscribed to after some calls; [None] when a
    call subscribes twice, unsubscribes what is not subscribed, or goes to
    another connector. *)
Fixpoint replay (c : Connector) (calls : list Connector_call) (events : gset Event_id) :
    option (gset Event_id) :=
  match calls with
  | [] => Some events
  | subscribe_event c' e :: calls' =>
    if decide (c' = c ∧ e ∉ events) then replay c calls' ({[ e ]} ∪ events) else None
  | unsubscribe_event c' e :: calls' =>
    if decide (c' = c ∧ e ∈ events) then replay c calls' (events ∖ {[ e ]}) else None
  end.

(** No event is kept without a subscriber. *)
Definition subs_ok (subs : Event_subscribers) : Prop :=
  ∀ e s, subs !! e = Some s → s ≠ ∅.

(** The subscribed pairs of a map of subscribers. *)
Definition subs_agree (subs : Event_subscribers)
    (t : gset (Event_id * Event_subscription_endpoint)) : Prop :=
  ∀ e ep, ep ∈ subs !!! e ↔ (e, ep) ∈ t.

(** A state and its specification. *)
Record sub_rel (s : Service_state) (t : Subscriptions) : Prop := {
  sr_ok : subs_ok (ss_event_subscriptions s);
  sr_pairs : subs_agree (ss_event_subscriptions s) (sb_pairs t);
  sr_offers : dom (ss_offers s) = sb_offers t;
  sr_connector : ss_client_connector s = sb_connector t;
}.

(** The calls that take a connector from one set of events to another one. *)
Definition moves (c : Connector) (from to : gset Event_id) : list Connector_call :=
  (subscribe_event c <$> elements (to ∖ from)) ++
  (unsubscribe_event c <$> elements (from ∖ to)).

(** ** Lemmas *)

Lemma replay_app c calls1 calls2 events :
  replay c (calls1 ++ calls2) events = replay c calls1 events ≫= replay c calls2.
Proof.
  revert events. induction calls1 as [|[c' e|c' e] calls1 IH]; intros events; simpl;
    [done|by case_decide..].
Qed.

Lemma elements_take_out (e : Event_id) (X Y : gset Event_id) :
  e ∈ X → Y = X ∖ {[ e ]} → elements X ≡ₚ e :: elements Y.
Proof.
  intros He ->. rewrite <-elements_union_singleton by set_solver.
  by replace ({[ e ]} ∪ X ∖ {[ e ]}) with X
    by (apply set_eq; intros x; destruct (decide (x = e)); set_solver).
Qed.

(** The calls may be made in any order. *)
Lemma replay_moves c calls : ∀ from to, calls ≡ₚ moves c from to → replay c calls from = Some to.
Proof.
  unfold moves. induction calls as [|call calls IH]; intros from to Hp.
  { symmetry in Hp. apply Permutation_nil_r, app_nil in Hp as [H1%fmap_nil_inv H2%fmap_nil_inv].
    apply elements_empty_inv in H1, H2. simpl. f_equal. apply set_eq. intros x.
    specialize (H1 x). specialize (H2 x). destruct (decide (x ∈ from)), (decide (x ∈ to)); set_solver. }
  assert (call ∈ call :: calls) as Hin by left. rewrite Hp in Hin.
  apply elem_of_app in Hin as [(e & -> & He)%list_elem_of_fmap|(e & -> & He)%list_elem_of_fmap];
    apply elem_of_elements in He; simpl.
  - rewrite decide_True by set_solver. apply IH.
    rewrite (elements_take_out e _ (to ∖ ({[ e ]} ∪ from))) in Hp by set_solver. simpl in Hp.
    apply Permutation_cons_inv in Hp. rewrite Hp.
    by replace (({[ e ]} ∪ from) ∖ to) with (from ∖ to) by set_solver.
  - rewrite decide_True by set_solver. apply IH.
    rewrite (elements_take_out e (from ∖ to) (from ∖ {[ e ]} ∖ to)) in Hp by set_solver.
    simpl in Hp. apply Permutation_cons_app_inv in Hp. rewrite Hp.
    by replace (to ∖ (from ∖ {[ e ]})) with (to ∖ from) by set_solver.
Qed.

Lemma lookup_total_subs (subs : Event_subscribers) e :
  subs !!! e = default ∅ (subs !! e).
Proof. by rewrite lookup_total_alt. Qed.

Lemma subs_events subs t :
  subs_ok subs → subs_agree subs t → dom subs = set_map (D := gset Event_id) fst t.
Proof.
  intros Hok Ht. apply set_eq. intros e. rewrite elem_of_dom, elem_of_map. split.
  - intros [eps E]. destruct (set_choose_L eps (Hok e eps E)) as [ep Hep].
    exists (e, ep). split; [done|]. apply Ht. by rewrite lookup_total_subs, E.
  - intros ([? ep] & -> & Hp). apply Ht in Hp. simpl. rewrite lookup_total_subs in Hp.
    destruct (subs !! _); [done|]. simpl in Hp. set_solver.
Qed.

(** The loop that erases subscribers: the sets, and the calls it makes. *)
Lemma erase_subscribers_spec f connector subs subs' calls t
    (keep : Event_id * Event_subscription_endpoint → Prop) `{!∀ x, Decision (keep x)} :
  f ∅ = ∅ → (∀ e ep s, ep ∈ f s ↔ ep ∈ s ∧ keep (e, ep)) →
  erase_subscribers f connector subs = (subs', calls) →
  subs_ok subs → subs_agree subs t →
  subs_ok subs' ∧ subs_agree subs' (filter keep t) ∧
  calls ≡ₚ from_option (λ c, moves c (dom subs) (dom subs')) [] connector.
Proof.
  intros Hf0 Hf E Hok Ht. unfold erase_subscribers in E. injection E as <- <-. split_and!.
  - intros e s. rewrite lookup_omap. destruct (subs !! e) as [s0|]; simpl; [|done].
    case_decide; [done|]. by intros [= <-].
  - intros e ep. rewrite elem_of_filter, <-(Ht e ep), !lookup_total_subs, lookup_omap.
    destruct (subs !! e) as [s0|]; simpl; [|set_solver].
    rewrite (and_comm (keep _)), <-Hf. case_decide as E; simpl; [|done]. set_solver.
  - destruct connector as [c|]; [|done]. unfold moves, unsubscribe_calls. simpl.
    set (subs' := omap _ _).
    assert (∀ e, e ∈ dom subs' ↔ e ∈ dom subs ∧ f (subs !!! e) ≠ ∅) as Hd.
    { intros e. unfold subs'. rewrite !elem_of_dom, lookup_omap, lookup_total_subs.
      destruct (subs !! e) as [s0|]; simpl; [|split; [by intros []|by intros [[] _]]].
      case_decide as E; split; [by intros []|by intros [_ []]|done|eauto]. }
    replace (dom subs' ∖ dom subs) with (∅ : gset Event_id) by set_solver.
    rewrite elements_empty. simpl. apply fmap_Permutation, NoDup_Permutation.
    + apply NoDup_filter, NoDup_fst_map_to_list.
    + apply NoDup_elements.
    + intros e. rewrite elem_of_elements, elem_of_difference, Hd, list_elem_of_filter.
      assert (e ∈ (map_to_list subs).*1 ↔ e ∈ dom subs) as ->.
      { rewrite <-elem_of_elements. by rewrite dom_alt, elem_of_elements, elem_of_list_to_set. }
      destruct (decide (f (subs !!! e) = ∅)); naive_solver.
Qed.

(** One change of a subscription. *)
Lemma subscribe_spec s ep e t s' calls :
  sub_rel s t → update_subscription s ep e true = (s', calls) →
  sub_rel s' (spec_sub t (Update ep e true)) ∧
  calls ≡ₚ from_option (λ c, moves c (dom (ss_event_subscriptions s))
    (dom (ss_event_subscriptions s'))) [] (ss_client_connector s).
Proof.
  intros [Hok Ht Ho Hc]. unfold update_subscription.
  set (subs := ss_event_subscriptions s) in *.
  intros [= <- <-]. split.
  - split; simpl; [| |done|done].
    + intros e' s0. rewrite lookup_insert. case_decide; [intros [= <-]; set_solver|]. apply Hok.
    + intros e' ep'. specialize (Ht e' ep'). rewrite lookup_total_subs in *.
      rewrite lookup_insert. case_decide; subst; simpl; set_solver.
  - destruct (ss_client_connector s) as [c|]; [|done]. unfold moves. simpl. rewrite dom_insert_L.
    replace (dom subs ∖ ({[ e ]} ∪ dom subs)) with (∅ : gset Event_id) by set_solver.
    rewrite elements_empty, app_nil_r.
    destruct (subs !! e) as [s0|] eqn:Es; cbn [from_option id].
    + assert (e ∈ dom subs) as He by (by apply elem_of_dom).
      replace (({[ e ]} ∪ dom subs) ∖ dom subs) with (∅ : gset Event_id) by set_solver.
      assert (bool_decide (ep ∉ s0) && (size ({[ep]} ∪ s0) =? 1) = false) as ->; [|done].
      apply andb_false_iff. destruct (decide (ep ∈ s0)) as [Hin|Hin];
        [left; apply bool_decide_false; by intros []|right].
      rewrite size_union, size_singleton by set_solver.
      pose proof (Hok e s0 Es). apply Nat.eqb_neq.
      assert (size s0 ≠ 0) by (intros ?%size_empty_inv; set_solver). lia.
    + apply not_elem_of_dom in Es.
      replace (({[ e ]} ∪ dom subs) ∖ dom subs) with ({[ e ]} : gset Event_id) by set_solver.
      rewrite bool_decide_true, (right_id_L ∅ (∪)), size_singleton by set_solver. simpl.
      by rewrite elements_singleton.
Qed.

Lemma moves_same connector (D : gset Event_id) :
  from_option (λ c, moves c D D) [] connector = [].
Proof. destruct connector; [|done]. unfold moves. simpl. by rewrite difference_diag_L, elements_empty. Qed.

Lemma unsubscribe_spec s ep e t s' calls :
  sub_rel s t → update_subscription s ep e false = (s', calls) →
  sub_rel s' (spec_sub t (Update ep e false)) ∧
  calls ≡ₚ from_option (λ c, moves c (dom (ss_event_subscriptions s))
    (dom (ss_event_subscriptions s'))) [] (ss_client_connector s).
Proof.
  intros [Hok Ht Ho Hc]. unfold update_subscription.
  set (subs := ss_event_subscriptions s) in *.
  destruct (subs !! e) as [s0|] eqn:Es; [case_decide as Ed|]; intros [= <- <-]; cbn.
  - split; [split; simpl; [| |done|done]|].
    + intros e' s1 [_ ?]%lookup_delete_Some. by eapply Hok.
    + intros e' ep'. specialize (Ht e' ep'). rewrite lookup_total_subs in *.
      rewrite lookup_delete. case_decide; subst; simpl; [rewrite Es in Ht; simpl in Ht|];
        set_solver.
    + destruct (ss_client_connector s) as [c|]; [|done]. unfold moves. simpl. rewrite dom_delete_L.
      apply elem_of_dom_2 in Es.
      replace (dom subs ∖ {[ e ]} ∖ dom subs) with (∅ : gset Event_id) by set_solver.
      replace (dom subs ∖ (dom subs ∖ {[ e ]})) with ({[ e ]} : gset Event_id).
      { by rewrite elements_empty, elements_singleton. }
      apply set_eq. intros x. destruct (decide (x = e)); set_solver.
  - split; [split; simpl; [| |done|done]|].
    + intros e' s1. rewrite lookup_insert. case_decide; [by intros [= <-]|]. apply Hok.
    + intros e' ep'. specialize (Ht e' ep'). rewrite lookup_total_subs in *.
      rewrite lookup_insert. case_decide; subst; simpl; [rewrite Es in Ht; simpl in Ht|];
        set_solver.
    + rewrite dom_insert_L, (subseteq_union_1_L {[ e ]}), moves_same; [done|].
      apply elem_of_dom_2 in Es. set_solver.
  - split; [split; simpl; [done| |done|done]|by rewrite moves_same]. intros e' ep'.
    specialize (Ht e' ep'). fold subs. rewrite lookup_total_subs in *.
    destruct (decide (e = e')) as [<-|]; [|set_solver]. rewrite Es in *. simpl in *. set_solver.
Qed.

Lemma erase_spec f s t s' calls (keep : Event_id * Event_subscription_endpoint → Prop)
    `{!∀ x, Decision (keep x)} subs' :
  f ∅ = ∅ → (∀ e ep s, ep ∈ f s ↔ ep ∈ s ∧ keep (e, ep)) → sub_rel s t →
  erase_subscribers f (ss_client_connector s) (ss_event_subscriptions s) = (subs', calls) →
  s' = set_event_subscriptions s subs' →
  sub_rel s' (with_pairs t (filter keep (sb_pairs t))) ∧
  calls ≡ₚ from_option (λ c, moves c (dom (ss_event_subscriptions s))
    (dom (ss_event_subscriptions s'))) [] (ss_client_connector s).
Proof.
  intros Hf0 Hf [Hok Ht Ho Hc] E ->.
  destruct (erase_subscribers_spec f _ _ _ _ _ keep Hf0 Hf E Hok Ht) as (H1 & H2 & H3).
  by split; [split|].
Qed.

(** The operations that make calls on the connector. *)
Definition counting (op : sub_op) : bool :=
  match op with Update _ _ _ | Drop_client _ | Drop_endpoint _ => true | _ => false end.

Lemma counting_spec s op t s' calls :
  counting op = true → sub_rel s t → sub_step s op = (s', calls) →
  sub_rel s' (spec_sub t op) ∧
  calls ≡ₚ from_option (λ c, moves c (dom (ss_event_subscriptions s))
    (dom (ss_event_subscriptions s'))) [] (ss_client_connector s).
Proof.
  intros Hop Ht E. destruct op as [ep e []|c'|ep| | | | | |]; try done; simpl in E.
  - by eapply subscribe_spec.
  - by eapply unsubscribe_spec.
  - unfold remove_event_subscriptions in E.
    destruct (erase_subscribers _ _ _) as [subs' calls'] eqn:E'. injection E as <- <-.
    eapply erase_spec; [..|exact E'|done]; [done| |done].
    intros e ep s0. rewrite elem_of_filter. naive_solver.
  - unfold remove_event_subscription in E.
    destruct (erase_subscribers _ _ _) as [subs' calls'] eqn:E'. injection E as <- <-.
    eapply erase_spec; [..|exact E'|done]; [set_solver| |done]. intros e ep' s0. set_solver.
Qed.

Lemma cleared_rel s t :
  sub_rel s t → sub_rel (set_event_subscriptions s ∅) (with_pairs t ∅).
Proof.
  intros [Hok Ht Ho Hc]. split; simpl; [done| |done|done]. intros e ep.
  rewrite lookup_total_subs, lookup_empty. set_solver.
Qed.

Lemma quiet_spec s op t :
  counting op = false → sub_rel s t →
  (sub_step s op).2 = [] ∧ sub_rel (sub_step s op).1 (spec_sub t op).
Proof.
  intros Hop Ht. pose proof Ht as [Hok Hp Ho Hc].
  destruct op; try discriminate Hop; simpl.
  - split; [done|]. by apply cleared_rel.
  - split; [done|]. split; simpl; try done. by rewrite dom_insert_L, Ho.
  - split; [done|]. split; simpl; try done. by rewrite dom_delete_L, Ho.
  - split; [done|]. unfold remove_offer. destruct (ss_offers s !! client_id) as [o|] eqn:Eo; simpl.
    + apply elem_of_dom_2 in Eo. rewrite Ho in Eo.
      assert (sb_offers t = {[ client_id ]} ↔ delete client_id (ss_offers s) = ∅) as Hlast.
      { rewrite <-dom_empty_iff_L, dom_delete_L, Ho. split; [intros ->; set_solver|].
        intros E. apply set_eq. intros x. destruct (decide (x = client_id)); set_solver. }
      destruct (decide (delete client_id (ss_offers s) = ∅)) as [E|E].
      * rewrite decide_True by by apply Hlast. destruct (cleared_rel s t Ht) as [H1 H2 _ _].
        split; simpl; try done. by rewrite dom_delete_L, Ho.
      * rewrite decide_False by by rewrite Hlast. split; simpl; try done.
        by rewrite dom_delete_L, Ho.
    + apply not_elem_of_dom in Eo. rewrite Ho in Eo.
      rewrite decide_False by set_solver. split; simpl; try done. rewrite Ho. set_solver.
  - by split.
  - by split.
Qed.

Lemma sub_step_spec s op t s' calls :
  sub_rel s t → sub_step s op = (s', calls) →
  sub_rel s' (spec_sub t op) ∧ calls ≡ₚ spec_calls t op.
Proof.
  intros Ht E. destruct (counting op) eqn:Hop.
  - destruct (counting_spec s op t s' calls Hop Ht E) as [Ht' Hp]. split; [done|]. rewrite Hp.
    destruct Ht as [Hok Ha _ Hc], Ht' as [Hok' Ha' _ _]. rewrite Hc, (subs_events _ _ Hok Ha),
      (subs_events _ _ Hok' Ha'). unfold spec_calls. by destruct op, (sb_connector t).
  - destruct (quiet_spec s op t Hop Ht) as [Hq Hr]. rewrite E in Hq, Hr. simpl in Hq, Hr.
    split; [done|]. rewrite Hq. unfold spec_calls. by destruct op, (sb_connector t).
Qed.

Lemma sub_run_spec ops : ∀ s t s' calls,
  sub_rel s t → sub_run s ops = (s', calls) →
  sub_rel s' (foldl spec_sub t ops) ∧ Forall2 (≡ₚ) calls (spec_run_calls t ops).
Proof.
  induction ops as [|op ops IH]; intros s t s' calls Ht; simpl.
  { intros [= <- <-]. by split. }
  destruct (sub_step s op) as [s1 calls1] eqn:E1.
  destruct (sub_run s1 ops) as [s2 calls2] eqn:E2. intros [= <- <-].
  destruct (sub_step_spec s op t s1 calls1 Ht E1) as [Ht1 Hc1].
  destruct (IH s1 _ s2 calls2 Ht1 E2) as [Ht2 Hc2]. split; [done|]. by constructor.
Qed.

(** While nothing is cleared or replaced, the calls lead from the events that had a
    subscriber to those that have one. *)
Lemma undisturbed_run ops c : ∀ s t s' calls,
  sub_rel s t → ss_client_connector s = Some c → Forall (λ op, undisturbed op = true) ops →
  sub_run s ops = (s', calls) →
  replay c (concat calls) (dom (ss_event_subscriptions s)) = Some (dom (ss_event_subscriptions s')).
Proof.
  induction ops as [|op ops IH]; intros s t s' calls Ht Hc Hu; simpl.
  { intros [= <- <-]. done. }
  apply Forall_cons in Hu as [Hop Hu].
  destruct (sub_step s op) as [s1 calls1] eqn:E1.
  destruct (sub_run s1 ops) as [s2 calls2] eqn:E2. intros [= <- <-]. simpl. rewrite replay_app.
  destruct (sub_step_spec s op t s1 calls1 Ht E1) as [Ht1 _].
  assert (ss_client_connector s1 = Some c) as Hc1.
  { rewrite (sr_connector _ _ Ht1), <-Hc, (sr_connector _ _ Ht). by destruct op as [? ? []| | | | | | | |]. }
  enough (replay c calls1 (dom (ss_event_subscriptions s)) =
    Some (dom (ss_event_subscriptions s1))) as -> by (simpl; by eapply IH).
  destruct (counting op) eqn:Hk.
  - destruct (counting_spec s op t s1 calls1 Hk Ht E1) as [_ Hp]. rewrite Hc in Hp.
    by apply replay_moves.
  - by destruct op; try discriminate; simpl in E1; injection E1 as <- <-.
Qed.

(** ** Properties *)


(** ** Witnesses *)

Definition demo_endpoint (c : Client_id) : Event_subscription_endpoint :=
  {| ep_client_id := c; ep_provided_id := 1 |}.

(** Two peers subscribe an event and leave it again. *)
Definition demo_changes : list sub_op :=
  [Set_connector 5; Update (demo_endpoint 0) 3 true; Update (demo_endpoint 1) 3 true;
   Update (demo_endpoint 0) 3 false; Drop_client 1].

