(* ===== verification/BindingBase.v ===== *)
(** * The binding

    [src/score/gateway_ipc_binding/impl/binding_base.hpp] and
    [impl/binding_base.cpp], with [impl/connections.hpp] and
    [impl/request_service_handle.hpp]: the state machine that client and server
    share. Every handler and every callback runs under the recursive mutex
    [m_mutex], so an execution is a sequence of whole operations on the record
    [Binding]; the one handler that releases the mutex half-way
    ([handle_connect_service_reply_message]) is split where it does.

    The channels and the socom runtime are outside this directory: what the
    binding asks of them is an [Action], whether a send succeeds is the
    parameter [send_ok] (a function of how many messages were sent before, the
    client and the message), and what the runtime returns, or calls back before
    it returns from [make_client_connector], is an argument of the operation. A
    callback out of any other runtime call comes after the operation's own
    code, as an operation of its own. *)

From stdpp Require Import base numbers list gmap strings.
From S2P Require Import Prelude.
From S2P Require Import IpcTypes.
From S2P Require Import Payload.
From S2P Require Import SlotManager.
From S2P Require Import Keys.
From S2P Require Import ConnectionMetadata.
From S2P Require Import SharedMemoryManagers.
From S2P Require Import ServiceState.

(** ** Data *)

(** The destruction callbacks of the payloads the binding handles. *)
Inductive Payload_destroyed : Type :=
  | Owns_guard (guard : Slot_guard)
  | Notify_consumed (client_id : Client_id) (required_id : Remote_handle)
      (payload_handle : Shared_memory_handle)
  | External_callback (id : N).

Abbreviation Event_payload := (Payload Payload_destroyed).

(** [Send] has what the channel answered: a message that it refused is not sent. *)
Inductive Action : Type :=
  | Send (client_id : Client_id) (msg : Message) (accepted : bool)
  | Connector_called (call : Connector_call)
  | Destroy_client_connector (connector : Connector)
  | Destroy_server_connector (connector : Connector)
  | Make_client_connector (interface : Service_interface_identifier)
      (instance : Service_instance)
  | Make_server_connector (interface : Service_interface_identifier)
      (instance : Service_instance) (counts : Service_counts)
      (client_id : Client_id) (provided_id : Remote_handle)
  | Update_event (connector : Connector) (event_id : Event_id) (payload : Event_payload)
  | External_callback_run (id : N)
  | Unregister_bridge.

Record Binding : Type := mkBinding {
  b_keys : Keys;
  b_connections : gset N;
  b_slot_managers : Shared_memory_managers Payload_destroyed;
  b_read_only_slot_managers : gmap string Read_only_slot_manager;
  b_service_states : Service_states;
  b_id_mapping : Connection_metadata;
  b_local_offers : gmap N bool;
  b_pending_connects : Pending_connects;
  b_interested_peers : gmap N (gset N);
  b_next_local_id : N;
  b_sent : N;                     (* how many messages were handed to a channel *)
}.

Section setters.
Context (b : Binding).
Definition set_keys x := mkBinding x (b_connections b) (b_slot_managers b)
  (b_read_only_slot_managers b) (b_service_states b) (b_id_mapping b) (b_local_offers b)
  (b_pending_connects b) (b_interested_peers b) (b_next_local_id b) (b_sent b).
Definition set_connections x := mkBinding (b_keys b) x (b_slot_managers b)
  (b_read_only_slot_managers b) (b_service_states b) (b_id_mapping b) (b_local_offers b)
  (b_pending_connects b) (b_interested_peers b) (b_next_local_id b) (b_sent b).
Definition set_slot_managers x := mkBinding (b_keys b) (b_connections b) x
  (b_read_only_slot_managers b) (b_service_states b) (b_id_mapping b) (b_local_offers b)
  (b_pending_connects b) (b_interested_peers b) (b_next_local_id b) (b_sent b).
Definition set_read_only_slot_managers x := mkBinding (b_keys b) (b_connections b)
  (b_slot_managers b) x (b_service_states b) (b_id_mapping b) (b_local_offers b)
  (b_pending_connects b) (b_interested_peers b) (b_next_local_id b) (b_sent b).
Definition set_service_states x := mkBinding (b_keys b) (b_connections b) (b_slot_managers b)
  (b_read_only_slot_managers b) x (b_id_mapping b) (b_local_offers b)
  (b_pending_connects b) (b_interested_peers b) (b_next_local_id b) (b_sent b).
Definition set_id_mapping x := mkBinding (b_keys b) (b_connections b) (b_slot_managers b)
  (b_read_only_slot_managers b) (b_service_states b) x (b_local_offers b)
  (b_pending_connects b) (b_interested_peers b) (b_next_local_id b) (b_sent b).
Definition set_local_offers x := mkBinding (b_keys b) (b_connections b) (b_slot_managers b)
  (b_read_only_slot_managers b) (b_service_states b) (b_id_mapping b) x
  (b_pending_connects b) (b_interested_peers b) (b_next_local_id b) (b_sent b).
Definition set_pending_connects x := mkBinding (b_keys b) (b_connections b) (b_slot_managers b)
  (b_read_only_slot_managers b) (b_service_states b) (b_id_mapping b) (b_local_offers b)
  x (b_interested_peers b) (b_next_local_id b) (b_sent b).
Definition set_interested_peers x := mkBinding (b_keys b) (b_connections b) (b_slot_managers b)
  (b_read_only_slot_managers b) (b_service_states b) (b_id_mapping b) (b_local_offers b)
  (b_pending_connects b) x (b_next_local_id b) (b_sent b).
Definition set_next_local_id x := mkBinding (b_keys b) (b_connections b) (b_slot_managers b)
  (b_read_only_slot_managers b) (b_service_states b) (b_id_mapping b) (b_local_offers b)
  (b_pending_connects b) (b_interested_peers b) x (b_sent b).
Definition set_sent x := mkBinding (b_keys b) (b_connections b) (b_slot_managers b)
  (b_read_only_slot_managers b) (b_service_states b) (b_id_mapping b) (b_local_offers b)
  (b_pending_connects b) (b_interested_peers b) (b_next_local_id b) x.
End setters.

(** The constructor's state: the factory knows a configuration, everything
    else is empty and the first local id is 1. The registration of the bridge
    callbacks with the runtime is the runtime's. *)
Definition make_binding (configuration : Shared_memory_configuration) : Binding :=
  mkBinding keys_init ∅
    {| smm_configuration := configuration; m_slot_managers := ∅;
       m_shared_memory_allocations := ∅ |}
    ∅ ∅ cm_init ∅ ∅ ∅ 1 0.

Abbreviation BM := (M Binding Action).

(** Run a fallible function on one member. *)
Definition on_member {A T} (get : Binding → T) (set : Binding → T → Binding)
    (f : T → outcome (A * T)) : BM A := λ b,
  match f (get b) with
  | Done (a, t) => Done (a, set b t, [])
  | Fault e => Fault e
  end.

Lemma on_member_run {A B T} get set (f : T → outcome (A * T)) a t (k : A → BM B) b :
  f (get b) = Done (a, t) → (on_member get set f ≫= k) b = k a (set b t).
Proof. intros E. apply bind_silent. unfold on_member. by rewrite E. Qed.

Definition emit_all (l : list Action) : BM unit := forM l emit.
Definition destroy_server (c : option Connector) : BM unit :=
  emit_all (Destroy_server_connector <$> option_list c).
Definition destroy_client (c : option Connector) : BM unit :=
  emit_all (Destroy_client_connector <$> option_list c).

(** Run a function on the service states and make the calls it asks for. *)
Definition on_states (f : Service_states → Service_states * list Connector_call) : BM unit :=
  calls ← on_member b_service_states set_service_states
    (λ m, let '(m', calls) := f m in Done (calls, m'));
  emit_all (Connector_called <$> calls).

Section binding.
Context `{Shm}.
(** Does the [n]-th message reach the channel of the client? *)
Context (send_ok : N → Client_id → Message → bool).

(** ** Channels *)

(** [Reply_channel::send]. *)
Definition send (client_id : Client_id) (msg : Message) : BM bool := λ b,
  let accepted := send_ok (b_sent b) client_id msg in
  Done (accepted, set_sent b (b_sent b + 1)%N, [Send client_id msg accepted]).

(** [(void)conn.send(msg)]. *)
Definition send_ (client_id : Client_id) (msg : Message) : BM unit :=
  _ ← send client_id msg; mret tt.

(** [m_connections.get_reply_channel(client_id)]: is there a channel? *)
Definition get_reply_channel (client_id : Client_id) : BM bool :=
  reads (λ b, bool_decide (client_id ∈ b_connections b)).

(** [assert(conn != nullptr)]. *)
Definition assert_conn (conn : bool) : BM unit :=
  if conn then mret tt else raise Connection_missing.

(** [Connections::send_to_all]. *)
Definition send_to_all (msg : Message) : BM unit :=
  clients ← reads b_connections;
  forM (elements clients) (λ client_id, send_ client_id msg).

(** [Connections::add_client]: asserts that the client is new. *)
Definition add_client (client_id : Client_id) : BM unit :=
  known ← get_reply_channel client_id;
  assertM (negb known);;
  modify (λ b, set_connections b ({[ client_id ]} ∪ b_connections b)).

(** ** Payloads *)

(** The callback [on_payload_destruction] of [handle_event_update_message]. *)
Definition on_payload_destruction (client_id : Client_id) (required_id : Remote_handle)
    (payload_handle : Shared_memory_handle) : BM unit :=
  conn ← get_reply_channel client_id;
  whenM conn (send_ client_id (Msg_Payload_consumed
    {| pc_required_id := required_id; pc_handle := payload_handle |})).

(** A callback runs when its payload is destroyed; the one that owns a guard
    releases the slot. *)
Definition run_destroyed (c : Payload_destroyed) : BM unit :=
  match c with
  | Owns_guard g =>
    modify (λ b, set_slot_managers b (set_m_slot_managers (b_slot_managers b)
      (guard_reset (m_slot_managers (b_slot_managers b)) g).1))
  | Notify_consumed client_id required_id h => on_payload_destruction client_id required_id h
  | External_callback id => emit (External_callback_run id)
  end.

Definition destroy_payloads (ps : list Event_payload) : BM unit :=
  forM ps (λ p, forM (destroy_payload p) run_destroyed).

(** ** Members *)

Definition get_key (service : Service) (instance : Instance_id) : BM Key_t :=
  on_member b_keys set_keys (λ ks, keys_get ks service instance).

Definition next_local_id : BM N :=
  on_member b_next_local_id set_next_local_id (λ n, Done (get_next_id n)).

(** [m_slot_managers.get_shared_memory_metadata(key)]. *)
Definition slot_metadata (key : Key_t) : BM Shared_memory_metadata :=
  keys ← reads b_keys;
  on_member b_slot_managers set_slot_managers (λ s, get_shared_memory_metadata keys s key).

Definition register_shared_memory_configurations (configs : Shared_memory_configs) : BM unit :=
  on_member b_slot_managers set_slot_managers
    (λ s, s' ← smm_register_configuration s configs; Done (tt, s')).

Definition clear_pending_connects_for_key_locked (key : Key_t) (client_id : Client_id) :
    BM unit :=
  modify (λ b, set_pending_connects b (clear_pending_connects
    (λ val, (pcn_key val =? key)%N && (pcn_client_id val =? client_id)%N)
    (b_pending_connects b))).

(** ** Connecting to an offered service *)

(** [send_func] of [maybe_send_connect_service_locked]. *)
Definition send_connect (key : Key_t) (client_id : Client_id) (remote_handle : Remote_handle)
    (msg : Connect_service) : BM bool :=
  conn ← get_reply_channel client_id;
  assert_conn conn;;
  modify (λ b, set_pending_connects b (pending_emplace (b_pending_connects b) remote_handle
    {| pcn_key := key; pcn_client_id := client_id |}));;
  send client_id (Msg_Connect_service msg).

(** [offer = ...] for the offer of a client in the state of a key. *)
Definition set_offer (key : Key_t) (client_id : Client_id) (o : Offer_state) : BM unit :=
  modify (λ b, set_service_states b
    (alter (λ s, set_offers s (<[client_id := o]> (ss_offers s))) key (b_service_states b))).

(** One iteration of the loop of [Service_state::send_connect_service]. *)
Definition send_connect_to_offer (key : Key_t) (service : Service_interface_identifier)
    (instance : Service_instance) (client_id : Client_id) (offer : Offer_state) : BM unit :=
  whenM (offered offer && negb (connect_sent offer)) (
    required_id ←
      (if (os_required_id offer =? 0)%N then
         id ← next_local_id;
         set_offer key client_id {| offered := offered offer;
           connect_sent := connect_sent offer; os_required_id := id |};;
         mret id
       else mret (os_required_id offer));
    service_id ← liftO (make_service service);
    instance_id ← liftO (make_instance_id instance);
    key' ← get_key service_id instance_id;
    metadata ← slot_metadata key';
    sent ← send_connect key client_id required_id
      {| cs_service_id := service_id; cs_instance_id := instance_id;
         cs_required_id := required_id; cs_metadata := metadata; cs_in_use := true |};
    whenM sent (set_offer key client_id
      {| offered := offered offer; connect_sent := true; os_required_id := required_id |})).

(** [maybe_send_connect_service_locked(key, state)], where [state] is the
    entry of [key]. *)
Definition maybe_send_connect_service_locked (key : Key_t) : BM unit :=
  state ← reads (λ b, b_service_states b !! key);
  s ← the Null_dereference state;
  whenM (ss_requested s) (forM (map_to_list (ss_offers s)) (λ '(client_id, offer),
    send_connect_to_offer key (ss_service s) (ss_instance s) client_id offer)).

(** ** Requests of the local runtime *)

Definition send_request_service_locked (service : Service) (instance : Instance_id)
    (in_use : bool) : BM bool :=
  key ← get_key service instance;
  known ← reads (λ b, has_client_connector (b_service_states b) key);
  if (known : bool) then mret false
  else
    send_to_all (Msg_Request_service
      {| rs_service_id := service; rs_instance_id := instance; rs_in_use := in_use |});;
    mret true.

(** [send_request_service]: what the constructor and the destructor of a
    [Request_service_handle] call, with [in_use] true and false. *)
Definition send_request_service (interface : Service_interface_identifier)
    (counts : Service_counts) (instance : Service_instance) (in_use : bool) : BM unit :=
  service ← liftO (make_service interface);
  instance_id ← liftO (make_instance_id instance);
  proceed ← send_request_service_locked service instance_id in_use;
  if negb proceed then mret tt
  else
    key ← get_key service instance_id;
    '(kept, removed, removed_client) ← on_member b_service_states set_service_states
      (λ m, '(m', kept, removed, removed_client) ← process_request_service m key counts
              {| rs_service_id := service; rs_instance_id := instance_id; rs_in_use := in_use |};
            Done ((kept, removed, removed_client), m'));
    destroy_client removed_client;;
    (if (kept : bool) then maybe_send_connect_service_locked key
     else modify (λ b, set_pending_connects
            (set_id_mapping b (cm_remove_service (b_id_mapping b) key))
            (clear_pending_connects_for_key key (b_pending_connects b))));;
    destroy_server removed.

(** ** Callbacks of a client connector *)

Definition send_offer_service_to_client (client_id : Client_id) (service : Service)
    (instance : Instance_id) (is_offered : bool) : BM unit :=
  send_ client_id (Msg_Offer_service
    {| os_service_id := service; os_instance_id := instance; os_offered := is_offered |}).

(** The body of the loop of [send_event_update]: one recipient. *)
Definition send_event_update_to (event_id : Event_id) (handle : Shared_memory_handle)
    (client_id : Client_id) (ids : Ids) : BM N :=
  conn ← get_reply_channel client_id;
  assert_conn conn;;
  sent ← send client_id (Msg_Event_update
    {| eu_required_id := ids_remote_handle ids; eu_event_id := event_id; eu_payload := handle |});
  mret (if (sent : bool) then 1%N else 0%N).

Fixpoint send_event_update_loop (event_id : Event_id) (handle : Shared_memory_handle)
    (clients : list (Client_id * Ids)) (recipient_count : N) : BM N :=
  match clients with
  | [] => mret recipient_count
  | (client_id, ids) :: clients' =>
    n ← send_event_update_to event_id handle client_id ids;
    send_event_update_loop event_id handle clients' (recipient_count + n)
  end.

Definition send_event_update (key : Key_t) (event_id : Event_id) (payload : Event_payload) :
    BM unit :=
  mapping ← reads b_id_mapping;
  let clients := for_each_client mapping key in
  handle ← liftO (match clients with
    | [] => Done {| slot_index := get_slot_handle payload; used_bytes := 0 |}
    | _ => d ← payload_data payload;
           Done {| slot_index := get_slot_handle payload; used_bytes := sp_size d |}
    end);
  recipient_count ← send_event_update_loop event_id handle clients 0;
  dropped ← on_member b_slot_managers set_slot_managers (λ s,
    '(m, dropped) ← insert_allocation (m_shared_memory_allocations s) key payload recipient_count;
    Done (dropped, set_m_allocations s m));
  destroy_payloads dropped.

Definition service_state_change (key : Key_t) (is_available : bool) (counts : Service_counts) :
    BM unit :=
  whenM (negb is_available)
    (modify (λ b, set_id_mapping b (cm_remove_service (b_id_mapping b) key)));;
  modify (λ b, set_local_offers b (<[key := is_available]> (b_local_offers b)));;
  interface_instance ← reads (λ b, keys_find (b_keys b) key);
  '(interface, instance) ← the Key_missing interface_instance;
  on_member b_service_states set_service_states
    (λ m, m' ← add_service m key interface instance counts; Done (tt, m'));;
  client_ids ← reads (λ b, default ∅ (b_interested_peers b !! key));
  modify (λ b, set_interested_peers b (<[key := client_ids]> (b_interested_peers b)));;
  forM (elements client_ids) (λ client_id,
    conn ← get_reply_channel client_id;
    assert_conn conn;;
    send_offer_service_to_client client_id interface instance is_available).

Definition event_payload_allocate (key : Key_t) :
    BM (Result Shared_memory_manager_error Event_payload) :=
  keys ← reads b_keys;
  on_member b_slot_managers set_slot_managers (λ s,
    '(m, s) ← get_shared_memory_slot_manager keys s key;
    match allocate_slot m with
    | (Err e, m') => Done (Err e, set_m_slot_managers s (<[key := m']> (m_slot_managers s)))
    | (Ok handle, m') =>
      let s := set_m_slot_managers s (<[key := m']> (m_slot_managers s)) in
      p ← make_shared_memory_writable_payload Owns_guard (m_slot_managers s)
            {| m_manager := Some key; m_handle := handle |};
      Done (Ok p, s)
    end).

(** What the runtime may call before [make_client_connector] returns. *)
Inductive Callback : Type :=
  | On_service_state_change (key : Key_t) (is_available : bool) (counts : Service_counts)
  | On_event_update (key : Key_t) (event_id : Event_id) (payload : Event_payload)
  | On_request_service (interface : Service_interface_identifier) (counts : Service_counts)
      (instance : Service_instance) (in_use : bool).

Definition run_callback (c : Callback) : BM unit :=
  match c with
  | On_service_state_change key is_available counts =>
      service_state_change key is_available counts
  | On_event_update key event_id payload => send_event_update key event_id payload
  | On_request_service interface counts instance in_use =>
      send_request_service interface counts instance in_use
  end.

(** ** Clients *)

(** [m_service_to_interested_peers] without a client, and without the sets
    that are empty then. *)
Definition erase_interest (client_id : Client_id) (m : gmap N (gset N)) : gmap N (gset N) :=
  omap (λ peers, if decide (peers ∖ {[ client_id ]} = ∅) then None
                 else Some (peers ∖ {[ client_id ]})) m.

(** [remove_client_state_locked]: returns the server connectors to destroy. *)
Definition remove_client_state_locked (client_id : Client_id) : BM (list Connector) :=
  on_states (λ m, remove_event_subscriptions_for_client m client_id);;
  connectors ← on_member b_service_states set_service_states
    (λ m, let '(m', l) := remove_offers m client_id in Done (l, m'));
  modify (λ b, set_interested_peers b (erase_interest client_id (b_interested_peers b)));;
  modify (λ b, set_id_mapping b (cm_remove_client (b_id_mapping b) client_id));;
  modify (λ b, set_pending_connects b (clear_pending_connects
    (λ val, (pcn_client_id val =? client_id)%N) (b_pending_connects b)));;
  mret connectors.

Definition remove_client (client_id : Client_id) : BM unit :=
  modify (λ b, set_connections b (b_connections b ∖ {[ client_id ]}));;
  removed_connectors ← remove_client_state_locked client_id;
  emit_all (Destroy_server_connector <$> removed_connectors).

(** ** Messages *)

Definition handle_connect_message (client_id : Client_id) : BM unit :=
  send_ client_id (Msg_Connect_reply {| cr_status := true |});;
  states ← reads b_service_states;
  forM (map_to_list states) (λ '(_, state),
    whenM (ss_requested state) (
      service ← liftO (make_service (ss_service state));
      instance ← liftO (make_instance_id (ss_instance state));
      send_ client_id (Msg_Request_service
        {| rs_service_id := service; rs_instance_id := instance; rs_in_use := true |}))).

Definition handle_connect_reply_message (msg : Connect_reply) : BM unit :=
  whenM (cr_status msg) (
    states ← reads b_service_states;
    forM (map_to_list states) (λ '(key, state),
      whenM (ss_requested state) (
        service ← liftO (make_service (ss_service state));
        instance ← liftO (make_instance_id (ss_instance state));
        _ ← send_request_service_locked service instance true;
        mret tt);;
      maybe_send_connect_service_locked key)).

(** [handle_request_service_message] once the key is known, up to the call of
    [make_client_connector]: does it ask the runtime for a connector? *)
Definition request_service_start (key : Key_t) (client_id : Client_id) (msg : Request_service) :
    BM bool :=
  if negb (rs_in_use msg) then
    on_states (λ m, remove_event_subscriptions_for_client m client_id);;
    modify (λ b, set_id_mapping b
      (remove_mapping_for_client_and_key (b_id_mapping b) client_id key));;
    clear_pending_connects_for_key_locked key client_id;;
    modify (λ b, set_interested_peers b
      (<[key := default ∅ (b_interested_peers b !! key) ∖ {[ client_id ]}]>
        (b_interested_peers b)));;
    mret false
  else
    modify (λ b, set_interested_peers b
      (<[key := {[ client_id ]} ∪ default ∅ (b_interested_peers b !! key)]>
        (b_interested_peers b)));;
    local_offer ← reads (λ b, default false (b_local_offers b !! key));
    if (local_offer : bool) then
      send_offer_service_to_client client_id (rs_service_id msg) (rs_instance_id msg) true;;
      mret false
    else
      states ← reads b_service_states;
      if has_client_connector states key || has_connector states key ||
         from_option ss_requested false (states !! key)
      then mret false
      else
        on_member b_service_states set_service_states (λ m,
          m' ← mark_client_connector_pending m key (rs_service_id msg) (rs_instance_id msg);
          Done (tt, m'));;
        interface ← liftO (to_socom_identifier (rs_service_id msg));
        instance ← liftO (fixed_string_to_string (rs_instance_id msg));
        emit (Make_client_connector interface instance);;
        mret true.

(** The rest, with the connector that the runtime returned, if any. *)
Definition request_service_finish (key : Key_t) (result : option Connector) : BM unit :=
  match result with
  | Some connector =>
    replaced ← on_member b_service_states set_service_states (λ m,
      '(m', old) ← add_client_connector m key connector; Done (old, m'));
    destroy_client replaced
  | None =>
    modify (λ b, set_service_states b
      (clear_client_connector_pending (b_service_states b) key))
  end.

(** The handler, where [callbacks] is what the runtime calls during
    [make_client_connector]. *)
Definition request_service_with_key (key : Key_t) (client_id : Client_id)
    (msg : Request_service) (callbacks : list Callback) (result : option Connector) : BM unit :=
  asks ← request_service_start key client_id msg;
  if (asks : bool) then forM callbacks run_callback;; request_service_finish key result
  else mret tt.

Definition handle_request_service_message (client_id : Client_id) (msg : Request_service)
    (callbacks : list Callback) (result : option Connector) : BM unit :=
  key ← get_key (rs_service_id msg) (rs_instance_id msg);
  request_service_with_key key client_id msg callbacks result.

Definition handle_offer_service_message (client_id : Client_id) (msg : Offer_service) : BM unit :=
  key ← get_key (os_service_id msg) (os_instance_id msg);
  removed_connector ← on_member b_service_states set_service_states (λ m,
    '(m', c) ← process_offer m key client_id msg; Done (c, m'));
  (if negb (os_offered msg) then
     modify (λ b, set_service_states b (clear_event_subscriptions (b_service_states b) key));;
     modify (λ b, set_id_mapping b (cm_remove_service (b_id_mapping b) key));;
     clear_pending_connects_for_key_locked key client_id
   else maybe_send_connect_service_locked key);;
  destroy_server removed_connector.

Definition handle_subscribe_event_message (client_id : Client_id) (msg : Subscribe_event) :
    BM unit :=
  mapping_info ← reads (λ b, get_by_local_handle (b_id_mapping b) client_id (se_provided_id msg));
  match mapping_info with
  | None => mret tt
  | Some ids =>
    on_states (λ m, update_event_subscription m (ids_key ids)
      {| ep_client_id := client_id; ep_provided_id := se_provided_id msg |}
      (se_event_id msg) (se_subscribe msg))
  end.

(** [handle_event_update_message]: [update_result] is what the connector
    returns for the update. *)
Definition handle_event_update_message (client_id : Client_id) (msg : Event_update)
    (update_result : bool) : BM unit :=
  mapping_info ← reads (λ b, get_by_remote_handle (b_id_mapping b) client_id (eu_required_id msg));
  match mapping_info with
  | None => mret tt
  | Some ids =>
    state ← reads (λ b, b_service_states b !! ids_key ids);
    connector ← the Assertion_failed (state ≫= ss_enabled_connector);
    manager ← on_member b_read_only_slot_managers set_read_only_slot_managers
      (λ ro, get_read_only_shared_memory_slot_manager ro (ids_remote_metadata ids));
    payload ← the Assertion_failed (get_payload manager (eu_payload msg)
      (Notify_consumed client_id (eu_required_id msg) (eu_payload msg)));
    emit (Update_event connector (eu_event_id msg) payload);;
    assertM update_result
  end.

Definition handle_payload_consumed_message (client_id : Client_id) (msg : Payload_consumed) :
    BM unit :=
  mapping_info ← reads (λ b, get_by_remote_handle (b_id_mapping b) client_id (pc_required_id msg));
  match mapping_info with
  | None => mret tt
  | Some ids =>
    dropped ← on_member b_slot_managers set_slot_managers (λ s,
      let '(m, dropped) := payload_consumed (m_shared_memory_allocations s) (ids_key ids) msg in
      Done (dropped, set_m_allocations s m));
    destroy_payloads dropped
  end.

Definition handle_connect_service_message (client_id : Client_id) (msg : Connect_service) :
    BM unit :=
  key ← get_key (cs_service_id msg) (cs_instance_id msg);
  if negb (cs_in_use msg) then
    mapping_info ← reads (λ b, get_by_remote_handle (b_id_mapping b) client_id (cs_required_id
      msg));
    match mapping_info with
    | None => mret tt
    | Some ids => on_states (λ m, remove_event_subscriptions_for_connection m key client_id
                    (ids_local_handle ids))
    end;;
    modify (λ b, set_id_mapping b (remove_mapping (b_id_mapping b) client_id (cs_required_id
      msg)));;
    clear_pending_connects_for_key_locked key client_id;;
    removed_connector ← on_member b_service_states set_service_states (λ m,
      let '(m', c) := remove_client_connector m key in Done (c, m'));
    destroy_client removed_connector
  else
    local_handle ← next_local_id;
    local_metadata ← slot_metadata key;
    on_member b_id_mapping set_id_mapping (λ cm,
      cm' ← add_mapping cm client_id
        {| ids_key := key; ids_local_handle := local_handle;
           ids_remote_handle := cs_required_id msg; ids_local_metadata := local_metadata;
           ids_remote_metadata := cs_metadata msg |};
      Done (tt, cm'));;
    state ← reads (λ b, b_service_states b !! key);
    s ← the Assertion_failed state;
    send_ client_id (Msg_Connect_service_reply
      {| csr_required_id := cs_required_id msg; csr_provided_id := local_handle;
         csr_metadata := local_metadata; csr_num_methods := num_methods (ss_counts s);
         csr_num_events := num_events (ss_counts s) |}).

(** The part of [handle_connect_service_reply_message] under the first lock:
    the key of the established connection, if there is one. *)
Definition connect_service_reply_locked (client_id : Client_id) (msg : Connect_service_reply) :
    BM (option Key_t) :=
  pending ← reads (λ b, b_pending_connects b !! csr_required_id msg);
  match pending with
  | None => mret None
  | Some p =>
    let key := pcn_key p in
    if negb (pcn_client_id p =? client_id)%N then mret None
    else
      state ← reads (λ b, b_service_states b !! key);
      match state with
      | None =>
        modify (λ b, set_pending_connects b (delete (csr_required_id msg) (b_pending_connects b)));;
        mret None
      | Some _ =>
        local_metadata ← slot_metadata key;
        on_member b_id_mapping set_id_mapping (λ cm,
          cm' ← add_mapping cm client_id
            {| ids_key := key; ids_local_handle := csr_provided_id msg;
               ids_remote_handle := csr_required_id msg; ids_local_metadata := local_metadata;
               ids_remote_metadata := csr_metadata msg |};
          Done (tt, cm'));;
        modify (λ b, set_pending_connects b (delete (csr_required_id msg) (b_pending_connects b)));;
        mret (Some key)
      end
  end.

(** The part after the lock is released: [state] points into the map, and the
    connector is made with what it points to. *)
Definition connect_service_reply_unlocked (client_id : Client_id) (msg : Connect_service_reply)
    (key : Key_t) : BM unit :=
  state ← reads (λ b, b_service_states b !! key);
  s ← the Null_dereference state;
  emit (Make_server_connector (ss_service s) (ss_instance s)
    {| num_methods := csr_num_methods msg; num_events := csr_num_events msg |}
    client_id (csr_provided_id msg)).

(** The rest: [result] is the outcome of [make_server_connector] and of
    [enable]. *)
Definition connect_service_reply_finish (key : Key_t) (result : option (option Connector)) :
    BM unit :=
  enabled ← the Assertion_failed result;
  match enabled with
  | None => mret tt
  | Some connector =>
    replaced ← on_member b_service_states set_service_states (λ m,
      let '(m', c) := add_server_connector m key connector in Done (c, m'));
    destroy_server replaced
  end.

(** The handler, when nothing happens between its parts. *)
Definition handle_connect_service_reply_message (client_id : Client_id)
    (msg : Connect_service_reply) (result : option (option Connector)) : BM unit :=
  established ← connect_service_reply_locked client_id msg;
  match established with
  | None => mret tt
  | Some key =>
    connect_service_reply_unlocked client_id msg key;;
    connect_service_reply_finish key result
  end.

(** ** Callback of a server connector *)

(** The event subscription callback given to [make_server_connector]. *)
Definition on_event_subscription_change (client_id : Client_id) (provided_id : Remote_handle)
    (event_id : Event_id) (subscribed : bool) : BM unit :=
  conn ← get_reply_channel client_id;
  whenM conn (send_ client_id (Msg_Subscribe_event
    {| se_provided_id := provided_id; se_event_id := event_id; se_subscribe := subscribed |})).

(** ** Dispatch *)

(** What the runtime answers to the call a message leads to, if any. *)
Record Answers : Type := {
  an_callbacks : list Callback;
  an_client_connector : option Connector;
  an_server_connector : option (option Connector);
  an_update_event : bool;
}.

Definition dispatch (client_id : Client_id) (msg : Message) (an : Answers) : BM unit :=
  match msg with
  | Msg_Connect _ => handle_connect_message client_id
  | Msg_Connect_reply m => handle_connect_reply_message m
  | Msg_Connect_service m => handle_connect_service_message client_id m
  | Msg_Connect_service_reply m =>
      handle_connect_service_reply_message client_id m (an_server_connector an)
  | Msg_Request_service m =>
      handle_request_service_message client_id m (an_callbacks an) (an_client_connector an)
  | Msg_Offer_service m => handle_offer_service_message client_id m
  | Msg_Subscribe_event m => handle_subscribe_event_message client_id m
  | Msg_Event_update m => handle_event_update_message client_id m (an_update_event an)
  | Msg_Payload_consumed m => handle_payload_consumed_message client_id m
  end.

(** The destructor gives up the bridge and the client connectors. *)
Definition destroy_binding : BM unit :=
  connectors ← on_member b_service_states set_service_states
    (λ m, let '(m', l) := release_client_connectors m in Done (l, m'));
  emit_all (Destroy_client_connector <$> connectors);;
  emit Unregister_bridge.

(** The destruction of the members that follows: the server connectors go with the states
    of the services. *)
Definition destroy_members : BM unit :=
  states ← reads b_service_states;
  emit_all (Destroy_server_connector <$>
    omap (λ '(_, st), ss_enabled_connector st) (map_to_list states)).
End binding.
