(* ===== verification/BindingSafety.v ===== *)
(** * The binding never loses track of a client or a key

    The asserts [conn != nullptr] ("Improper cleanup done: client_id must
    always have a valid connection", "Connection not found for client_id") and
    "Interface and instance should exist for key" of
    [impl/binding_base.cpp] and [impl/shared_memory_managers.hpp] cannot fire:
    an invariant ties every client a binding remembers to its connections and
    every key to its table of keys, and every operation keeps it. *)

From stdpp Require Import base numbers list gmap strings.
From Stdlib Require Import Strings.Ascii.
From S2P Require Import Prelude.
From S2P Require Import IpcTypes.
From S2P Require Import Payload.
From S2P Require Import SlotManager.
From S2P Require Import Keys.
From S2P Require Import ConnectionMetadata.
From S2P Require Import SharedMemoryManagers.
From S2P Require Import ServiceState.
From S2P Require Import BindingBase.

(** ** The invariant *)

(** The faults the theorems exclude: the two kinds of asserts, and what only the
    runtime's calls could fault with. *)
Definition lost (f : fault) : Prop :=
  match f with
  | Connection_missing | Key_missing | Use_after_free | Waits_forever => True
  | _ => False
  end.

Definition known (b : Binding) (key : Key_t) : Prop := is_Some (keys_find (b_keys b) key).

(** A service state mentions connected clients only. *)
Definition state_ok (cs : gset N) (s : Service_state) : Prop :=
  (∀ c, is_Some (ss_offers s !! c) → c ∈ cs) ∧
  (∀ e eps ep, ss_event_subscriptions s !! e = Some eps → ep ∈ eps → ep_client_id ep ∈ cs).

(** [inv cs K b]: the connected clients are [cs], the keys in [K] stand for a
    service, the index of the established connections is consistent, and the
    rest of the binding mentions no other client, nor a key that stands for
    nothing. *)
Record inv (cs : gset N) (K : N → Prop) (b : Binding) : Prop := {
  i_connections : b_connections b = cs;
  i_known : ∀ k, K k → known b k;
  i_mapping_ok : cm_ok (b_id_mapping b);
  i_mapping : ∀ c vec, m_id_to_key (b_id_mapping b) !! c = Some vec → c ∈ cs;
  i_pending : ∀ h p, b_pending_connects b !! h = Some p →
    pcn_client_id p ∈ cs ∧ known b (pcn_key p);
  i_interested : ∀ k s c, b_interested_peers b !! k = Some s → c ∈ s → c ∈ cs;
  i_states : ∀ k s, b_service_states b !! k = Some s → known b k ∧ state_ok cs s;
}.

Abbreviation keeps cs K m := (hoare lost (inv cs K) m (λ _, inv cs K)).

(** [x] does not fault with one of the excluded faults. *)
Definition sound {A} (x : outcome A) : Prop := ∀ f, x = Fault f → ¬ lost f.

(** ** Fallible functions *)

Lemma sound_done {A} (a : A) : sound (Done a).
Proof. done. Qed.
Lemma sound_assertion {A} : sound (A := A) (Fault Assertion_failed).
Proof. intros f [= <-] []. Qed.
Lemma sound_bounds {A} : sound (A := A) (Fault Out_of_bounds).
Proof. intros f [= <-] []. Qed.
Lemma sound_null {A} : sound (A := A) (Fault Null_dereference).
Proof. intros f [= <-] []. Qed.
Lemma sound_bind {A B} (x : outcome A) (k : A → outcome B) :
  sound x → (∀ a, x = Done a → sound (k a)) → sound (x ≫= k).
Proof. destruct x; simpl; intros Hx Hk; [by apply Hk|]. intros f' [= <-]. by apply Hx. Qed.
#[export] Hint Resolve sound_done sound_assertion sound_bounds sound_null : gateway.

(** Split a computation into its parts. *)
Ltac sound :=
  repeat first
    [ progress eauto with gateway
    | apply sound_bind; [|intros ? ?]
    | match goal with
      | |- sound (match ?x with _ => _ end) => destruct x eqn:?
      | |- sound (if ?x then _ else _) => destruct x eqn:?
      end ].

Lemma sound_fixed_string {Max} (x : Fixed_string Max) : sound (fixed_string_to_string x).
Proof. unfold fixed_string_to_string. sound. Qed.
#[export] Hint Resolve sound_fixed_string : gateway.
Lemma sound_assert_ok {E A} (r : Result E A) : sound (assert_ok r).
Proof. unfold assert_ok. sound. Qed.
#[export] Hint Resolve sound_assert_ok : gateway.
Lemma sound_to_socom s : sound (to_socom_identifier s).
Proof. unfold to_socom_identifier. sound. Qed.
Lemma sound_make_service i : sound (make_service i).
Proof. unfold make_service. sound. Qed.
Lemma sound_make_instance_id i : sound (make_instance_id i).
Proof. unfold make_instance_id. sound. Qed.
#[export] Hint Resolve sound_to_socom sound_make_service sound_make_instance_id : gateway.
Lemma sound_keys_get ks s i : sound (keys_get ks s i).
Proof. unfold keys_get. sound. Qed.
Lemma sound_is_mapping_present_in vec ids : sound (is_mapping_present_in vec ids).
Proof. induction vec; simpl; sound. Qed.
#[export] Hint Resolve sound_keys_get sound_is_mapping_present_in : gateway.
Lemma sound_add_mapping cm c ids : sound (add_mapping cm c ids).
Proof. unfold add_mapping, is_mapping_present. sound. Qed.
Lemma sound_payload_data {C} (p : Payload C) : sound (payload_data p).
Proof. unfold payload_data, subspan. sound. Qed.
Lemma sound_insert_allocation {C} m key (p : Payload C) n : sound (insert_allocation m key p n).
Proof. unfold insert_allocation, at_index. sound. Qed.
Lemma sound_factory_create `{Shm} c i n : sound (factory_create c i n).
Proof. unfold factory_create. sound. Qed.
Lemma sound_metadata_of m : sound (get_shared_memory_metadata_of m).
Proof. unfold get_shared_memory_metadata_of. sound. Qed.
#[export] Hint Resolve sound_add_mapping sound_payload_data sound_insert_allocation
  sound_factory_create sound_metadata_of : gateway.
Lemma sound_register_entries l : ∀ c, sound (register_entries c l).
Proof. induction l; intros c; simpl; unfold register_entry; sound. Qed.
#[export] Hint Resolve sound_register_entries : gateway.
Lemma sound_register {C} (s : Shared_memory_managers C) configs :
  sound (smm_register_configuration s configs).
Proof. unfold smm_register_configuration, register_configuration. sound. Qed.
Lemma sound_factory_open `{Shm} md : sound (factory_open md).
Proof. unfold factory_open, make_read_only_slot_manager. sound. Qed.
#[export] Hint Resolve sound_register sound_factory_open : gateway.
Lemma sound_read_only `{Shm} ro md : sound (get_read_only_shared_memory_slot_manager ro md).
Proof. unfold get_read_only_shared_memory_slot_manager. sound. Qed.
Lemma sound_get_or_create m key s i : sound (get_or_create m key s i).
Proof. unfold get_or_create. sound. Qed.
#[export] Hint Resolve sound_read_only sound_get_or_create : gateway.

(** The only assert on keys: the manager of a key that stands for nothing. *)
Lemma sound_slot_manager {C} `{Shm} ks (s : Shared_memory_managers C) key :
  is_Some (keys_find ks key) → sound (get_shared_memory_slot_manager ks s key).
Proof. intros [[sv inst] Hk]. unfold get_shared_memory_slot_manager. rewrite Hk. sound. Qed.
Lemma sound_slot_metadata {C} `{Shm} ks (s : Shared_memory_managers C) key :
  is_Some (keys_find ks key) → sound (get_shared_memory_metadata ks s key).
Proof.
  intros Hk. unfold get_shared_memory_metadata.
  apply sound_bind; [by apply sound_slot_manager|]. intros [m s'] _. sound.
Qed.

(** ** Keys are never forgotten *)

Lemma keys_find_is_Some ks key :
  is_Some (keys_find ks key) ↔ ∃ s i, keys_lookup ks s i = Some key.
Proof.
  unfold keys_find. split.
  - destruct (list_find _ _) as [[j [[sv inst] k]]|] eqn:Ef; [|by intros [? ?]].
    intros _. apply list_find_Some in Ef as (Hj & Hk & _). simpl in Hk. subst k.
    apply list_elem_of_lookup_2, elem_of_keys_entries in Hj as (s & i & ins & Hs & Hi).
    exists s, i. apply keys_lookup_Some. eauto.
  - intros (s & i & (sv & ins & inst & Hs & Hi)%keys_lookup_Some).
    destruct (list_find _ _) as [[j [[sv' inst'] k]]|] eqn:Ef; simpl; [eauto|].
    apply list_find_None in Ef. rewrite Forall_forall in Ef.
    destruct (Ef (sv, inst, key)); [|done]. apply elem_of_keys_entries. eauto.
Qed.

Lemma keys_get_known_keys ks s i key ks' :
  keys_get ks s i = Done (key, ks') →
  is_Some (keys_find ks' key) ∧
  ∀ k, is_Some (keys_find ks k) → is_Some (keys_find ks' k).
Proof.
  unfold keys_get. intros (sv & _ & Hk)%outcome_bind_Done.
  apply outcome_bind_Done in Hk as (inst & _ & Hk).
  destruct (keys_lookup ks sv inst) as [k0|] eqn:El.
  - injection Hk as <- <-. split; [|done]. apply keys_find_is_Some. eauto.
  - injection Hk as <- <-. split.
    + apply keys_find_is_Some. exists sv, inst. by rewrite keys_lookup_insert, decide_True.
    + intros k (s' & i' & Hl)%keys_find_is_Some. apply keys_find_is_Some. exists s', i'.
      rewrite keys_lookup_insert. case_decide; [simplify_eq|done].
Qed.

(** ** Rules for the members of the binding *)

(** A read: the rest is checked for the values of states that satisfy [P]. *)
Lemma hoare_read {A B} P (f : Binding → A) (k : A → BM B) Q :
  (∀ b, P b → hoare lost P (k (f b)) Q) → hoare lost P (reads f ≫= k) Q.
Proof.
  intros Hk. eapply hoare_bind; [apply hoare_reads|]. intros a b [HP ->].
  exact (Hk b HP b HP).
Qed.

Lemma hoare_seq {A B} P (m : BM A) (k : A → BM B) Q :
  hoare lost P m (λ _, P) → (∀ a, hoare lost P (k a) Q) → hoare lost P (m ≫= k) Q.
Proof. apply hoare_bind. Qed.

Lemma hoare_lift {A B} P (x : outcome A) (k : A → BM B) Q :
  sound x → (∀ a, x = Done a → hoare lost P (k a) Q) → hoare lost P (liftO x ≫= k) Q.
Proof.
  intros Hx Hk. eapply hoare_bind; [by apply hoare_liftO|]. intros a b [HP Ha].
  exact (Hk a Ha b HP).
Qed.

Lemma hoare_the_seq {A B} P f (o : option A) (k : A → BM B) Q :
  (lost f → is_Some o) → (∀ a, o = Some a → hoare lost P (k a) Q) →
  hoare lost P (the f o ≫= k) Q.
Proof.
  intros Ho Hk. eapply hoare_bind; [apply hoare_the; intros Hf _ _; by apply Ho|].
  intros a b [HP Ha]. exact (Hk a Ha b HP).
Qed.

Lemma hoare_on_member {A T} P get set (f : T → outcome (A * T)) Q :
  (∀ b, P b → sound (f (get b))) →
  (∀ b a t, P b → f (get b) = Done (a, t) → Q a (set b t)) →
  hoare lost P (on_member get set f) Q.
Proof.
  intros Hs HQ b HP. unfold on_member. destruct (f (get b)) as [[a t]|e] eqn:E.
  - by eapply HQ.
  - by eapply Hs.
Qed.

Lemma inv_weaken cs (K K' : N → Prop) b : inv cs K b → (∀ k, K' k → K k) → inv cs K' b.
Proof. intros [] HK. split; auto. Qed.

(** Members the invariant does not mention. *)
Lemma inv_set_slot_managers cs K b x : inv cs K b → inv cs K (set_slot_managers b x).
Proof. intros []. by split. Qed.
Lemma inv_set_read_only cs K b x : inv cs K b → inv cs K (set_read_only_slot_managers b x).
Proof. intros []. by split. Qed.
Lemma inv_set_local_offers cs K b x : inv cs K b → inv cs K (set_local_offers b x).
Proof. intros []. by split. Qed.
Lemma inv_set_next_local_id cs K b x : inv cs K b → inv cs K (set_next_local_id b x).
Proof. intros []. by split. Qed.
Lemma inv_set_sent cs K b x : inv cs K b → inv cs K (set_sent b x).
Proof. intros []. by split. Qed.

(** Members it does mention. *)
Lemma inv_set_id_mapping cs K b x :
  inv cs K b → cm_ok x → (∀ c vec, m_id_to_key x !! c = Some vec → c ∈ cs) →
  inv cs K (set_id_mapping b x).
Proof. intros [] Hok Hx. by split. Qed.
Lemma inv_set_pending cs K b x :
  inv cs K b → (∀ h p, x !! h = Some p → pcn_client_id p ∈ cs ∧ known b (pcn_key p)) →
  inv cs K (set_pending_connects b x).
Proof. intros [] Hx. by split. Qed.
Lemma inv_set_interested cs K b x :
  inv cs K b → (∀ k s c, x !! k = Some s → c ∈ s → c ∈ cs) →
  inv cs K (set_interested_peers b x).
Proof. intros [] Hx. by split. Qed.
Lemma inv_set_states cs K b x :
  inv cs K b → (∀ k s, x !! k = Some s → known b k ∧ state_ok cs s) →
  inv cs K (set_service_states b x).
Proof. intros [] Hx. by split. Qed.

#[export] Hint Resolve inv_set_slot_managers inv_set_read_only inv_set_local_offers
  inv_set_next_local_id inv_set_sent : gateway.

(** ** Service states *)

Lemma state_ok_make cs sv inst : state_ok cs (make_service_state sv inst).
Proof.
  split; simpl.
  - intros c [? Hc]. by rewrite lookup_empty in Hc.
  - intros e eps ep He. by rewrite lookup_empty in He.
Qed.
Lemma state_ok_requested cs s c r : state_ok cs s → state_ok cs (set_requested s c r).
Proof. done. Qed.
Lemma state_ok_client_connector cs s c p : state_ok cs s → state_ok cs (set_client_connector s c p).
Proof. done. Qed.
Lemma state_ok_enabled_connector cs s c : state_ok cs s → state_ok cs (set_enabled_connector s c).
Proof. done. Qed.
Lemma state_ok_offer cs s c o :
  state_ok cs s → c ∈ cs → state_ok cs (set_offers s (<[c := o]> (ss_offers s))).
Proof.
  intros [Ho Hs] Hc. split; [|done]. intros c'. simpl. rewrite lookup_insert.
  case_decide; [by subst|apply Ho].
Qed.
Lemma state_ok_no_offer cs s c :
  state_ok cs s → state_ok cs (set_offers s (delete c (ss_offers s))).
Proof.
  intros [Ho Hs]. split; [|done]. intros c'. simpl. intros [o [_ Hc]%lookup_delete_Some].
  apply Ho. eauto.
Qed.
Lemma state_ok_no_subscriptions cs s : state_ok cs s → state_ok cs (set_event_subscriptions s ∅).
Proof. intros [Ho _]. split; [done|]. intros e eps ep. simpl. by rewrite lookup_empty. Qed.
#[export] Hint Resolve state_ok_make state_ok_requested state_ok_client_connector
  state_ok_enabled_connector state_ok_offer state_ok_no_offer
  state_ok_no_subscriptions : gateway.

Lemma state_ok_erase cs s f connector :
  (∀ eps, f eps ⊆ eps) → state_ok cs s →
  state_ok cs (set_event_subscriptions s
    (erase_subscribers f connector (ss_event_subscriptions s)).1).
Proof.
  intros Hf [Ho Hs]. split; [done|]. intros e eps ep. simpl. rewrite lookup_omap.
  destruct (ss_event_subscriptions s !! e) as [eps0|] eqn:E; simpl; [|done].
  case_decide; [done|]. intros [= <-] Hin. eapply Hs; [done|]. by apply Hf.
Qed.

Lemma state_ok_remove_client cs s c connector :
  state_ok cs s → state_ok cs (remove_event_subscriptions s c connector).1.
Proof. intros Hs. apply (state_ok_erase cs s _ connector); [set_solver|done]. Qed.
Lemma state_ok_remove_endpoint cs s ep connector :
  state_ok cs s → state_ok cs (remove_event_subscription s ep connector).1.
Proof. intros Hs. apply (state_ok_erase cs s _ connector); [set_solver|done]. Qed.

Lemma state_ok_update cs s ep e sub :
  state_ok cs s → ep_client_id ep ∈ cs → state_ok cs (update_subscription s ep e sub).1.
Proof.
  intros [Ho Hs] Hep. unfold update_subscription. destruct sub; simpl.
  - split; [done|]. intros e' eps ep'. simpl. rewrite lookup_insert. case_decide; subst.
    + intros [= <-] [->%elem_of_singleton|Hin]%elem_of_union; [done|].
      destruct (ss_event_subscriptions s !! e') as [eps0|] eqn:E; simpl in Hin; [|set_solver].
      by eapply Hs.
    + apply Hs.
  - destruct (ss_event_subscriptions s !! e) as [eps0|] eqn:E; [|by split].
    case_decide; (split; [done|]); intros e' eps ep'; simpl.
    + intros [_ Hl]%lookup_delete_Some. by eapply Hs.
    + rewrite lookup_insert. case_decide; [|apply Hs]. intros [= <-] Hin.
      eapply Hs; [done|set_solver].
Qed.

Lemma state_ok_remove_offer cs s c : state_ok cs s → state_ok cs (remove_offer c s).1.
Proof.
  intros Hs. unfold remove_offer. destruct (ss_offers s !! c); [|done].
  case_decide; simpl; eauto with gateway.
Qed.
#[export] Hint Resolve state_ok_remove_client state_ok_remove_endpoint state_ok_update
  state_ok_remove_offer : gateway.

(** ** Operations *)

(** One step through the code of an operation. *)
Ltac hstep :=
  match goal with
  | |- hoare _ _ (mret _) _ => apply hoare_ret; auto; fail
  | |- hoare _ _ (emit _) _ => apply hoare_emit
  | |- hoare _ _ (modify _) _ => apply hoare_modify; intros ? ?
  | |- hoare _ _ (whenM _ _) _ => apply hoare_when; intros ?
  | |- hoare _ _ (forM _ _) _ => apply hoare_forM; intros ? ?
  | |- hoare _ _ (reads _ ≫= _) _ => apply hoare_read; intros ? ?
  | |- hoare _ _ (liftO _ ≫= _) _ => apply hoare_lift; [solve [sound]|intros ? ?]
  | |- hoare _ _ (on_member _ _ _) _ =>
      apply hoare_on_member; [intros ? ?; solve [sound]|intros ? ? ? ? ?]
  | |- hoare _ _ (_ ≫= _) _ => apply hoare_seq; [|intros ?]
  | |- hoare _ _ (if ?x then _ else _) _ => destruct x eqn:?
  | |- hoare _ _ (match ?x with _ => _ end) _ => destruct x eqn:?
  end.
Ltac hsteps := repeat first [solve [eauto with gateway] | hstep].

Section operations.
Context `{Shm} (send_ok : N → Client_id → Message → bool).
Context (cs : gset N).
Implicit Types (K : N → Prop) (b : Binding).

Lemma keeps_emit_all K l : keeps cs K (emit_all l).
Proof. unfold emit_all. hsteps. Qed.
Hint Resolve keeps_emit_all : gateway.
Lemma keeps_send K c msg : keeps cs K (send send_ok c msg).
Proof. intros b Hb. simpl. eauto with gateway. Qed.
Hint Resolve keeps_send : gateway.
Lemma keeps_send_ K c msg : keeps cs K (send_ send_ok c msg).
Proof. unfold send_. hsteps. Qed.
Hint Resolve keeps_send_ : gateway.
Lemma keeps_send_to_all K msg : keeps cs K (send_to_all send_ok msg).
Proof. unfold send_to_all. hsteps. Qed.
Hint Resolve keeps_send_to_all : gateway.

(** A connected client has a channel. *)
Lemma keeps_conn {A} K c (k : bool → BM A) Q :
  c ∈ cs → hoare lost (inv cs K) (k true) Q →
  hoare lost (inv cs K) (get_reply_channel c ≫= k) Q.
Proof.
  intros Hc Hk. unfold get_reply_channel. apply hoare_read. intros b Hb.
  rewrite (i_connections _ _ _ Hb). by rewrite bool_decide_true.
Qed.

Lemma keeps_payload_destruction K c h p : keeps cs K (on_payload_destruction send_ok c h p).
Proof. unfold on_payload_destruction, get_reply_channel. hsteps. Qed.
Hint Resolve keeps_payload_destruction : gateway.
Lemma keeps_run_destroyed K c : keeps cs K (run_destroyed send_ok c).
Proof. destruct c; simpl; hsteps. Qed.
Hint Resolve keeps_run_destroyed : gateway.
Lemma keeps_destroy_payloads K ps : keeps cs K (destroy_payloads send_ok ps).
Proof. unfold destroy_payloads. hsteps. Qed.
Hint Resolve keeps_destroy_payloads : gateway.
Lemma keeps_destroy_server K c : keeps cs K (destroy_server c).
Proof. unfold destroy_server. hsteps. Qed.
Lemma keeps_destroy_client K c : keeps cs K (destroy_client c).
Proof. unfold destroy_client. hsteps. Qed.
Lemma keeps_next_local_id K : keeps cs K next_local_id.
Proof. unfold next_local_id. hsteps. Qed.
Hint Resolve keeps_destroy_server keeps_destroy_client keeps_next_local_id : gateway.

Lemma keeps_get_key K s i :
  hoare lost (inv cs K) (get_key s i) (λ key, inv cs (λ k, K k ∨ k = key)).
Proof.
  unfold get_key. hstep. match goal with E : keys_get _ _ _ = _ |- _ =>
    apply keys_get_known_keys in E as [Hkey Hmono] end.
  match goal with Hb : inv _ _ _ |- _ => destruct Hb end.
  split; simpl; auto; unfold known in *; simpl.
  - intros k [Hk| ->]; auto.
  - intros h p Hp. destruct (i_pending0 h p Hp). auto.
  - intros k st Hst. destruct (i_states0 k st Hst). auto.
Qed.

Lemma keeps_slot_metadata K key : K key → keeps cs K (slot_metadata key).
Proof.
  intros Hk. unfold slot_metadata.
  intros b Hb. pose proof (i_known _ _ _ Hb key Hk) as Hkn.
  unfold mbind, M_bind, reads, on_member.
  destruct (get_shared_memory_metadata _ _ _) as [[md s]|f] eqn:E; simpl.
  - eauto with gateway.
  - by eapply sound_slot_metadata in E.
Qed.
Hint Resolve keeps_slot_metadata : gateway.

Lemma keeps_clear_pending K checker :
  keeps cs K (modify (λ b, set_pending_connects b
    (clear_pending_connects checker (b_pending_connects b))) : BM unit).
Proof.
  hstep. apply inv_set_pending; [done|].
  intros h p [Hp _]%map_lookup_filter_Some. by eapply i_pending.
Qed.
Lemma keeps_clear_pending_locked K key c :
  keeps cs K (clear_pending_connects_for_key_locked key c).
Proof. apply keeps_clear_pending. Qed.
Hint Resolve keeps_clear_pending_locked : gateway.

(** Changes of the service states, one entry at a time. *)
Lemma states_insert K b key s :
  inv cs K b → known b key → state_ok cs s →
  inv cs K (set_service_states b (<[key := s]> (b_service_states b))).
Proof.
  intros Hb Hk Hs. apply inv_set_states; [done|]. intros k s'.
  rewrite lookup_insert. case_decide; [|by eapply i_states]. intros [= <-]. by subst.
Qed.
Lemma states_alter K b key f :
  inv cs K b → (∀ s, state_ok cs s → state_ok cs (f s)) →
  inv cs K (set_service_states b (alter f key (b_service_states b))).
Proof.
  intros Hb Hf. apply inv_set_states; [done|]. intros k s.
  rewrite lookup_alter. case_decide; [|by eapply i_states].
  subst. intros (s0 & Hs & ->)%fmap_Some. apply (i_states _ _ _ Hb) in Hs as [Hk Hs]. auto.
Qed.
Lemma states_fmap K b f :
  inv cs K b → (∀ s, state_ok cs s → state_ok cs (f s)) →
  inv cs K (set_service_states b (f <$> b_service_states b)).
Proof.
  intros Hb Hf. apply inv_set_states; [done|]. intros k s.
  rewrite lookup_fmap. intros (s0 & Hs & ->)%fmap_Some.
  apply (i_states _ _ _ Hb) in Hs as [Hk Hs]. auto.
Qed.

Lemma get_or_create_ok K b key sv inst s m :
  inv cs K b → known b key →
  get_or_create (b_service_states b) key sv inst = Done (s, m) →
  state_ok cs s ∧ (m = b_service_states b ∨ m = <[key := s]> (b_service_states b)) ∧
  ∀ s', state_ok cs s' → inv cs K (set_service_states b (<[key := s']> m)).
Proof.
  intros Hb Hk. unfold get_or_create. intros (i & _ & Hg)%outcome_bind_Done.
  apply outcome_bind_Done in Hg as (n & _ & Hg).
  destruct (b_service_states b !! key) as [s0|] eqn:Es; injection Hg as <- <-.
  - split; [by eapply i_states|]. split; [by left|]. intros s' Hs'. by apply states_insert.
  - split; [apply state_ok_make|]. split; [by right|]. intros s' Hs'.
    rewrite insert_insert_eq. by apply states_insert.
Qed.

Lemma keeps_send_connect K key c h msg :
  K key → c ∈ cs → keeps cs K (send_connect send_ok key c h msg).
Proof.
  intros Hk Hc. unfold send_connect. apply keeps_conn; [done|]. simpl.
  hstep; [by apply hoare_ret|]. hstep; [|hsteps]. hstep. apply inv_set_pending; [done|].
  intros h' p. unfold pending_emplace.
  destruct (b_pending_connects _ !! h) eqn:E; [by eapply i_pending|].
  rewrite lookup_insert. case_decide; [|by eapply i_pending].
  intros [= <-]. split; [done|]. by eapply i_known.
Qed.
Hint Resolve keeps_send_connect : gateway.

Lemma keeps_set_offer K key c o : c ∈ cs → keeps cs K (set_offer key c o).
Proof. intros Hc. unfold set_offer. hstep. apply states_alter; eauto with gateway. Qed.
Hint Resolve keeps_set_offer : gateway.

(** The key that [get_key] returns stands for a service in the rest. *)
Lemma hoare_get_key {A} K s i (k : Key_t → BM A) Q :
  (∀ key (K' : N → Prop), (∀ x, K x → K' x) → K' key →
    hoare lost (inv cs K') (k key) Q) →
  hoare lost (inv cs K) (get_key s i ≫= k) Q.
Proof.
  intros Hk. eapply hoare_bind; [apply keeps_get_key|]. intros key. apply Hk; auto.
Qed.

(** Forget the keys learned on the way. *)
Lemma keeps_forget {A} (K K' : N → Prop) (m : BM A) :
  (∀ x, K x → K' x) → keeps cs K' m → hoare lost (inv cs K') m (λ _, inv cs K).
Proof. intros HK Hm. eapply hoare_post; [done|]. intros a b Hb. exact (inv_weaken cs K' K b Hb HK).
Qed.

Lemma keeps_send_connect_to_offer K key sv inst c o :
  K key → c ∈ cs → keeps cs K (send_connect_to_offer send_ok key sv inst c o).
Proof.
  intros Hk Hc. unfold send_connect_to_offer. hstep. hstep.
  { hstep; [|hsteps]. hsteps. }
  hstep. hstep. apply hoare_get_key. intros key' K' HK Hk'.
  apply keeps_forget; [done|]. hsteps.
Qed.
Hint Resolve keeps_send_connect_to_offer : gateway.

Lemma keeps_maybe_send_connect K key :
  K key → keeps cs K (maybe_send_connect_service_locked send_ok key).
Proof.
  intros Hk. unfold maybe_send_connect_service_locked. hstep.
  apply hoare_the_seq; [by intros []|]. intros s Hs. hstep. hstep.
  match goal with x : _ * _ |- _ => destruct x as [c o] end.
  apply keeps_send_connect_to_offer; [done|].
  match goal with Hb : inv _ _ ?b |- _ => apply (i_states _ _ _ Hb) in Hs as [_ [Ho _]] end.
  apply Ho. match goal with Hin : _ ∈ map_to_list _ |- _ =>
    apply elem_of_map_to_list in Hin end. eauto.
Qed.
Hint Resolve keeps_maybe_send_connect : gateway.

(** The entries of an updated mapping belong to clients of the old one. *)
Lemma erase_entries_clients cm c keep `{!∀ x, Decision (keep x)} vec c' v :
  m_id_to_key (erase_entries cm c keep vec) !! c' = Some v →
  c' = c ∨ is_Some (m_id_to_key cm !! c').
Proof.
  unfold erase_entries. destruct (filter keep vec); simpl.
  - intros [_ Hl]%lookup_delete_Some. eauto.
  - rewrite lookup_insert. case_decide; eauto.
Qed.
Lemma erase_loop_clients key (m0 : Client_id_to_metadata) l c v : ∀ cm,
  (∀ c', is_Some (m_id_to_key cm !! c') → is_Some (m0 !! c')) →
  (∀ c' vec, (c', vec) ∈ l → is_Some (m0 !! c')) →
  m_id_to_key (foldl (λ cm '(c, vec), erase_entries cm c (λ ids, ids_key ids ≠ key) vec) cm l)
    !! c = Some v → is_Some (m0 !! c).
Proof.
  induction l as [|[c1 vec] l IH]; intros cm Hcm Hl; simpl; [eauto|].
  apply IH; [|intros c' vec' Hin; eapply Hl; by right]. intros c' [v' Hv'].
  apply erase_entries_clients in Hv' as [->|]; [|auto]. eapply Hl. left.
Qed.
Lemma remove_service_clients cm key c v :
  m_id_to_key (cm_remove_service cm key) !! c = Some v → is_Some (m_id_to_key cm !! c).
Proof.
  apply erase_loop_clients; [done|]. intros c' vec Hin%elem_of_map_to_list. eauto.
Qed.

Lemma inv_remove_service K b key :
  inv cs K b → inv cs K (set_id_mapping b (cm_remove_service (b_id_mapping b) key)).
Proof.
  intros Hb. apply inv_set_id_mapping; [done|by eapply remove_service_spec, i_mapping_ok|].
  intros c vec [v Hv]%remove_service_clients. by eapply i_mapping.
Qed.
Lemma inv_erase_client K b c keep `{!∀ x, Decision (keep x)} :
  inv cs K b → inv cs K (set_id_mapping b
    match m_id_to_key (b_id_mapping b) !! c with
    | None => b_id_mapping b
    | Some vec => erase_entries (b_id_mapping b) c keep vec
    end).
Proof.
  intros Hb. apply inv_set_id_mapping; [done|by eapply erase_client_spec, i_mapping_ok|].
  intros c' vec. destruct (m_id_to_key (b_id_mapping b) !! c) as [v|] eqn:Hc;
    [|by eapply i_mapping].
  intros [->|[v' Hv']]%erase_entries_clients; by eapply i_mapping.
Qed.
Lemma inv_add_mapping K b c ids cm :
  inv cs K b → c ∈ cs → add_mapping (b_id_mapping b) c ids = Done cm →
  inv cs K (set_id_mapping b cm).
Proof.
  intros Hb Hc Ha. pose proof (cm_ok_add _ _ _ _ (i_mapping_ok _ _ _ Hb) Ha) as Hok.
  revert Ha Hok. unfold add_mapping. intros ([] & _ & Hk)%outcome_bind_Done; [done|].
  injection Hk as <-. intros Hok. apply inv_set_id_mapping; [done..|]. intros c' vec. simpl.
  rewrite lookup_insert. case_decide; [by subst|]. by eapply i_mapping.
Qed.
Hint Resolve inv_remove_service inv_erase_client inv_add_mapping : gateway.

Lemma keeps_request_locked K sv i u :
  keeps cs K (send_request_service_locked send_ok sv i u).
Proof.
  unfold send_request_service_locked. apply hoare_get_key. intros key K' HK Hk.
  apply keeps_forget; [done|]. hsteps.
Qed.
Hint Resolve keeps_request_locked : gateway.

Lemma keeps_process_request K key counts msg :
  K key →
  keeps cs K (on_member b_service_states set_service_states (λ m,
    '(m', kept, removed, removed_client) ← process_request_service m key counts msg;
    Done ((kept, removed, removed_client), m'))).
Proof.
  intros Hk. apply hoare_on_member.
  - intros b Hb. unfold process_request_service. sound.
  - intros b [[kept rem] remc] m Hb E.
    apply outcome_bind_Done in E as ([[[m1 k1] r1] c1] & Hp & E). injection E as <- <- <- <-.
    unfold process_request_service in Hp. apply outcome_bind_Done in Hp as ([s m2] & Hg & Hp).
    destruct (get_or_create_ok K b key _ _ s m2 Hb (i_known _ _ _ Hb key Hk) Hg)
      as (Hs & Hor & Hins).
    destruct (negb (rs_in_use msg)); injection Hp as <- <- <- <-.
    + apply inv_set_states; [done|]. intros k s' [Hne Hl]%lookup_delete_Some.
      destruct Hor as [-> | ->]; [by eapply i_states|].
      rewrite lookup_insert_ne in Hl by done. by eapply i_states.
    + apply Hins. eauto with gateway.
Qed.

Lemma keeps_send_request_service K i counts n u :
  keeps cs K (send_request_service send_ok i counts n u).
Proof.
  unfold send_request_service. hstep. hstep. hstep; [hsteps|].
  hstep; [hsteps|]. apply hoare_get_key. intros key K' HK Hk.
  apply keeps_forget; [done|]. apply hoare_seq; [by apply keeps_process_request|].
  intros [[kept rem] remc]. hstep; [hsteps|]. hstep; [|hsteps]. hstep; [hsteps|].
  hstep. match goal with Hb : inv _ _ ?b |- _ =>
    apply (inv_remove_service _ _ key) in Hb end.
  apply inv_set_pending; [done|]. intros h p [Hp _]%map_lookup_filter_Some.
  match goal with Hb : inv _ _ _ |- _ => by apply (i_pending _ _ _ Hb) in Hp end.
Qed.
Hint Resolve keeps_send_request_service : gateway.

Lemma keeps_send_offer K c sv i o :
  keeps cs K (send_offer_service_to_client send_ok c sv i o).
Proof. unfold send_offer_service_to_client. hsteps. Qed.
Hint Resolve keeps_send_offer : gateway.

(** The recipients of an event are connected. *)
Lemma for_each_client_connected K b key c ids :
  inv cs K b → (c, ids) ∈ for_each_client (b_id_mapping b) key → c ∈ cs.
Proof.
  intros Hb. unfold for_each_client. destruct (_ !! key) as [clients|]; [|set_solver].
  intros ([c' i] & _ & Hf)%list_elem_of_omap.
  destruct (m_id_to_key (b_id_mapping b) !! c') as [vec|] eqn:Hc; [|done].
  destruct (vec !! i); simplify_eq/=. by eapply i_mapping.
Qed.

Lemma keeps_event_update_loop K e h l : ∀ n,
  (∀ c ids, (c, ids) ∈ l → c ∈ cs) → keeps cs K (send_event_update_loop send_ok e h l n).
Proof.
  induction l as [|[c ids] l IH]; intros n Hl; simpl; [by apply hoare_ret|].
  hstep; [|apply IH; intros c' ids' Hin; eapply Hl; by right].
  unfold send_event_update_to. apply keeps_conn; [eapply Hl; left|]. simpl.
  hstep; [by apply hoare_ret|]. hsteps.
Qed.

Lemma keeps_send_event_update K key e p : keeps cs K (send_event_update send_ok key e p).
Proof.
  unfold send_event_update. apply hoare_read. intros b Hb.
  apply hoare_lift; [sound|]. intros h _. apply hoare_seq.
  { apply keeps_event_update_loop. intros c ids. by apply (for_each_client_connected K b key). }
  intros n. hstep; [|hsteps]. hsteps.
Qed.
Hint Resolve keeps_send_event_update : gateway.

Lemma keeps_service_state_change K key a counts :
  K key → keeps cs K (service_state_change send_ok key a counts).
Proof.
  intros Hk. unfold service_state_change. hstep; [hsteps|]. hstep; [hsteps|].
  apply hoare_read. intros b Hb.
  apply hoare_the_seq; [intros _; by apply (i_known _ _ _ Hb)|]. intros [sv i] _.
  hstep.
  { apply hoare_on_member; [intros ? ?; unfold add_service; sound|].
    intros b1 [] m Hb1 E. apply outcome_bind_Done in E as (m1 & Ha & E). injection E as <-.
    unfold add_service in Ha. apply outcome_bind_Done in Ha as ([s m2] & Hg & Ha).
    injection Ha as <-.
    destruct (get_or_create_ok K b1 key _ _ s m2 Hb1 (i_known _ _ _ Hb1 key Hk) Hg)
      as (Hs & _ & Hins). apply Hins. eauto with gateway. }
  apply hoare_read. intros b2 Hb2.
  assert (∀ c, c ∈ default ∅ (b_interested_peers b2 !! key) → c ∈ cs) as Hcs.
  { intros c. destruct (b_interested_peers b2 !! key) eqn:E; simpl; [|set_solver].
    by eapply i_interested. }
  hstep.
  - hstep. apply inv_set_interested; [done|]. intros k peers c. rewrite lookup_insert.
    case_decide; [|by eapply i_interested]. intros [= <-]. apply Hcs.
  - hstep. apply keeps_conn; [apply Hcs; by apply elem_of_elements|]. simpl.
    hstep; [by apply hoare_ret|]. hsteps.
Qed.
Hint Resolve keeps_service_state_change : gateway.

(** What the runtime calls back is about a service the binding knows. *)
Definition callback_ok K (cb : Callback) : Prop :=
  match cb with On_service_state_change key _ _ => K key | _ => True end.

Lemma keeps_run_callback K cb : callback_ok K cb → keeps cs K (run_callback send_ok cb).
Proof. destruct cb; simpl; intros Hk; eauto with gateway. Qed.
Hint Resolve keeps_run_callback : gateway.

Lemma keeps_on_states K f :
  (∀ b, inv cs K b → inv cs K (set_service_states b (f (b_service_states b)).1)) →
  keeps cs K (on_states f).
Proof.
  intros Hf. unfold on_states. hstep; [|hsteps]. apply hoare_on_member.
  - intros b Hb. by destruct (f (b_service_states b)).
  - intros b calls m Hb. specialize (Hf b Hb).
    destruct (f (b_service_states b)). by intros [= <- <-].
Qed.

Lemma keeps_drop_client_subscriptions K c :
  keeps cs K (on_states (λ m, remove_event_subscriptions_for_client m c)).
Proof.
  apply keeps_on_states. intros b Hb. apply states_fmap; [done|]. eauto with gateway.
Qed.
Hint Resolve keeps_drop_client_subscriptions : gateway.

Lemma keeps_alter_states K f key :
  (∀ s, state_ok cs s → state_ok cs (f s)) →
  keeps cs K (modify (λ b, set_service_states b (alter f key (b_service_states b))) : BM unit).
Proof. intros Hf. hstep. by apply states_alter. Qed.

Lemma keeps_register K configs : keeps cs K (register_shared_memory_configurations configs).
Proof.
  unfold register_shared_memory_configurations. apply hoare_on_member.
  - intros b Hb. sound.
  - eauto with gateway.
Qed.

Lemma keeps_event_payload_allocate K key : K key → keeps cs K (event_payload_allocate key).
Proof.
  intros Hk. unfold event_payload_allocate. intros b Hb. unfold mbind, M_bind, reads, on_member.
  match goal with |- match match match ?x with _ => _ end with _ => _ end with _ => _ end =>
    assert (sound x) as Hs; [|destruct x as [[? ?]|f] eqn:E; simpl] end.
  - apply sound_bind; [apply sound_slot_manager; by apply (i_known _ _ _ Hb)|].
    intros [m s] _. destruct (allocate_slot m) as [[h|e] m']; [|sound].
    unfold make_shared_memory_writable_payload. sound.
  - eauto with gateway.
  - by apply Hs.
Qed.

Lemma keeps_insert_interest K key peers :
  (∀ b c, inv cs K b → c ∈ peers b → c ∈ cs) →
  keeps cs K (modify (λ b, set_interested_peers b
    (<[key := peers b]> (b_interested_peers b))) : BM unit).
Proof.
  intros Hp. hstep. apply inv_set_interested; [done|]. intros k st c.
  rewrite lookup_insert. case_decide; [|by eapply i_interested].
  intros [= <-]. by apply Hp.
Qed.

Lemma interested_connected K b key c :
  inv cs K b → c ∈ default ∅ (b_interested_peers b !! key) → c ∈ cs.
Proof.
  intros Hb. destruct (b_interested_peers b !! key) eqn:E; simpl; [|set_solver].
  by eapply i_interested.
Qed.

Lemma keeps_mark_pending K key sv i :
  K key → keeps cs K (on_member b_service_states set_service_states (λ m,
    m' ← mark_client_connector_pending m key sv i; Done (tt, m'))).
Proof.
  intros Hk. apply hoare_on_member;
    [intros b Hb; unfold mark_client_connector_pending; sound|].
  intros b [] m Hb E. apply outcome_bind_Done in E as (m1 & Ha & E). injection E as <-.
  unfold mark_client_connector_pending in Ha.
  apply outcome_bind_Done in Ha as ([st m2] & Hg & Ha). injection Ha as <-.
  destruct (get_or_create_ok K b key _ _ st m2 Hb (i_known _ _ _ Hb key Hk) Hg)
    as (Hs & _ & Hins). apply Hins. eauto with gateway.
Qed.

Lemma keeps_request_start K key c msg :
  K key → c ∈ cs → keeps cs K (request_service_start send_ok key c msg).
Proof.
  intros Hk Hc. unfold request_service_start. hstep.
  - hstep; [hsteps|]. hstep; [hstep; by apply inv_erase_client|]. hstep; [hsteps|].
    hstep; [|hsteps]. apply keeps_insert_interest. intros b c' Hb Hin.
    apply elem_of_difference in Hin as [Hin _]. by eapply interested_connected.
  - hstep.
    { apply keeps_insert_interest. intros b c' Hb [->%elem_of_singleton|Hin]%elem_of_union;
        [done|by eapply interested_connected]. }
    hstep. hstep; [hsteps|]. hstep. hstep; [hsteps|].
    hstep; [by apply keeps_mark_pending|]. hsteps.
Qed.

Lemma keeps_request_finish K key result : keeps cs K (request_service_finish key result).
Proof.
  destruct result as [connector|]; [|apply keeps_alter_states; eauto with gateway].
  unfold request_service_finish. hstep; [|hsteps]. apply hoare_on_member;
    [intros bx Hbx; unfold add_client_connector; sound|].
  intros bx old m Hbx E. apply outcome_bind_Done in E as ([m1 o1] & Ha & E).
  injection E as <- <-. unfold add_client_connector in Ha.
  destruct (b_service_states bx !! key) as [st|] eqn:Es; [|done]. injection Ha as <- <-.
  apply (i_states _ _ _ Hbx) in Es as [Hkn Hst]. apply states_insert; eauto with gateway.
Qed.
#[local] Hint Resolve keeps_request_start keeps_request_finish : gateway.

Lemma keeps_request_with_key K key c msg cbs result :
  K key → c ∈ cs → Forall (callback_ok K) cbs →
  keeps cs K (request_service_with_key send_ok key c msg cbs result).
Proof.
  intros Hk Hc Hcbs. rewrite Forall_forall in Hcbs. unfold request_service_with_key.
  hstep; [by apply keeps_request_start|]. hstep; [|hsteps].
  hstep; [hstep; by apply keeps_run_callback, Hcbs|]. apply keeps_request_finish.
Qed.

Lemma keeps_offer K c msg : c ∈ cs → keeps cs K (handle_offer_service_message send_ok c msg).
Proof.
  intros Hc. unfold handle_offer_service_message. apply hoare_get_key.
  intros key K' HK Hk. apply keeps_forget; [done|]. hstep.
  - apply hoare_on_member; [intros b Hb; unfold process_offer; sound|].
    intros b o m Hb E. apply outcome_bind_Done in E as ([m1 o1] & Ha & E). injection E as <- <-.
    unfold process_offer in Ha. apply outcome_bind_Done in Ha as ([st m2] & Hg & Ha).
    destruct (get_or_create_ok K' b key _ _ st m2 Hb (i_known _ _ _ Hb key Hk) Hg)
      as (Hs & _ & Hins).
    destruct (negb (os_offered msg)); injection Ha as <- <-; apply Hins; eauto with gateway.
  - hstep; [|hsteps]. hstep; [|hsteps].
    hstep; [apply keeps_alter_states; eauto with gateway|].
    hstep; [hstep; by apply inv_remove_service|]. hsteps.
Qed.

(** The client of a mapping is connected. *)
Lemma find_ids_connected K b c (P : Ids → Prop) `{!∀ x, Decision (P x)} ids :
  inv cs K b → find_ids (b_id_mapping b) c P = Some ids → c ∈ cs.
Proof.
  intros Hb. unfold find_ids. destruct (_ !! c) as [vec|] eqn:E; [|done].
  intros _. by eapply i_mapping.
Qed.

Lemma keeps_subscribe K c msg : keeps cs K (handle_subscribe_event_message c msg).
Proof.
  unfold handle_subscribe_event_message. apply hoare_read. intros b Hb.
  destruct (get_by_local_handle _ _ _) as [ids|] eqn:E; [|by apply hoare_ret].
  apply (find_ids_connected K b) in E; [|done]. apply keeps_on_states. intros b1 Hb1.
  unfold update_event_subscription.
  destruct (b_service_states b1 !! ids_key ids) as [st|] eqn:Es; [|by destruct Hb1; split].
  pose proof Es as [Hkn Hst]%(i_states _ _ _ Hb1).
  pose proof (state_ok_update cs st {| ep_client_id := c; ep_provided_id := se_provided_id msg |}
    (se_event_id msg) (se_subscribe msg) Hst E) as Hup.
  destruct (update_subscription _ _ _ _) as [st' calls]. simpl in *. by apply states_insert.
Qed.

Lemma keeps_event_update K c msg r : keeps cs K (handle_event_update_message c msg r).
Proof.
  unfold handle_event_update_message. hstep. hstep; [|hsteps]. hstep.
  apply hoare_the_seq; [by intros []|]. intros connector _.
  hstep; [hsteps|]. apply hoare_the_seq; [by intros []|]. intros payload _.
  hstep; [hsteps|]. eapply hoare_post; [apply hoare_assert; by intros []|]. by intros ? ? [? _].
Qed.

Lemma keeps_payload_consumed K c msg :
  keeps cs K (handle_payload_consumed_message send_ok c msg).
Proof.
  unfold handle_payload_consumed_message. hstep. hstep; [|hsteps].
  hstep; [|hsteps]. apply hoare_on_member.
  - intros bx Hbx. destruct (payload_consumed _ _ _). sound.
  - intros bx d t Hbx. destruct (payload_consumed _ _ _). intros [= <- <-]. eauto with gateway.
Qed.

Lemma keeps_add_mapping K c ids :
  c ∈ cs → keeps cs K (on_member b_id_mapping set_id_mapping
    (λ cm, cm' ← add_mapping cm c ids; Done (tt, cm'))).
Proof.
  intros Hc. apply hoare_on_member; [intros bx Hbx; sound|].
  intros bx [] cm Hbx E. apply outcome_bind_Done in E as (cm1 & Ha & E). injection E as <-.
  by eapply inv_add_mapping.
Qed.

Lemma keeps_connect_service K c msg :
  c ∈ cs → keeps cs K (handle_connect_service_message send_ok c msg).
Proof.
  intros Hc. unfold handle_connect_service_message. apply hoare_get_key.
  intros key K' HK Hk. apply keeps_forget; [done|]. hstep.
  - hstep. hstep.
    { hstep; [|hsteps]. apply keeps_on_states. intros bx Hbx.
      unfold remove_event_subscriptions_for_connection.
      destruct (b_service_states bx !! key) as [st|] eqn:Es; [|by destruct Hbx; split].
      apply (i_states _ _ _ Hbx) in Es as [Hkn Hst].
      pose proof (state_ok_remove_endpoint cs st
        {| ep_client_id := c; ep_provided_id := ids_local_handle i |}
        (ss_client_connector st) Hst) as Hup.
      destruct (remove_event_subscription _ _ _) as [st' calls]. by apply states_insert. }
    hstep; [hstep; by apply inv_erase_client|]. hstep; [hsteps|]. hstep; [|hsteps].
    apply hoare_on_member; [intros bx Hbx; destruct (remove_client_connector _ _); sound|].
    intros bx o m Hbx. unfold remove_client_connector.
    destruct (b_service_states bx !! key) as [st|] eqn:Es; intros [= <- <-];
      [|by destruct Hbx; split].
    apply (i_states _ _ _ Hbx) in Es as [Hkn Hst]. apply states_insert; eauto with gateway.
  - hstep; [hsteps|]. hstep; [hsteps|]. hstep; [by apply keeps_add_mapping|].
    hstep. apply hoare_the_seq; [by intros []|]. intros st _. hsteps.
Qed.

Lemma keeps_connect K c : keeps cs K (handle_connect_message send_ok c).
Proof.
  unfold handle_connect_message. hstep; [hsteps|]. hstep. hstep.
  match goal with x : _ * Service_state |- _ => destruct x as [k st] end. hsteps.
Qed.

(** After a read, the keys known in the state that was read stay known. *)
Lemma hoare_read_known {A B} K (f : Binding → A) (k : A → BM B) Q :
  (∀ b, inv cs K b → hoare lost (inv cs (λ x, K x ∨ known b x)) (k (f b)) Q) →
  hoare lost (inv cs K) (reads f ≫= k) Q.
Proof.
  intros Hk. eapply hoare_bind; [apply hoare_reads|]. intros a b [Hb ->].
  apply (Hk b Hb). destruct Hb. split; auto. intros x [Hx|Hx]; auto.
Qed.

Lemma keeps_connect_reply K msg : keeps cs K (handle_connect_reply_message send_ok msg).
Proof.
  unfold handle_connect_reply_message. hstep. apply hoare_read_known. intros bx Hbx.
  apply keeps_forget; [auto|]. hstep.
  match goal with x : _ * Service_state |- _ => destruct x as [k st] end.
  match goal with Hin : _ ∈ map_to_list _ |- _ => apply elem_of_map_to_list in Hin;
    apply (i_states _ _ _ Hbx) in Hin as [Hkn _] end.
  hstep; [hsteps|]. apply keeps_maybe_send_connect. by right.
Qed.

Lemma keeps_reply_locked K c msg :
  c ∈ cs → keeps cs K (connect_service_reply_locked c msg).
Proof.
  intros Hc. unfold connect_service_reply_locked. apply hoare_read_known. intros bx Hbx.
  apply keeps_forget; [auto|].
  assert (∀ K', keeps cs K' (modify (λ b, set_pending_connects b
    (delete (csr_required_id msg) (b_pending_connects b))) : BM unit)) as Hdel.
  { intros K'. hstep. apply inv_set_pending; [done|].
    intros h p [_ Hp]%lookup_delete_Some. by eapply i_pending. }
  destruct (b_pending_connects bx !! csr_required_id msg) as [p|] eqn:Ep; [|hsteps].
  apply (i_pending _ _ _ Hbx) in Ep as [_ Hkn].
  hstep; [hsteps|]. hstep. hstep.
  - hstep; [apply keeps_slot_metadata; by right|]. hstep; [by apply keeps_add_mapping|].
    hstep; [apply Hdel|]. hsteps.
  - hstep; [apply Hdel|]. hsteps.
Qed.

Lemma keeps_reply_unlocked K c msg key : keeps cs K (connect_service_reply_unlocked c msg key).
Proof.
  unfold connect_service_reply_unlocked. hstep. apply hoare_the_seq; [by intros []|].
  intros st _. hsteps.
Qed.

Lemma keeps_reply_finish K key r : keeps cs K (connect_service_reply_finish key r).
Proof.
  unfold connect_service_reply_finish. apply hoare_the_seq; [by intros []|].
  intros [connector|] _; [|hsteps]. hstep; [|hsteps].
  apply hoare_on_member; [intros b Hb; destruct (add_server_connector _ _ _); sound|].
  intros b o m Hb. unfold add_server_connector.
  destruct (b_service_states b !! key) as [st|] eqn:Es; intros [= <- <-];
    [|by destruct Hb; split].
  apply (i_states _ _ _ Hb) in Es as [Hkn Hst]. apply states_insert; eauto with gateway.
Qed.

Lemma keeps_subscription_change K c h e u :
  keeps cs K (on_event_subscription_change send_ok c h e u).
Proof. unfold on_event_subscription_change, get_reply_channel. hsteps. Qed.

Lemma keeps_reply K c msg r :
  c ∈ cs → keeps cs K (handle_connect_service_reply_message c msg r).
Proof.
  intros Hc. unfold handle_connect_service_reply_message.
  hstep; [by apply keeps_reply_locked|]. hstep; [|hsteps].
  hstep; [apply keeps_reply_unlocked|apply keeps_reply_finish].
Qed.

Lemma keeps_destroy_binding K : keeps cs K destroy_binding.
Proof.
  unfold destroy_binding. hstep; [|hsteps]. apply hoare_on_member; [done|].
  intros b l m Hb [= <- <-]. apply states_fmap; eauto with gateway.
Qed.
End operations.

(** The operations that change the set of connections. *)
Lemma inv_add_client cs K b c :
  inv cs K b → inv ({[ c ]} ∪ cs) K (set_connections b ({[ c ]} ∪ b_connections b)).
Proof.
  intros Hb. split; simpl.
  - by rewrite (i_connections _ _ _ Hb).
  - intros k Hk. by apply (i_known _ _ _ Hb).
  - by apply (i_mapping_ok _ _ _ Hb).
  - intros c' vec Hv. apply elem_of_union_r. by eapply i_mapping.
  - intros h p Hp. apply (i_pending _ _ _ Hb) in Hp as [? ?]. split; [set_solver|done].
  - intros k s c' Hs Hin. apply elem_of_union_r. by eapply i_interested.
  - intros k s Hs. apply (i_states _ _ _ Hb) in Hs as [? [Ho Hsub]]. split; [done|]. split.
    + intros c' Hc'. apply elem_of_union_r. auto.
    + intros e eps ep He Hep. apply elem_of_union_r. eauto.
Qed.

(** A state after the removal of a client mentions it no more. *)
Lemma state_ok_without cs c s connector :
  state_ok cs s →
  state_ok (cs ∖ {[ c ]})
    (remove_offer c (remove_event_subscriptions s c connector).1).1.
Proof.
  intros [Ho Hs]. unfold remove_offer. simpl.
  assert (∀ e eps ep, omap (λ eps, if decide (filter (λ ep, ep_client_id ep ≠ c) eps = ∅)
    then None else Some (filter (λ ep, ep_client_id ep ≠ c) eps)) (ss_event_subscriptions s)
    !! e = Some eps → ep ∈ eps → ep_client_id ep ∈ cs ∖ {[ c ]}) as Hsub.
  { intros e eps ep. rewrite lookup_omap.
    destruct (ss_event_subscriptions s !! e) as [eps0|] eqn:E; simpl; [|done].
    case_decide; [done|]. intros [= <-] [Hne Hin]%elem_of_filter.
    apply elem_of_difference. split; [by eapply Hs|set_solver]. }
  destruct (ss_offers s !! c) as [o|] eqn:Eo.
  - assert (∀ c', is_Some (delete c (ss_offers s) !! c') → c' ∈ cs ∖ {[ c ]}) as Hoff.
    { intros c' [o' [Hne Ho']%lookup_delete_Some]. apply elem_of_difference.
      split; [apply Ho; eauto|set_solver]. }
    case_decide; (split; simpl; [done|]); [|done].
    intros e eps ep. by rewrite lookup_empty.
  - split; simpl; [|done]. intros c' Hc'. apply elem_of_difference. split; [auto|].
    intros ->%elem_of_singleton. rewrite Eo in Hc'. by destruct Hc'.
Qed.

Lemma emit_all_run l b : emit_all l b = Done (tt, b, l).
Proof.
  unfold emit_all. induction l as [|x l IH]; [done|]. simpl.
  unfold mbind, M_bind. simpl. by rewrite IH.
Qed.

(** What [remove_client] leaves. *)
Definition without_client (c : Client_id) (b : Binding) : Binding :=
  mkBinding (b_keys b) (b_connections b ∖ {[ c ]}) (b_slot_managers b)
    (b_read_only_slot_managers b)
    ((λ s, (remove_offer c s).1) <$>
      ((λ s, (remove_event_subscriptions s c (ss_client_connector s)).1) <$> b_service_states b))
    (cm_remove_client (b_id_mapping b) c) (b_local_offers b)
    (clear_pending_connects (λ val, (pcn_client_id val =? c)%N) (b_pending_connects b))
    (erase_interest c (b_interested_peers b)) (b_next_local_id b) (b_sent b).

Lemma remove_client_run c b : ∃ o, remove_client c b = Done (tt, without_client c b, o).
Proof.
  unfold remove_client, remove_client_state_locked, on_states.
  unfold mbind, M_bind, modify, on_member, mret, M_ret. simpl.
  rewrite !emit_all_run. eauto.
Qed.

Lemma inv_without_client cs K c b : inv cs K b → inv (cs ∖ {[ c ]}) K (without_client c b).
Proof.
  intros Hb. split; simpl.
  - by rewrite (i_connections _ _ _ Hb).
  - intros k Hk. by apply (i_known _ _ _ Hb).
  - apply cm_ok_remove_client. by apply (i_mapping_ok _ _ _ Hb).
  - intros c' vec [Hne Hv]%lookup_delete_Some. apply elem_of_difference.
    split; [by eapply i_mapping|set_solver].
  - intros h p [Hp Hne]%map_lookup_filter_Some. simpl in Hne. apply N.eqb_neq in Hne.
    apply (i_pending _ _ _ Hb) in Hp as [? ?]. split; [set_solver|done].
  - intros k s c'. unfold erase_interest. rewrite lookup_omap.
    destruct (b_interested_peers b !! k) as [peers|] eqn:E; simpl; [|done].
    case_decide; [done|]. intros [= <-] [Hin Hne]%elem_of_difference.
    apply elem_of_difference. split; [by eapply i_interested|done].
  - intros k s. rewrite !lookup_fmap. destruct (b_service_states b !! k) as [s0|] eqn:E; [|done].
    intros [= <-]. apply (i_states _ _ _ Hb) in E as [Hk Hs]. split; [done|].
    by apply (state_ok_without _ _ _ (ss_client_connector s0)).
Qed.

(** ** Executions *)

(** What can happen to a binding. The reply to a Connect_service is one
    operation when nothing interferes, and three when something does. *)
Inductive Operation : Type :=
  | Op_add_client (client_id : Client_id)
  | Op_remove_client (client_id : Client_id)
  | Op_register (configs : Shared_memory_configs)
  | Op_receive (client_id : Client_id) (msg : Message) (answers : Answers)
  | Op_reply_locked (client_id : Client_id) (msg : Connect_service_reply)
  | Op_reply_unlocked (client_id : Client_id) (msg : Connect_service_reply) (key : Key_t)
  | Op_reply_finish (key : Key_t) (result : option (option Connector))
  | Op_callback (cb : Callback)
  | Op_allocate (key : Key_t)
  | Op_subscription_change (client_id : Client_id) (provided_id : Remote_handle)
      (event_id : Event_id) (subscribed : bool)
  | Op_payload_destroyed (payload : Event_payload)
  | Op_destroy.

Section executions.
Context `{Shm} (send_ok : N → Client_id → Message → bool).

Definition run_operation (op : Operation) : BM unit :=
  match op with
  | Op_add_client c => add_client c
  | Op_remove_client c => remove_client c
  | Op_register configs => register_shared_memory_configurations configs
  | Op_receive c msg an => dispatch send_ok c msg an
  | Op_reply_locked c msg => _ ← connect_service_reply_locked c msg; mret tt
  | Op_reply_unlocked c msg key => connect_service_reply_unlocked c msg key
  | Op_reply_finish key r => connect_service_reply_finish key r
  | Op_callback cb => run_callback send_ok cb
  | Op_allocate key => _ ← event_payload_allocate key; mret tt
  | Op_subscription_change c h e u => on_event_subscription_change send_ok c h e u
  | Op_payload_destroyed p => destroy_payloads send_ok [p]
  | Op_destroy => destroy_binding
  end.

(** What the peers and the runtime respect: messages come from connected
    clients, and the callbacks of a connector carry the key it was made for. *)
Definition admissible (b : Binding) (op : Operation) : Prop :=
  match op with
  | Op_receive c msg an =>
    c ∈ b_connections b ∧
    match msg with
    | Msg_Request_service m =>
      ∀ key ks, keys_get (b_keys b) (rs_service_id m) (rs_instance_id m) = Done (key, ks) →
        Forall (callback_ok (λ k, is_Some (keys_find ks k))) (an_callbacks an)
    | _ => True
    end
  | Op_reply_locked c _ => c ∈ b_connections b
  | Op_callback cb => callback_ok (known b) cb
  | Op_allocate key => known b key
  | _ => True
  end.

Inductive binding_reachable (configuration : Shared_memory_configuration) : Binding → Prop :=
  | reach_start : binding_reachable configuration (make_binding configuration)
  | reach_step b op b' o :
      binding_reachable configuration b → admissible b op →
      run_operation op b = Done (tt, b', o) → binding_reachable configuration b'.

Lemma keeps_request cs K c msg cbs result b :
  inv cs K b → c ∈ cs →
  (∀ key ks, keys_get (b_keys b) (rs_service_id msg) (rs_instance_id msg) = Done (key, ks) →
    Forall (callback_ok (λ k, is_Some (keys_find ks k))) cbs) →
  match handle_request_service_message send_ok c msg cbs result b with
  | Done (_, b', _) => inv cs K b'
  | Fault f => ¬ lost f
  end.
Proof.
  intros Hb Hc Hcbs. unfold handle_request_service_message, mbind, M_bind, get_key, on_member.
  destruct (keys_get (b_keys b) _ _) as [[key ks]|f] eqn:E; [|by eapply sound_keys_get].
  pose proof (keys_get_known_keys _ _ _ _ _ E) as [Hkey Hmono].
  assert (inv cs (λ k, is_Some (keys_find ks k)) (set_keys b ks)) as Hb'.
  { destruct Hb. split; simpl; auto; unfold known in *; simpl.
    - intros h p Hp. destruct (i_pending0 h p Hp). auto.
    - intros k st Hst. destruct (i_states0 k st Hst). auto. }
  pose proof (keeps_request_with_key send_ok cs _ key c msg cbs result Hkey Hc
    (Hcbs key ks eq_refl) _ Hb') as Hk.
  destruct (request_service_with_key _ _ _ _ _ _ _) as [[[[] b2] o]|f]; [|done].
  eapply inv_weaken; [done|]. intros k Hk'. apply Hmono. by apply (i_known _ _ _ Hb).
Qed.

(** The connected clients after an operation. *)
Definition clients_after (op : Operation) (cs : gset N) : gset N :=
  match op with
  | Op_add_client c => {[ c ]} ∪ cs
  | Op_remove_client c => cs ∖ {[ c ]}
  | _ => cs
  end.

(** Every admissible operation keeps the invariant and avoids the faults. *)
Lemma operation_keeps b op cs :
  inv cs (λ _, False) b → admissible b op →
  match run_operation op b with
  | Done (_, b', _) => inv (clients_after op cs) (λ _, False) b'
  | Fault f => ¬ lost f
  end.
Proof.
  intros Hb Ha.
  assert (∀ (m : BM unit), keeps cs (λ _, False) m →
    match m b with
    | Done (_, b', _) => inv cs (λ _, False) b'
    | Fault f => ¬ lost f
    end) as Hk.
  { intros m Hm. apply (Hm b Hb). }
  assert (∀ K (m : BM unit), keeps cs K m → inv cs K b →
    match m b with
    | Done (_, b', _) => inv cs (λ _, False) b'
    | Fault f => ¬ lost f
    end) as HkK.
  { intros K m Hm HbK. specialize (Hm b HbK). destruct (m b) as [[[? ?] ?]|]; [|done].
    by eapply inv_weaken. }
  assert (inv cs (known b) b) as Hknown by (destruct Hb; split; auto).
  destruct op as [c|c|cfg|c msg an|c msg|c msg key|key r|cb|key|c h e u|p|];
    cbn [run_operation clients_after].
  - unfold add_client, get_reply_channel, mbind, M_bind, reads.
    destruct (bool_decide _); simpl; [by intros []|]. by apply inv_add_client.
  - destruct (remove_client_run c b) as [o ->]. by apply inv_without_client.
  - apply Hk, keeps_register.
  - destruct Ha as [Hc Ha]. rewrite (i_connections _ _ _ Hb) in Hc.
    destruct msg; cbn [dispatch].
    + apply Hk, keeps_connect.
    + apply Hk, keeps_connect_reply.
    + by apply keeps_request.
    + by apply Hk, keeps_offer.
    + by apply Hk, keeps_connect_service.
    + by apply Hk, keeps_reply.
    + apply Hk, keeps_subscribe.
    + apply Hk, keeps_event_update.
    + apply Hk, keeps_payload_consumed.
  - simpl in Ha. rewrite (i_connections _ _ _ Hb) in Ha. apply Hk.
    apply hoare_seq; [by apply keeps_reply_locked|]. intros ?. by apply hoare_ret.
  - apply Hk, keeps_reply_unlocked.
  - apply Hk, keeps_reply_finish.
  - apply (HkK (known b)); [by apply keeps_run_callback|done].
  - apply (HkK (known b)); [|done].
    apply hoare_seq; [by apply keeps_event_payload_allocate|]. intros ?. by apply hoare_ret.
  - apply Hk, keeps_subscription_change.
  - apply Hk, keeps_destroy_payloads.
  - apply Hk, keeps_destroy_binding.
Qed.

Lemma inv_make_binding cfg : inv ∅ (λ _, False) (make_binding cfg).
Proof. split; simpl; try done; [apply cm_ok_init|..]; intros *; by rewrite ?lookup_empty. Qed.

Lemma reachable_inv cfg b : binding_reachable cfg b → ∃ cs, inv cs (λ _, False) b.
Proof.
  induction 1 as [|b op b' o Hb [cs IH] Ha Hr]; [eexists; apply inv_make_binding|].
  exists (clients_after op cs).
  pose proof (operation_keeps b op cs IH Ha) as Hk. by rewrite Hr in Hk.
Qed.

(** A step leads to a reachable state, in which the clients have changed only
    if one came or went, or stops at a fault that is not one of the two. *)
Lemma operation_step cfg b op :
  binding_reachable cfg b → admissible b op →
  match run_operation op b with
  | Done (_, b', _) =>
    binding_reachable cfg b' ∧ b_connections b' = clients_after op (b_connections b)
  | Fault f => f ≠ Connection_missing ∧ f ≠ Key_missing
  end.
Proof.
  intros Hr Ha. destruct (reachable_inv cfg b Hr) as [cs Hb].
  pose proof (operation_keeps b op cs Hb Ha) as Hk.
  destruct (run_operation op b) as [[[[] b'] o]|f] eqn:E.
  - split; [by eapply reach_step|].
    by rewrite (i_connections _ _ _ Hb), (i_connections _ _ _ Hk).
  - split; intros ->; exact (Hk I).
Qed.

(** ** Properties *)

(** C4: no operation of a binding runs into an assert that a client has a
    connection or that a key stands for a service. Whatever sequence of
    connects, disconnects, messages of connected clients, runtime callbacks and
    payload destructions came before, and whichever sends failed. *)
Theorem binding_never_loses_track cfg b op f :
  binding_reachable cfg b → admissible b op → run_operation op b = Fault f →
  f ≠ Connection_missing ∧ f ≠ Key_missing.
Proof.
  intros Hb Ha Hr. pose proof (operation_step cfg b op Hb Ha) as Hs. by rewrite Hr in Hs.
Qed.

(** A binding forgets a client with its connection. In every reachable
    state each client that is mentioned by an established connection, a pending
    handshake, a registered interest, an offer or an event subscription is
    connected. *)
Theorem binding_mentions_connected_clients cfg b c :
  binding_reachable cfg b →
  (is_Some (m_id_to_key (b_id_mapping b) !! c) ∨
   (∃ h p, b_pending_connects b !! h = Some p ∧ pcn_client_id p = c) ∨
   (∃ k peers, b_interested_peers b !! k = Some peers ∧ c ∈ peers) ∨
   (∃ k s, b_service_states b !! k = Some s ∧ is_Some (ss_offers s !! c)) ∨
   (∃ k s e eps ep, b_service_states b !! k = Some s ∧
      ss_event_subscriptions s !! e = Some eps ∧ ep ∈ eps ∧ ep_client_id ep = c)) →
  c ∈ b_connections b.
Proof.
  intros [cs Hb]%reachable_inv. rewrite (i_connections _ _ _ Hb).
  intros [[vec Hv]|[(h & p & Hp & <-)|[(k & peers & Hp & Hin)|[(k & s & Hs & Ho)|
    (k & s & e & eps & ep & Hs & He & Hep & <-)]]]].
  - by eapply i_mapping.
  - by apply (i_pending _ _ _ Hb) in Hp as [? _].
  - by eapply i_interested.
  - apply (i_states _ _ _ Hb) in Hs as [_ [Hoff _]]. auto.
  - apply (i_states _ _ _ Hb) in Hs as [_ [_ Hsub]]. eauto.
Qed.
End executions.

(** ** Witnesses *)

(** A server binding: client 0 connects and requests a service, for which the
    runtime makes connector 5 and reports the service available. *)
Definition demo_configuration : Shared_memory_configuration :=
  insert_configuration ∅
    {| sii_id := "a"; sii_version := {| major := 1; minor := 0 |} |} "x" demo_metadata.
Definition demo_counts : Service_counts := {| num_methods := 0; num_events := 4 |}.
Definition demo_answers : Answers :=
  {| an_callbacks := [On_service_state_change 0 true demo_counts];
     an_client_connector := Some 5%N; an_server_connector := None; an_update_event := true |}.
Definition demo_request : Request_service :=
  {| rs_service_id := demo_service "a"%char; rs_instance_id := demo_id "x"%char;
     rs_in_use := true |}.
Definition all_sent : N → Client_id → Message → bool := λ _ _ _, true.

Lemma demo_reached : ∃ b,
  @binding_reachable (granting_shm 4096) all_sent demo_configuration b ∧
  b_connections b = {[ 0%N ]} ∧
  default ∅ (b_interested_peers b !! 0%N) = {[ 0%N ]} ∧
  @run_operation (granting_shm 4096) all_sent (Op_add_client 0) b = Fault Assertion_failed.
Proof.
  eexists. split; [|split; [|split]].
  - eapply reach_step with (op := Op_receive 0 (Msg_Request_service demo_request) demo_answers).
    + eapply reach_step with (op := Op_add_client 0); [apply reach_start|done|reflexivity].
    + split; [set_solver|]. intros key ks E. vm_compute in E. injection E as <- <-.
      repeat constructor. by eexists.
    + vm_compute. reflexivity.
  - reflexivity.
  - reflexivity.
  - reflexivity.
Qed.

Lemma binding_never_loses_track_witness : ∃ b,
  @binding_reachable (granting_shm 4096) all_sent demo_configuration b ∧
  ∃ f, @run_operation (granting_shm 4096) all_sent (Op_add_client 0) b = Fault f ∧
    f ≠ Connection_missing.
Proof.
  destruct demo_reached as (b & Hb & _ & _ & Hf). exists b. split; [done|].
  eexists. split; [exact Hf|].
  exact (proj1 (@binding_never_loses_track (granting_shm 4096) all_sent demo_configuration b
    (Op_add_client 0) _ Hb I Hf)).
Defined.
