(* ===== verification/BindingProperties.v ===== *)
(** * What the binding does

    Functional properties of [impl/binding_base.cpp]: the fan-out of event
    updates, the agreement of the two ends of a connection, the return of a
    slot with its last consumer, and the places where the code does less than
    the protocol needs. *)

From stdpp Require Import base numbers list gmap strings.
From Stdlib Require Import Strings.Ascii.
From S2P Require Import Prelude.
From S2P Require Import IpcTypes.
From S2P Require Import Payload.
From S2P Require Import SlotManager.
From S2P Require Import Keys.
From S2P Require Import ConnectionMetadata.
From S2P Require Import SharedMemoryManagers.
From S2P Require Import ServiceState.
From S2P Require Import BindingBase.
From S2P Require Import BindingSafety.

(** ** Definitions *)

(** The update a recipient gets. *)
Definition update_for (e : Event_id) (h : Shared_memory_handle) (x : Client_id * Ids) : Message :=
  Msg_Event_update {| eu_required_id := ids_remote_handle x.2; eu_event_id := e;
                      eu_payload := h |}.

(** How many of the updates the channels accept, from the [n]-th message on. *)
Fixpoint delivered (send_ok : N → Client_id → Message → bool) (n : N) (e : Event_id)
    (h : Shared_memory_handle) (l : list (Client_id * Ids)) : N :=
  match l with
  | [] => 0
  | x :: l' =>
    (if send_ok n x.1 (update_for e h x) then 1 else 0) +
    delivered send_ok (n + 1) e h l'
  end%N.

(** The attempts to send an update, from the [n]-th message on. *)
Fixpoint updates_sent (send_ok : N → Client_id → Message → bool) (n : N) (e : Event_id)
    (h : Shared_memory_handle) (l : list (Client_id * Ids)) : list Action :=
  match l with
  | [] => []
  | x :: l' =>
    Send x.1 (update_for e h x) (send_ok n x.1 (update_for e h x)) ::
    updates_sent send_ok (n + 1)%N e h l'
  end.

(** ** Lemmas *)

Section lemmas.
Context `{Shm} (send_ok : N → Client_id → Message → bool).

Lemma send_event_update_loop_run e h l : ∀ n b,
  (∀ c ids, (c, ids) ∈ l → c ∈ b_connections b) →
  send_event_update_loop send_ok e h l n b =
  Done ((n + delivered send_ok (b_sent b) e h l)%N,
        set_sent b (b_sent b + N.of_nat (length l)),
        updates_sent send_ok (b_sent b) e h l).
Proof.
  induction l as [|[c ids] l IH]; intros n b Hl.
  { simpl. rewrite !N.add_0_r. by destruct b. }
  cbn [send_event_update_loop].
  assert (send_event_update_to send_ok e h c ids b =
    Done ((if send_ok (b_sent b) c (update_for e h (c, ids)) then 1%N else 0%N),
          set_sent b (b_sent b + 1), [Send c (update_for e h (c, ids))
            (send_ok (b_sent b) c (update_for e h (c, ids)))])) as E.
  { unfold send_event_update_to, get_reply_channel, mbind, M_bind, reads.
    rewrite bool_decide_true by (eapply Hl; left). simpl. done. }
  rewrite (bind_run _ _ _ _ _ _ E), IH.
  - cbn [delivered updates_sent]. f_equal. f_equal. f_equal.
    + simpl. lia.
    + unfold set_sent; simpl. f_equal. lia.
  - intros c' ids' Hin. eapply Hl. by right.
Qed.

Lemma delivered_le n e h l : (delivered send_ok n e h l ≤ N.of_nat (length l))%N.
Proof.
  revert n. induction l as [|x l IH]; intros n; simpl; [done|].
  specialize (IH (n + 1)%N). destruct (send_ok _ _ _); lia.
Qed.
End lemmas.

(** Looking up what was just added. *)
Lemma find_ids_added cm c ids cm' (P : Ids → Prop) `{!∀ x, Decision (P x)} :
  add_mapping cm c ids = Done cm' → P ids → find_ids cm c P = None →
  find_ids cm' c P = Some ids.
Proof.
  intros Ha HP Hn.
  destruct (decide (Exists (clash ids) (default [] (m_id_to_key cm !! c)))) as [Hex|Hex];
    [by rewrite add_mapping_clash in Ha|].
  rewrite add_mapping_fresh in Ha by done. injection Ha as <-.
  unfold find_ids in *. simpl. rewrite lookup_insert_eq. simpl.
  assert (list_find P (default [] (m_id_to_key cm !! c)) = None) as Hl.
  { destruct (m_id_to_key cm !! c); simpl in *; [|done]. by destruct (list_find _ _). }
  rewrite (list_find_app_r _ _ _ Hl). simpl. by rewrite decide_True.
Qed.

(** A new entry has a local handle of its own. *)
Lemma local_handle_new cm c ids cm' :
  add_mapping cm c ids = Done cm' → get_by_local_handle cm c (ids_local_handle ids) = None.
Proof.
  intros Ha. unfold get_by_local_handle, find_ids.
  destruct (m_id_to_key cm !! c) as [vec|] eqn:Hc; simpl; [|done].
  destruct (list_find _ vec) as [[i e]|] eqn:E; [|done].
  apply list_find_Some in E as (Hi & He & _).
  rewrite add_mapping_clash in Ha; [done|]. rewrite Hc. simpl.
  apply Exists_exists. exists e. split; [by eapply list_elem_of_lookup_2|by left].
Qed.

Lemma on_member_Done {A T} get set (f : T → outcome (A * T)) a b b1 o :
  on_member get set f b = Done (a, b1, o) →
  ∃ t, f (get b) = Done (a, t) ∧ b1 = set b t ∧ o = [].
Proof. unfold on_member. destruct (f (get b)) as [[? t]|]; [|done]. intros [= <- <- <-]. eauto. Qed.

(** Operations that leave the established connections alone. *)
Lemma slot_metadata_Done `{Shm} key b md b1 o :
  slot_metadata key b = Done (md, b1, o) → b_id_mapping b1 = b_id_mapping b ∧ o = [] ∧
    b_service_states b1 = b_service_states b.
Proof.
  unfold slot_metadata. rewrite reads_run. intros (t & _ & -> & ->)%on_member_Done. done.
Qed.

(** The provider's side of a handshake. *)
Lemma connect_service_accepted `{Shm} send_ok c msg b b' o :
  handle_connect_service_message send_ok c msg b = Done (tt, b', o) → cs_in_use msg = true →
  ∃ ids reply sent, o = [Send c (Msg_Connect_service_reply reply) sent] ∧
    add_mapping (b_id_mapping b) c ids = Done (b_id_mapping b') ∧
    ids_remote_handle ids = cs_required_id msg ∧ csr_required_id reply = cs_required_id msg ∧
    csr_provided_id reply = ids_local_handle ids ∧
    csr_metadata reply = ids_local_metadata ids ∧ ids_remote_metadata ids = cs_metadata msg ∧
    b_service_states b' = b_service_states b.
Proof.
  intros Hh Hu. unfold handle_connect_service_message, get_key, next_local_id in Hh.
  apply bind_Done in Hh as (key & b1 & o1 & o2 & Hk & Hh & ->).
  apply on_member_Done in Hk as (ks & _ & -> & ->). rewrite Hu in Hh.
  apply bind_Done in Hh as (lh & b2 & o3 & o4 & Hn & Hh & ->).
  apply on_member_Done in Hn as (nx & _ & -> & ->).
  apply bind_Done in Hh as (md & b3 & o5 & o6 & Hmd & Hh & ->).
  apply slot_metadata_Done in Hmd as (Hb3 & -> & Hst3). simpl in Hb3, Hst3.
  apply bind_Done in Hh as ([] & b4 & o7 & o8 & Ha & Hh & ->).
  apply on_member_Done in Ha as (cm & Ha & -> & ->).
  apply outcome_bind_Done in Ha as (cm' & Ha & E). injection E as ->.
  rewrite reads_run in Hh. apply bind_Done in Hh as (st & b5 & o9 & o10 & Hst & Hh & ->).
  destruct (b_service_states _ !! key) as [st'|]; [|done]. injection Hst as <- <- <-.
  injection Hh as <- <-. rewrite Hb3 in Ha.
  eexists _, _, _. split; [reflexivity|]. split; [exact Ha|done].
Qed.

(** The consumer's side. *)
Lemma connect_reply_taken `{Shm} c reply b key b' o :
  connect_service_reply_locked c reply b = Done (Some key, b', o) →
  ∃ ids, add_mapping (b_id_mapping b) c ids = Done (b_id_mapping b') ∧ ids_key ids = key ∧
    ids_local_handle ids = csr_provided_id reply ∧
    ids_remote_handle ids = csr_required_id reply ∧ ids_remote_metadata ids = csr_metadata reply.
Proof.
  unfold connect_service_reply_locked. rewrite reads_run.
  destruct (b_pending_connects b !! _) as [pn|]; [|done].
  destruct (negb _); [done|]. rewrite reads_run.
  destruct (b_service_states b !! _) as [sc|]; [|by rewrite modify_run].
  intros (md & b1 & o1 & o2 & Hmd & Hc & ->)%bind_Done.
  apply slot_metadata_Done in Hmd as (Hb1 & -> & _).
  apply bind_Done in Hc as ([] & b2 & o3 & o4 & Ha & Hc & ->).
  apply on_member_Done in Ha as (cm & Ha & -> & ->).
  apply outcome_bind_Done in Ha as (cm' & Ha & E). injection E as ->.
  rewrite modify_run in Hc. injection Hc as <- <- <-. rewrite Hb1 in Ha.
  eexists. split; [exact Ha|done].
Qed.

(** ** Properties *)

(** Destroying payloads cannot fail. *)
Lemma destroy_payloads_total `{Shm} send_ok ps b :
  ∃ b' o, destroy_payloads send_ok ps b = Done (tt, b', o).
Proof.
  assert (∀ c b, ∃ b' o, run_destroyed send_ok c b = Done (tt, b', o)) as Hc.
  { intros [g|c rh h|x] b0; [by do 2 eexists| |by do 2 eexists]. cbn [run_destroyed].
    unfold on_payload_destruction, get_reply_channel. rewrite reads_run.
    destruct (bool_decide _); by do 2 eexists. }
  unfold destroy_payloads. eapply forM_total. intros p b0. eapply forM_total. exact Hc.
Qed.

(** What the event callback does in a reachable state. *)
Lemma event_update_run `{Shm} send_ok cfg b key e (p : Event_payload) d :
  binding_reachable send_ok cfg b → payload_data p = Done d →
  let slot := get_slot_handle p in
  let h := {| slot_index := slot; used_bytes := sp_size d |} in
  let l := for_each_client (b_id_mapping b) key in
  let n := delivered send_ok (b_sent b) e h l in
  let sent := set_sent b (b_sent b + N.of_nat (length l)) in
  let updates := updates_sent send_ok (b_sent b) e h l in
  let table := m_shared_memory_allocations (b_slot_managers b) in
  let old := allocation_at table key slot in
  fits 64 slot → fits 64 (N.of_nat (length (default [] (table !! key)))) →
  l ≡ₚ spec_clients (m_id_to_key (b_id_mapping b)) key ∧
  if decide (n = 0%N) then
    ∃ b' o, destroy_payloads send_ok [p] sent = Done (tt, b', o) ∧
      send_event_update send_ok key e p b = Done (tt, b', updates ++ o)
  else if decide (slot = kNoSlotHandle) then
    send_event_update send_ok key e p b = Fault Out_of_bounds
  else
    ∃ table' b' o,
      destroy_payloads send_ok (match sma_payload old with None => [] | Some _ => [p] end)
        (set_slot_managers sent (set_m_allocations (b_slot_managers sent) table'))
        = Done (tt, b', o) ∧
      send_event_update send_ok key e p b = Done (tt, b', updates ++ o) ∧
      ∀ key' slot', allocation_at table' key' slot' =
        if decide ((key, slot) = (key', slot'))
        then {| sma_payload := Some (default p (sma_payload old));
                sma_pending_consumers := wrap64 (sma_pending_consumers old + n) |}
        else allocation_at table key' slot'.
Proof.
  intros [cs Hb]%reachable_inv Hd slot h l n sent updates table old Hslot Htable. split.
  { apply for_each_client_scan. by apply (i_mapping_ok _ _ _ Hb). }
  unfold send_event_update. rewrite reads_run. fold l.
  set (h0 := match l with [] => {| slot_index := get_slot_handle p; used_bytes := 0 |}
             | _ => h end).
  rewrite (liftO_run _ h0) by (rewrite Hd; by destruct l).
  assert (send_event_update_loop send_ok e h0 l 0 b = Done (n, sent, updates)) as E.
  { rewrite send_event_update_loop_run.
    - unfold n, updates. by destruct l.
    - intros c ids Hin. rewrite (i_connections _ _ _ Hb). by eapply for_each_client_connected. }
  rewrite (bind_run _ _ _ _ _ _ E).
  case_decide as Hn; [|case_decide as Hno].
  - destruct (destroy_payloads_total send_ok [p] sent) as (b' & o & Hdes).
    exists b', o. split; [done|].
    rewrite (on_member_run _ _ _ [p] (b_slot_managers sent)) by (rewrite Hn;
      by destruct b as [? ? []]).
    replace (set_slot_managers sent (b_slot_managers sent)) with sent by (by destruct b).
    by rewrite Hdes.
  - unfold on_member, mbind, M_bind. cbv beta.
    rewrite (insert_no_slot_faults (m_shared_memory_allocations (b_slot_managers sent)) key p n);
      [done|done|lia|done].
  - destruct (insert_allocation_spec table key p n) as (m & Hi & Hm);
      [unfold fits, kNoSlotHandle, size_max in *; lia|lia|]. fold slot old in Hi, Hm.
    set (dropped := match sma_payload old with None => [] | Some _ => [p] end) in *.
    destruct (destroy_payloads_total send_ok dropped
      (set_slot_managers sent (set_m_allocations (b_slot_managers sent) m))) as (b' & o & Hdes).
    exists m, b', o. split; [done|]. split; [|done].
    rewrite (on_member_run _ _ _ dropped (set_m_allocations (b_slot_managers sent) m))
      by (unfold table in Hi; simpl in *; by rewrite Hi).
    by rewrite Hdes.
Qed.

(** C14: an event reaches every connected process once. In a reachable state
    the event callback sends one Event_update to each established connection of
    the service, as a scan of all connections finds them, and to nothing else,
    with the handle the peer chose and the slot and length of the payload. If no
    channel accepts it, the payload is destroyed. Otherwise the slot waits for as
    many more consumers as channels accepted it, and keeps the payload that is
    recorded for it: this one, or the one that is there already, and then this one
    is destroyed. A payload without a slot that some channel accepts makes the
    callback write out of bounds. *)
Theorem event_fan_out `{Shm} send_ok cfg b key e (p : Event_payload) d :
  binding_reachable send_ok cfg b → payload_data p = Done d →
  let slot := get_slot_handle p in
  let h := {| slot_index := slot; used_bytes := sp_size d |} in
  let l := for_each_client (b_id_mapping b) key in
  let n := delivered send_ok (b_sent b) e h l in
  let sent := set_sent b (b_sent b + N.of_nat (length l)) in
  let updates := updates_sent send_ok (b_sent b) e h l in
  let table := m_shared_memory_allocations (b_slot_managers b) in
  let old := allocation_at table key slot in
  fits 64 slot → fits 64 (N.of_nat (length (default [] (table !! key)))) →
  l ≡ₚ spec_clients (m_id_to_key (b_id_mapping b)) key ∧
  if decide (n = 0%N) then
    ∃ b' o, destroy_payloads send_ok [p] sent = Done (tt, b', o) ∧
      send_event_update send_ok key e p b = Done (tt, b', updates ++ o)
  else if decide (slot = kNoSlotHandle) then
    send_event_update send_ok key e p b = Fault Out_of_bounds
  else
    ∃ table' b' o,
      destroy_payloads send_ok (match sma_payload old with None => [] | Some _ => [p] end)
        (set_slot_managers sent (set_m_allocations (b_slot_managers sent) table'))
        = Done (tt, b', o) ∧
      send_event_update send_ok key e p b = Done (tt, b', updates ++ o) ∧
      ∀ key' slot', allocation_at table' key' slot' =
        if decide ((key, slot) = (key', slot'))
        then {| sma_payload := Some (default p (sma_payload old));
                sma_pending_consumers := wrap64 (sma_pending_consumers old + n) |}
        else allocation_at table key' slot'.
Proof. apply event_update_run. Qed.

(** Both ends of a connection agree. A provider that accepts a
    Connect_service answers with one reply; when the consumer takes the reply,
    the handle the provider puts into event updates leads the consumer to its
    entry for the connection, the handle the consumer puts into subscriptions
    leads the provider to its own, and each side has recorded the memory the
    other side announced. The consumer must not already use the handle for
    another connection to this peer. *)
Lemma handshake_agrees `{Shm} send_ok bp bp' op cp msg bc cc :
  handle_connect_service_message send_ok cp msg bp = Done (tt, bp', op) →
  cs_in_use msg = true →
  get_by_remote_handle (b_id_mapping bc) cc (cs_required_id msg) = None →
  ∃ reply ids_p sent, op = [Send cp (Msg_Connect_service_reply reply) sent] ∧
    ids_remote_metadata ids_p = cs_metadata msg ∧
    ∀ key bc' oc, connect_service_reply_locked cc reply bc = Done (Some key, bc', oc) →
      ∃ ids_c, ids_key ids_c = key ∧
        get_by_remote_handle (b_id_mapping bc') cc (ids_remote_handle ids_p) = Some ids_c ∧
        get_by_local_handle (b_id_mapping bp') cp (ids_local_handle ids_c) = Some ids_p ∧
        ids_remote_metadata ids_c = ids_local_metadata ids_p.
Proof.
  intros Hh Hu Hfree.
  destruct (connect_service_accepted send_ok cp msg bp bp' op Hh Hu)
    as (ids_p & reply & sent & -> & Ha & Hrp & Hrr & Hrl & Hmd & Hmr & _).
  exists reply, ids_p, sent. split; [done|]. split; [done|]. intros key bc' oc Hc.
  destruct (connect_reply_taken cc reply bc key bc' oc Hc)
    as (ids_c & Hac & Hk & Hl & Hr & Hm).
  exists ids_c. split; [done|]. split_and!.
  - eapply find_ids_added; [exact Hac|simpl; congruence|]. by rewrite Hrp.
  - rewrite Hl, Hrl. eapply find_ids_added; [exact Ha|done|]. by eapply local_handle_new.
  - congruence.
Qed.

(** The last outstanding message frees the slot, and nothing else. *)
Lemma consumed_run `{Shm} send_ok c msg b ids (p : Event_payload) mgr :
  let key := ids_key ids in
  let slot := slot_index (pc_handle msg) in
  let s := b_slot_managers b in
  get_by_remote_handle (b_id_mapping b) c (pc_required_id msg) = Some ids →
  allocation_at (m_shared_memory_allocations s) key slot
    = {| sma_payload := Some p; sma_pending_consumers := 1 |} →
  m_payload_destroyed p = Some (Owns_guard {| m_manager := Some key; m_handle := slot |}) →
  m_slot_managers s !! key = Some mgr → (slot < m_slot_count mgr)%N → load_count mgr slot = 1%N →
  ∃ allocs, handle_payload_consumed_message send_ok c msg b = Done (tt,
      set_slot_managers b (set_m_slot_managers (set_m_allocations s allocs)
        (<[key := store_count mgr slot 0]> (m_slot_managers s))), []) ∧
    ∀ key' slot', allocation_at allocs key' slot' =
      if decide ((key, slot) = (key', slot')) then no_allocation
      else allocation_at (m_shared_memory_allocations s) key' slot'.
Proof.
  intros key slot s Hm Ha Hp Hmgr Hlt Hl. unfold handle_payload_consumed_message.
  rewrite reads_run, Hm. fold key.
  destruct (payload_consumed (m_shared_memory_allocations (b_slot_managers b)) key msg)
    as [m dropped] eqn:E.
  pose proof (payload_consumed_spec _ _ _ _ _ E) as [Hm' Hd]. fold slot in Hm', Hd.
  fold s in Hm', Hd. rewrite Ha in Hm', Hd. simpl in Hm', Hd.
  rewrite (on_member_run _ _ _ dropped (set_m_allocations (b_slot_managers b) m))
    by (by rewrite E).
  rewrite Hd. unfold destroy_payloads, destroy_payload, call_payload_destroyed. simpl.
  rewrite Hp. simpl. exists m. split.
  - unfold mbind, M_bind. simpl. unfold on_manager. simpl. fold s. rewrite Hmgr.
    unfold release_slot.
    rewrite Hl, (proj2 (N.leb_gt _ _)) by done. reflexivity.
  - intros key' slot'. rewrite Hm'. unfold concerns. simpl. fold slot.
    destruct (decide ((key, slot) = (key', slot'))) as [[= <- <-]|Hne].
    + by rewrite decide_True by done.
    + rewrite decide_False; [done|]. intros [-> ->]. by apply Hne.
Qed.

Lemma consumed_frees_slot `{Shm} send_ok c msg b ids (p : Event_payload) mgr :
  let key := ids_key ids in
  let slot := slot_index (pc_handle msg) in
  get_by_remote_handle (b_id_mapping b) c (pc_required_id msg) = Some ids →
  allocation_at (m_shared_memory_allocations (b_slot_managers b)) key slot
    = {| sma_payload := Some p; sma_pending_consumers := 1 |} →
  m_payload_destroyed p = Some (Owns_guard {| m_manager := Some key; m_handle := slot |}) →
  m_slot_managers (b_slot_managers b) !! key = Some mgr → manager_ok mgr →
  (slot < m_slot_count mgr)%N → load_count mgr slot = 1%N →
  ∃ b', handle_payload_consumed_message send_ok c msg b = Done (tt, b', []) ∧
    rc_of (m_slot_managers (b_slot_managers b')) key slot = 0%N ∧
    allocation_at (m_shared_memory_allocations (b_slot_managers b')) key slot = no_allocation.
Proof.
  intros key slot Hm Ha Hp Hmgr Hok Hlt Hl.
  destruct (consumed_run send_ok c msg b ids p mgr) as (m & E & Hm'); [done..|].
  eexists. split; [exact E|]. simpl. fold key slot.
  rewrite (rc_of_store _ _ mgr) by done. rewrite Hm'. fold key slot. by rewrite !decide_True.
Qed.

(** The last consumer returns the slot. When the only outstanding
    Payload_consumed for a payload of an established connection arrives, the
    payload is destroyed, the guard it owned releases the slot, and both the
    record and the reference count are free again. *)
Theorem last_consumer_frees_slot `{Shm} send_ok c msg b ids (p : Event_payload) mgr :
  let key := ids_key ids in
  let slot := slot_index (pc_handle msg) in
  get_by_remote_handle (b_id_mapping b) c (pc_required_id msg) = Some ids →
  allocation_at (m_shared_memory_allocations (b_slot_managers b)) key slot
    = {| sma_payload := Some p; sma_pending_consumers := 1 |} →
  m_payload_destroyed p = Some (Owns_guard {| m_manager := Some key; m_handle := slot |}) →
  m_slot_managers (b_slot_managers b) !! key = Some mgr → manager_ok mgr →
  (slot < m_slot_count mgr)%N → load_count mgr slot = 1%N →
  ∃ b', handle_payload_consumed_message send_ok c msg b = Done (tt, b', []) ∧
    rc_of (m_slot_managers (b_slot_managers b')) key slot = 0%N ∧
    allocation_at (m_shared_memory_allocations (b_slot_managers b')) key slot = no_allocation.
Proof. apply consumed_frees_slot. Qed.

(** What the callback that allocates the payload of an event does. *)
Lemma allocate_payload_run `{Shm} key b mgr handle :
  let s := b_slot_managers b in
  m_slot_managers s !! key = Some mgr → manager_ok mgr →
  (0 < m_slot_size mgr)%N → (m_slot_count mgr < kNoSlotHandle)%N →
  fits 64 (m_slot_count mgr * m_slot_size mgr) →
  allocate_slot mgr = (Ok handle, store_count mgr handle 1) →
  event_payload_allocate key b = Done (Ok (make_payload
      {| sp_addr := m_base_address mgr + handle * m_slot_size mgr; sp_size := m_slot_size mgr |}
      handle (Owns_guard {| m_manager := Some key; m_handle := handle |}) 0 0),
    set_slot_managers b (set_m_slot_managers s
      (<[key := store_count mgr handle 1]> (m_slot_managers s))), []).
Proof.
  intros s Hmgr Hok Hsz Hct Hfit Ea. unfold event_payload_allocate. rewrite reads_run.
  unfold on_member, get_shared_memory_slot_manager. fold s. rewrite Hmgr. simpl. rewrite Ea.
  destruct (allocate_slot_Ok mgr handle _ Hok Ea) as (Hh & _ & _ & _).
  pose proof (get_memory_stored mgr handle 1 Hok Hfit Hh ltac:(lia)) as Hg.
  unfold make_shared_memory_writable_payload, guard_get_memory. simpl.
  rewrite lookup_insert_eq. simpl. rewrite Hg. simpl.
  rewrite (proj2 (N.eqb_neq _ _)) by lia. simpl.
  by rewrite (proj2 (N.eqb_neq handle kNoSlotHandle)) by lia.
Qed.

Lemma allocate_payload_full `{Shm} key b mgr err :
  m_slot_managers (b_slot_managers b) !! key = Some mgr → allocate_slot mgr = (Err err, mgr) →
  event_payload_allocate key b = Done (Err err, b, []).
Proof.
  intros Hmgr Ea. unfold event_payload_allocate. rewrite reads_run.
  unfold on_member, get_shared_memory_slot_manager. rewrite Hmgr. simpl. rewrite Ea.
  rewrite insert_id by done. by destruct b as [? ? []].
Qed.

(** An allocated event payload. The callback that allocates the payload
    of an event takes the first free slot of the service's manager and returns
    a payload that covers the slot and owns it; without a free slot it returns
    the manager's error and changes nothing. *)
Theorem allocated_payload_owns_slot `{Shm} key b mgr :
  m_slot_managers (b_slot_managers b) !! key = Some mgr → manager_ok mgr →
  (0 < m_slot_size mgr)%N → (m_slot_count mgr < kNoSlotHandle)%N →
  fits 64 (m_slot_count mgr * m_slot_size mgr) →
  ∃ r b', event_payload_allocate key b = Done (r, b', []) ∧
    match allocate_slot mgr with
    | (Ok handle, mgr') =>
      m_slot_managers (b_slot_managers b') !! key = Some mgr' ∧
      ∃ p, r = Ok p ∧ get_slot_handle p = handle ∧
        m_payload_destroyed p = Some (Owns_guard {| m_manager := Some key; m_handle := handle |}) ∧
        m_data p = {| sp_addr := m_base_address mgr + handle * m_slot_size mgr;
                      sp_size := m_slot_size mgr |}
    | (Err e, _) => r = Err e ∧ b' = b
    end.
Proof.
  intros Hmgr Hok Hsz Hct Hfit. destruct (allocate_slot mgr) as [[handle|e] mgr'] eqn:Ea.
  - destruct (allocate_slot_Ok mgr handle mgr' Hok Ea) as (_ & _ & -> & _).
    eexists _, _. split; [by apply allocate_payload_run|]. split; [apply lookup_insert_eq|].
    eexists. split; [reflexivity|]. done.
  - assert (mgr' = mgr) as ->.
    { unfold allocate_slot in Ea. destruct (first_free _ _); [done|]. by injection Ea as <- <-. }
    eexists _, _. split; [by eapply allocate_payload_full|done].
Qed.

(** Withdrawing one request drops every subscription of the peer. A
    Request_service with [in_use] false is about one service, but afterwards
    the client is subscribed to no event of any service. *)
Theorem withdrawn_request_drops_all `{Shm} send_ok c msg cbs r b b' o :
  rs_in_use msg = false →
  handle_request_service_message send_ok c msg cbs r b = Done (tt, b', o) →
  ∀ key s e eps ep, b_service_states b' !! key = Some s →
    ss_event_subscriptions s !! e = Some eps → ep ∈ eps → ep_client_id ep ≠ c.
Proof.
  intros Hu Hh key s e eps ep. unfold handle_request_service_message, get_key in Hh.
  apply bind_Done in Hh as (k & b1 & o1 & o2 & Hk & Hh & ->).
  apply on_member_Done in Hk as (ks & _ & -> & ->).
  unfold request_service_with_key, request_service_start in Hh. rewrite Hu in Hh. simpl in Hh.
  rewrite bind_assoc in Hh.
  apply bind_Done in Hh as ([] & b2 & o3 & o4 & Hs & Hh & ->).
  unfold clear_pending_connects_for_key_locked in Hh. repeat rewrite bind_assoc, modify_run in Hh.
  injection Hh as <- _. simpl.
  unfold on_states in Hs. apply bind_Done in Hs as (calls & b3 & o5 & o6 & Hs & He & ->).
  rewrite emit_all_run in He. injection He as -> _.
  apply on_member_Done in Hs as (m & Hs & -> & _). injection Hs as _ <-. simpl.
  rewrite lookup_fmap. destruct (b_service_states b !! key) as [s0|]; [|done].
  intros [= <-]. simpl. rewrite lookup_omap.
  destruct (ss_event_subscriptions s0 !! e) as [eps0|]; simpl; [|done].
  case_decide; [done|]. by intros [= <-] [Hne _]%elem_of_filter.
Qed.

(** Slots sent to a client that disconnects are not returned. Removing a
    client leaves the recorded payloads, their consumer counts and the slots
    as they are, and a Payload_consumed that still arrives from it is ignored,
    so the count of a payload it had not consumed never reaches zero. *)
Lemma disconnect_keeps_slots `{Shm} send_ok c b :
  ∃ b' o, remove_client c b = Done (tt, b', o) ∧
    b_slot_managers b' = b_slot_managers b ∧
    ∀ msg, handle_payload_consumed_message send_ok c msg b' = Done (tt, b', []).
Proof.
  destruct (remove_client_run c b) as [o Hr]. exists (without_client c b), o.
  split; [done|]. split; [done|]. intros msg. unfold handle_payload_consumed_message.
  rewrite reads_run. unfold get_by_remote_handle, find_ids. simpl.
  by rewrite lookup_delete_eq.
Qed.

(** ** Two peers *)

(** Each peer requests the service [mine], which the other one provides, and
    provides [theirs]. *)
Section scenario.
Context (mine theirs : Ascii.ascii).

Definition demo_identifier (c : Ascii.ascii) : Service_interface_identifier :=
  {| sii_id := String c EmptyString; sii_version := {| major := 1; minor := 0 |} |}.
Definition two_services : Shared_memory_configuration :=
  insert_configuration demo_configuration (demo_identifier "b"%char) "x" demo_metadata.

Definition request_mine : Operation :=
  Op_callback (On_request_service (demo_identifier mine) demo_counts "x" true).
Definition receive_request : Operation :=
  Op_receive 0 (Msg_Request_service {| rs_service_id := demo_service theirs;
    rs_instance_id := demo_id "x"%char; rs_in_use := true |})
    {| an_callbacks := [On_service_state_change 1 true demo_counts];
       an_client_connector := Some 5%N; an_server_connector := None; an_update_event := true |}.
Definition receive_offer : Operation :=
  Op_receive 0 (Msg_Offer_service {| os_service_id := demo_service mine;
    os_instance_id := demo_id "x"%char; os_offered := true |}) demo_answers.

Definition peer_script : list Operation :=
  [Op_add_client 0; request_mine; receive_request; receive_offer].
End scenario.

(** Run a list of operations. *)
Definition exec `{Shm} (send_ok : N → Client_id → Message → bool) (ops : list Operation) :
    BM unit :=
  forM ops (run_operation send_ok).

Definition demo_shm : Shm := granting_shm 4096.
#[local] Existing Instance demo_shm.

(** The Connect_service that ends a run, and the reply an operation sends. *)
Definition sent_connect (o : list Action) : option Connect_service :=
  match last o with Some (Send N0 (Msg_Connect_service cs) _) => Some cs | _ => None end.
Definition sent_reply (o : list Action) : option Connect_service_reply :=
  match o with [Send N0 (Msg_Connect_service_reply r) _] => Some r | _ => None end.

(** Executable checks of a trace: each step returns, and the rest holds. *)
Definition run_then {A B} (x : outcome (A * B * list Action))
    (k : A → B → list Action → bool) : bool :=
  match x with Done (a, b, o) => k a b o | Fault _ => false end.
Definition some_then {A} (x : option A) (k : A → bool) : bool :=
  match x with Some a => k a | None => false end.
Definition faults_with {A} (x : outcome A) (f : fault) : bool :=
  match x, f with
  | Fault Assertion_failed, Assertion_failed => true
  | Fault Null_dereference, Null_dereference => true
  | _, _ => false
  end.

Lemma run_then_true {A B} (x : outcome (A * B * list Action)) k :
  run_then x k = true → ∃ a b o, x = Done (a, b, o) ∧ k a b o = true.
Proof. destruct x as [[[a b] o]|]; [eauto 10|done]. Qed.
Lemma some_then_true {A} (x : option A) k :
  some_then x k = true → ∃ a, x = Some a ∧ k a = true.
Proof. destruct x; [eauto|done]. Qed.
Lemma faults_with_true {A} (x : outcome A) f : faults_with x f = true → x = Fault f.
Proof. by destruct x as [|[]], f. Qed.

(** Follow a checked trace. *)
Ltac trace H :=
  repeat match type of H with
  | run_then _ _ = true =>
      apply run_then_true in H as (? & ? & ? & ? & H); do 3 eexists; split; [eassumption|]
  | some_then _ _ = true =>
      apply some_then_true in H as (? & ? & H); eexists; split; [eassumption|]
  | _ && _ = true => let H' := fresh in apply andb_true_iff in H as [H' H];
      split; [by apply bool_decide_eq_true in H'|]
  | bool_decide _ = true => by apply bool_decide_eq_true in H
  | faults_with _ _ = true => by apply faults_with_true in H
  end.

Definition crossing_check : bool :=
  run_then (exec all_sent (peer_script "a" "b") (make_binding two_services)) (λ _ x ox,
  some_then (sent_connect ox) (λ csx,
  run_then (exec all_sent (peer_script "b" "a") (make_binding two_services)) (λ _ y oy,
  some_then (sent_connect oy) (λ csy,
  run_then (handle_connect_service_message all_sent 0 csy x) (λ _ x' _,
  run_then (handle_connect_service_message all_sent 0 csx y) (λ _ _ ry,
  some_then (sent_reply ry) (λ reply,
  faults_with (connect_service_reply_locked 0 reply x') Assertion_failed))))))).

Definition sequential_check : bool :=
  run_then (exec all_sent (peer_script "a" "b") (make_binding two_services)) (λ _ x ox,
  some_then (sent_connect ox) (λ csx,
  run_then (exec all_sent (take 3 (peer_script "b" "a")) (make_binding two_services)) (λ _ y _,
  run_then (handle_connect_service_message all_sent 0 csx y) (λ _ y1 ry,
  some_then (sent_reply ry) (λ reply,
  run_then (connect_service_reply_locked 0 reply x) (λ kx x1 _,
  run_then (run_operation all_sent (receive_offer "b") y1) (λ _ y2 o2,
  some_then (sent_connect o2) (λ csy,
  run_then (handle_connect_service_message all_sent 0 csy x1) (λ _ _ rx,
  some_then (sent_reply rx) (λ reply',
  run_then (connect_service_reply_locked 0 reply' y2) (λ ky _ _,
  bool_decide (kx = Some 0%N) && bool_decide (ky = Some 0%N)))))))))))).

Definition race_check : bool :=
  run_then (exec all_sent (peer_script "a" "b") (make_binding two_services)) (λ _ x ox,
  some_then (sent_connect ox) (λ csx,
  run_then (exec all_sent (take 3 (peer_script "b" "a")) (make_binding two_services)) (λ _ y _,
  run_then (handle_connect_service_message all_sent 0 csx y) (λ _ _ ry,
  some_then (sent_reply ry) (λ reply,
  run_then (connect_service_reply_locked 0 reply x) (λ kx x1 _,
  run_then (send_request_service all_sent (demo_identifier "a") demo_counts "x" false x1)
    (λ _ x2 _,
  bool_decide (kx = Some 0%N) &&
  faults_with (connect_service_reply_unlocked 0 reply 0 x2) Null_dereference))))))).

(** Handles of the two directions collide. Both peers number their handles
    from one, and a peer files the handles it gives out and the handles it is
    given under one key. Two peers that each request a service of the other
    and whose Connect_service messages cross: both accept the other's request,
    and the reply then runs into the assert "Inconsistent mapping found". *)
Lemma crossing_connects_collide :
  ∃ u x ox, exec all_sent (peer_script "a" "b") (make_binding two_services) = Done (u, x, ox) ∧
  ∃ csx, sent_connect ox = Some csx ∧
  ∃ u y oy, exec all_sent (peer_script "b" "a") (make_binding two_services) = Done (u, y, oy) ∧
  ∃ csy, sent_connect oy = Some csy ∧
  ∃ u x' rx, handle_connect_service_message all_sent 0 csy x = Done (u, x', rx) ∧
  ∃ u y' ry, handle_connect_service_message all_sent 0 csx y = Done (u, y', ry) ∧
  ∃ reply, sent_reply ry = Some reply ∧
    connect_service_reply_locked 0 reply x' = Fault Assertion_failed.
Proof.
  assert (crossing_check = true) as H by (vm_compute; reflexivity).
  unfold crossing_check in H. trace H.
Qed.

(** When the messages do not cross, both directions are established: the
    first peer's connection is complete before the second one asks for its. *)
Lemma sequential_connects_succeed :
  ∃ u x ox, exec all_sent (peer_script "a" "b") (make_binding two_services) = Done (u, x, ox) ∧
  ∃ csx, sent_connect ox = Some csx ∧
  ∃ u y oy, exec all_sent (take 3 (peer_script "b" "a")) (make_binding two_services)
    = Done (u, y, oy) ∧
  ∃ u y1 ry, handle_connect_service_message all_sent 0 csx y = Done (u, y1, ry) ∧
  ∃ reply, sent_reply ry = Some reply ∧
  ∃ kx x1 o1, connect_service_reply_locked 0 reply x = Done (kx, x1, o1) ∧
  ∃ u y2 o2, run_operation all_sent (receive_offer "b") y1 = Done (u, y2, o2) ∧
  ∃ csy, sent_connect o2 = Some csy ∧
  ∃ u x2 rx, handle_connect_service_message all_sent 0 csy x1 = Done (u, x2, rx) ∧
  ∃ reply', sent_reply rx = Some reply' ∧
  ∃ ky y3 o3, connect_service_reply_locked 0 reply' y2 = Done (ky, y3, o3) ∧
    kx = Some 0%N ∧ ky = Some 0%N.
Proof.
  assert (sequential_check = true) as H by (vm_compute; reflexivity).
  unfold sequential_check in H. trace H.
Qed.

(** The reply handler keeps a pointer across the unlock. Between the part
    of [handle_connect_service_reply_message] under the lock and the part after
    it the application can drop its request, which erases the service state;
    the handler then reads through a dangling pointer. *)
Lemma reply_races_with_withdrawal :
  ∃ u x ox, exec all_sent (peer_script "a" "b") (make_binding two_services) = Done (u, x, ox) ∧
  ∃ csx, sent_connect ox = Some csx ∧
  ∃ u y oy, exec all_sent (take 3 (peer_script "b" "a")) (make_binding two_services)
    = Done (u, y, oy) ∧
  ∃ u y1 ry, handle_connect_service_message all_sent 0 csx y = Done (u, y1, ry) ∧
  ∃ reply, sent_reply ry = Some reply ∧
  ∃ kx x1 o1, connect_service_reply_locked 0 reply x = Done (kx, x1, o1) ∧
  ∃ u x2 o2, send_request_service all_sent (demo_identifier "a") demo_counts "x" false x1
    = Done (u, x2, o2) ∧
    kx = Some 0%N ∧ connect_service_reply_unlocked 0 reply 0 x2 = Fault Null_dereference.
Proof.
  assert (race_check = true) as H by (vm_compute; reflexivity).
  unfold race_check in H. trace H.
Qed.

(** ** Witnesses *)

(** Admissibility is decidable on the operations the traces use. *)
Definition callback_b (ks : Keys) (cb : Callback) : bool :=
  match cb with
  | On_service_state_change key _ _ => bool_decide (is_Some (keys_find ks key))
  | _ => true
  end.

Definition admissible_b (b : Binding) (op : Operation) : bool :=
  match op with
  | Op_receive c msg an =>
    bool_decide (c ∈ b_connections b) &&
    match msg with
    | Msg_Request_service m =>
      match keys_get (b_keys b) (rs_service_id m) (rs_instance_id m) with
      | Done (_, ks) => forallb (callback_b ks) (an_callbacks an)
      | Fault _ => true
      end
    | _ => true
    end
  | Op_reply_locked c _ => bool_decide (c ∈ b_connections b)
  | Op_callback cb => callback_b (b_keys b) cb
  | Op_allocate key => bool_decide (is_Some (keys_find (b_keys b) key))
  | _ => true
  end.

Lemma callback_b_ok ks cb :
  callback_b ks cb = true → callback_ok (λ k, is_Some (keys_find ks k)) cb.
Proof. destruct cb; simpl; [apply bool_decide_eq_true|done..]. Qed.

Lemma admissible_b_ok b op : admissible_b b op = true → admissible b op.
Proof.
  destruct op as [| | |c msg an| | | |cb| | | |]; simpl; try done.
  - intros [Hc Hm]%andb_true_iff. apply bool_decide_eq_true in Hc. split; [done|].
    destruct msg; try done. intros key ks E. rewrite E in Hm.
    rewrite Forall_forall. intros cb Hcb. apply callback_b_ok.
    rewrite forallb_forall in Hm. by apply Hm, list_elem_of_In.
  - apply bool_decide_eq_true.
  - apply callback_b_ok.
  - apply bool_decide_eq_true.
Qed.

Fixpoint exec_checked (ops : list Operation) (b : Binding) : option Binding :=
  match ops with
  | [] => Some b
  | op :: ops' =>
    if admissible_b b op then
      match run_operation all_sent op b with
      | Done (_, b', _) => exec_checked ops' b'
      | Fault _ => None
      end
    else None
  end.

Lemma exec_checked_reachable cfg ops : ∀ b b',
  binding_reachable all_sent cfg b → exec_checked ops b = Some b' →
  binding_reachable all_sent cfg b'.
Proof.
  induction ops as [|op ops IH]; intros b b' Hb; simpl; [by intros [= <-]|].
  destruct (admissible_b b op) eqn:Ea; [|done].
  destruct (run_operation all_sent op b) as [[[[] b1] o]|] eqn:Er; [|done].
  apply IH. eapply reach_step; [done|by apply admissible_b_ok|done].
Qed.

(** Client 0 requests and connects to service ["a"]. *)
Definition demo_connect : Connect_service :=
  {| cs_service_id := demo_service "a"%char; cs_instance_id := demo_id "x"%char;
     cs_required_id := 1; cs_metadata := demo_metadata; cs_in_use := true |}.
Definition provider_script : list Operation :=
  [Op_add_client 0; Op_receive 0 (Msg_Request_service demo_request) demo_answers;
   Op_receive 0 (Msg_Connect_service demo_connect) demo_answers].

Definition fan_out_check : bool :=
  some_then (exec_checked provider_script (make_binding demo_configuration)) (λ b,
  bool_decide (length (for_each_client (b_id_mapping b) 0) = 1) &&
  match m_shared_memory_allocations (b_slot_managers b) !! 0%N with
  | None => true | Some _ => false end).

Definition demo_event : Event_payload :=
  make_payload {| sp_addr := 4160; sp_size := 64 |} 1
    (Owns_guard {| m_manager := Some 0%N; m_handle := 1 |}) 0 0.

Lemma event_fan_out_witness : ∃ b b' x,
  binding_reachable all_sent demo_configuration b ∧
  for_each_client (b_id_mapping b) 0 = [x] ∧
  send_event_update all_sent 0 3 demo_event b = Done (tt, b',
    [Send x.1 (update_for 3 {| slot_index := 1; used_bytes := 64 |} x) true]) ∧
  allocation_at (m_shared_memory_allocations (b_slot_managers b')) 0 1 =
    {| sma_payload := Some demo_event; sma_pending_consumers := 1 |}.
Proof.
  assert (fan_out_check = true) as H by (vm_compute; reflexivity).
  unfold fan_out_check in H. apply some_then_true in H as (b & Hb & H).
  apply andb_true_iff in H as [Hl%bool_decide_eq_true Hp].
  apply (exec_checked_reachable demo_configuration) in Hb; [|apply reach_start].
  destruct (for_each_client (b_id_mapping b) 0) as [|x [|]] eqn:El; try done.
  destruct (m_shared_memory_allocations (b_slot_managers b) !! 0%N) eqn:Et; [done|].
  destruct (event_fan_out all_sent demo_configuration b 0 3 demo_event
    {| sp_addr := 4160; sp_size := 64 |} Hb) as [_ Hrun].
  - reflexivity.
  - reflexivity.
  - by rewrite Et.
  - rewrite El in Hrun. simpl in Hrun.
    assert (allocation_at (m_shared_memory_allocations (b_slot_managers b)) 0 1 = no_allocation)
      as Ea by (unfold allocation_at; by rewrite Et).
    rewrite Ea in Hrun. destruct Hrun as (t & b' & o & [= <- <-] & Hrun & Ht).
    eexists b, _, x. split_and!; [done..|exact Hrun|]. simpl. by rewrite Ht.
Defined.

(** One slot of service 0 in use, recorded for one consumer. *)
Definition demo_holding : Binding :=
  mkBinding demo_keys {[ 0%N ]}
    {| smm_configuration := demo_configuration;
       m_slot_managers := {[ 0%N := store_count (make_slot_manager 64 2 "/m" 4096) 1 1 ]};
       m_shared_memory_allocations := {[ 0%N :=
         [no_allocation; {| sma_payload := Some demo_event; sma_pending_consumers := 1 |}] ]} |}
    ∅ ∅
    {| m_id_to_key := {[ 0%N := [{| ids_key := 0; ids_local_handle := 1; ids_remote_handle := 1;
         ids_local_metadata := demo_metadata; ids_remote_metadata := demo_metadata |}] ]};
       m_key_to_client_indices := {[ 0%N := {[ 0%N := 0 ]} ]} |}
    ∅ ∅ ∅ 2 0.

Lemma last_consumer_frees_slot_witness : ∃ b',
  handle_payload_consumed_message all_sent 0 (demo_consumed 1) demo_holding = Done (tt, b', []) ∧
  rc_of (m_slot_managers (b_slot_managers b')) 0 1 = 0%N.
Proof.
  destruct (last_consumer_frees_slot all_sent 0 (demo_consumed 1) demo_holding
    {| ids_key := 0; ids_local_handle := 1; ids_remote_handle := 1;
       ids_local_metadata := demo_metadata; ids_remote_metadata := demo_metadata |}
    demo_event (store_count (make_slot_manager 64 2 "/m" 4096) 1 1)) as (b' & Hr & Hc & _);
    [reflexivity|reflexivity|reflexivity|reflexivity|apply manager_ok_store, manager_ok_make
    |done|reflexivity|].
  by exists b'.
Defined.

Lemma allocated_payload_owns_slot_witness : ∃ p b',
  event_payload_allocate 0 demo_holding = Done (Ok p, b', []) ∧ get_slot_handle p = 0%N.
Proof.
  destruct (allocated_payload_owns_slot 0 demo_holding
    (store_count (make_slot_manager 64 2 "/m" 4096) 1 1)) as (r & b' & Hr & H);
    [reflexivity|apply manager_ok_store, manager_ok_make|done|done|by vm_compute|].
  change (allocate_slot _) with (Ok 0%N : Result Shared_memory_manager_error N,
    store_count (store_count (make_slot_manager 64 2 "/m" 4096) 1 1) 0 1) in H.
  destruct H as (_ & p & -> & Hp & _). by exists p, b'.
Defined.

(** Client 0 is subscribed to an event of service 0 and withdraws its request
    for service 1. *)
Definition demo_subscribed : Binding :=
  set_service_states demo_holding {[ 0%N :=
    set_event_subscriptions (make_service_state (demo_identifier "a"%char) "x")
      {[ 3%N := {[ demo_endpoint 0 ]} ]} ]}.

Definition withdraw_check : bool :=
  run_then (handle_request_service_message all_sent 0
    {| rs_service_id := demo_service "b"%char; rs_instance_id := demo_id "x"%char;
       rs_in_use := false |} [] None demo_subscribed) (λ _ _ _, true).

Lemma withdrawn_request_drops_all_witness : ∃ b' o,
  handle_request_service_message all_sent 0
    {| rs_service_id := demo_service "b"%char; rs_instance_id := demo_id "x"%char;
       rs_in_use := false |} [] None demo_subscribed = Done (tt, b', o) ∧
  ∀ s eps ep, b_service_states b' !! 0%N = Some s → ss_event_subscriptions s !! 3%N = Some eps →
    ep ∈ eps → ep_client_id ep ≠ 0%N.
Proof.
  assert (withdraw_check = true) as H by (vm_compute; reflexivity).
  apply run_then_true in H as ([] & b' & o & Hr & _). exists b', o. split; [done|].
  intros s eps ep. refine (withdrawn_request_drops_all all_sent 0 _ [] None
    demo_subscribed b' o _ Hr 0 s 3 eps ep). reflexivity.
Defined.
