(* ===== verification/Wire.v ===== *)
(** * Messages on the wire

    [src/score/gateway_ipc_binding/impl/gateway_ipc_binding_util.hpp]: a
    message travels as the object representation of a [Message_frame], which
    the receiver checks and reinterprets ([check_and_cast]); and
    [Gateway_ipc_binding_base::on_receive_message], which dispatches on it.

    The representation is the one of the System V ABI on a 64-bit
    little-endian machine: integers of one, two and eight bytes, arrays without
    gaps, structures with their members at the next multiple of their
    alignment. Bytes are [N] below 256. The contents of padding are not read by
    anything; they are zero here. *)

From stdpp Require Import base numbers list gmap strings.
From Stdlib Require Import Strings.Ascii.
From S2P Require Import Prelude.
From S2P Require Import IpcTypes.
From S2P Require Import SlotManager.
From S2P Require Import Keys.
From S2P Require Import BindingBase.
From S2P Require Import BindingSafety.

(** ** Object representations *)

Inductive ctype : Type :=
  | CInt (bytes : nat)
  | CArray (t : ctype) (n : nat)
  | CStruct (fields : list ctype).

Inductive cval : Type :=
  | VInt (n : N)
  | VList (l : list cval).

(** The padding that brings an offset to a multiple of [a]. *)
Definition padding (off a : nat) : nat := (a - off mod a) mod a.

Fixpoint alignof (t : ctype) : nat :=
  match t with
  | CInt n => n
  | CArray t _ => alignof t
  | CStruct fs => foldr (λ t a, max (alignof t) a) 1 fs
  end.

(** The members from offset [off] on, up to the padding at the end. *)
Definition layout_end (size : ctype → nat) : list ctype → nat → nat :=
  fix go fs off :=
    match fs with
    | [] => off
    | t :: fs' => go fs' (off + padding off (alignof t) + size t)
    end.

Fixpoint sizeof (t : ctype) : nat :=
  match t with
  | CInt n => n
  | CArray t n => n * sizeof t
  | CStruct fs =>
    let off := layout_end sizeof fs 0 in
    off + padding off (foldr (λ t a, max (alignof t) a) 1 fs)
  end.

(** Little-endian integers. *)
Fixpoint le_bytes (k : nat) (n : N) : list N :=
  match k with 0 => [] | S k => (n mod 256)%N :: le_bytes k (n / 256) end.
Fixpoint le_value (l : list N) : N :=
  match l with [] => 0 | x :: l' => x + 256 * le_value l' end%N.

Section structures.
Context (encode : ctype → cval → list N) (decode : ctype → list N → cval).

Fixpoint encode_fields (fs : list ctype) (vs : list cval) (off : nat) : list N :=
  match fs, vs with
  | t :: fs', v :: vs' =>
    let p := padding off (alignof t) in
    replicate p 0%N ++ encode t v ++ encode_fields fs' vs' (off + p + sizeof t)
  | _, _ => []
  end.

Fixpoint decode_fields (fs : list ctype) (data : list N) (off : nat) : list cval :=
  match fs with
  | [] => []
  | t :: fs' =>
    let p := padding off (alignof t) in
    decode t (take (sizeof t) (drop p data)) ::
    decode_fields fs' (drop (p + sizeof t) data) (off + p + sizeof t)
  end.

Fixpoint decode_array (t : ctype) (n : nat) (data : list N) : list cval :=
  match n with
  | 0 => []
  | S n' => decode t (take (sizeof t) data) :: decode_array t n' (drop (sizeof t) data)
  end.
End structures.

Fixpoint encode (t : ctype) (v : cval) : list N :=
  match t, v with
  | CInt k, VInt n => le_bytes k n
  | CArray t _, VList vs => vs ≫= encode t
  | CStruct fs, VList vs =>
    let data := encode_fields encode fs vs 0 in
    data ++ replicate (sizeof (CStruct fs) - length data) 0%N
  | _, _ => []
  end.

Fixpoint decode (t : ctype) (data : list N) : cval :=
  match t with
  | CInt k => VInt (le_value (take k data))
  | CArray t n => VList (decode_array decode t n data)
  | CStruct fs => VList (decode_fields decode fs data 0)
  end.

(** The values of a type. *)
Fixpoint has_type (t : ctype) (v : cval) : Prop :=
  match t, v with
  | CInt k, VInt n => (n < 256 ^ N.of_nat k)%N
  | CArray t n, VList vs => length vs = n ∧ Forall (has_type t) vs
  | CStruct fs, VList vs =>
    (fix go fs vs : Prop :=
      match fs, vs with
      | [], [] => True
      | t :: fs', v :: vs' => has_type t v ∧ go fs' vs'
      | _, _ => False
      end) fs vs
  | _, _ => False
  end.

(** ** Round trip of representations *)

Lemma ctype_nested_ind (P : ctype → Prop) :
  (∀ k, P (CInt k)) → (∀ t n, P t → P (CArray t n)) →
  (∀ fs, Forall P fs → P (CStruct fs)) → ∀ t, P t.
Proof.
  intros Hi Ha Hs. fix IH 1. intros [k|t n|fs]; [apply Hi|by apply Ha|].
  apply Hs. induction fs as [|t fs IHfs]; constructor; [apply IH|done].
Qed.

Lemma length_le_bytes k n : length (le_bytes k n) = k.
Proof. revert n. induction k as [|k IH]; intros n; simpl; [done|]. by rewrite IH. Qed.

Lemma le_value_bytes k n : (n < 256 ^ N.of_nat k)%N → le_value (le_bytes k n) = n.
Proof.
  revert n. induction k as [|k IH]; intros n Hn; simpl.
  - change (256 ^ N.of_nat 0)%N with 1%N in Hn. lia.
  - rewrite IH.
    + symmetry. rewrite N.add_comm. apply N.div_mod'.
    + rewrite Nat2N.inj_succ, N.pow_succ_r' in Hn. apply N.Div0.div_lt_upper_bound. lia.
Qed.

Lemma le_bytes_lt k n : Forall (λ x, x < 256)%N (le_bytes k n).
Proof.
  revert n. induction k as [|k IH]; intros n; simpl; constructor; [|done].
  by apply N.mod_lt.
Qed.

(** What the parts of a structure have to provide. *)
Definition represents (t : ctype) : Prop :=
  ∀ v, has_type t v → length (encode t v) = sizeof t ∧
    ∀ rest, decode t (encode t v ++ rest) = v.

Lemma take_drop_app {A} (l1 l2 r : list A) n :
  n = length l1 → take n (l1 ++ l2 ++ r) = l1 ∧ drop n (l1 ++ l2 ++ r) = l2 ++ r.
Proof. intros ->. by rewrite take_app_length, drop_app_length. Qed.

(** A part in the middle of a representation. *)
Lemma represents_take t v rest :
  represents t → has_type t v →
  decode t (take (sizeof t) (encode t v ++ rest)) = v.
Proof.
  intros Ht Hv. destruct (Ht v Hv) as [Hl Hd].
  rewrite take_app_length_exact by done.
  specialize (Hd []). by rewrite (right_id_L [] (++)) in Hd.
Qed.

Lemma represents_fields fs : Forall represents fs → ∀ vs off,
  has_type (CStruct fs) (VList vs) →
  off + length (encode_fields encode fs vs off) = layout_end sizeof fs off ∧
  ∀ rest, decode_fields decode fs (encode_fields encode fs vs off ++ rest) off = vs.
Proof.
  induction 1 as [|t fs Ht _ IH]; intros [|v vs] off Hv; simpl in Hv; try done.
  destruct Hv as [Hv Hvs]. set (p := padding off (alignof t)).
  destruct (Ht v Hv) as [Hl _].
  destruct (IH vs (off + p + sizeof t) Hvs) as [IHl IHd]. simpl. fold p. split.
  - rewrite !length_app, length_replicate. rewrite Hl. unfold p in *. lia.
  - intros rest. rewrite <-!(assoc_L (++)).
    assert (drop p (replicate p 0%N ++ encode t v ++
      encode_fields encode fs vs (off + p + sizeof t) ++ rest) =
      encode t v ++ encode_fields encode fs vs (off + p + sizeof t) ++ rest) as Hdrop.
    { rewrite <-(length_replicate p 0%N) at 1. apply drop_app_length. }
    rewrite Hdrop, (represents_take t v _ Ht Hv). f_equal.
    rewrite <-drop_drop, Hdrop, <-Hl, drop_app_length, Hl. apply IHd.
Qed.

Lemma represents_array t n : represents t → represents (CArray t n).
Proof.
  intros Ht [m|vs] Hv; [done|]. destruct Hv as [<- Hvs]. cbn [encode sizeof decode]. split.
  - induction Hvs as [|v vs Hv Hvs IH]; [done|].
    by rewrite bind_cons, length_app, IH, (proj1 (Ht v Hv)).
  - intros rest. f_equal. induction Hvs as [|v vs Hv Hvs IH]; [done|].
    rewrite bind_cons, <-(assoc_L (++)). cbn [length decode_array].
    rewrite (represents_take t v _ Ht Hv). f_equal.
    by rewrite <-(proj1 (Ht v Hv)), drop_app_length.
Qed.

Lemma represents_all t : represents t.
Proof.
  induction t as [k|t n IH|fs IH] using ctype_nested_ind.
  - intros [n|vs]; simpl; [|done]. intros Hn. split; [apply length_le_bytes|].
    intros rest. rewrite take_app_length_exact by (by rewrite length_le_bytes).
    by rewrite le_value_bytes.
  - by apply represents_array.
  - intros [n|vs] Hv; [done|]. destruct (represents_fields fs IH vs 0 Hv) as [Hl Hd]. split.
    + cbn [encode]. rewrite length_app, length_replicate. cbn [sizeof] in *. lia.
    + intros rest. cbn [encode decode]. f_equal. rewrite <-(assoc_L (++)). apply Hd.
Qed.

(** ** Types with a representation

    What the wire needs of a trivially copyable type: its layout, the values of
    its members, and that reading the members back yields the object. *)

Class Wire (A : Type) := {
  w_type : ctype;
  w_val : A → cval;
  w_of : cval → A;
  w_valid : cval → bool;   (* the members have a value *)
  w_ok : A → Prop;   (* the members fit their widths *)
  w_has_type : ∀ a, w_ok a → has_type w_type (w_val a);
  w_val_valid : ∀ a, w_ok a → w_valid (w_val a) = true;
  w_of_val : ∀ a, w_ok a → w_of (w_val a) = a;
}.
Arguments w_type {A} _.
Arguments w_val {A} _ _.
Arguments w_of {A} _ _.
Arguments w_ok {A} _ _.
Arguments w_valid {A} _ _.
Arguments w_val_valid {A} _ _ _.
Arguments w_has_type {A} _ _ _.
Arguments w_of_val {A} _ _ _.

Definition as_int (v : cval) : N := match v with VInt n => n | VList _ => 0%N end.
Definition as_list (v : cval) : list cval := match v with VList l => l | VInt _ => [] end.

(** Unsigned integers of [k] bytes. *)
Program Definition wire_int (k : nat) : Wire N :=
  {| w_type := CInt k; w_val := VInt; w_of := as_int; w_valid := λ _, true;
     w_ok := λ n, (n < 256 ^ N.of_nat k)%N |}.
Solve All Obligations with done.

(** A byte other than zero and one is not the representation of a [bool]. *)
Program Definition wire_bool : Wire bool :=
  {| w_type := CInt 1; w_val := λ b, VInt (if b then 1 else 0)%N;
     w_of := λ v, negb (as_int v =? 0)%N; w_valid := λ v, (as_int v <=? 1)%N;
     w_ok := λ _, True |}.
Solve All Obligations with by intros [] _.

Program Definition wire_char : Wire Ascii.ascii :=
  {| w_type := CInt 1; w_val := λ c, VInt (N_of_ascii c);
     w_of := λ v, ascii_of_N (as_int v); w_valid := λ _, true; w_ok := λ _, True |}.
Next Obligation. intros c _. apply N_ascii_bounded. Qed.
Next Obligation. done. Qed.
Next Obligation. intros c _. apply ascii_N_embedding. Qed.

Program Definition wire_array {T} (W : Wire T) (n : nat) : Wire (list T) :=
  {| w_type := CArray (w_type W) n; w_val := λ l, VList (w_val W <$> l);
     w_of := λ v, w_of W <$> as_list v; w_valid := λ v, forallb (w_valid W) (as_list v);
     w_ok := λ l, length l = n ∧ Forall (w_ok W) l |}.
Next Obligation.
  intros T W n l [Hn Hl]. split; [by rewrite length_fmap|].
  apply Forall_fmap. eapply Forall_impl; [exact Hl|]. apply w_has_type.
Qed.
Next Obligation.
  intros T W n l [_ Hl]. simpl. induction Hl as [|x l Hx _ IH]; [done|].
  rewrite fmap_cons. simpl. by rewrite w_val_valid, IH.
Qed.
Next Obligation.
  intros T W n l [_ Hl]. simpl. rewrite <-list_fmap_compose.
  induction Hl as [|x l Hx _ IH]; [done|]. rewrite fmap_cons, IH. simpl.
  by rewrite w_of_val.
Qed.

(** The members of a structure, as a nested tuple. *)
Record Members (A : Type) := {
  m_types : list ctype;
  m_vals : A → list cval;
  m_of : list cval → A;
  m_valid : list cval → bool;
  m_ok : A → Prop;
  m_has_type : ∀ a, m_ok a → has_type (CStruct m_types) (VList (m_vals a));
  m_vals_valid : ∀ a, m_ok a → m_valid (m_vals a) = true;
  m_of_vals : ∀ a, m_ok a → m_of (m_vals a) = a;
}.
Arguments m_types {A} _.
Arguments m_vals {A} _ _.
Arguments m_of {A} _ _.
Arguments m_ok {A} _ _.
Arguments m_valid {A} _ _.

Program Definition members_nil : Members unit :=
  {| m_types := []; m_vals := λ _, []; m_of := λ _, tt; m_valid := λ _, true;
     m_ok := λ _, True |}.
Solve All Obligations with by intros [].

Program Definition members_cons {T A} (W : Wire T) (M : Members A) : Members (T * A) :=
  {| m_types := w_type W :: m_types M;
     m_vals := λ x, w_val W x.1 :: m_vals M x.2;
     m_of := λ vs, (w_of W (default (VInt 0) (head vs)), m_of M (tail vs));
     m_valid := λ vs, w_valid W (default (VInt 0) (head vs)) && m_valid M (tail vs);
     m_ok := λ x, w_ok W x.1 ∧ m_ok M x.2 |}.
Next Obligation.
  intros T A W M [t a] [Ht Ha]. split; [by apply w_has_type|by apply (m_has_type _ M)].
Qed.
Next Obligation.
  intros T A W M [t a] [Ht Ha]. simpl. by rewrite w_val_valid, m_vals_valid.
Qed.
Next Obligation.
  intros T A W M [t a] [Ht Ha]. simpl. by rewrite w_of_val, m_of_vals.
Qed.

Program Definition wire_struct {A R} (M : Members A) (to : R → A) (from : A → R)
    (from_to : ∀ r, from (to r) = r) : Wire R :=
  {| w_type := CStruct (m_types M); w_val := λ r, VList (m_vals M (to r));
     w_of := λ v, from (m_of M (as_list v)); w_valid := λ v, m_valid M (as_list v);
     w_ok := λ r, m_ok M (to r) |}.
Next Obligation. intros A R M to from from_to r Hr. by apply (m_has_type _ M). Qed.
Next Obligation. intros A R M to from from_to r Hr. by apply (m_vals_valid _ M). Qed.
Next Obligation. intros A R M to from from_to r Hr. cbn [as_list]. by rewrite m_of_vals. Qed.

Declare Scope wire_scope.
Delimit Scope wire_scope with wire.
Bind Scope wire_scope with Members.
Infix "::" := members_cons : wire_scope.
Notation "[ ]" := members_nil : wire_scope.

(** The object representation of a value, and the value of a representation. *)
Definition to_bytes {A} (W : Wire A) (a : A) : list N := encode (w_type W) (w_val W a).
Definition of_bytes {A} (W : Wire A) (data : list N) : A := w_of W (decode (w_type W) data).
Definition valid_bytes {A} (W : Wire A) (data : list N) : bool :=
  w_valid W (decode (w_type W) data).

Lemma of_to_bytes {A} (W : Wire A) a rest :
  w_ok W a → of_bytes W (to_bytes W a ++ rest) = a.
Proof.
  intros Ha. unfold of_bytes, to_bytes.
  destruct (represents_all _ _ (w_has_type W a Ha)) as [_ ->]. by apply w_of_val.
Qed.

Lemma valid_to_bytes {A} (W : Wire A) a rest :
  w_ok W a → valid_bytes W (to_bytes W a ++ rest) = true.
Proof.
  intros Ha. unfold valid_bytes, to_bytes.
  destruct (represents_all _ _ (w_has_type W a Ha)) as [_ ->]. by apply w_val_valid.
Qed.

Lemma length_to_bytes {A} (W : Wire A) a :
  w_ok W a → length (to_bytes W a) = sizeof (w_type W).
Proof. intros Ha. apply (represents_all _ _ (w_has_type W a Ha)). Qed.

(** ** The message structures *)

Local Open Scope wire_scope.

Definition wire_u16 : Wire N := wire_int 2.
Definition wire_u64 : Wire N := wire_int 8.

(** [Fixed_size_container]: the length, then the whole array. *)
Definition wire_container {T} (W : Wire T) (max : N) : Wire (Fixed_size_container T max) :=
  wire_struct (wire_u64 :: wire_array W (N.to_nat max) :: [])
    (λ c, (fsc_size c, (fsc_data c, tt)))
    (λ '(size, (data, _)), Build_Fixed_size_container size data)
    ltac:(by intros []).

Definition wire_string (max : N) : Wire (Fixed_string max) := wire_container wire_char max.

Definition wire_version : Wire Version :=
  wire_struct (wire_u16 :: wire_u16 :: []) (λ v, (major v, (minor v, tt)))
    (λ '(a, (b, _)), Build_Version a b) ltac:(by intros []).

Definition wire_service : Wire Service :=
  wire_struct (wire_string kMax_service_id_size :: wire_version :: [])
    (λ s, (service_id s, (version s, tt)))
    (λ '(a, (b, _)), Build_Service a b) ltac:(by intros []).

Definition wire_instance_id : Wire Instance_id := wire_string kMax_instance_id_size.

Definition wire_handle : Wire Shared_memory_handle :=
  wire_struct (wire_u64 :: wire_u64 :: []) (λ h, (slot_index h, (used_bytes h, tt)))
    (λ '(a, (b, _)), Build_Shared_memory_handle a b) ltac:(by intros []).

Definition wire_metadata : Wire Shared_memory_metadata :=
  wire_struct (wire_string kMax_shared_memory_path_size :: wire_u64 :: wire_u64 :: [])
    (λ m, (path m, (slot_size m, (slot_count m, tt))))
    (λ '(a, (b, (c, _))), Build_Shared_memory_metadata a b c) ltac:(by intros []).

Definition wire_service_instance : Wire Ipc_service_instance :=
  wire_struct (wire_service :: wire_instance_id :: [])
    (λ i, (isi_service i, (isi_instance_id i, tt)))
    (λ '(a, (b, _)), Build_Ipc_service_instance a b) ltac:(by intros []).

Definition wire_config : Wire Service_shared_memory_config :=
  wire_struct (wire_service :: wire_instance_id :: wire_metadata :: [])
    (λ c, (ssmc_service c, (ssmc_instance_id c, (ssmc_metadata c, tt))))
    (λ '(a, (b, (c, _))), Build_Service_shared_memory_config a b c) ltac:(by intros []).

Definition wire_Connect : Wire Connect :=
  wire_struct (wire_container wire_service_instance kMax_find_service_elements ::
      wire_container wire_config kMax_find_service_elements ::
      wire_string kMax_client_identifier_size :: [])
    (λ m, (cn_find_service_elements m, (cn_shared_memory_configs m, (cn_identifier m, tt))))
    (λ '(a, (b, (c, _))), Build_Connect a b c) ltac:(by intros []).

Definition wire_Connect_reply : Wire Connect_reply :=
  wire_struct (wire_bool :: []) (λ m, (cr_status m, tt))
    (λ '(a, _), Build_Connect_reply a) ltac:(by intros []).

Definition wire_Request_service : Wire Request_service :=
  wire_struct (wire_service :: wire_instance_id :: wire_bool :: [])
    (λ m, (rs_service_id m, (rs_instance_id m, (rs_in_use m, tt))))
    (λ '(a, (b, (c, _))), Build_Request_service a b c) ltac:(by intros []).

Definition wire_Offer_service : Wire Offer_service :=
  wire_struct (wire_service :: wire_instance_id :: wire_bool :: [])
    (λ m, (os_service_id m, (os_instance_id m, (os_offered m, tt))))
    (λ '(a, (b, (c, _))), Build_Offer_service a b c) ltac:(by intros []).

Definition wire_Connect_service : Wire Connect_service :=
  wire_struct (wire_service :: wire_instance_id :: wire_u64 :: wire_metadata ::
      wire_bool :: [])
    (λ m, (cs_service_id m, (cs_instance_id m, (cs_required_id m,
      (cs_metadata m, (cs_in_use m, tt))))))
    (λ '(a, (b, (c, (d, (e, _))))), Build_Connect_service a b c d e) ltac:(by intros []).

Definition wire_Connect_service_reply : Wire Connect_service_reply :=
  wire_struct (wire_u64 :: wire_u64 :: wire_metadata :: wire_u16 :: wire_u16 :: [])
    (λ m, (csr_required_id m, (csr_provided_id m, (csr_metadata m,
      (csr_num_methods m, (csr_num_events m, tt))))))
    (λ '(a, (b, (c, (d, (e, _))))), Build_Connect_service_reply a b c d e)
    ltac:(by intros []).

Definition wire_Subscribe_event : Wire Subscribe_event :=
  wire_struct (wire_u64 :: wire_u16 :: wire_bool :: [])
    (λ m, (se_provided_id m, (se_event_id m, (se_subscribe m, tt))))
    (λ '(a, (b, (c, _))), Build_Subscribe_event a b c) ltac:(by intros []).

Definition wire_Event_update : Wire Event_update :=
  wire_struct (wire_u64 :: wire_u16 :: wire_handle :: [])
    (λ m, (eu_required_id m, (eu_event_id m, (eu_payload m, tt))))
    (λ '(a, (b, (c, _))), Build_Event_update a b c) ltac:(by intros []).

Definition wire_Payload_consumed : Wire Payload_consumed :=
  wire_struct (wire_u64 :: wire_handle :: [])
    (λ m, (pc_required_id m, (pc_handle m, tt)))
    (λ '(a, (b, _)), Build_Payload_consumed a b) ltac:(by intros []).

(** ** Frames *)

Definition message_code (t : Message_type) : N :=
  match t with
  | MT_Connect => 1 | MT_Connect_reply => 2 | MT_Request_service => 3
  | MT_Offer_service => 4 | MT_Connect_service => 5 | MT_Connect_service_reply => 6
  | MT_Call_method => 7 | MT_Call_method_handle => 8 | MT_Call_method_reply => 9
  | MT_Cancel_method_call => 10 | MT_Subscribe_event => 11
  | MT_Subscribe_event_reply => 12 | MT_Event_update => 13
  | MT_Event_update_request => 14 | MT_Payload_consumed => 15
  end%N.

(** [static_cast] to the enumeration: a byte without an enumerator is a value
    that compares unequal to all of them. *)
Definition get_message_type (data : N) : option Message_type :=
  match data with
  | 1 => Some MT_Connect | 2 => Some MT_Connect_reply | 3 => Some MT_Request_service
  | 4 => Some MT_Offer_service | 5 => Some MT_Connect_service
  | 6 => Some MT_Connect_service_reply | 7 => Some MT_Call_method
  | 8 => Some MT_Call_method_handle | 9 => Some MT_Call_method_reply
  | 10 => Some MT_Cancel_method_call | 11 => Some MT_Subscribe_event
  | 12 => Some MT_Subscribe_event_reply | 13 => Some MT_Event_update
  | 14 => Some MT_Event_update_request | 15 => Some MT_Payload_consumed
  | _ => None
  end%N.

Record Message_frame_header : Type := { mfh_type : N; mfh_payload_size : N }.
Record Message_frame (T : Type) : Type := { mf_header : Message_frame_header; mf_payload : T }.
Arguments Build_Message_frame {T} _ _.
Arguments mf_header {T} _.
Arguments mf_payload {T} _.

Definition wire_header : Wire Message_frame_header :=
  wire_struct (wire_int 1 :: wire_u16 :: []) (λ h, (mfh_type h, (mfh_payload_size h, tt)))
    (λ '(a, (b, _)), Build_Message_frame_header a b) ltac:(by intros []).

Definition wire_frame {T} (W : Wire T) : Wire (Message_frame T) :=
  wire_struct (wire_header :: W :: []) (λ f, (mf_header f, (mf_payload f, tt)))
    (λ '(a, (b, _)), Build_Message_frame a b) ltac:(by intros []).

(** The header a frame of [T] is initialised with; [sizeof(T)] is narrowed to
    sixteen bits. *)
Definition make_frame {T} (W : Wire T) (type : Message_type) (payload : T) : Message_frame T :=
  {| mf_header := {| mfh_type := message_code type;
                     mfh_payload_size := wrap16 (N.of_nat (sizeof (w_type W))) |};
     mf_payload := payload |}.

(** [addr] is where the receiver's buffer starts. A structure whose [bool] is neither zero
    nor one has no value: every handler reads the [bool] of its message, which the language
    does not define then. *)
Definition check_and_cast {T} (W : Wire T) (type : Message_type) (addr : N) (data : list N) :
    outcome (option T) :=
  match data with
  | nil => Done None
  | byte :: _ =>
    if bool_decide (get_message_type byte = Some type) then
      if length data <? sizeof (w_type (wire_frame W)) then Done None
      else if negb (addr mod N.of_nat (alignof (w_type (wire_frame W))) =? 0)%N then Done None
      else
        let connect := of_bytes (wire_frame W) data in
        if (mfh_payload_size (mf_header connect) =? N.of_nat (sizeof (w_type W)))%N then
          if valid_bytes (wire_frame W) data then Done (Some (mf_payload connect))
          else Fault Invalid_value
        else Done None
    else Done None
  end%list.

(** The frame of a message as [Reply_channel::send] passes it on: the object
    representation of the whole frame. *)
Definition frame_bytes {T} (W : Wire T) (type : Message_type) (payload : T) : list N :=
  to_bytes (wire_frame W) (make_frame W type payload).

Definition message_bytes (m : Message) : list N :=
  match m with
  | Msg_Connect m => frame_bytes wire_Connect MT_Connect m
  | Msg_Connect_reply m => frame_bytes wire_Connect_reply MT_Connect_reply m
  | Msg_Request_service m => frame_bytes wire_Request_service MT_Request_service m
  | Msg_Offer_service m => frame_bytes wire_Offer_service MT_Offer_service m
  | Msg_Connect_service m => frame_bytes wire_Connect_service MT_Connect_service m
  | Msg_Connect_service_reply m =>
      frame_bytes wire_Connect_service_reply MT_Connect_service_reply m
  | Msg_Subscribe_event m => frame_bytes wire_Subscribe_event MT_Subscribe_event m
  | Msg_Event_update m => frame_bytes wire_Event_update MT_Event_update m
  | Msg_Payload_consumed m => frame_bytes wire_Payload_consumed MT_Payload_consumed m
  end.

(** The members of the message fit their widths, which they do in the code by
    their types. *)
Definition message_ok (m : Message) : Prop :=
  match m with
  | Msg_Connect m => w_ok wire_Connect m
  | Msg_Connect_reply m => w_ok wire_Connect_reply m
  | Msg_Request_service m => w_ok wire_Request_service m
  | Msg_Offer_service m => w_ok wire_Offer_service m
  | Msg_Connect_service m => w_ok wire_Connect_service m
  | Msg_Connect_service_reply m => w_ok wire_Connect_service_reply m
  | Msg_Subscribe_event m => w_ok wire_Subscribe_event m
  | Msg_Event_update m => w_ok wire_Event_update m
  | Msg_Payload_consumed m => w_ok wire_Payload_consumed m
  end.

Section receive.
Context `{Shm} (send_ok : N → Client_id → Message → bool).

(** A case of the switch: an invalid message is ignored. *)
Definition receive_as {T} (W : Wire T) (type : Message_type) (msg : T → Message)
    (client_id : Client_id) (addr : N) (data : list N) (an : Answers) : BM unit :=
  match check_and_cast W type addr data with
  | Done None => mret tt
  | Done (Some m) => dispatch send_ok client_id (msg m) an
  | Fault f => raise f
  end.

Definition on_receive_message (client_id : Client_id) (addr : N) (data : list N)
    (an : Answers) : BM unit :=
  match data with
  | nil => mret tt
  | byte :: _ =>
    match get_message_type byte with
    | Some MT_Connect =>
        receive_as wire_Connect MT_Connect Msg_Connect client_id addr data an
    | Some MT_Connect_reply =>
        receive_as wire_Connect_reply MT_Connect_reply Msg_Connect_reply client_id addr data an
    | Some MT_Connect_service =>
        receive_as wire_Connect_service MT_Connect_service Msg_Connect_service
          client_id addr data an
    | Some MT_Connect_service_reply =>
        receive_as wire_Connect_service_reply MT_Connect_service_reply
          Msg_Connect_service_reply client_id addr data an
    | Some MT_Request_service =>
        receive_as wire_Request_service MT_Request_service Msg_Request_service
          client_id addr data an
    | Some MT_Offer_service =>
        receive_as wire_Offer_service MT_Offer_service Msg_Offer_service
          client_id addr data an
    | Some MT_Subscribe_event =>
        receive_as wire_Subscribe_event MT_Subscribe_event Msg_Subscribe_event
          client_id addr data an
    | Some MT_Event_update =>
        receive_as wire_Event_update MT_Event_update Msg_Event_update client_id addr data an
    | Some MT_Payload_consumed =>
        receive_as wire_Payload_consumed MT_Payload_consumed Msg_Payload_consumed
          client_id addr data an
    | _ => raise Assertion_failed
    end
  end%list.
End receive.

(** ** Lemmas *)

Lemma get_message_code t : get_message_type (message_code t) = Some t.
Proof. by destruct t. Qed.

Lemma get_message_type_Some b t : get_message_type b = Some t → b = message_code t.
Proof.
  destruct b as [|p]; [done|].
  do 4 (try (destruct p as [p|p|]; try done)); by intros [= <-].
Qed.

(** A frame starts with the discriminator. *)
Lemma frame_bytes_head {T} (W : Wire T) t m :
  ∃ rest, frame_bytes W t m = (message_code t :: rest)%list.
Proof.
  eexists. unfold frame_bytes, to_bytes. cbn [wire_frame wire_struct w_type w_val].
  cbn -[replicate sizeof padding alignof]. by destruct t.
Qed.

Lemma wrap16_small n : (n < 65536)%N → wrap16 n = n.
Proof. apply (wrap_small 16). Qed.

Lemma frame_ok {T} (W : Wire T) t m :
  w_ok W m → (N.of_nat (sizeof (w_type W)) < 65536)%N → w_ok (wire_frame W) (make_frame W t m).
Proof. intros Hm Hs. cbn. rewrite wrap16_small by done. by destruct t. Qed.

Lemma length_frame_bytes {T} (W : Wire T) t m :
  w_ok W m → (N.of_nat (sizeof (w_type W)) < 65536)%N →
  length (frame_bytes W t m) = sizeof (w_type (wire_frame W)).
Proof. intros. by apply length_to_bytes, frame_ok. Qed.

(** A frame, followed by anything, in a suitably aligned buffer is accepted and
    yields the message. *)
Lemma check_and_cast_frame {T} (W : Wire T) t m addr rest :
  w_ok W m → (N.of_nat (sizeof (w_type W)) < 65536)%N →
  (addr mod N.of_nat (alignof (w_type (wire_frame W))) = 0)%N →
  check_and_cast W t addr (frame_bytes W t m ++ rest) = Done (Some m).
Proof.
  intros Hm Hs Ha.
  pose proof (frame_ok W t m Hm Hs) as Hok.
  pose proof (of_to_bytes _ _ rest Hok) as Hof.
  pose proof (valid_to_bytes _ _ rest Hok) as Hva.
  pose proof (length_to_bytes _ _ Hok) as Hlen.
  fold (frame_bytes W t m) in Hof, Hva, Hlen.
  destruct (frame_bytes_head W t m) as [bytes Hb]. unfold check_and_cast.
  rewrite Hb. cbn [app]. rewrite get_message_code, bool_decide_true by done.
  rewrite app_comm_cons, <-Hb, length_app, Hlen.
  rewrite (proj2 (Nat.ltb_ge _ _)) by lia. rewrite Ha, Hof.
  cbn [negb mfh_payload_size mf_header mf_payload make_frame N.eqb].
  by rewrite wrap16_small, N.eqb_refl, Hva.
Qed.

(** Acceptance bounds the reads: the whole frame lies inside the buffer. *)
Lemma check_and_cast_cases {T} (W : Wire T) t addr data :
  check_and_cast W t addr data = Done None ∨
  head data = Some (message_code t) ∧
  sizeof (w_type (wire_frame W)) ≤ length data ∧
  (addr mod N.of_nat (alignof (w_type (wire_frame W))) = 0)%N ∧
  mfh_payload_size (mf_header (of_bytes (wire_frame W) data)) = N.of_nat (sizeof (w_type W)) ∧
  check_and_cast W t addr data =
    if valid_bytes (wire_frame W) data
    then Done (Some (mf_payload (of_bytes (wire_frame W) data))) else Fault Invalid_value.
Proof.
  unfold check_and_cast. destruct data as [|b data]; [by left|].
  case_bool_decide as Hb; [|by left].
  destruct (Nat.ltb_spec (length (b :: data)%list) (sizeof (w_type (wire_frame W)))); [by left|].
  destruct (N.eqb_spec (addr mod N.of_nat (alignof (w_type (wire_frame W)))) 0); [|by left].
  cbn [negb]. destruct (N.eqb_spec (mfh_payload_size (mf_header (of_bytes (wire_frame W)
    (b :: data)%list))) (N.of_nat (sizeof (w_type W)))); [|by left].
  right. split_and!; try done. simpl. f_equal. by apply get_message_type_Some.
Qed.

Lemma check_and_cast_fault {T} (W : Wire T) t addr data f :
  check_and_cast W t addr data = Fault f → f = Invalid_value.
Proof.
  destruct (check_and_cast_cases W t addr data) as [->|(_ & _ & _ & _ & ->)]; [done|].
  destruct (valid_bytes _ _); congruence.
Qed.

(** The layout of a message's structure, and of its frame. *)
Definition payload_layout (m : Message) : ctype :=
  match m with
  | Msg_Connect _ => w_type wire_Connect
  | Msg_Connect_reply _ => w_type wire_Connect_reply
  | Msg_Request_service _ => w_type wire_Request_service
  | Msg_Offer_service _ => w_type wire_Offer_service
  | Msg_Connect_service _ => w_type wire_Connect_service
  | Msg_Connect_service_reply _ => w_type wire_Connect_service_reply
  | Msg_Subscribe_event _ => w_type wire_Subscribe_event
  | Msg_Event_update _ => w_type wire_Event_update
  | Msg_Payload_consumed _ => w_type wire_Payload_consumed
  end.
Definition frame_layout (m : Message) : ctype := CStruct [w_type wire_header;
  payload_layout m]%list.

(** Do the bytes represent a structure of the message's type? *)
Definition valid_frame (m : Message) (data : list N) : bool :=
  match m with
  | Msg_Connect _ => valid_bytes (wire_frame wire_Connect) data
  | Msg_Connect_reply _ => valid_bytes (wire_frame wire_Connect_reply) data
  | Msg_Request_service _ => valid_bytes (wire_frame wire_Request_service) data
  | Msg_Offer_service _ => valid_bytes (wire_frame wire_Offer_service) data
  | Msg_Connect_service _ => valid_bytes (wire_frame wire_Connect_service) data
  | Msg_Connect_service_reply _ => valid_bytes (wire_frame wire_Connect_service_reply) data
  | Msg_Subscribe_event _ => valid_bytes (wire_frame wire_Subscribe_event) data
  | Msg_Event_update _ => valid_bytes (wire_frame wire_Event_update) data
  | Msg_Payload_consumed _ => valid_bytes (wire_frame wire_Payload_consumed) data
  end.

(** Every structure's size fits the sixteen-bit field, and an address that is a
    multiple of eight is aligned for every frame. *)
Lemma payload_size_fits m : (N.of_nat (sizeof (payload_layout m)) < 65536)%N.
Proof. by destruct m; vm_compute. Qed.

Lemma frame_aligned m addr :
  (addr mod 8 = 0)%N → (addr mod N.of_nat (alignof (frame_layout m)) = 0)%N.
Proof.
  intros Ha. assert (alignof (frame_layout m) = 8 ∨ alignof (frame_layout m) = 2) as [->| ->].
  { destruct m; vm_compute; auto. }
  - done.
  - apply N.Div0.mod_divides in Ha as [q ->]. apply N.Div0.mod_divides.
    exists (4 * q)%N. simpl. lia.
Qed.

(** The size field of a frame is at bytes two and three. *)
Lemma header_payload_size {T} (W : Wire T) data :
  mfh_payload_size (mf_header (of_bytes (wire_frame W) data)) =
  le_value (take 2 (drop 2 data)).
Proof. by destruct data as [|? [|? [|? [|? ?]]]]. Qed.

(** The message a buffer holds. *)
Definition parse_as {T} (W : Wire T) (t : Message_type) (msg : T → Message) (addr : N)
    (data : list N) : option Message :=
  match check_and_cast W t addr data with Done (Some m) => Some (msg m) | _ => None end.

Lemma parse_as_Some {T} (W : Wire T) t (msg : T → Message) addr data m :
  parse_as W t msg addr data = Some m → ∃ x, m = msg x.
Proof. unfold parse_as. destruct (check_and_cast _ _ _ _) as [[x|]|]; naive_solver. Qed.

Definition parse_message (addr : N) (data : list N) : option Message :=
  byte ← head data;
  type ← get_message_type byte;
  match type with
  | MT_Connect => parse_as wire_Connect MT_Connect Msg_Connect addr data
  | MT_Connect_reply => parse_as wire_Connect_reply MT_Connect_reply Msg_Connect_reply addr data
  | MT_Connect_service =>
      parse_as wire_Connect_service MT_Connect_service Msg_Connect_service addr data
  | MT_Connect_service_reply =>
      parse_as wire_Connect_service_reply MT_Connect_service_reply
        Msg_Connect_service_reply addr data
  | MT_Request_service =>
      parse_as wire_Request_service MT_Request_service Msg_Request_service addr data
  | MT_Offer_service => parse_as wire_Offer_service MT_Offer_service Msg_Offer_service addr data
  | MT_Subscribe_event =>
      parse_as wire_Subscribe_event MT_Subscribe_event Msg_Subscribe_event addr data
  | MT_Event_update => parse_as wire_Event_update MT_Event_update Msg_Event_update addr data
  | MT_Payload_consumed =>
      parse_as wire_Payload_consumed MT_Payload_consumed Msg_Payload_consumed addr data
  | _ => None
  end.

Section receive_lemmas.
Context `{Shm} (send_ok : N → Client_id → Message → bool).

Lemma receive_as_frame {T} (W : Wire T) t (msg : T → Message) c addr m rest an :
  w_ok W m → (N.of_nat (sizeof (w_type W)) < 65536)%N →
  (addr mod N.of_nat (alignof (w_type (wire_frame W))) = 0)%N →
  receive_as send_ok W t msg c addr (frame_bytes W t m ++ rest) an =
  dispatch send_ok c (msg m) an.
Proof. intros. unfold receive_as. by rewrite check_and_cast_frame. Qed.

(** A complete frame with the structure of a message: [m] has the values of the bytes. *)
Definition holds_frame (m : Message) (addr : N) (data : list N) : Prop :=
  head data = Some (message_code (message_type m)) ∧
  sizeof (frame_layout m) ≤ length data ∧
  (addr mod N.of_nat (alignof (frame_layout m)) = 0)%N ∧
  le_value (take 2 (drop 2 data)) = N.of_nat (sizeof (payload_layout m)).

Lemma receive_as_cases {T} (W : Wire T) t (msg : T → Message) c addr data an :
  (∀ m, payload_layout (msg m) = w_type W) → (∀ m, message_type (msg m) = t) →
  (∀ m, valid_frame (msg m) data = valid_bytes (wire_frame W) data) →
  receive_as send_ok W t msg c addr data an = mret tt ∨
  ∃ m, holds_frame m addr data ∧
    parse_as W t msg addr data = (if valid_frame m data then Some m else None) ∧
    receive_as send_ok W t msg c addr data an =
      if valid_frame m data then dispatch send_ok c m an else raise Invalid_value.
Proof.
  intros Hl Ht Hv. unfold receive_as, parse_as, holds_frame.
  destruct (check_and_cast_cases W t addr data) as [->|(Hh & Hs & Ha & Hp & ->)]; [by left|].
  right. exists (msg (mf_payload (of_bytes (wire_frame W) data))).
  unfold frame_layout. rewrite Hl, Ht, Hv. rewrite header_payload_size in Hp.
  split; [done|]. by destruct (valid_bytes _ _).
Qed.

(** Everything a buffer of bytes can make the binding do. *)
Lemma on_receive_cases c addr data an :
  on_receive_message send_ok c addr data an = mret tt ∨
  (on_receive_message send_ok c addr data an = raise Assertion_failed ∧
    ∃ b, head data = Some b ∧ ∀ m, b ≠ message_code (message_type m)) ∨
  ∃ m, holds_frame m addr data ∧
    parse_message addr data = (if valid_frame m data then Some m else None) ∧
    on_receive_message send_ok c addr data an =
      if valid_frame m data then dispatch send_ok c m an else raise Invalid_value.
Proof.
  destruct data as [|b data]; [by left|]. unfold on_receive_message, parse_message.
  destruct (get_message_type b) as [t|] eqn:E; cbn [head mbind option_bind].
  - rewrite E. destruct t;
      try (edestruct @receive_as_cases as [->|Hm]; [..|by left|right; right; exact Hm];
        reflexivity);
      right; left; (split; [done|]); exists b; (split; [done|]);
      apply get_message_type_Some in E as ->; by intros [].
  - right; left. split; [done|]. exists b. split; [done|]. intros m ->.
    by rewrite get_message_code in E.
Qed.

(** In a reachable state a buffer is a step of the binding, or ignored. *)
Lemma on_receive_step cfg b c addr data an :
  binding_reachable send_ok cfg b →
  (∀ m, parse_message addr data = Some m → admissible b (Op_receive c m an)) →
  match on_receive_message send_ok c addr data an b with
  | Done (_, b', _) =>
    binding_reachable send_ok cfg b' ∧ b_connections b' = b_connections b
  | Fault f => f ≠ Connection_missing ∧ f ≠ Key_missing
  end.
Proof.
  intros Hb Ha. destruct (on_receive_cases c addr data an)
    as [->|[[-> _]|(m & _ & Hm & ->)]]; [done|by split|].
  destruct (valid_frame m data); [|by split].
  apply (operation_step send_ok cfg b (Op_receive c m an)); auto.
Qed.
End receive_lemmas.

(** ** Properties *)

Section properties.
Context `{Shm} (send_ok : N → Client_id → Message → bool).

(** A frame runs the handler of its message. *)
Lemma receive_frame c addr m rest an :
  message_ok m → (addr mod 8 = 0)%N →
  on_receive_message send_ok c addr (message_bytes m ++ rest) an = dispatch send_ok c m an.
Proof.
  intros Hm Ha%(frame_aligned m). pose proof (payload_size_fits m) as Hs.
  destruct m; unfold message_bytes;
    match goal with |- context [frame_bytes ?W ?t ?m] =>
      destruct (frame_bytes_head W t m) as [bytes Hb];
      rewrite Hb; cbn [app]; unfold on_receive_message;
      rewrite get_message_code, app_comm_cons, <-Hb; by apply receive_as_frame
    end.
Qed.

(** C26: the wire format is faithful. The bytes of the frame that a peer sends
    for a message, received in a buffer aligned to eight bytes and possibly
    followed by more, make the binding run exactly the handler of that message
    with all of its fields intact. *)
Theorem message_roundtrip c addr m rest an :
  message_ok m → (addr mod 8 = 0)%N →
  on_receive_message send_ok c addr (message_bytes m ++ rest) an = dispatch send_ok c m an.
Proof. apply receive_frame. Qed.

(** C28: only complete frames have an effect. If received bytes change the state
    of the binding, produce output or fault, then they start with the code of a
    message type; when a handler runs, it is the one of that type, the frame
    lies inside the buffer, the buffer is aligned for it, and the header states
    the size of the structure. The only other effects are the assert on types that
    no handler exists for and, in such a complete frame, a [bool] that is neither zero nor
    one. *)
Theorem only_complete_frames_act c addr data an b :
  on_receive_message send_ok c addr data an b ≠ Done (tt, b, []%list) →
  (on_receive_message send_ok c addr data an b = Fault Assertion_failed ∧
    ∃ byte, head data = Some byte ∧ ∀ m, byte ≠ message_code (message_type m)) ∨
  ∃ m, head data = Some (message_code (message_type m)) ∧
    sizeof (frame_layout m) ≤ length data ∧
    (addr mod N.of_nat (alignof (frame_layout m)) = 0)%N ∧
    le_value (take 2 (drop 2 data)) = N.of_nat (sizeof (payload_layout m)) ∧
    on_receive_message send_ok c addr data an b =
      if valid_frame m data then dispatch send_ok c m an b else Fault Invalid_value.
Proof.
  intros Hb. destruct (on_receive_cases send_ok c addr data an)
    as [E|[[-> Hh]|(m & (Hh & Hs & Ha & Hp) & _ & ->)]].
  - by rewrite E in Hb.
  - by left.
  - right. exists m. split_and!; try done. by destruct (valid_frame m data).
Qed.

(** No byte sequence makes a binding lose track. Whatever a connected client
    sends in a reachable state, the binding ends in a reachable state or stops
    at a fault other than a missing connection or a missing key. *)
Theorem received_bytes_keep_track cfg b c addr data an :
  binding_reachable send_ok cfg b →
  (∀ m, parse_message addr data = Some m → admissible b (Op_receive c m an)) →
  match on_receive_message send_ok c addr data an b with
  | Done (_, b', _) => binding_reachable send_ok cfg b'
  | Fault f => f ≠ Connection_missing ∧ f ≠ Key_missing
  end.
Proof.
  intros Hb Ha. pose proof (on_receive_step send_ok cfg b c addr data an Hb Ha) as Hs.
  destruct (on_receive_message _ _ _ _ _ _) as [[[? ?] ?]|]; [by destruct Hs|done].
Qed.
End properties.

(** A Request_service whose service id claims one character more than its array
    holds. *)
Definition oversized_request : Request_service :=
  {| rs_service_id := {| service_id := {| fsc_size := 65;
                           fsc_data := replicate 64 "a"%char |};
                         version := {| major := 1; minor := 0 |} |};
     rs_instance_id := demo_id "x"%char; rs_in_use := true |}.

(** A length that a peer puts on the wire is not validated. A frame whose
    service id claims 65 of 64 characters passes [check_and_cast], and handling
    it reads past the array. *)
Lemma oversized_length_is_read :
  check_and_cast wire_Request_service MT_Request_service 0
    (message_bytes (Msg_Request_service oversized_request)) = Done (Some oversized_request) ∧
  match @add_client 0 (make_binding demo_configuration) with
  | Done (_, b, _) =>
    @on_receive_message (granting_shm 4096) all_sent 0 0
      (message_bytes (Msg_Request_service oversized_request)) demo_answers b
      = Fault Out_of_bounds
  | Fault _ => False
  end.
Proof. vm_compute. split; reflexivity. Qed.

(** The byte of a [bool] is not validated either. *)
Lemma invalid_bool_is_read :
  match @add_client 0 (make_binding demo_configuration) with
  | Done (_, b, _) =>
    @on_receive_message (granting_shm 4096) all_sent 0 0
      [11; 0; 16; 0; 0; 0; 0; 0;  2; 1; 0; 0; 0; 0; 0; 0;  3; 0; 2; 0; 0; 0; 0; 0]%N%list
      demo_answers b = Fault Invalid_value
  | Fault _ => False
  end.
Proof. by vm_compute. Qed.

(** ** Witnesses *)

Definition demo_subscribe : Message :=
  Msg_Subscribe_event {| se_provided_id := 258; se_event_id := 3; se_subscribe := true |}.

Lemma demo_subscribe_bytes : message_bytes demo_subscribe =
  [11; 0; 16; 0; 0; 0; 0; 0;  2; 1; 0; 0; 0; 0; 0; 0;  3; 0; 1; 0; 0; 0; 0; 0]%N%list.
Proof. reflexivity. Qed.

Lemma message_roundtrip_witness :
  @on_receive_message (granting_shm 4096) all_sent 7 64
    [11; 0; 16; 0; 0; 0; 0; 0;  2; 1; 0; 0; 0; 0; 0; 0;  3; 0; 1; 0; 0; 0; 0; 0;  99]%N%list
    demo_answers = @dispatch (granting_shm 4096) all_sent 7 demo_subscribe demo_answers.
Proof.
  assert (message_ok demo_subscribe) as Hok.
  { split; [reflexivity|]. split; [reflexivity|]. split; exact I. }
  exact (@message_roundtrip (granting_shm 4096) all_sent 7 64 demo_subscribe [99%N]%list
    demo_answers Hok eq_refl).
Defined.

Lemma only_complete_frames_act_witness :
  let data := message_bytes (Msg_Request_service oversized_request) in
  let b := make_binding demo_configuration in
  ∃ m, sizeof (frame_layout m) ≤ length data ∧
    @on_receive_message (granting_shm 4096) all_sent 0 0 data demo_answers b =
    if valid_frame m data then @dispatch (granting_shm 4096) all_sent 0 m demo_answers b
    else Fault Invalid_value.
Proof.
  destruct (@only_complete_frames_act (granting_shm 4096) all_sent 0 0
    (message_bytes (Msg_Request_service oversized_request)) demo_answers
    (make_binding demo_configuration)) as [[E _]|(m & _ & Hs & _ & _ & E)].
  - intros E. vm_compute in E. discriminate E.
  - vm_compute in E. discriminate E.
  - exists m. split; [exact Hs|exact E].
Defined.

Definition silent_answers : Answers :=
  {| an_callbacks := []%list; an_client_connector := Some 5%N;
     an_server_connector := None; an_update_event := true |}.

Lemma received_bytes_keep_track_witness : ∃ b,
  @binding_reachable (granting_shm 4096) all_sent demo_configuration b ∧
  b_connections b = {[ 0%N ]} ∧
  match @on_receive_message (granting_shm 4096) all_sent 0 0
    (message_bytes (Msg_Request_service oversized_request)) silent_answers b with
  | Done (_, b', _) => @binding_reachable (granting_shm 4096) all_sent demo_configuration b'
  | Fault f => f ≠ Connection_missing ∧ f ≠ Key_missing
  end.
Proof.
  destruct demo_reached as (b & Hb & Hc & _). exists b. split; [done|]. split; [done|].
  apply (@received_bytes_keep_track (granting_shm 4096) all_sent demo_configuration b 0 0
    (message_bytes (Msg_Request_service oversized_request)) silent_answers Hb).
  intros m _. split; [rewrite Hc; set_solver|]. by destruct m.
Defined.
