(* ===== verification/WireTyping.v ===== *)
(** * What received bytes mean

    The receiver reinterprets the bytes of a buffer as a structure
    ([check_and_cast] of [src/score/gateway_ipc_binding/impl/gateway_ipc_binding_util.hpp]).
    A handler runs for a message exactly if the buffer holds the frame of that message, up
    to the padding of the structures and up to what follows the frame. The message is a
    value of the structure's type: integers within their widths, arrays of the declared
    lengths. The theorems that assume this of a message hold for everything that can
    arrive. *)

From stdpp Require Import base numbers list gmap strings.
From Stdlib Require Import Strings.Ascii.
From S2P Require Import Prelude.
From S2P Require Import IpcTypes.
From S2P Require Import SlotManager.
From S2P Require Import BindingBase.
From S2P Require Import BindingSafety.
From S2P Require Import Wire.

(** ** Representations *)

(** Bytes. *)
Definition is_byte (b : N) : Prop := (b < 256)%N.

Lemma le_value_bound l : Forall is_byte l → (le_value l < 256 ^ N.of_nat (length l))%N.
Proof.
  induction 1 as [|b l Hb _ IH]; [done|]. cbn [le_value length]. unfold is_byte in Hb.
  rewrite Nat2N.inj_succ, N.pow_succ_r'. lia.
Qed.

(** Every buffer has a value of every type. *)
Lemma decode_has_type t : ∀ data, Forall is_byte data → has_type t (decode t data).
Proof.
  induction t as [k|t n IH|fs IH] using ctype_nested_ind; intros data Hd.
  - cbn. eapply N.lt_le_trans; [by apply le_value_bound, Forall_take|].
    apply N.pow_le_mono_r; [done|]. rewrite length_take. lia.
  - cbn [has_type decode]. revert data Hd. induction n as [|n IHn]; intros data Hd; [done|].
    destruct (IHn (drop (sizeof t) data)) as [Hl Hf]; [by apply Forall_drop|].
    cbn [decode_array length]. split; [by rewrite Hl|].
    constructor; [by apply IH, Forall_take|done].
  - cbn [decode]. generalize 0. revert data Hd.
    induction IH as [|t fs Ht _ IHfs]; intros data Hd off; [done|]. split.
    + by apply Ht, Forall_take, Forall_drop.
    + by apply IHfs, Forall_drop.
Qed.

(** ** Padding *)

(** Which bytes of a representation belong to a value; the others are padding. *)
Section value_bytes.
Context (value_bytes : ctype → list bool).
Fixpoint value_fields (fs : list ctype) (off : nat) : list bool :=
  match fs with
  | [] => []
  | t :: fs' =>
    let p := padding off (alignof t) in
    replicate p false ++ value_bytes t ++ value_fields fs' (off + p + sizeof t)
  end.
End value_bytes.

Fixpoint value_bytes (t : ctype) : list bool :=
  match t with
  | CInt k => replicate k true
  | CArray t n => concat (replicate n (value_bytes t))
  | CStruct fs =>
    let l := value_fields value_bytes fs 0 in
    l ++ replicate (sizeof (CStruct fs) - length l) false
  end.

(** Two buffers have the same values. *)
Definition agree (m : list bool) (l l' : list N) : Prop :=
  ∀ i, m !! i = Some true → l !! i = l' !! i.

Lemma agree_sym m l l' : agree m l l' → agree m l' l.
Proof. intros H i Hi. symmetry. by apply H. Qed.

Lemma agree_padding n l l' : agree (replicate n false) l l'.
Proof. intros i [? _]%lookup_replicate. done. Qed.

Lemma agree_app m1 m2 l l' :
  agree (m1 ++ m2) l l' ↔
  agree m1 l l' ∧ agree m2 (drop (length m1) l) (drop (length m1) l').
Proof.
  split.
  - intros H. split; intros i Hi.
    + apply H. by apply lookup_app_l_Some.
    + rewrite !lookup_drop. apply H. by rewrite lookup_app_r, Nat.add_sub' by lia.
  - intros [H1 H2] i Hi. apply lookup_app_Some in Hi as [Hi|[Hle Hi]]; [by apply H1|].
    specialize (H2 _ Hi). rewrite !lookup_drop in H2.
    by rewrite Nat.add_comm, Nat.sub_add in H2.
Qed.

Lemma agree_take n m l l' : length m ≤ n → agree m (take n l) l' ↔ agree m l l'.
Proof.
  intros Hn. unfold agree. split; intros H i Hi; pose proof (lookup_lt_Some _ _ _ Hi) as Hlt;
    specialize (H i Hi); rewrite lookup_take_lt in *; by lia || done.
Qed.

Lemma agree_app_l m l r l' : length m ≤ length l → agree m (l ++ r) l' ↔ agree m l l'.
Proof.
  intros Hn. unfold agree. split; intros H i Hi; pose proof (lookup_lt_Some _ _ _ Hi) as Hlt;
    specialize (H i Hi); rewrite lookup_app_l in *; by lia || done.
Qed.

(** The values take the place of the representation. *)
Definition value_length (t : ctype) : Prop := length (value_bytes t) = sizeof t.

Lemma length_value_fields fs :
  Forall value_length fs → ∀ off,
  off + length (value_fields value_bytes fs off) = layout_end sizeof fs off.
Proof.
  induction 1 as [|t fs Ht _ IH]; intros off; simpl; [lia|].
  rewrite !length_app, length_replicate, Ht, <-IH. lia.
Qed.

Lemma length_value_bytes t : value_length t.
Proof.
  unfold value_length. induction t as [k|t n IH|fs IH] using ctype_nested_ind.
  - apply length_replicate.
  - cbn [value_bytes sizeof]. induction n as [|n IHn]; [done|]. cbn [replicate concat].
    by rewrite length_app, IHn, IH.
  - cbn [value_bytes]. rewrite length_app, length_replicate.
    pose proof (length_value_fields fs IH 0) as E. cbn [sizeof] in *. lia.
Qed.

(** *** Equal values are read equally *)

Definition reads_values (t : ctype) : Prop :=
  ∀ d d', agree (value_bytes t) d d' → decode t d = decode t d'.

Lemma reads_part t d d' :
  reads_values t → agree (value_bytes t) d d' →
  decode t (take (sizeof t) d) = decode t (take (sizeof t) d').
Proof.
  intros Ht H. apply Ht. pose proof (length_value_bytes t) as Hl. unfold value_length in Hl.
  apply agree_take; [lia|]. apply agree_sym, agree_take; [lia|]. by apply agree_sym.
Qed.

Lemma decode_agree t : reads_values t.
Proof.
  induction t as [k|t n IH|fs IH] using ctype_nested_ind; intros d d' H; cbn [decode].
  - do 2 f_equal. apply list_eq. intros i. destruct (decide (i < k)) as [Hi|Hi].
    + rewrite !lookup_take_lt by done. apply H. by apply lookup_replicate_2.
    + by rewrite !lookup_take_ge by lia.
  - f_equal. revert d d' H. induction n as [|n IHn]; intros d d' H; [done|].
    cbn [value_bytes replicate concat] in H. apply agree_app in H as [H1 H2].
    rewrite length_value_bytes in H2. cbn [decode_array]. f_equal; [by apply reads_part|].
    by apply IHn.
  - f_equal. cbn [value_bytes] in H. apply agree_app in H as [H _]. revert d d' H.
    generalize 0. induction IH as [|t fs Ht _ IHfs]; intros off d d' H; [done|].
    cbn [value_fields] in H. cbn [decode_fields]. apply agree_app in H as [_ H].
    apply agree_app in H as [H1 H2]. rewrite length_replicate in *.
    rewrite length_value_bytes, !drop_drop in H2. f_equal; [by apply reads_part|by apply IHfs].
Qed.

(** *** What was read is written again *)

Lemma le_bytes_value l : Forall is_byte l → le_bytes (length l) (le_value l) = l.
Proof.
  induction 1 as [|b l Hb _ IH]; [done|]. cbn [le_value length le_bytes]. unfold is_byte in Hb.
  replace ((b + 256 * le_value l) mod 256)%N with b.
  - rewrite (N.mul_comm 256), N.div_add, N.div_small, N.add_0_l by done. by rewrite IH.
  - rewrite N.mul_comm, N.Div0.mod_add. by rewrite N.mod_small.
Qed.

Definition rewrites (t : ctype) : Prop :=
  ∀ d, Forall is_byte d → sizeof t ≤ length d → agree (value_bytes t) (encode t (decode t d)) d.

Lemma encode_length t d : Forall is_byte d → length (encode t (decode t d)) = sizeof t.
Proof. intros Hd. by apply represents_all, decode_has_type. Qed.

(** A part of a buffer, followed by others. *)
Lemma rewrites_part t d rest :
  rewrites t → Forall is_byte d → sizeof t ≤ length d →
  agree (value_bytes t) (encode t (decode t (take (sizeof t) d)) ++ rest) d.
Proof.
  intros Ht Hd Hs. pose proof (length_value_bytes t) as Hl. unfold value_length in Hl.
  assert (Forall is_byte (take (sizeof t) d)) as Hd' by by apply Forall_take.
  apply agree_app_l; [by rewrite encode_length, Hl|].
  apply agree_sym, (agree_take (sizeof t)); [lia|]. apply agree_sym, Ht; [done|].
  rewrite length_take. lia.
Qed.

Lemma rewrites_array t n d :
  rewrites t → Forall is_byte d → n * sizeof t ≤ length d →
  agree (concat (replicate n (value_bytes t))) (decode_array decode t n d ≫= encode t) d.
Proof.
  intros Ht. revert d. induction n as [|n IHn]; intros d Hd Hs; [done|].
  cbn [replicate concat decode_array]. rewrite bind_cons. apply agree_app. split.
  - apply rewrites_part; [done|done|lia].
  - rewrite length_value_bytes.
    rewrite drop_app_length' by by rewrite encode_length by by apply Forall_take.
    apply IHn; [by apply Forall_drop|]. rewrite length_drop. lia.
Qed.

Lemma rewrites_fields fs : Forall rewrites fs → ∀ off d rest,
  Forall is_byte d → layout_end sizeof fs off ≤ off + length d →
  agree (value_fields value_bytes fs off)
    (encode_fields encode fs (decode_fields decode fs d off) off ++ rest) d.
Proof.
  induction 1 as [|t fs Ht _ IH]; intros off d rest Hd Hs; [done|].
  cbn [value_fields decode_fields encode_fields layout_end] in *.
  set (p := padding off (alignof t)) in *. rewrite <-!(assoc_L (++)).
  pose proof (length_value_fields fs (Forall_true _ _ length_value_bytes) (off + p + sizeof t)) as El.
  apply agree_app. split; [apply agree_padding|]. rewrite length_replicate.
  rewrite (drop_app_length' (replicate p 0%N)) by by rewrite length_replicate.
  apply agree_app. split.
  - apply rewrites_part; [done|by apply Forall_drop|]. rewrite length_drop. lia.
  - rewrite length_value_bytes.
    rewrite drop_app_length' by by rewrite encode_length by by apply Forall_take, Forall_drop.
    rewrite drop_drop. apply IH; [by apply Forall_drop|].
    rewrite length_drop. lia.
Qed.

Lemma encode_decode t : rewrites t.
Proof.
  induction t as [k|t n IH|fs IH] using ctype_nested_ind; intros d Hd Hs.
  - cbn in *. rewrite <-(length_take_le d k) at 2 by done.
    rewrite le_bytes_value by by apply Forall_take. apply agree_take; [by rewrite length_replicate|].
    done.
  - by apply rewrites_array.
  - cbn [encode decode value_bytes]. apply agree_app. split; [|apply agree_padding].
    apply rewrites_fields; [done|done|]. cbn [sizeof] in Hs. lia.
Qed.

(** ** Types with a representation *)

(** A value of the layout is an object whose members fit; if it is valid, it is the only
    value of that object. *)
Class Wire_sound {A} (W : Wire A) : Prop :=
  wire_sound v : has_type (w_type W) v →
    w_ok W (w_of W v) ∧ (w_valid W v = true → w_val W (w_of W v) = v).
Class Members_sound {A} (M : Members A) : Prop :=
  members_sound vs : has_type (CStruct (m_types M)) (VList vs) →
    m_ok M (m_of M vs) ∧ (m_valid M vs = true → m_vals M (m_of M vs) = vs).

#[export] Instance wire_int_sound k : Wire_sound (wire_int k).
Proof. by intros [n|l]. Qed.
#[export] Instance wire_bool_sound : Wire_sound wire_bool.
Proof.
  intros [n|l] Hv; [|done]. split; [done|]. cbn. intros Hn%N.leb_le. f_equal.
  destruct (N.eqb_spec n 0) as [->|]; [done|]. simpl. lia.
Qed.
#[export] Instance wire_char_sound : Wire_sound wire_char.
Proof. intros [n|l] Hv; [|done]. split; [done|]. intros _. cbn in *. by rewrite N_ascii_embedding. Qed.
#[export] Instance wire_array_sound {T} (W : Wire T) n : Wire_sound W → Wire_sound (wire_array W n).
Proof.
  intros HW [m|l] Hv; [done|]. destruct Hv as [Hl Hf].
  cbn [w_ok w_of w_valid w_val wire_array as_list]. split.
  - split; [by rewrite length_fmap|].
    apply Forall_fmap. eapply Forall_impl; [exact Hf|]. intros v Hv. by apply HW.
  - intros Ha. f_equal. clear Hl. induction Hf as [|v l Hv _ IH]; [done|].
    simpl in Ha. apply andb_true_iff in Ha as [Hv' Ha]. rewrite !fmap_cons, IH by done.
    by rewrite (proj2 (HW v Hv) Hv').
Qed.
#[export] Instance members_nil_sound : Members_sound members_nil.
Proof. by intros []. Qed.
#[export] Instance members_cons_sound {T A} (W : Wire T) (M : Members A) :
  Wire_sound W → Members_sound M → Members_sound (members_cons W M).
Proof.
  intros HW HM [|v vs] Hv; [done|]. destruct Hv as [Hv Hvs].
  destruct (HW v Hv) as [H1 H2], (HM vs Hvs) as [H3 H4]. split; [by split|].
  cbn. intros [Hv' Hvs']%andb_true_iff. by rewrite H2, H4.
Qed.

Lemma wire_struct_sound {A R} (M : Members A) (to : R → A) (from : A → R) from_to :
  Members_sound M → (∀ a, to (from a) = a) → Wire_sound (wire_struct M to from from_to).
Proof.
  intros HM Hto [m|l] Hv; [done|]. cbn [w_ok w_of w_valid w_val wire_struct as_list].
  rewrite Hto. destruct (HM l Hv) as [H1 H2]. split; [done|]. intros Hl. by rewrite H2.
Qed.

(** The structures of the protocol: their members are those of a nested tuple. *)
Ltac struct_sound :=
  apply wire_struct_sound; [apply _|]; intros; repeat match goal with x : _ * _ |- _ => destruct x
    end;
  repeat match goal with u : unit |- _ => destruct u end; reflexivity.

#[export] Instance wire_container_sound {T} (W : Wire T) max :
  Wire_sound W → Wire_sound (wire_container W max).
Proof. intros HW. struct_sound. Qed.
#[export] Instance wire_version_sound : Wire_sound wire_version.
Proof. struct_sound. Qed.
#[export] Instance wire_service_sound : Wire_sound wire_service.
Proof. struct_sound. Qed.
#[export] Instance wire_handle_sound : Wire_sound wire_handle.
Proof. struct_sound. Qed.
#[export] Instance wire_metadata_sound : Wire_sound wire_metadata.
Proof. struct_sound. Qed.
#[export] Instance wire_service_instance_sound : Wire_sound wire_service_instance.
Proof. struct_sound. Qed.
#[export] Instance wire_config_sound : Wire_sound wire_config.
Proof. struct_sound. Qed.
#[export] Instance wire_Connect_sound : Wire_sound wire_Connect.
Proof. struct_sound. Qed.
#[export] Instance wire_Connect_reply_sound : Wire_sound wire_Connect_reply.
Proof. struct_sound. Qed.
#[export] Instance wire_Request_service_sound : Wire_sound wire_Request_service.
Proof. struct_sound. Qed.
#[export] Instance wire_Offer_service_sound : Wire_sound wire_Offer_service.
Proof. struct_sound. Qed.
#[export] Instance wire_Connect_service_sound : Wire_sound wire_Connect_service.
Proof. struct_sound. Qed.
#[export] Instance wire_Connect_service_reply_sound : Wire_sound wire_Connect_service_reply.
Proof. struct_sound. Qed.
#[export] Instance wire_Subscribe_event_sound : Wire_sound wire_Subscribe_event.
Proof. struct_sound. Qed.
#[export] Instance wire_Event_update_sound : Wire_sound wire_Event_update.
Proof. struct_sound. Qed.
#[export] Instance wire_Payload_consumed_sound : Wire_sound wire_Payload_consumed.
Proof. struct_sound. Qed.
#[export] Instance wire_header_sound : Wire_sound wire_header.
Proof. struct_sound. Qed.
#[export] Instance wire_frame_sound {T} (W : Wire T) : Wire_sound W → Wire_sound (wire_frame W).
Proof. intros HW. struct_sound. Qed.

(** ** Messages *)

Lemma of_bytes_ok {T} (W : Wire T) `{!Wire_sound W} data :
  Forall is_byte data → w_ok W (of_bytes W data).
Proof. intros Hd. by apply wire_sound, decode_has_type. Qed.

(** The bytes that were read are those that the object is written as. *)
Lemma of_bytes_agree {T} (W : Wire T) `{!Wire_sound W} data :
  Forall is_byte data → sizeof (w_type W) ≤ length data → valid_bytes W data = true →
  agree (value_bytes (w_type W)) data (to_bytes W (of_bytes W data)).
Proof.
  intros Hd Hs Hv. unfold to_bytes, of_bytes.
  rewrite (proj2 (wire_sound _ (decode_has_type (w_type W) data Hd)) Hv).
  by apply agree_sym, encode_decode.
Qed.

(** The object depends on its bytes only. *)
Lemma agree_of_bytes {T} (W : Wire T) data a :
  w_ok W a → agree (value_bytes (w_type W)) data (to_bytes W a) →
  of_bytes W data = a ∧ valid_bytes W data = true.
Proof.
  intros Ha Hd%decode_agree. pose proof (of_to_bytes W a [] Ha) as H1.
  pose proof (valid_to_bytes W a [] Ha) as H2. rewrite app_nil_r in H1, H2.
  unfold of_bytes, valid_bytes in *. by rewrite Hd.
Qed.

(** A buffer that holds the frame of a structure. *)
Definition holds_payload {T} (W : Wire T) (t : Message_type) (m : T) (addr : N)
    (data : list N) : Prop :=
  (addr mod N.of_nat (alignof (w_type (wire_frame W))) = 0)%N ∧
  sizeof (w_type (wire_frame W)) ≤ length data ∧
  agree (value_bytes (w_type (wire_frame W))) data (frame_bytes W t m).

Lemma frame_type {T} (W : Wire T) data b :
  head data = Some b → is_byte b → mfh_type (mf_header (of_bytes (wire_frame W) data)) = b.
Proof. destruct data as [|b' data]; [done|]. intros [= ->] Hb. change (le_value [b] = b). simpl. lia. Qed.

Lemma check_and_cast_iff {T} (W : Wire T) `{!Wire_sound W} t addr data m :
  Forall is_byte data → (N.of_nat (sizeof (w_type W)) < 65536)%N →
  check_and_cast W t addr data = Done (Some m) ↔ w_ok W m ∧ holds_payload W t m addr data.
Proof.
  intros Hd Hsz. split.
  - intros E. destruct (check_and_cast_cases W t addr data) as [E'|(Hh & Hs & Ha & Hp & E')];
      rewrite E' in E; [done|].
    destruct (valid_bytes (wire_frame W) data) eqn:Hv; [|done].
    assert (m = mf_payload (of_bytes (wire_frame W) data)) as -> by congruence.
    pose proof (of_bytes_ok (wire_frame W) data Hd) as Hok. cbn in Hok.
    split; [by destruct Hok as (_ & Hok & _)|]. split_and!; [done|done|].
    assert (make_frame W t (mf_payload (of_bytes (wire_frame W) data)) =
      of_bytes (wire_frame W) data) as Ef.
    { unfold make_frame. rewrite wrap16_small, <-Hp by done.
      rewrite <-(frame_type W data (message_code t) Hh); [|by destruct t].
      by destruct (of_bytes (wire_frame W) data) as [[] ?]. }
    unfold frame_bytes. rewrite Ef. by apply of_bytes_agree; [apply _|..].
  - intros (Hm & Ha & Hs & Hg). unfold frame_bytes in Hg.
    destruct (agree_of_bytes (wire_frame W) data _ (frame_ok W t m Hm Hsz) Hg) as [Eo Ev].
    assert (head data = Some (message_code t)) as Hh.
    { pose proof (Hg 0 eq_refl) as H0. fold (frame_bytes W t m) in H0.
      destruct (frame_bytes_head W t m) as [rest Hr]. rewrite Hr in H0.
      by destruct data. }
    unfold check_and_cast. destruct data as [|b data]; [done|]. injection Hh as ->.
    rewrite get_message_code, bool_decide_true by done.
    rewrite (proj2 (Nat.ltb_ge _ _) Hs), Ha, Eo, Ev. simpl.
    by rewrite wrap16_small, N.eqb_refl by done.
Qed.

(** A buffer that holds the frame of a message: aligned, complete, and with the same bytes
    but for padding and for what follows the frame. *)
Definition holds_message (m : Message) (addr : N) (data : list N) : Prop :=
  (addr mod N.of_nat (alignof (frame_layout m)) = 0)%N ∧
  sizeof (frame_layout m) ≤ length data ∧
  agree (value_bytes (frame_layout m)) data (message_bytes m).

Lemma parse_as_iff {T} (W : Wire T) `{!Wire_sound W} t (msg : T → Message) addr data m :
  Forall is_byte data → (N.of_nat (sizeof (w_type W)) < 65536)%N →
  (∀ x, message_ok (msg x) ↔ w_ok W x) →
  (∀ x, holds_message (msg x) addr data ↔ holds_payload W t x addr data) →
  parse_as W t msg addr data = Some m ↔
    ∃ x, m = msg x ∧ message_ok m ∧ holds_message m addr data.
Proof.
  intros Hd Hs Hok Hh. unfold parse_as. split.
  - destruct (check_and_cast W t addr data) as [[x|]|] eqn:E; try done. intros [= <-].
    exists x. rewrite Hok, Hh. split; [done|]. by apply check_and_cast_iff.
  - intros (x & -> & H). rewrite Hok, Hh, <-check_and_cast_iff in H by done. by rewrite H.
Qed.

Lemma parse_message_iff addr data m :
  Forall is_byte data →
  parse_message addr data = Some m ↔ message_ok m ∧ holds_message m addr data.
Proof.
  intros Hd. assert (holds_message m addr data →
    head data = Some (message_code (message_type m))) as Hhead.
  { intros (_ & _ & Hg). destruct m; unfold message_bytes in Hg;
      match type of Hg with context [frame_bytes ?W ?t ?x] =>
        destruct (frame_bytes_head W t x) as [rest Hr]; rewrite Hr in Hg end;
      specialize (Hg 0 eq_refl); by destruct data. }
  unfold parse_message. split.
  - destruct (head data) as [b|]; [|done]. simpl.
    destruct (get_message_type b) as [t|]; [|done]. simpl.
    destruct t; try done;
      (intros H; eapply parse_as_iff in H as (x & -> & H); [done|apply _|done|done|done|done]).
  - intros [Hok Hh]. rewrite (Hhead Hh). simpl. rewrite get_message_code. simpl.
    destruct m; simpl; (eapply parse_as_iff; [apply _|done|done|done|done|]); eauto.
Qed.

(** The handler of the message that a buffer holds runs with it. *)
Lemma parse_message_dispatch `{Shm} send_ok c addr data an m :
  parse_message addr data = Some m →
  on_receive_message send_ok c addr data an = dispatch send_ok c m an.
Proof.
  unfold parse_message, on_receive_message. destruct data as [|b data]; [discriminate|].
  cbn [head mbind option_bind]. destruct (get_message_type b) as [t|]; [|done].
  cbn [mbind option_bind]. unfold parse_as, receive_as.
  destruct t; try done; destruct (check_and_cast _ _ _ _) as [[x|]|]; try done; by intros [= <-].
Qed.

(** C27: received bytes mean what the sender of these bytes meant, whatever they are. If the
    buffer holds the frame of a message (aligned, complete, and equal to the bytes of the
    frame but for the padding of its structures and for what follows it), then the handler
    of that message runs with exactly its fields. Otherwise the bytes are ignored, or they
    trip the assert on types without a handler, or the [bool] of their structure is neither
    zero nor one. So a handler never runs with a message that the bytes do not spell out,
    and its integers fit their widths and its arrays have their declared lengths. The
    lengths that the message claims for its strings and lists are not covered: they may be
    larger than the arrays. *)
Theorem received_message_typed `{Shm} send_ok c addr data an :
  Forall is_byte data →
  (∀ m, message_ok m → holds_message m addr data →
    on_receive_message send_ok c addr data an = dispatch send_ok c m an) ∧
  (on_receive_message send_ok c addr data an = mret tt ∨
   on_receive_message send_ok c addr data an = raise Assertion_failed ∨
   on_receive_message send_ok c addr data an = raise Invalid_value ∨
   ∃ m, message_ok m ∧ holds_message m addr data ∧
     on_receive_message send_ok c addr data an = dispatch send_ok c m an).
Proof.
  intros Hd. split.
  - intros m Hok Hm. by apply parse_message_dispatch, parse_message_iff.
  - destruct (on_receive_cases send_ok c addr data an) as [E|[[E _]|(m & _ & Ep & E)]];
      [by left|by right; left|].
    destruct (valid_frame m data); [|by right; right; left].
    apply parse_message_iff in Ep as [Hok Hm]; [|done]. right; right; right. eauto.
Qed.

(** A frame with other padding and with a byte after it. *)
Definition demo_padded : list N :=
  [11; 77; 16; 0; 7; 7; 7; 7;  2; 1; 0; 0; 0; 0; 0; 0;  3; 0; 1; 9; 9; 9; 9; 9;  99]%N.

Lemma demo_padded_holds : holds_message demo_subscribe 64 demo_padded.
Proof.
  split; [reflexivity|]. split; [by apply Nat.leb_le|].
  intros i Hi. vm_compute in Hi.
  do 25 (destruct i as [|i]; [first [reflexivity|discriminate Hi]|]). reflexivity.
Qed.

Lemma received_message_typed_witness :
  @on_receive_message (granting_shm 4096) all_sent 7 64 demo_padded demo_answers =
    @dispatch (granting_shm 4096) all_sent 7 demo_subscribe demo_answers.
Proof.
  apply (@received_message_typed (granting_shm 4096) all_sent 7 64 demo_padded demo_answers).
  - by repeat constructor.
  - by repeat split.
  - exact demo_padded_holds.
Defined.
