(* ===== verification/BindingServer.v ===== *)
(** * The server endpoint

    [src/score/gateway_ipc_binding/impl/gateway_ipc_binding_server.cpp]: the
    object that accepts the connections of the transport, numbers the clients,
    keeps what they announced, and passes their messages on to the binding.

    The transport ([score::message_passing]) is not in the repository. What the
    code takes from it are the three callbacks' arguments: the user data of a
    connection, which is what the connect callback returned for it, the bytes
    of a message and where they are, and the identity of the client. *)

From stdpp Require Import base numbers list gmap strings.
From Stdlib Require Import Strings.Ascii.
From S2P Require Import Prelude.
From S2P Require Import IpcTypes.
From S2P Require Import SlotManager.
From S2P Require Import Keys.
From S2P Require Import BindingBase.
From S2P Require Import BindingSafety.
From S2P Require Import Wire.

(** ** State *)

Section server.
(** [score::message_passing::ClientIdentity]. *)
Context {Client_identity : Type}.
Context `{Shm} (send_ok : N → Client_id → Message → bool).

Record Client_info : Type := {
  ci_identifier : Client_identifier;
  ci_client_identity : Client_identity;
}.

Record Server : Type := mkServer {
  sv_next_client_id : N;
  sv_listening : bool;
  sv_connections : gset N;       (* the keys of the map of reply channels *)
  sv_find_service_elements_by_client : gmap N Find_service_elements;
  sv_client_identifiers : gmap N Client_info;
  sv_base : Binding;
}.

Definition make_server (configuration : Shared_memory_configuration) : Server :=
  mkServer 0 false ∅ ∅ ∅ (make_binding configuration).

Definition sv_set_next_client_id (s : Server) x := mkServer x (sv_listening s)
  (sv_connections s) (sv_find_service_elements_by_client s) (sv_client_identifiers s)
  (sv_base s).
Definition sv_set_listening (s : Server) x := mkServer (sv_next_client_id s) x
  (sv_connections s) (sv_find_service_elements_by_client s) (sv_client_identifiers s)
  (sv_base s).
Definition sv_set_connections (s : Server) x := mkServer (sv_next_client_id s)
  (sv_listening s) x (sv_find_service_elements_by_client s) (sv_client_identifiers s)
  (sv_base s).
Definition sv_set_find (s : Server) x := mkServer (sv_next_client_id s) (sv_listening s)
  (sv_connections s) x (sv_client_identifiers s) (sv_base s).
Definition sv_set_identifiers (s : Server) x := mkServer (sv_next_client_id s)
  (sv_listening s) (sv_connections s) (sv_find_service_elements_by_client s) x (sv_base s).
Definition sv_set_base (s : Server) x := mkServer (sv_next_client_id s) (sv_listening s)
  (sv_connections s) (sv_find_service_elements_by_client s) (sv_client_identifiers s) x.

(** What the server does to its surroundings. *)
Inductive Server_action : Type :=
  | From_base (a : Action)
  | Find_service_change (client_id : Client_id) (elements : Find_service_elements) (found : bool)
  | Start_listening
  | Stop_listening.

Abbreviation SM := (M Server Server_action).

(** A call of a member function of [m_binding_base]. *)
Definition in_base {A} (m : BM A) : SM A := λ s,
  match m (sv_base s) with
  | Done (a, b, o) => Done (a, sv_set_base s b, From_base <$> o)
  | Fault f => Fault f
  end.

(** ** Operations *)

(** [internal_connect_callback]: returns the client's id, the connection's user
    data from now on. *)
Definition connect_callback : SM Client_id :=
  next ← reads sv_next_client_id;
  let '(client_id, next') := get_next_id next in
  modify (λ s, sv_set_next_client_id s next');;
  modify (λ s, sv_set_connections s ({[ client_id ]} ∪ sv_connections s));;
  in_base (add_client client_id);;
  mret client_id.

(** [internal_disconnect_callback]. *)
Definition disconnect_callback (client_id : Client_id) : SM unit :=
  in_base (remove_client client_id);;
  modify (λ s, sv_set_connections s (sv_connections s ∖ {[ client_id ]}));;
  modify (λ s, sv_set_identifiers s (delete client_id (sv_client_identifiers s)));;
  find_it ← reads (λ s, sv_find_service_elements_by_client s !! client_id);
  match find_it with
  | Some elements =>
    emit (Find_service_change client_id elements false);;
    modify (λ s, sv_set_find s (delete client_id (sv_find_service_elements_by_client s)))
  | None => mret tt
  end.

(** The part of [internal_message_callback] that is specific to Connect. *)
Definition handle_connect (client_id : Client_id) (identity : Client_identity) (msg : Connect) :
    SM unit :=
  modify (λ s, sv_set_identifiers s
    (<[client_id := {| ci_identifier := cn_identifier msg;
                       ci_client_identity := identity |}]> (sv_client_identifiers s)));;
  in_base (register_shared_memory_configurations (cn_shared_memory_configs msg));;
  if fsc_empty (cn_find_service_elements msg) then mret tt
  else
    emit (Find_service_change client_id (cn_find_service_elements msg) true);;
    modify (λ s, sv_set_find s
      (<[client_id := cn_find_service_elements msg]> (sv_find_service_elements_by_client s))).

(** [internal_message_callback]: [payload[0]] is read before anything checks
    that there is one. *)
Definition message_callback (client_id : Client_id) (identity : Client_identity)
    (addr : N) (payload : list N) (an : Answers) : SM unit :=
  match payload with
  | [] => raise Out_of_bounds
  | byte :: _ =>
    if bool_decide (get_message_type byte = Some MT_Connect) then
      match check_and_cast wire_Connect MT_Connect addr payload with
      | Done None => mret tt
      | Done (Some msg) =>
        handle_connect client_id identity msg;;
        in_base (on_receive_message send_ok client_id addr payload an)
      | Fault f => raise f
      end
    else in_base (on_receive_message send_ok client_id addr payload an)
  end.

(** [start]: does [m_server->StartListening] succeed? *)
Definition start (listening_ok : bool) : SM (Result Bidirectional_channel_error unit) :=
  listening ← reads sv_listening;
  if (listening : bool) then mret (Err runtime_error_listen_failed)
  else
    emit Start_listening;;
    if listening_ok then
      modify (λ s, sv_set_listening s true);; mret (Ok tt)
    else mret (Err runtime_error_listen_failed).

Definition get_client_identifiers : SM (gmap N Client_info) := reads sv_client_identifiers.

(** The destructor's body. *)
Definition destroy_server_endpoint : SM unit :=
  listening ← reads sv_listening;
  whenM listening (emit Stop_listening).
End server.

Arguments Server_action : clear implicits.
Arguments Server : clear implicits.
Arguments Client_info : clear implicits.

(** ** Executions *)

(** What can happen to a server: the callbacks of the transport, [start], and
    whatever the runtime does with the binding. *)
Inductive Server_operation (Client_identity : Type) : Type :=
  | Sv_connect
  | Sv_disconnect (client_id : Client_id)
  | Sv_message (client_id : Client_id) (identity : Client_identity) (addr : N)
      (payload : list N) (answers : Answers)
  | Sv_start (listening_ok : bool)
  | Sv_runtime (op : Operation).
Arguments Sv_connect {_}.
Arguments Sv_disconnect {_} _.
Arguments Sv_message {_} _ _ _ _ _.
Arguments Sv_start {_} _.
Arguments Sv_runtime {_} _.

Section executions.
Context {Client_identity : Type}.
Context `{Shm} (send_ok : N → Client_id → Message → bool).

Definition run_server (op : Server_operation Client_identity) :
    M (Server Client_identity) Server_action unit :=
  match op with
  | Sv_connect => _ ← connect_callback; mret tt
  | Sv_disconnect c => disconnect_callback c
  | Sv_message c i addr p an => message_callback send_ok c i addr p an
  | Sv_start ok => _ ← start ok; mret tt
  | Sv_runtime op => in_base (run_operation send_ok op)
  end.

(** The transport reports the disconnect and the messages of connected clients
    only; the runtime neither connects nor disconnects clients; and the client
    ids are not used up. *)
Definition server_admissible (s : Server Client_identity)
    (op : Server_operation Client_identity) : Prop :=
  match op with
  | Sv_connect => (sv_next_client_id s < 2 ^ 64 - 1)%N
  | Sv_disconnect c => c ∈ sv_connections s
  | Sv_message c _ addr p an =>
    c ∈ sv_connections s ∧
    ∀ m, parse_message addr p = Some m → admissible (sv_base s) (Op_receive c m an)
  | Sv_start _ => True
  | Sv_runtime (Op_add_client _ | Op_remove_client _) => False
  | Sv_runtime op => admissible (sv_base s) op
  end.

(** The states a server can reach, with what it did on the way. *)
Inductive server_reachable (cfg : Shared_memory_configuration) :
    Server Client_identity → list Server_action → Prop :=
  | server_init : server_reachable cfg (make_server cfg) []
  | server_step s trace op s' o :
      server_reachable cfg s trace → server_admissible s op →
      run_server op s = Done (tt, s', o) → server_reachable cfg s' (trace ++ o).

(** What someone who listens to the find-service callback knows. *)
Definition apply_notification (m : gmap N Find_service_elements) (a : Server_action) :
    gmap N Find_service_elements :=
  match a with
  | Find_service_change c elements true => <[c := elements]> m
  | Find_service_change c _ false => delete c m
  | _ => m
  end.
Definition announced : list Server_action → gmap N Find_service_elements :=
  foldl apply_notification ∅.

Lemma announced_app t o : announced (t ++ o) = foldl apply_notification (announced t) o.
Proof. apply foldl_app. Qed.

Lemma announced_base m (o : list Action) :
  foldl apply_notification m (From_base <$> o) = m.
Proof. by induction o. Qed.

Record server_inv (cfg : Shared_memory_configuration) (s : Server Client_identity)
    (trace : list Server_action) : Prop := {
  si_base : binding_reachable send_ok cfg (sv_base s);
  si_connections : b_connections (sv_base s) = sv_connections s;
  si_fresh : ∀ c, c ∈ sv_connections s → (c < sv_next_client_id s)%N;
  si_identifiers : dom (sv_client_identifiers s) ⊆ sv_connections s;
  si_find : dom (sv_find_service_elements_by_client s) ⊆ sv_connections s;
  si_announced : announced trace = sv_find_service_elements_by_client s;
}.

(** The specification of a step: the invariant holds again with the longer
    trace, or the fault is not one of the two that mean the binding lost
    track. *)
Definition server_keeps {A} cfg trace (r : outcome (A * Server Client_identity * list
  Server_action)) :
    Prop :=
  match r with
  | Done (_, s, o) => server_inv cfg s (trace ++ o)
  | Fault f => f ≠ Connection_missing ∧ f ≠ Key_missing
  end.

Lemma server_keeps_bind {A B} cfg trace
    (m : M (Server Client_identity) Server_action A) (k : A → M _ _ B) s :
  server_keeps cfg trace (m s) →
  (∀ a s' o, m s = Done (a, s', o) → server_inv cfg s' (trace ++ o) →
    server_keeps cfg (trace ++ o) (k a s')) →
  server_keeps cfg trace ((m ≫= k) s).
Proof.
  intros Hm Hk. unfold mbind, M_bind. destruct (m s) as [[[a s'] o]|f]; [|done].
  specialize (Hk a s' o eq_refl Hm). destruct (k a s') as [[[b s''] o']|f]; [|done].
  simpl in *. by rewrite (assoc_L (++)).
Qed.

Lemma server_keeps_base cfg trace s op :
  server_inv cfg s trace → admissible (sv_base s) op →
  match op with Op_add_client _ | Op_remove_client _ => False | _ => True end →
  server_keeps cfg trace (in_base (run_operation send_ok op) s).
Proof.
  intros Hs Ha Hop. pose proof (operation_step send_ok cfg _ op (si_base _ _ _ Hs) Ha) as Hk.
  unfold in_base. destruct (run_operation send_ok op (sv_base s)) as [[[u b'] o]|f]; [|done].
  destruct Hk as [Hr Hc]. destruct Hs. split; simpl; auto.
  - rewrite Hc. by destruct op.
  - by rewrite announced_app, announced_base.
Qed.

Lemma server_keeps_receive cfg trace s c addr p an :
  server_inv cfg s trace →
  (∀ m, parse_message addr p = Some m → admissible (sv_base s) (Op_receive c m an)) →
  server_keeps cfg trace (in_base (on_receive_message send_ok c addr p an) s).
Proof.
  intros Hs Ha.
  pose proof (on_receive_step send_ok cfg _ c addr p an (si_base _ _ _ Hs) Ha) as Hk.
  unfold in_base. destruct (on_receive_message _ _ _ _ _ _) as [[[u b'] o]|f]; [|done].
  destruct Hk as [Hr Hc]. destruct Hs. split; simpl; auto.
  - by rewrite Hc.
  - by rewrite announced_app, announced_base.
Qed.

Lemma keeps_connect_callback cfg trace s :
  server_inv cfg s trace → (sv_next_client_id s < 2 ^ 64 - 1)%N →
  ∃ s' o, connect_callback s = Done (sv_next_client_id s, s', o) ∧
    server_inv cfg s' (trace ++ o) ∧
    sv_connections s' = {[ sv_next_client_id s ]} ∪ sv_connections s ∧
    sv_next_client_id s ∉ sv_connections s.
Proof.
  intros Hs Hn. set (c := sv_next_client_id s).
  assert (c ∉ sv_connections s) as Hnew.
  { intros Hc%(si_fresh _ _ _ Hs). unfold c in Hc. lia. }
  pose proof (operation_step send_ok cfg _ (Op_add_client c) (si_base _ _ _ Hs) I) as Hk.
  cbn [run_operation] in Hk.
  assert (add_client c (sv_base s) =
    Done (tt, set_connections (sv_base s) ({[ c ]} ∪ b_connections (sv_base s)), [])) as E.
  { unfold add_client, get_reply_channel. rewrite reads_run, bool_decide_false; [done|].
    by rewrite (si_connections _ _ _ Hs). }
  rewrite E in Hk. destruct Hk as [Hr Hc].
  assert (wrap64 (c + 1) = c + 1)%N as Hw.
  { apply (wrap_small 64). unfold fits. unfold c in *. lia. }
  unfold connect_callback. rewrite reads_run. unfold get_next_id. fold c. rewrite Hw, !modify_run.
  unfold in_base, mbind, M_bind. cbn [sv_base sv_set_connections sv_set_next_client_id].
  rewrite E. eexists _, _. split; [reflexivity|]. split; [|done].
  destruct Hs. split; simpl; auto.
  - by rewrite si_connections0.
  - intros x [->%elem_of_singleton|Hx]%elem_of_union; [lia|].
    specialize (si_fresh0 _ Hx). unfold c in *. lia.
  - set_solver.
  - set_solver.
  - by rewrite announced_app.
Qed.

Lemma keeps_disconnect_callback cfg trace s c :
  server_inv cfg s trace →
  ∃ s' o, disconnect_callback c s = Done (tt, s', o) ∧ server_inv cfg s' (trace ++ o) ∧
    sv_connections s' = sv_connections s ∖ {[ c ]}.
Proof.
  intros Hs. destruct (remove_client_run c (sv_base s)) as [o E].
  pose proof (operation_step send_ok cfg _ (Op_remove_client c) (si_base _ _ _ Hs) I) as Hk.
  cbn [run_operation] in Hk. rewrite E in Hk. destruct Hk as [Hr Hc].
  unfold disconnect_callback, in_base at 1, mbind at 1, M_bind at 1. rewrite E.
  rewrite !modify_run, reads_run. cbn [sv_find_service_elements_by_client sv_set_base
    sv_set_connections sv_set_identifiers].
  destruct Hs. destruct (sv_find_service_elements_by_client s !! c) as [els|] eqn:Ef.
  - eexists _, _. split; [reflexivity|]. split; [|done]. split; simpl; auto.
    + by rewrite <-si_connections0.
    + set_solver.
    + rewrite dom_delete_L. set_solver.
    + rewrite dom_delete_L. set_solver.
    + rewrite announced_app, foldl_app, announced_base, si_announced0. done.
  - eexists _, _. split; [reflexivity|]. split; [|done].
    apply not_elem_of_dom in Ef. split; simpl; auto.
    + by rewrite <-si_connections0.
    + set_solver.
    + rewrite dom_delete_L. set_solver.
    + set_solver.
    + by rewrite announced_app, foldl_app, announced_base.
Qed.

Lemma keeps_handle_connect cfg trace s c i msg :
  server_inv cfg s trace → c ∈ sv_connections s →
  server_keeps cfg trace (handle_connect c i msg s) ∧
  ∀ u s' o, handle_connect c i msg s = Done (u, s', o) → sv_connections s' = sv_connections s.
Proof.
  intros Hs Hc. unfold handle_connect. rewrite modify_run.
  set (s1 := sv_set_identifiers s _).
  assert (server_inv cfg s1 trace) as Hs1.
  { destruct Hs. split; simpl; auto. rewrite dom_insert_L. set_solver. }
  pose proof (server_keeps_base cfg trace s1 (Op_register (cn_shared_memory_configs msg))
    Hs1 I I) as Hr. cbn [run_operation] in Hr.
  unfold in_base in *. cbn [mbind M_bind]. unfold mbind, M_bind in *.
  destruct (register_shared_memory_configurations _ _) as [[[u b'] o]|f]; [|done].
  cbn [server_keeps] in Hr. destruct (fsc_empty _).
  - unfold mret, M_ret. rewrite (right_id_L [] (++)).
    split; [done|]. by intros ? ? ? [= _ <- _].
  - unfold emit, modify. cbn. split; [|by intros ? ? ? [= _ <- _]].
    destruct Hr. split; simpl in *; auto.
    + rewrite dom_insert_L. set_solver.
    + rewrite announced_app, foldl_app. rewrite announced_app in si_announced0.
      by rewrite si_announced0.
Qed.

(** A buffer that is cast to a Connect holds a Connect. *)
Lemma parse_connect addr byte p m msg :
  get_message_type byte = Some MT_Connect →
  check_and_cast wire_Connect MT_Connect addr (byte :: p) = Done (Some msg) →
  parse_message addr (byte :: p) = Some m → m = Msg_Connect msg.
Proof.
  intros Hb Hc. unfold parse_message. cbn [head mbind option_bind]. rewrite Hb.
  unfold parse_as. rewrite Hc. by intros [= <-].
Qed.

Lemma keeps_message_callback cfg trace s c i addr p an :
  server_inv cfg s trace → server_admissible s (Sv_message c i addr p an) →
  server_keeps cfg trace (message_callback send_ok c i addr p an s).
Proof.
  intros Hs [Hc Ha]. unfold message_callback. destruct p as [|byte p]; [by split|].
  case_bool_decide as Hb; [|by apply server_keeps_receive].
  destruct (check_and_cast wire_Connect MT_Connect addr (byte :: p)) as [[msg|]|f] eqn:E.
  - destruct (keeps_handle_connect cfg trace s c i msg Hs Hc) as [Hk Hsame].
    apply server_keeps_bind; [done|]. intros u s' o Hrun Hs'.
    apply server_keeps_receive; [done|]. intros m Hm.
    rewrite (parse_connect _ _ _ _ _ Hb E Hm). split; [|done].
    by rewrite (si_connections _ _ _ Hs'), (Hsame _ _ _ Hrun).
  - simpl. by rewrite (right_id_L [] (++)).
  - by apply check_and_cast_fault in E as ->.
Qed.

Lemma keeps_start cfg trace s ok :
  server_inv cfg s trace → server_keeps cfg trace (run_server (Sv_start ok) s).
Proof.
  intros []. cbn [run_server]. unfold start, mbind, M_bind, reads.
  destruct (sv_listening s), ok; split; simpl; auto; by rewrite announced_app.
Qed.

Lemma keeps_server_operation cfg trace s op :
  server_inv cfg s trace → server_admissible s op →
  server_keeps cfg trace (run_server op s).
Proof.
  intros Hs Ha. destruct op as [|c|c i addr p an|ok|op].
  - destruct (keeps_connect_callback cfg trace s Hs Ha) as (s' & o & E & Hk & _).
    cbn [run_server]. rewrite (bind_run _ _ _ _ _ _ E). simpl. by rewrite (right_id_L [] (++)).
  - destruct (keeps_disconnect_callback cfg trace s c Hs) as (s' & o & E & Hk & _).
    cbn [run_server]. by rewrite E.
  - by apply keeps_message_callback.
  - by apply keeps_start.
  - apply server_keeps_base; destruct op; done.
Qed.

Lemma server_reachable_inv cfg s trace : server_reachable cfg s trace → server_inv cfg s trace.
Proof.
  induction 1 as [|s trace op s' o _ IH Ha Hr].
  - split; simpl; try done. apply reach_start.
  - pose proof (keeps_server_operation cfg trace s op IH Ha) as Hk. by rewrite Hr in Hk.
Qed.

(** ** Properties *)

(** The server's books agree. In every reachable state the binding is in a
    reachable state of its own, its channels are the server's connections, and
    identifiers and find-service elements are kept for connected clients only. *)
Theorem server_books_agree cfg s trace :
  server_reachable cfg s trace →
  binding_reachable send_ok cfg (sv_base s) ∧
  b_connections (sv_base s) = sv_connections s ∧
  dom (sv_client_identifiers s) ⊆ sv_connections s ∧
  dom (sv_find_service_elements_by_client s) ⊆ sv_connections s.
Proof. intros []%server_reachable_inv. done. Qed.

(** Find-service notifications are accurate. Whoever listens to the callback
    and remembers, per client, the elements last reported as found and forgets
    them when they are reported as gone, knows at every point exactly the
    elements the server has on record, and these belong to connected clients: no
    disconnect is missed. *)
Theorem find_service_notifications cfg s trace :
  server_reachable cfg s trace →
  announced trace = sv_find_service_elements_by_client s ∧
  ∀ c, is_Some (announced trace !! c) → c ∈ sv_connections s.
Proof.
  intros []%server_reachable_inv. split; [done|]. intros c Hc.
  rewrite si_announced0 in Hc. apply elem_of_dom in Hc. set_solver.
Qed.

(** C33: the server's callbacks are safe. A connect never fails and hands out an
    id that no connected client has; a disconnect never fails and leaves exactly
    the other clients; and no callback makes the binding lose track of a
    connection or a key. *)
Theorem server_callbacks_safe cfg s trace op :
  server_reachable cfg s trace → server_admissible s op →
  match op, run_server op s with
  | Sv_connect, Done (_, s', _) =>
    ∃ c, (c ∉ sv_connections s) ∧ sv_connections s' = {[ c ]} ∪ sv_connections s
  | Sv_disconnect c, Done (_, s', _) => sv_connections s' = sv_connections s ∖ {[ c ]}
  | Sv_connect, Fault _ => False
  | Sv_disconnect _, Fault _ => False
  | _, Done (_, s', _) => ∃ trace', server_reachable cfg s' trace'
  | _, Fault f => f ≠ Connection_missing ∧ f ≠ Key_missing
  end.
Proof.
  intros Hr Ha. pose proof (server_reachable_inv _ _ _ Hr) as Hs.
  pose proof (keeps_server_operation cfg trace s op Hs Ha) as Hk.
  assert (∀ u s' o, run_server op s = Done (u, s', o) → server_reachable cfg s' (trace ++ o))
    as Hstep by (intros [] s' o E; by eapply server_step).
  destruct op as [|c|c i addr p an|ok|op].
  - destruct (keeps_connect_callback cfg trace s Hs Ha) as (s' & o & E & _ & Hc & Hn).
    cbn [run_server]. rewrite (bind_run _ _ _ _ _ _ E). simpl. eauto.
  - destruct (keeps_disconnect_callback cfg trace s c Hs) as (s' & o & E & _ & Hc).
    cbn [run_server]. by rewrite E.
  - destruct (run_server _ s) as [[[u s'] o]|f]; eauto.
  - destruct (run_server _ s) as [[[u s'] o]|f]; eauto.
  - destruct (run_server _ s) as [[[u s'] o]|f]; eauto.
Qed.

(** An empty message. The binding ignores one, but the server endpoint reads
    its first byte before anything looks at its length, in every state. *)
Lemma server_reads_empty_message c i addr an (s : Server Client_identity) :
  message_callback send_ok c i addr [] an s = Fault Out_of_bounds ∧
  in_base (on_receive_message send_ok c addr [] an) s = Done (tt, s, []).
Proof. split; [done|]. by destruct s. Qed.
End executions.

(** ** Witnesses *)

(** A client connects and announces that it looks for service "a". *)
Definition demo_elements : Find_service_elements :=
  {| fsc_size := 1;
     fsc_data := replicate 16 {| isi_service := demo_service "a"%char;
                                 isi_instance_id := demo_id "x"%char |} |}.
Definition demo_announcement : Message :=
  Msg_Connect {| cn_find_service_elements := demo_elements;
    cn_shared_memory_configs := {| fsc_size := 0; fsc_data := replicate 16
      {| ssmc_service := demo_service "a"%char; ssmc_instance_id := demo_id "x"%char;
         ssmc_metadata := SharedMemoryManagers.demo_metadata |} |};
    cn_identifier := demo_id "c"%char |}.

Definition demo_server : Server N :=
  sv_set_base (sv_set_connections (sv_set_next_client_id (make_server demo_configuration) 1)
    {[ 0%N ]}) (set_connections (make_binding demo_configuration) {[ 0%N ]}).

Definition demo_message : Server_operation N :=
  Sv_message 0 77%N 0 (message_bytes demo_announcement) silent_answers.

Lemma demo_server_reachable :
  @server_reachable N (granting_shm 4096) all_sent demo_configuration demo_server [].
Proof.
  apply (server_step _ _ (make_server demo_configuration) [] Sv_connect _ []);
    [apply server_init|reflexivity|vm_compute; reflexivity].
Qed.

Lemma demo_message_admissible : @server_admissible N demo_server demo_message.
Proof.
  split; [simpl; set_solver|]. intros m _. split; [simpl; set_solver|]. by destruct m.
Qed.

Lemma demo_server_announced : ∃ s trace,
  @server_reachable N (granting_shm 4096) all_sent demo_configuration s trace ∧
  sv_find_service_elements_by_client s !! 0%N = Some demo_elements ∧
  sv_connections s = {[ 0%N ]}.
Proof.
  eexists _, _. split; [|split].
  - apply (server_step _ _ demo_server [] demo_message);
      [apply demo_server_reachable|apply demo_message_admissible|vm_compute; reflexivity].
  - reflexivity.
  - reflexivity.
Qed.

Lemma server_books_agree_witness : ∃ s : Server N,
  sv_connections s = {[ 0%N ]} ∧ b_connections (sv_base s) = {[ 0%N ]}.
Proof.
  destruct demo_server_announced as (s & trace & Hr & _ & Hc). exists s. split; [done|].
  rewrite <-Hc. apply (@server_books_agree N _ all_sent demo_configuration s trace Hr).
Defined.

Lemma find_service_notifications_witness : ∃ trace : list Server_action,
  announced trace !! 0%N = Some demo_elements.
Proof.
  destruct demo_server_announced as (s & trace & Hr & Hf & _). exists trace.
  rewrite <-Hf.
  by rewrite (proj1 (@find_service_notifications N _ all_sent demo_configuration s trace Hr)).
Defined.

Lemma server_callbacks_safe_witness :
  ∃ s', (∃ o, @run_server N (granting_shm 4096) all_sent Sv_connect demo_server
    = Done (tt, s', o)) ∧ ∃ c, (c ∉ sv_connections demo_server) ∧
    sv_connections s' = {[ c ]} ∪ sv_connections demo_server.
Proof.
  pose proof (@server_callbacks_safe N (granting_shm 4096) all_sent demo_configuration
    demo_server [] Sv_connect demo_server_reachable eq_refl) as Hc.
  eexists. split; [|exact Hc]. eexists. reflexivity.
Defined.
