(* ===== verification/BindingClient.v ===== *)
(** * The client endpoint

    [src/score/gateway_ipc_binding/impl/gateway_ipc_binding_client.cpp]: the
    object that keeps the connection to the server, introduces itself when the
    transport is ready, and passes the server's messages on to the binding.

    The transport's connection is not in the repository; what the code takes
    from it are the states it reports, the reason of a stop, whether a send
    succeeds and the messages. The channel is not null until the destructor
    has run. *)

From stdpp Require Import base numbers list gmap strings.
From Stdlib Require Import Strings.Ascii.
From S2P Require Import Prelude.
From S2P Require Import IpcTypes.
From S2P Require Import SlotManager.
From S2P Require Import Keys.
From S2P Require Import BindingBase.
From S2P Require Import BindingSafety.
From S2P Require Import Wire.
From S2P Require Import BindingServer.

(** ** State *)

(** [IClientConnection::State], and the stop reasons the code names. *)
Inductive Channel_state : Type := kStarting | kReady | kStopping | kStopped.
Inductive Stop_reason : Type :=
  | kUserRequested | kPermission | kShutdown | Other_reason.

Record Client : Type := mkClient {
  cl_connected : bool;
  cl_stopped : bool;
  cl_base : Binding;
  cl_find_service_elements : Find_service_elements;
  cl_identifier : Client_identifier;
  cl_server_shared_memory_configs : Shared_memory_configs;
}.

Definition cl_set_connected (c : Client) x := mkClient x (cl_stopped c) (cl_base c)
  (cl_find_service_elements c) (cl_identifier c) (cl_server_shared_memory_configs c).
Definition cl_set_stopped (c : Client) x := mkClient (cl_connected c) x (cl_base c)
  (cl_find_service_elements c) (cl_identifier c) (cl_server_shared_memory_configs c).
Definition cl_set_base (c : Client) x := mkClient (cl_connected c) (cl_stopped c) x
  (cl_find_service_elements c) (cl_identifier c) (cl_server_shared_memory_configs c).

Inductive Client_action : Type :=
  | Base_action (a : Action)
  | Channel_send (msg : Message)
  | Channel_start
  | Channel_stop
  | Channel_restart.

Abbreviation CM := (M Client Client_action).

(** There is only one connection, to the server. *)
Definition client_id : Client_id := 0%N.

(** A call of a member function of [m_binding_base]. *)
Definition within_base {A} (m : BM A) : CM A := λ c,
  match m (cl_base c) with
  | Done (a, b, o) => Done (a, cl_set_base c b, Base_action <$> o)
  | Fault f => Fault f
  end.

(** [Gateway_ipc_binding_client::create] and the constructor. *)
Definition create_client (configuration : Shared_memory_configuration)
    (elements : Find_service_elements) (configs : Shared_memory_configs)
    (identifier : string) : outcome (Client * list Client_action) :=
  identifier_opt ← assert_ok (fixed_string_from_string kMax_client_identifier_size identifier);
  mret (mkClient false false (make_binding configuration) elements identifier_opt configs,
        [Channel_start]).

Section client.
Context `{Shm} (send_ok : N → Client_id → Message → bool).

(** The case kReady: introduce the client. The result of the send is ignored. *)
Definition on_ready : CM unit :=
  c ← get_state;
  emit (Channel_send (Msg_Connect
    {| cn_find_service_elements := cl_find_service_elements c;
       cn_shared_memory_configs := cl_server_shared_memory_configs c;
       cn_identifier := cl_identifier c |})).

(** The case kStopped: an intentional stop is final, any other is retried. *)
Definition on_stopped (reason : Stop_reason) : CM unit :=
  match reason with
  | kUserRequested | kPermission | kShutdown => modify (λ c, cl_set_stopped c true)
  | Other_reason => emit Channel_restart
  end.

Definition on_state_change (state : Channel_state) (reason : Stop_reason) : CM unit :=
  match state with
  | kReady => on_ready
  | kStopped => on_stopped reason
  | kStarting | kStopping =>
    modify (λ c, cl_set_connected c false);;
    within_base (remove_client client_id)
  end.

(** [Gateway_ipc_binding_client_impl::handle_connect_reply_message]. *)
Definition client_handle_connect_reply (msg : Connect_reply) : CM unit :=
  assertM (cr_status msg);;
  modify (λ c, cl_set_connected c (cr_status msg));;
  whenM (cr_status msg) (within_base (add_client client_id)).

(** [Gateway_ipc_binding_client_impl::on_receive_message]. *)
Definition client_receive (addr : N) (data : list N) (an : Answers) : CM unit :=
  match data with
  | [] => mret tt
  | byte :: _ =>
    if bool_decide (get_message_type byte = Some MT_Connect_reply) then
      match check_and_cast wire_Connect_reply MT_Connect_reply addr data with
      | Done None => mret tt
      | Done (Some msg) =>
        client_handle_connect_reply msg;;
        within_base (on_receive_message send_ok client_id addr data an)
      | Fault f => raise f
      end
    else within_base (on_receive_message send_ok client_id addr data an)
  end.

Definition is_connected : CM bool := reads cl_connected.

(** The destructor's loop: stop the channel until it reports an intentional
    stop. [reports] are the state changes that arrive while it sleeps, one
    batch per round. The result tells whether the loop has ended. *)
Fixpoint stop_loop (reports : list (list (Channel_state * Stop_reason))) : CM bool :=
  stopped ← reads cl_stopped;
  if (stopped : bool) then mret true
  else
    match reports with
    | [] => mret false
    | batch :: reports' =>
      emit Channel_stop;;
      forM batch (λ '(state, reason), on_state_change state reason);;
      stop_loop reports'
    end.

(** The destructor: once its loop has ended, the members are destroyed, the binding among
    them. *)
Definition destroy_client_endpoint (reports : list (list (Channel_state * Stop_reason))) :
    CM bool :=
  stopped ← stop_loop reports;
  if (stopped : bool) then within_base (destroy_binding;; destroy_members);; mret true
  else mret false.
End client.

(** ** Executions *)

Inductive Client_operation : Type :=
  | Cl_state (state : Channel_state) (reason : Stop_reason)
  | Cl_message (addr : N) (data : list N) (answers : Answers)
  | Cl_runtime (op : Operation).

Section executions.
Context `{Shm} (send_ok : N → Client_id → Message → bool).

Definition run_client (op : Client_operation) : CM unit :=
  match op with
  | Cl_state state reason => on_state_change state reason
  | Cl_message addr data an => client_receive send_ok addr data an
  | Cl_runtime op => within_base (run_operation send_ok op)
  end.

(** What the invariant needs of the server: before its Connect_reply it sends
    nothing that reaches a handler. *)
Definition client_admissible (c : Client) (op : Client_operation) : Prop :=
  match op with
  | Cl_state _ _ => True
  | Cl_message addr data an =>
    ∀ m, parse_message addr data = Some m →
      match m with
      | Msg_Connect_reply _ => True
      | _ => admissible (cl_base c) (Op_receive client_id m an)
      end
  | Cl_runtime (Op_add_client _ | Op_remove_client _) => False
  | Cl_runtime op => admissible (cl_base c) op
  end.

Inductive client_reachable (cfg : Shared_memory_configuration) : Client → Prop :=
  | client_init els ident cfgs :
      client_reachable cfg (mkClient false false (make_binding cfg) els ident cfgs)
  | client_step c op c' o :
      client_reachable cfg c → client_admissible c op →
      run_client op c = Done (tt, c', o) → client_reachable cfg c'.

Definition client_inv (cfg : Shared_memory_configuration) (c : Client) : Prop :=
  binding_reachable send_ok cfg (cl_base c) ∧
  b_connections (cl_base c) = if cl_connected c then {[ client_id ]} else ∅.

Definition client_keeps {A} cfg (r : outcome (A * Client * list Client_action)) : Prop :=
  match r with
  | Done (_, c, _) => client_inv cfg c
  | Fault f => f ≠ Connection_missing ∧ f ≠ Key_missing
  end.

Lemma client_keeps_state cfg c state reason :
  client_inv cfg c →
  ∃ c' o, on_state_change state reason c = Done (tt, c', o) ∧ client_inv cfg c' ∧
    cl_stopped c' = cl_stopped c ||
      match state, reason with
      | kStopped, (kUserRequested | kPermission | kShutdown) => true
      | _, _ => false
      end.
Proof.
  intros [Hr Hc].
  assert (∃ c' o, (modify (λ c, cl_set_connected c false);;
      within_base (remove_client client_id)) c = Done (tt, c', o) ∧ client_inv cfg c' ∧
      cl_stopped c' = cl_stopped c) as Hremove.
  { rewrite modify_run. unfold within_base. cbn [cl_base cl_set_connected].
    destruct (remove_client_run client_id (cl_base c)) as [o E].
    pose proof (operation_step send_ok cfg _ (Op_remove_client client_id) Hr I) as Hk.
    cbn [run_operation] in Hk. rewrite E in *. destruct Hk as [Hr' Hc'].
    eexists _, _. split_and!; [reflexivity| |done]. split; [done|].
    cbn [cl_base cl_set_base cl_connected cl_set_connected clients_after] in *.
    rewrite Hc', Hc. destruct (cl_connected c); set_solver. }
  destruct state; cbn [on_state_change].
  - destruct Hremove as (c' & o & E & ? & Hst). exists c', o. by rewrite E, Hst, orb_false_r.
  - eexists _, _. split; [reflexivity|]. by rewrite orb_false_r.
  - destruct Hremove as (c' & o & E & ? & Hst). exists c', o. by rewrite E, Hst, orb_false_r.
  - destruct reason; eexists _, _; (split; [reflexivity|]); simpl;
      rewrite ?orb_true_r, ?orb_false_r; done.
Qed.

Lemma client_keeps_receive cfg c addr data an :
  client_inv cfg c →
  (∀ m, parse_message addr data = Some m → admissible (cl_base c) (Op_receive client_id m an)) →
  client_keeps cfg (within_base (on_receive_message send_ok client_id addr data an) c).
Proof.
  intros [Hr Hc] Ha.
  pose proof (on_receive_step send_ok cfg _ client_id addr data an Hr Ha) as Hk.
  unfold within_base. destruct (on_receive_message _ _ _ _ _ _) as [[[u b'] o]|f]; [|done].
  destruct Hk as [Hr' Hc']. split; [done|]. simpl. by rewrite Hc'.
Qed.

Lemma client_keeps_reply cfg c msg :
  client_inv cfg c →
  match client_handle_connect_reply msg c with
  | Done (_, c', _) => client_inv cfg c' ∧ cl_connected c' = true
  | Fault f => f = Assertion_failed
  end.
Proof.
  intros [Hr Hc]. unfold client_handle_connect_reply. destruct (cr_status msg) eqn:Es; [|done].
  pose proof (operation_step send_ok cfg _ (Op_add_client client_id) Hr I) as Hk.
  cbn [run_operation assertM whenM] in *. unfold mbind, M_bind, mret, M_ret, modify, within_base.
  cbn [cl_base cl_set_connected].
  destruct (add_client client_id (cl_base c)) as [[[[] b'] o]|f] eqn:E.
  - destruct Hk as [Hr' Hc']. simpl in *. split; [split|]; simpl; [done| |done].
    rewrite Hc', Hc. destruct (cl_connected c); set_solver.
  - revert E. unfold add_client, get_reply_channel. rewrite reads_run.
    destruct (bool_decide _); [|done]. by intros [= <-].
Qed.

Lemma parse_connect_reply addr byte p m msg :
  get_message_type byte = Some MT_Connect_reply →
  check_and_cast wire_Connect_reply MT_Connect_reply addr (byte :: p) = Done (Some msg) →
  parse_message addr (byte :: p) = Some m → m = Msg_Connect_reply msg.
Proof.
  intros Hb Hc. unfold parse_message. cbn [head mbind option_bind]. rewrite Hb.
  unfold parse_as. rewrite Hc. by intros [= <-].
Qed.

Lemma client_keeps_message cfg c addr data an :
  client_inv cfg c → client_admissible c (Cl_message addr data an) →
  client_keeps cfg (client_receive send_ok addr data an c).
Proof.
  intros Hc Ha. unfold client_receive. destruct data as [|byte p]; [done|].
  case_bool_decide as Hb.
  - destruct (check_and_cast wire_Connect_reply MT_Connect_reply addr (byte :: p))
      as [[msg|]|f] eqn:E; [|done|by apply check_and_cast_fault in E as ->].
    pose proof (client_keeps_reply cfg c msg Hc) as Hk. unfold mbind, M_bind.
    destruct (client_handle_connect_reply msg c) as [[[u c'] o]|f]; [|by subst f].
    destruct Hk as [Hc' Hcon]. pose proof (client_keeps_receive cfg c' addr (byte :: p) an Hc')
      as Hk. destruct (within_base _ c') as [[[? ?] ?]|f]; apply Hk; intros m Hm;
      rewrite (parse_connect_reply _ _ _ _ _ Hb E Hm); (split; [|done]);
      destruct Hc' as [_ ->]; rewrite Hcon; set_solver.
  - apply client_keeps_receive; [done|]. intros m Hm. specialize (Ha m Hm).
    destruct m; try done. exfalso. apply Hb.
    unfold parse_message in Hm. cbn [head mbind option_bind] in Hm.
    destruct (get_message_type byte) as [[]|]; try done;
      cbn [mbind option_bind] in Hm; by apply parse_as_Some in Hm as [? ?].
Qed.

Lemma client_keeps_operation cfg c op :
  client_inv cfg c → client_admissible c op → client_keeps cfg (run_client op c).
Proof.
  intros Hc Ha. destruct op as [state reason|addr data an|op].
  - destruct (client_keeps_state cfg c state reason Hc) as (c' & o & E & Hc' & _).
    cbn [run_client]. by rewrite E.
  - by apply client_keeps_message.
  - destruct Hc as [Hr Hc].
    assert (admissible (cl_base c) op) as Hop by by destruct op.
    pose proof (operation_step send_ok cfg _ op Hr Hop) as Hk. cbn [run_client].
    unfold within_base. destruct (run_operation send_ok op (cl_base c)) as [[[u b'] o]|f];
      [|done]. destruct Hk as [Hr' Hc']. split; [done|]. simpl. rewrite Hc', <-Hc.
    by destruct op.
Qed.

Lemma client_reachable_inv cfg c : client_reachable cfg c → client_inv cfg c.
Proof.
  induction 1 as [|c op c' o _ IH Ha Hr].
  - split; [apply reach_start|done].
  - pose proof (client_keeps_operation cfg c op IH Ha) as Hk. by rewrite Hr in Hk.
Qed.

(** ** Properties *)

(** The client endpoint and its binding agree on the connection. In every
    state that is reachable with a server that introduces itself first, the
    binding has the channel to the server exactly while [is_connected] holds, and
    no state change, message or runtime callback makes it lose track of a
    connection or a key. *)
Theorem client_connection_agrees cfg c op :
  client_reachable cfg c → client_admissible c op →
  b_connections (cl_base c) = (if cl_connected c then {[ client_id ]} else ∅) ∧
  match run_client op c with
  | Done (_, c', _) => client_reachable cfg c'
  | Fault f => f ≠ Connection_missing ∧ f ≠ Key_missing
  end.
Proof.
  intros Hr Ha. pose proof (client_reachable_inv _ _ Hr) as Hi. split; [apply Hi|].
  pose proof (client_keeps_operation cfg c op Hi Ha) as Hk.
  destruct (run_client op c) as [[[[] c'] o]|f] eqn:E; [by eapply client_step|done].
Qed.

Definition intentional (report : Channel_state * Stop_reason) : bool :=
  match report with
  | (kStopped, (kUserRequested | kPermission | kShutdown)) => true
  | _ => false
  end.

Lemma batch_runs cfg batch c :
  client_inv cfg c →
  ∃ c' o, forM batch (λ '(state, reason), on_state_change state reason) c = Done (tt, c', o) ∧
    client_inv cfg c' ∧ cl_stopped c' = cl_stopped c || existsb intentional batch.
Proof.
  revert c. induction batch as [|[state reason] batch IH]; intros c Hc; simpl.
  - exists c, []. by rewrite orb_false_r.
  - destruct (client_keeps_state cfg c state reason Hc) as (c1 & o1 & E1 & H1 & S1).
    destruct (IH c1 H1) as (c2 & o2 & E2 & H2 & S2).
    rewrite (bind_run _ _ _ _ _ _ E1), E2. eexists _, _. split; [reflexivity|].
    split; [done|]. rewrite S2, S1, <-orb_assoc. done.
Qed.

Lemma state_change_runs state reason c :
  ∃ c' o, on_state_change state reason c = Done (tt, c', o) ∧
    cl_stopped c' = cl_stopped c || intentional (state, reason).
Proof.
  destruct (remove_client_run client_id (cl_base c)) as [o E].
  destruct state; cbn [on_state_change]; try (rewrite modify_run; unfold within_base;
    cbn [cl_base cl_set_connected]; rewrite E); try destruct reason;
    eexists _, _; (split; [reflexivity|]); simpl; by rewrite ?orb_true_r, ?orb_false_r.
Qed.

Lemma stop_loop_returns reports c :
  ∃ c' o, stop_loop reports c =
    Done (cl_stopped c || existsb (existsb intentional) reports, c', o).
Proof.
  revert c. induction reports as [|batch reports IH]; intros c; simpl; rewrite reads_run.
  { destruct (cl_stopped c); eexists _, _; reflexivity. }
  destruct (cl_stopped c) eqn:Es; [by eexists _, _|]. rewrite <-Es.
  assert (∀ c, ∃ c' o, forM batch (λ '(state, reason), on_state_change state reason) c =
    Done (tt, c', o) ∧ cl_stopped c' = cl_stopped c || existsb intentional batch) as Hbatch.
  { clear. induction batch as [|[state reason] batch IH]; intros c; simpl.
    - exists c, []. by rewrite orb_false_r.
    - destruct (state_change_runs state reason c) as (c1 & o1 & E1 & S1).
      destruct (IH c1) as (c2 & o2 & E2 & S2). rewrite (bind_run _ _ _ _ _ _ E1), E2.
      eexists _, _. split; [reflexivity|]. by rewrite S2, S1, <-orb_assoc. }
  destruct (Hbatch c) as (c1 & o1 & E1 & S1). destruct (IH c1) as (c2 & o2 & E2).
  rewrite (bind_run _ _ _ tt c [Channel_stop] eq_refl), (bind_run _ _ _ _ _ _ E1), E2, S1.
  rewrite <-orb_assoc. by eexists _, _.
Qed.

Lemma destroy_base_runs b :
  ∃ b' o, (destroy_binding;; destroy_members) b = Done (tt, b', o).
Proof.
  assert (∃ b1 o1, destroy_binding b = Done (tt, b1, o1)) as (b1 & o1 & E1).
  { unfold destroy_binding. erewrite on_member_run by reflexivity.
    rewrite (bind_run _ _ _ _ _ _ (emit_all_run _ _)). by eexists _, _. }
  rewrite (bind_run _ _ _ _ _ _ E1). unfold destroy_members. rewrite reads_run, emit_all_run.
  by eexists _, _.
Qed.

(** The destructor never faults, and returns exactly if its loop ends. *)
Lemma destroy_endpoint_returns reports c :
  ∃ c' o, destroy_client_endpoint reports c =
    Done (cl_stopped c || existsb (existsb intentional) reports, c', o).
Proof.
  destruct (stop_loop_returns reports c) as (c1 & o1 & E1). unfold destroy_client_endpoint.
  rewrite (bind_run _ _ _ _ _ _ E1). destruct (_ || _); [|by eexists _, _].
  unfold mbind, M_bind, within_base. destruct (destroy_base_runs (cl_base c1)) as (b' & o & E).
  unfold mbind, M_bind in E. rewrite E. by eexists _, _.
Qed.

(** C34: the destructor of a client waits for the channel. Its loop never faults,
    and it ends exactly if the channel has reported, or reports while the loop
    waits, a stop that was requested, refused or caused by a shutdown. *)
Theorem stop_loop_ends cfg c reports :
  client_reachable cfg c →
  ∃ c' o, stop_loop reports c =
    Done (cl_stopped c || existsb (existsb intentional) reports, c', o).
Proof.
  intros Hi%client_reachable_inv. revert c Hi.
  induction reports as [|batch reports IH]; intros c Hc; simpl; rewrite reads_run.
  - destruct (cl_stopped c); eexists _, _; reflexivity.
  - destruct (cl_stopped c) eqn:Es; [by eexists _, _|].
    destruct (batch_runs cfg batch c Hc) as (c1 & o1 & E1 & H1 & S1).
    destruct (IH c1 H1) as (c2 & o2 & E2). exists c2, ([Channel_stop] ++ o1 ++ o2).
    rewrite (bind_run _ _ _ tt c [Channel_stop] eq_refl), (bind_run _ _ _ _ _ _ E1), E2.
    by rewrite S1, Es.
Qed.
End executions.

(** A client that has not been answered yet, and a server that has accepted its
    connection. *)
Definition demo_client : Client :=
  mkClient false false (make_binding demo_configuration) demo_elements (demo_id "c"%char)
    {| fsc_size := 0; fsc_data := [] |}.

Definition demo_runtime_request : Server_operation N :=
  Sv_runtime (Op_callback (On_request_service
    {| sii_id := "a"; sii_version := {| major := 1; minor := 0 |} |} demo_counts "x" true)).

(** The server can speak before it answers. It registers the channel of a
    client when the transport connects, so a request of the runtime is sent to a
    client that has not yet received its Connect_reply; the client registers its
    own channel only on that reply, but handles the request, and its runtime's
    report of the service finds no channel to answer on. *)
Theorem request_before_reply_faults :
  match @run_server N (granting_shm 4096) all_sent demo_runtime_request demo_server with
  | Done (_, _, [From_base (Send c m true)]) =>
    c = 0%N ∧
    @client_receive (granting_shm 4096) all_sent 0 (message_bytes m) demo_answers demo_client
      = Fault Connection_missing
  | _ => False
  end.
Proof. vm_compute. split; reflexivity. Qed.

(** ** Witnesses *)

Lemma client_connection_agrees_witness :
  let reply := message_bytes (Msg_Connect_reply {| cr_status := true |}) in
  ∃ c o, @run_client (granting_shm 4096) all_sent (Cl_message 0 reply demo_answers) demo_client
    = Done (tt, c, o) ∧ cl_connected c = true ∧
    @client_reachable (granting_shm 4096) all_sent demo_configuration c.
Proof.
  assert (@client_reachable (granting_shm 4096) all_sent demo_configuration demo_client) as Hr
    by apply client_init.
  destruct (@client_connection_agrees (granting_shm 4096) all_sent demo_configuration
    demo_client (Cl_message 0 (message_bytes (Msg_Connect_reply {| cr_status := true |}))
    demo_answers) Hr) as [_ Hs].
  - intros m Hm. vm_compute in Hm. injection Hm as <-. exact I.
  - vm_compute in Hs. eexists _, _. split; [reflexivity|]. split; [reflexivity|exact Hs].
Defined.

Lemma stop_loop_ends_witness : ∃ c o,
  stop_loop [[(kStopped, Other_reason); (kStarting, Other_reason)]; [(kStopped, kUserRequested)]]
    demo_client = Done (true, c, o).
Proof.
  exact (@stop_loop_ends (granting_shm 4096) all_sent demo_configuration demo_client
    [[(kStopped, Other_reason); (kStarting, Other_reason)]; [(kStopped, kUserRequested)]]
    (client_init _ _ _ _ _)).
Defined.
