(* ===== verification/Config.v ===== *)
(** * The gateway's configuration

    [src/score/config/mw_someip_config.fbs]: the tables of the configuration
    that both daemons and the serializer read, as the accessors that are
    generated from the schema present them. A member that is not required and
    is not a scalar can be a null pointer: an [option]. *)

From stdpp Require Import base numbers list gmap strings.
From S2P Require Import Prelude.
From S2P Require Import IpcTypes.

(** ** Tables *)

Record NullSerializerConfig : Type := { max_message_size : N }.

Record Event : Type := {
  event_id : N;
  event_name : string;
  serialization_config : option NullSerializerConfig;
  eventgroup_ids : option (list N);
}.

Record Method : Type := {
  method_id : N;
  method_name : string;
  request_serialization_config : option NullSerializerConfig;
  response_serialization_config : option NullSerializerConfig;
}.

Record ServiceInstance : Type := {
  instance_specifier : string;
  instance_id : N;
}.

Record ServiceType : Type := {
  service_type_name : option string;
  st_service_id : N;
  service_version_major : N;
  service_version_minor : N;
  events : option (list Event);
  methods : option (list Method);
  local_service_instances : option (list ServiceInstance);
  remote_service_instances : option (list ServiceInstance);
}.

Record Root : Type := { service_types : list ServiceType }.

#[export] Instance NullSerializerConfig_eq_dec : EqDecision NullSerializerConfig.
Proof. solve_decision. Defined.
#[export] Instance Event_eq_dec : EqDecision Event.
Proof. solve_decision. Defined.
#[export] Instance ServiceInstance_eq_dec : EqDecision ServiceInstance.
Proof. solve_decision. Defined.

(** The widths of the scalars. *)
Definition event_ok (e : Event) : Prop :=
  fits 16 (event_id e) ∧
  ∀ c, serialization_config e = Some c → fits 32 (max_message_size c).

(** ** Access *)

(** [p->x()] where [p] may be null. *)
Definition deref {A} (p : option A) : outcome A :=
  match p with Some a => Done a | None => Fault Null_dereference end.

(** The socom identifier and instance both daemons derive from a service type:
    the name, the major version, and the low half of the minor version. *)
Definition service_interface (t : ServiceType) : outcome Service_interface_identifier :=
  name ← deref (service_type_name t);
  mret {| sii_id := name;
          sii_version := {| major := service_version_major t;
                            minor := wrap16 (service_version_minor t) |} |}.

Definition service_instance (t : ServiceType) : outcome Service_instance :=
  deref (service_type_name t).

(** ** Constants ([src/score/someip/constants.h]) *)

Definition kSomeipFullHeaderSize : N := 16.
Definition kMaxMessageSize : N := 1500.
Definition kAnyInstance : N := 65535.
Definition kMaxSampleCount : N := 10.
Definition kMaxIpcMessageSize : N := 32768.

(** ** An example configuration *)

Definition demo_event_config : Event :=
  {| event_id := 32769; event_name := "E"; serialization_config := Some {| max_message_size := 8 |};
     eventgroup_ids := Some [] |}.
Definition demo_service_type : ServiceType :=
  {| service_type_name := Some "S"; st_service_id := 4660; service_version_major := 1;
     service_version_minor := 0; events := Some [demo_event_config]; methods := None;
     local_service_instances := Some [{| instance_specifier := "s"; instance_id := 7 |}];
     remote_service_instances := None |}.
Definition demo_root : Root := {| service_types := [demo_service_type] |}.
