(* ===== verification/Serializer.v ===== *)
(** * The null serializer

    [src/score/serializer/serializer.h], [null_serializer.cpp] and
    [pre_serialized_data.h]: the serializer plugin that copies messages which
    the application has serialized itself. A serializer is a pointer to the
    configuration of an event or method; the plugin keeps the configuration it
    was initialised with in a static variable, which is the [config] argument
    of the functions here. Opening and parsing the file is the environment's:
    its result is an argument of [score_com_serializer_init]. *)

From stdpp Require Import base numbers list gmap strings.
From S2P Require Import Prelude.
From S2P Require Import IpcTypes.
From S2P Require Import Config.

(** ** Data *)

Inductive score_com_serializer_result : Type :=
  | result_ok
  | result_general_failure
  | result_serializer_nonexistent
  | result_serialization_failure
  | result_deserialization_failure.

Inductive score_com_serializer_element_type : Type :=
  | element_type_event
  | element_type_field
  | element_type_method_call
  | element_type_method_response.

#[export] Instance score_com_serializer_result_eq_dec : EqDecision score_com_serializer_result.
Proof. solve_decision. Defined.

(** [const struct score_com_serializer*]. *)
Abbreviation Serializer := NullSerializerConfig.

(** [PreSerializedDataView]: the size in use, and the bytes of the object from
    [data] to its end, however many there are. *)
Record PreSerializedData : Type := { psd_size : N; psd_data : list N }.

(** [alignof(PreSerializedData<0>)] and [sizeof(PreSerializedData<0>)]: the
    maximal alignment, and a [size_t] padded to it. *)
Definition alignof_PreSerializedData : N := 16.
Definition sizeof_PreSerializedData : N := 16.

Definition get_size_of_pre_serialized_data (MaxMessageSize : N) : N :=
  let sizeof_data := (wrap64 (MaxMessageSize + alignof_PreSerializedData - 1)
    / alignof_PreSerializedData * alignof_PreSerializedData)%N in
  wrap64 (sizeof_PreSerializedData + sizeof_data).

(** ** Operations *)

(** Serialize into the buffer: the result, the buffer afterwards, and the
    number of bytes written if it was reported. *)
Definition score_com_serializer_serialize (buffer : option (list N))
    (object : option PreSerializedData) :
    outcome (score_com_serializer_result * list N * option N) :=
  match buffer, object with
  | Some buffer, Some object =>
    let message_size := psd_size object in
    if (N.of_nat (length buffer) <? message_size)%N then
      mret (result_serialization_failure, buffer, None)
    else
      src ← read_bytes (psd_data object) message_size;
      buffer ← memcpy buffer 0 src;
      mret (result_ok, buffer, Some message_size)
  | _, _ => mret (result_general_failure, default [] buffer, None)
  end.

(** Deserialize the buffer into the object: the result, and the object. *)
Definition score_com_serializer_deserialize (serializer : option Serializer)
    (buffer : option (list N)) (object : option PreSerializedData) :
    outcome (score_com_serializer_result * option PreSerializedData) :=
  match serializer, buffer, object with
  | Some serializer, Some buffer, Some object =>
    if (max_message_size serializer <? N.of_nat (length buffer))%N then
      mret (result_deserialization_failure, Some object)
    else
      data ← memcpy (psd_data object) 0 buffer;
      mret (result_ok, Some {| psd_size := N.of_nat (length buffer); psd_data := data |})
  | _, _, _ => mret (result_general_failure, object)
  end.

Definition score_com_serializer_get_max_serialized_size (serializer : option Serializer) : N :=
  match serializer with None => 0%N | Some s => max_message_size s end.

Definition score_com_serializer_get_sizeof_type (serializer : option Serializer) : N :=
  match serializer with
  | None => 0%N
  | Some s => get_size_of_pre_serialized_data (max_message_size s)
  end.

Definition score_com_serializer_get_alignof_type (serializer : option Serializer) : N :=
  alignof_PreSerializedData.

(** The two loops over the elements of a service type. *)
Definition find_event (name : string) (l : list Event) : option Event :=
  snd <$> list_find (λ e, event_name e = name) l.
Definition find_method (name : string) (l : list Method) : option Method :=
  snd <$> list_find (λ m, method_name m = name) l.

(** The body of the loop over the service types, for the one that matches. *)
Definition lookup_element (t : ServiceType) (element_type : score_com_serializer_element_type)
    (element_name : string) : option NullSerializerConfig :=
  match element_type with
  | element_type_event =>
    l ← events t; e ← find_event element_name l; serialization_config e
  | element_type_method_call =>
    l ← methods t; m ← find_method element_name l; request_serialization_config m
  | element_type_method_response =>
    l ← methods t; m ← find_method element_name l; response_serialization_config m
  | element_type_field => None
  end.

(** The first service type with the name decides. *)
Definition lookup_serialization_config (config : option Root) (name : string)
    (element_type : score_com_serializer_element_type) (element_name : string) :
    option NullSerializerConfig :=
  root ← config;
  t ← snd <$> list_find (λ t, service_type_name t = Some name) (service_types root);
  lookup_element t element_type element_name.

(** [score_com_serializer_get] for a non-null result pointer. *)
Definition score_com_serializer_get (config : option Root) (name : string)
    (element_type : score_com_serializer_element_type) (element_name : string) :
    score_com_serializer_result * option Serializer :=
  match lookup_serialization_config config name element_type element_name with
  | None => (result_serializer_nonexistent, None)
  | Some c => (result_ok, Some c)
  end.

(** [score_com_serializer_init]: what the file is ([None]: it cannot be opened;
    its length, and its contents as a configuration). *)
Definition score_com_serializer_init (file : option (N * Root)) (config : option Root) :
    score_com_serializer_result * option Root :=
  match file with
  | None => (result_serializer_nonexistent, config)
  | Some (length, root) =>
    if (length =? 0)%N then (result_serializer_nonexistent, config)
    else (result_ok, Some root)
  end.

Definition score_com_serializer_deinit (config : option Root) :
    score_com_serializer_result * option Root := (result_ok, None).

(** ** Lemmas *)

Lemma memcpy_front dst src :
  length src ≤ length dst → memcpy dst 0 src = Done (src ++ drop (length src) dst).
Proof.
  intros Hl. unfold memcpy. rewrite (proj2 (N.leb_le _ _)) by lia. done.
Qed.

Lemma read_bytes_prefix src rest :
  read_bytes (src ++ rest) (N.of_nat (length src)) = Done src.
Proof.
  unfold read_bytes. rewrite length_app, (proj2 (N.leb_le _ _)) by lia.
  by rewrite Nat2N.id, take_app_length.
Qed.

(** A well-formed object: the size does not exceed the array. *)
Definition psd_ok (o : PreSerializedData) : Prop :=
  (psd_size o ≤ N.of_nat (length (psd_data o)))%N.

(** The message an object holds. *)
Definition psd_message (o : PreSerializedData) : list N :=
  take (N.to_nat (psd_size o)) (psd_data o).

Lemma length_psd_message o : psd_ok o → N.of_nat (length (psd_message o)) = psd_size o.
Proof. unfold psd_ok, psd_message. intros Ho. rewrite length_take. lia. Qed.

Lemma psd_split o : psd_ok o →
  psd_data o = psd_message o ++ drop (N.to_nat (psd_size o)) (psd_data o).
Proof. intros _. unfold psd_message. by rewrite take_drop. Qed.

Lemma psd_of_message m rest :
  psd_ok {| psd_size := N.of_nat (length m); psd_data := m ++ rest |} ∧
  psd_message {| psd_size := N.of_nat (length m); psd_data := m ++ rest |} = m.
Proof.
  unfold psd_ok, psd_message. simpl. rewrite length_app, Nat2N.id, take_app_length.
  split; [lia|done].
Qed.

(** Serializing a well-formed object writes its message to the front of the
    buffer, or reports that it does not fit. *)
Lemma serialize_spec buffer o :
  psd_ok o →
  score_com_serializer_serialize (Some buffer) (Some o) =
    if decide (length (psd_message o) ≤ length buffer)
    then Done (result_ok, psd_message o ++ drop (length (psd_message o)) buffer,
               Some (N.of_nat (length (psd_message o))))
    else Done (result_serialization_failure, buffer, None).
Proof.
  intros Ho. pose proof (length_psd_message o Ho) as Hl.
  unfold score_com_serializer_serialize. case_decide as Hd.
  - rewrite (proj2 (N.ltb_ge _ _)) by lia. rewrite (psd_split o Ho) at 1.
    rewrite <-Hl, read_bytes_prefix. cbn [mbind outcome_bind].
    by rewrite memcpy_front.
  - by rewrite (proj2 (N.ltb_lt _ _)) by lia.
Qed.

Lemma deserialize_spec s buffer o :
  (max_message_size s ≤ N.of_nat (length (psd_data o)))%N →
  score_com_serializer_deserialize (Some s) (Some buffer) (Some o) =
    if decide (N.of_nat (length buffer) ≤ max_message_size s)%N
    then Done (result_ok, Some {| psd_size := N.of_nat (length buffer);
                                  psd_data := buffer ++ drop (length buffer) (psd_data o) |})
    else Done (result_deserialization_failure, Some o).
Proof.
  intros Hc. unfold score_com_serializer_deserialize. case_decide as Hd.
  - rewrite (proj2 (N.ltb_ge _ _)) by lia. rewrite memcpy_front by lia. done.
  - by rewrite (proj2 (N.ltb_lt _ _)) by lia.
Qed.

(** The object that [get_size_of_pre_serialized_data] asks for has room for a
    message of the maximal size. *)
Lemma pre_serialized_size m :
  fits 32 m → (16 + m ≤ get_size_of_pre_serialized_data m < 32 + m)%N.
Proof.
  unfold fits, get_size_of_pre_serialized_data, alignof_PreSerializedData,
    sizeof_PreSerializedData. intros Hm.
  rewrite (wrap_small 64 (m + 16 - 1)) by (unfold fits; lia).
  replace (m + 16 - 1)%N with (m + 15)%N by lia.
  pose proof (N.div_mod (m + 15) 16 ltac:(done)) as Hd.
  pose proof (N.mod_lt (m + 15) 16 ltac:(done)) as Hm'.
  set (q := ((m + 15) / 16)%N) in *. set (r := ((m + 15) mod 16)%N) in *. clearbody q r.
  rewrite wrap_small by (unfold fits; lia). lia.
Qed.

(** ** Properties *)

(** The null serializer is lossless. A well-formed sample that fits the
    buffer is written to the front of it with the reported length, and
    deserializing exactly these bytes into an object of the size the serializer
    asks for yields a sample with the same message; messages beyond the
    configured maximum are refused. *)
Theorem serializer_roundtrip s buffer o target :
  psd_ok o → length (psd_message o) ≤ length buffer → fits 32 (max_message_size s) →
  (16 + N.of_nat (length (psd_data target)) =
    score_com_serializer_get_sizeof_type (Some s))%N →
  ∃ written buffer',
    score_com_serializer_serialize (Some buffer) (Some o) =
      Done (result_ok, buffer', Some written) ∧ length buffer' = length buffer ∧
    if decide (psd_size o ≤ max_message_size s)%N then
      ∃ o', score_com_serializer_deserialize (Some s)
        (Some (take (N.to_nat written) buffer')) (Some target) = Done (result_ok, Some o') ∧
        psd_ok o' ∧ psd_message o' = psd_message o
    else score_com_serializer_deserialize (Some s)
      (Some (take (N.to_nat written) buffer')) (Some target)
      = Done (result_deserialization_failure, Some target).
Proof.
  intros Ho Hb Hs Ht. rewrite serialize_spec, decide_True by done. eexists _, _.
  split; [reflexivity|]. split; [rewrite length_app, length_drop; lia|].
  rewrite Nat2N.id, take_app_length, deserialize_spec.
  - pose proof (length_psd_message o Ho) as Hl.
    case_decide; case_decide; [|lia|lia|done].
    eexists. split; [done|]. apply psd_of_message.
  - simpl in Ht. pose proof (pre_serialized_size _ Hs). lia.
Qed.

Lemma serializer_roundtrip_witness : ∃ o',
  score_com_serializer_deserialize (Some {| max_message_size := 4 |}) (Some [7; 8]%N)
    (Some {| psd_size := 0; psd_data := replicate 16 0%N |}) = Done (result_ok, Some o') ∧
  psd_message o' = [7; 8]%N.
Proof.
  destruct (serializer_roundtrip {| max_message_size := 4 |} [1; 2; 3]%N
    {| psd_size := 2; psd_data := [7; 8; 9]%N |}
    {| psd_size := 0; psd_data := replicate 16 0%N |})
    as (w & b' & E & _ & H); [done|simpl; lia|done|done|].
  injection E as <- <-. rewrite decide_True in H by done.
  destruct H as (o' & E & _ & Hm). exists o'. split; [exact E|exact Hm].
Defined.
