(* ===== verification/SomeipMessage.v ===== *)
(** * SOME/IP messages in a payload

    What gatewayd ([src/score/gatewayd/impl/local_service_instance.cpp]) and
    someipd ([src/score/someipd/impl/remote_network_service.cpp]) share: a
    payload is filled byte by byte at a running position, [payload.wdata()[pos++]
    = ...], with the sixteen bytes of a SOME/IP header in front. The format of
    the header is the one of the SOME/IP protocol specification, which
    [parse_header] states. *)

From stdpp Require Import base numbers list.
From S2P Require Import Prelude.

(** ** Writing at a position *)

(** The position and the writable data of a payload. *)
Abbreviation Cursor := (N * list N)%type (only parsing).
Abbreviation WM := (M Cursor Empty_set).

(** [payload.wdata()[pos++] = static_cast<std::byte>(x)]. *)
Definition put (x : N) : WM unit := λ '(pos, wdata),
  match memcpy wdata pos [wrap8 x] with
  | Done wdata => Done (tt, (pos + 1, wdata)%N, [])
  | Fault f => Fault f
  end.

(** [pos += n]. *)
Definition skip (n : N) : WM unit := λ '(pos, wdata), Done (tt, (pos + n, wdata)%N, []).

(** The two writes of a sixteen-bit value, high byte first. *)
Definition put_u16 (x : N) : WM unit := put (N.shiftr x 8);; put (N.land x 255).

(** The four writes of a thirty-two-bit value. *)
Definition put_u32 (x : N) : WM unit :=
  put (N.land (N.shiftr x 24) 255);; put (N.land (N.shiftr x 16) 255);;
  put (N.land (N.shiftr x 8) 255);; put (N.land x 255).

(** [payload.shrink(size)] on a payload without header and lead: refused when
    the size exceeds the data. *)
Definition shrink_bytes (wdata : list N) (size : N) : list N :=
  if (size <=? N.of_nat (length wdata))%N then take (N.to_nat size) wdata else wdata.

(** ** The format *)

Record Someip_header : Type := {
  h_service_id : N;
  h_method_id : N;
  h_length : N;
  h_client_id : N;
  h_session_id : N;
  h_protocol_version : N;
  h_interface_version : N;
  h_message_type : N;
  h_return_code : N;
}.

Definition be16 (a b : N) : N := (256 * a + b)%N.

(** A message split into its header and its payload. *)
Definition parse_header (data : list N) : option (Someip_header * list N) :=
  match data with
  | s1 :: s0 :: m1 :: m0 :: l3 :: l2 :: l1 :: l0 :: c1 :: c0 :: n1 :: n0 ::
      pv :: iv :: mt :: rc :: payload =>
    Some ({| h_service_id := be16 s1 s0; h_method_id := be16 m1 m0;
             h_length := (65536 * be16 l3 l2 + be16 l1 l0)%N;
             h_client_id := be16 c1 c0; h_session_id := be16 n1 n0;
             h_protocol_version := pv; h_interface_version := iv;
             h_message_type := mt; h_return_code := rc |}, payload)
  | _ => None
  end.

(** ** Lemmas *)

(** One step of writing: the part written so far, the byte to be overwritten
    and the rest. *)
Lemma put_run x l d r :
  put x (N.of_nat (length l), l ++ d :: r) =
  Done (tt, (N.of_nat (length (l ++ [wrap8 x])), (l ++ [wrap8 x]) ++ r), []).
Proof.
  unfold put, memcpy. rewrite !length_app. cbn [length].
  rewrite (proj2 (N.leb_le _ _)) by lia.
  rewrite Nat2N.id, take_app_length, drop_app_ge by lia.
  replace (length l + 1 - length l) with 1 by lia. rewrite <-(assoc_L (++)).
  by replace (N.of_nat (length l) + 1)%N with (N.of_nat (length l + 1)) by lia.
Qed.

Lemma put_step {B} x (k : unit → WM B) l d r :
  (put x ≫= k) (N.of_nat (length l), l ++ d :: r) =
  k tt (N.of_nat (length (l ++ [wrap8 x])), (l ++ [wrap8 x]) ++ r).
Proof. apply bind_silent, put_run. Qed.

Lemma put_u16_step {B} x (k : unit → WM B) l d1 d2 r :
  (put_u16 x ≫= k) (N.of_nat (length l), l ++ d1 :: d2 :: r) =
  let l' := (l ++ [wrap8 (N.shiftr x 8)]) ++ [wrap8 (N.land x 255)] in
  k tt (N.of_nat (length l'), l' ++ r).
Proof. apply bind_silent. unfold put_u16. rewrite put_step. apply put_run. Qed.

Lemma put_u32_step {B} x (k : unit → WM B) l d1 d2 d3 d4 r :
  (put_u32 x ≫= k) (N.of_nat (length l), l ++ d1 :: d2 :: d3 :: d4 :: r) =
  let l' := (((l ++ [wrap8 (N.land (N.shiftr x 24) 255)]) ++
    [wrap8 (N.land (N.shiftr x 16) 255)]) ++ [wrap8 (N.land (N.shiftr x 8) 255)]) ++
    [wrap8 (N.land x 255)] in
  k tt (N.of_nat (length l'), l' ++ r).
Proof. apply bind_silent. unfold put_u32. rewrite !put_step. apply put_run. Qed.

Lemma skip_step {B} (k : unit → WM B) l d1 d2 d3 d4 r :
  (skip 4 ≫= k) (N.of_nat (length l), l ++ d1 :: d2 :: d3 :: d4 :: r) =
  let l' := l ++ [d1; d2; d3; d4] in k tt (N.of_nat (length l'), l' ++ r).
Proof.
  apply bind_silent. unfold skip. rewrite length_app, <-(assoc_L (++)). cbn [length app].
  by replace (N.of_nat (length l) + 4)%N with (N.of_nat (length l + 4)) by lia.
Qed.

(** A buffer with room for a header. *)
Lemma header_room (buffer : list N) :
  16 ≤ length buffer →
  ∃ d0 d1 d2 d3 d4 d5 d6 d7 d8 d9 d10 d11 d12 d13 d14 d15,
    buffer = d0 :: d1 :: d2 :: d3 :: d4 :: d5 :: d6 :: d7 :: d8 :: d9 :: d10 :: d11 ::
      d12 :: d13 :: d14 :: d15 :: drop 16 buffer.
Proof.
  intros Hl. do 16 (destruct buffer as [|? buffer]; [simpl in Hl; lia|]).
  by eexists _, _, _, _, _, _, _, _, _, _, _, _, _, _, _, _.
Qed.

Lemma wrap8_shiftr x : fits 16 x → wrap8 (N.shiftr x 8) = (x / 256)%N.
Proof.
  intros Hx. rewrite N.shiftr_div_pow2. apply wrap_small. unfold fits in *.
  apply N.Div0.div_lt_upper_bound. lia.
Qed.

Lemma wrap8_land x : wrap8 (N.land x 255) = (x mod 256)%N.
Proof.
  change 255%N with (N.ones 8). rewrite N.land_ones. apply wrap_wrap.
Qed.

Lemma be16_split x : fits 16 x → be16 (x / 256) (x mod 256) = x.
Proof. intros _. unfold be16. symmetry. apply N.div_mod'. Qed.

Lemma be32_split x :
  fits 32 x →
  (65536 * be16 (wrap8 (N.land (N.shiftr x 24) 255)) (wrap8 (N.land (N.shiftr x 16) 255)) +
    be16 (wrap8 (N.land (N.shiftr x 8) 255)) (wrap8 (N.land x 255)))%N = x.
Proof.
  unfold fits, be16. intros Hx. rewrite !wrap8_land, !N.shiftr_div_pow2.
  change (2 ^ 24)%N with (256 * (256 * 256))%N. change (2 ^ 16)%N with (256 * 256)%N.
  change (2 ^ 8)%N with 256%N. rewrite <-!N.Div0.div_div.
  pose proof (N.div_mod' x 256) as H1.
  pose proof (N.div_mod' (x / 256) 256) as H2.
  pose proof (N.div_mod' (x / 256 / 256) 256) as H3.
  assert (x / 256 / 256 / 256 < 256)%N as H4.
  { rewrite !N.Div0.div_div. apply N.Div0.div_lt_upper_bound. lia. }
  rewrite (N.mod_small _ _ H4). lia.
Qed.

Lemma shrink_bytes_prefix l r n :
  n = N.of_nat (length l) → shrink_bytes (l ++ r) n = l.
Proof.
  intros ->. unfold shrink_bytes. rewrite length_app, (proj2 (N.leb_le _ _)) by lia.
  by rewrite Nat2N.id, take_app_length.
Qed.
