(* ===== verification/Gatewayd.v ===== *)
(** * gatewayd

    [src/score/gatewayd/impl/local_service_instance.cpp],
    [remote_service_instance.cpp] and [main.cpp]: the daemon that connects local
    applications (through the proxies and skeletons of [score::mw::com]) with
    someipd (through the connectors of socom).

    The middleware and the runtime are not part of these files. What the code
    asks of them are arguments: the names of the events a proxy or skeleton has,
    whether an offer or the creation of a connector succeeds, the slot an
    allocation yields, the samples. Logging is left out. *)

From stdpp Require Import base numbers list gmap strings.
From S2P Require Import Prelude.
From S2P Require Import IpcTypes.
From S2P Require Import SlotManager.
From S2P Require Import Config.
From S2P Require Import Serializer.
From S2P Require Import SomeipMessage.

(** ** Data *)

(** The errors the factory functions return. *)
Inductive Gateway_error : Type :=
  | kBindingFailure
  | kInvalidConfiguration
  | runtime_error_request_rejected.

(** [LocalServiceInstance::EventContext]. *)
Record Local_event_context : Type := {
  lec_config : Event;
  lec_serializer : Serializer;
  lec_socom_event_id : N;
}.

Record LocalServiceInstance : Type := {
  lsi_service_type_config : ServiceType;
  lsi_event_contexts : gmap string Local_event_context;
}.

(** [RemoteServiceInstance::EventContext]; the pointers are null in a context
    that the map's [operator[]] has made. *)
Record Remote_event_context : Type := {
  rec_config : option Event;
  rec_serializer : option Serializer;
}.

Record RemoteServiceInstance : Type := {
  rsi_service_type_config : ServiceType;
  rsi_skeleton_events : gset string;
  rsi_event_contexts : gmap N Remote_event_context;
}.

(** What the instances ask of the runtime and the middleware. *)
Inductive Gateway_action : Type :=
  | Make_server (interface : Service_interface_identifier) (instance : Service_instance)
      (num_events : N)
  | Make_client (interface : Service_interface_identifier) (instance : Service_instance)
      (num_events : N)
  | Set_receive_handler (event : string) (context : Local_event_context)
  | Subscribe_samples (event : string) (max_samples : N)
  | Subscribe_socom (event_id : N)
  | Update_socom (event_id : N) (payload : list N)
  | Send_sample (event : string) (sample : PreSerializedData)
  | Start_find_service (instance_specifier : string)
  | Stop_find_service.

Section gatewayd.
(** The configuration the serializer was initialised with. *)
Context (config : option Root).

Definition get_serializer (service_type_name event_name : string) : option Serializer :=
  match score_com_serializer_get config service_type_name element_type_event event_name with
  | (result_ok, s) => s
  | _ => None
  end.

(** ** LocalServiceInstance *)

(** [std::map::emplace]: an existing entry stays. *)
Definition emplace {K A} `{Countable K} (k : K) (a : A) (m : gmap K A) : gmap K A :=
  match m !! k with Some _ => m | None => <[k := a]> m end.

(** The loop of [Create] over the configured events. *)
Fixpoint local_events (name : string) (proxy_events : gset string) (l : list Event)
    (socom_event_id : N) (contexts : gmap string Local_event_context) :
    gmap string Local_event_context * list Gateway_action :=
  match l with
  | [] => (contexts, [])
  | e :: l' =>
    let next := wrap16 (socom_event_id + 1) in
    if decide (event_name e ∈ proxy_events) then
      match get_serializer name (event_name e) with
      | None => local_events name proxy_events l' next contexts
      | Some s =>
        let context := {| lec_config := e; lec_serializer := s;
                          lec_socom_event_id := socom_event_id |} in
        let contexts := emplace (event_name e) context contexts in
        let '(contexts', actions) := local_events name proxy_events l' next contexts in
        (contexts',
         Set_receive_handler (event_name e) (default context (contexts !! event_name e)) ::
         Subscribe_samples (event_name e) kMaxSampleCount :: actions)
      end
    else local_events name proxy_events l' next contexts
  end.

(** [LocalServiceInstance::Create]. *)
Definition local_create (t : ServiceType) (proxy_events : gset string) (connector_ok : bool) :
    outcome (Result Gateway_error LocalServiceInstance * list Gateway_action) :=
  iface ← service_interface t;
  inst ← service_instance t;
  l ← deref (events t);
  let make := Make_server iface inst (wrap16 (N.of_nat (length l))) in
  if connector_ok then
    let '(contexts, actions) := local_events (sii_id iface) proxy_events l 0 ∅ in
    mret (Ok {| lsi_service_type_config := t; lsi_event_contexts := contexts |},
          make :: actions)
  else mret (Err runtime_error_request_rejected, [make]).

(** The header of an event: the length is someipd's to set. *)
Definition write_event_header (t : ServiceType) (e : Event) : WM unit :=
  put_u16 (st_service_id t);;
  put_u16 (event_id e);;
  skip 4;;
  put_u16 65535;;                      (* client id *)
  put_u16 0;;                          (* session id *)
  put 1;;                              (* protocol version *)
  put (service_version_major t);;      (* interface version *)
  put 2;;                              (* NOTIFICATION *)
  put 0.                               (* return code *)

(** The callback of [GetNewSamples]: [slot] is the writable data of the
    allocated payload, if the allocation succeeded. *)
Definition on_sample (i : LocalServiceInstance) (context : Local_event_context)
    (slot : option (list N)) (sample : option PreSerializedData) :
    outcome (list Gateway_action) :=
  match slot with
  | None => mret []
  | Some wdata =>
    match write_event_header (lsi_service_type_config i) (lec_config context) (0%N, wdata) with
    | Fault f => Fault f
    | Done (_, (pos, wdata), _) =>
      '(r, buffer, written) ←
        score_com_serializer_serialize (Some (drop (N.to_nat pos) wdata)) sample;
      if decide (r = result_ok) then
        let pos' := (pos + default 0 written)%N in
        mret [Update_socom (lec_socom_event_id context)
                (shrink_bytes (take (N.to_nat pos) wdata ++ buffer) pos')]
      else mret []
    end
  end.

(** [CreateAsyncLocalServices]. *)
Definition create_async_local_services (service_instance_config : option ServiceInstance) :
    Result Gateway_error unit * list Gateway_action :=
  match service_instance_config with
  | None => (Err kInvalidConfiguration, [])
  | Some i => (Ok tt, [Start_find_service (instance_specifier i)])
  end.

(** The callback it passes to the search: how many handles were found, whether
    the proxy for the first could be created and which events it has. *)
Definition on_service_found (t : ServiceType) (handles : nat) (proxy : option (gset string))
    (connector_ok : bool) (instances : list LocalServiceInstance) :
    outcome (list LocalServiceInstance * list Gateway_action) :=
  if (handles =? 0) then Fault Out_of_bounds
  else
    match proxy with
    | None => mret (instances, [])
    | Some proxy_events =>
      '(r, actions) ← local_create t proxy_events connector_ok;
      match r with
      | Err _ => mret (instances, actions)
      | Ok i => mret (instances ++ [i], actions ++ [Stop_find_service])
      end
    end.

(** ** RemoteServiceInstance *)

(** The loop of [Create] over the configured events. *)
Fixpoint remote_events (name : string) (skeleton_events : gset string) (l : list Event)
    (socom_event_id : N) (contexts : gmap N Remote_event_context) :
    gmap N Remote_event_context :=
  match l with
  | [] => contexts
  | e :: l' =>
    let next := wrap16 (socom_event_id + 1) in
    if decide (event_name e ∈ skeleton_events) then
      match get_serializer name (event_name e) with
      | None => remote_events name skeleton_events l' next contexts
      | Some s =>
        remote_events name skeleton_events l' next
          (emplace socom_event_id
             {| rec_config := Some e; rec_serializer := Some s |} contexts)
      end
    else remote_events name skeleton_events l' next contexts
  end.

(** [RemoteServiceInstance::Create]. *)
Definition remote_create (t : ServiceType) (skeleton_events : gset string)
    (offer_ok connector_ok : bool) :
    outcome (Result Gateway_error RemoteServiceInstance * list Gateway_action) :=
  if negb offer_ok then mret (Err kBindingFailure, [])
  else
    name ← deref (service_type_name t);
    l ← deref (events t);
    iface ← service_interface t;
    inst ← service_instance t;
    let make := Make_client iface inst (wrap16 (N.of_nat (length l))) in
    if connector_ok then
      mret (Ok {| rsi_service_type_config := t; rsi_skeleton_events := skeleton_events;
                  rsi_event_contexts := remote_events name skeleton_events l 0 ∅ |}, [make])
    else mret (Err runtime_error_request_rejected, [make]).

(** The callback [on_service_state_change]: has [Create] stored the connector yet? *)
Definition remote_state_change (i : RemoteServiceInstance) (client_connector available : bool) :
    outcome (list Gateway_action) :=
  if available then
    l ← deref (events (rsi_service_type_config i));
    if client_connector || (length l =? 0) then
      mret ((λ n, Subscribe_socom (wrap16 (N.of_nat n))) <$> seq 0 (length l))
    else Fault Null_dereference
  else mret [].

(** [forward_event]: the sample an allocation yields, if it succeeds. The map
    is changed by the lookup. *)
Definition forward_event (i : RemoteServiceInstance) (event_id : N) (payload : list N)
    (allocated : option PreSerializedData) :
    outcome (RemoteServiceInstance * list Gateway_action) :=
  let contexts := emplace event_id {| rec_config := None; rec_serializer := None |}
                    (rsi_event_contexts i) in
  let i := {| rsi_service_type_config := rsi_service_type_config i;
              rsi_skeleton_events := rsi_skeleton_events i; rsi_event_contexts := contexts |} in
  context ← deref (contexts !! event_id);
  e ← deref (rec_config context);
  if decide (event_name e ∈ rsi_skeleton_events i) then
    if (kSomeipFullHeaderSize <=? N.of_nat (length payload))%N then
      let message := drop (N.to_nat kSomeipFullHeaderSize) payload in
      match allocated with
      | None => mret (i, [])
      | Some sample =>
        '(r, sample) ← score_com_serializer_deserialize (rec_serializer context)
          (Some message) (Some sample);
        if decide (r = result_ok) then
          sample ← deref sample;
          mret (i, [Send_sample (event_name e) sample])
        else mret (i, [])
      end
    else Fault Out_of_bounds
  else mret (i, []).

(** The part of [CreateAsyncRemoteService] that describes the events: names,
    sizes and alignments. *)
Fixpoint event_infos (name : string) (l : list Event) :
    Result Gateway_error (list (string * N * N)) :=
  match l with
  | [] => Ok []
  | e :: l' =>
    match get_serializer name (event_name e) with
    | None => Err kInvalidConfiguration
    | Some s =>
      match event_infos name l' with
      | Err err => Err err
      | Ok infos =>
        Ok ((event_name e, score_com_serializer_get_sizeof_type (Some s),
             score_com_serializer_get_alignof_type (Some s)) :: infos)
      end
    end
  end.

(** [CreateAsyncRemoteService]: [skeleton_ok] and the two others answer for the
    middleware. The skeleton that is created has the events it was asked for. *)
Definition create_async_remote_service (service_instance_config : option ServiceInstance)
    (t : ServiceType) (skeleton_ok offer_ok connector_ok : bool) :
    outcome (Result Gateway_error RemoteServiceInstance * list Gateway_action) :=
  match service_instance_config with
  | None => mret (Err kInvalidConfiguration, [])
  | Some _ =>
    l ← deref (events t);
    name ← deref (service_type_name t);
    match event_infos name l with
    | Err e => mret (Err e, [])
    | Ok infos =>
      if skeleton_ok then
        '(r, actions) ← remote_create t (list_to_set (infos.*1.*1)) offer_ok connector_ok;
        match r with
        | Ok i => mret (Ok i, actions)
        | Err _ => mret (Err kBindingFailure, actions)
        end
      else mret (Err kInvalidConfiguration, [])
    end
  end.

(** ** main *)

(** The loop of [event_slot_size]: [None] when a size is unknown. *)
Fixpoint largest_event (name : string) (l : list Event) (largest : N) : option N :=
  match l with
  | [] => Some largest
  | e :: l' =>
    match get_serializer name (event_name e) with
    | None => None
    | Some s =>
      let size := score_com_serializer_get_max_serialized_size (Some s) in
      if (size =? 0)%N then None else largest_event name l' (N.max largest size)
    end
  end.

Definition event_slot_size (t : ServiceType) : outcome N :=
  match events t with
  | None | Some [] => mret kMaxMessageSize
  | Some l =>
    name ← deref (service_type_name t);
    match largest_event name l 0 with
    | None => mret kMaxMessageSize
    | Some largest => mret (wrap64 (largest + kSomeipFullHeaderSize))
    end
  end.

(** The body of the loop that builds the two shared memory configurations: the
    daemon's own, and the one it sends to someipd. *)
Definition add_shared_memory (t : ServiceType)
    (shm : Shared_memory_configuration * Shared_memory_configuration) :
    outcome (Shared_memory_configuration * Shared_memory_configuration) :=
  let '(shm_config, server_shm_config) := shm in
  iface ← service_interface t;
  inst ← service_instance t;
  name ← deref (service_type_name t);
  match make_shared_memory_path name (st_service_id t),
        make_counterpart_shared_memory_path name (st_service_id t) with
  | Ok path, Ok counterpart =>
    slot_size ← event_slot_size t;
    let events := {| path := path; slot_size := slot_size; slot_count := kMaxSampleCount |} in
    let unused := {| path := counterpart; slot_size := 1; slot_count := 1 |} in
    match local_service_instances t, remote_service_instances t with
    | Some _, _ =>
      mret (insert_configuration shm_config iface inst events,
            insert_configuration server_shm_config iface inst unused)
    | None, Some _ =>
      mret (insert_configuration shm_config iface inst unused,
            insert_configuration server_shm_config iface inst events)
    | None, None => mret shm
    end
  | _, _ => mret shm
  end.

Fixpoint shared_memory_configurations (l : list ServiceType)
    (shm : Shared_memory_configuration * Shared_memory_configuration) :
    outcome (Shared_memory_configuration * Shared_memory_configuration) :=
  match l with
  | [] => mret shm
  | t :: l' => shm ← add_shared_memory t shm; shared_memory_configurations l' shm
  end.
End gatewayd.

(** ** Lemmas *)

Definition event_header (t : ServiceType) (e : Event) (stale : N) : Someip_header :=
  {| h_service_id := st_service_id t; h_method_id := event_id e; h_length := stale;
     h_client_id := 65535; h_session_id := 0; h_protocol_version := 1;
     h_interface_version := service_version_major t; h_message_type := 2;
     h_return_code := 0 |}.

(** The header is written to the front of the slot; its length field keeps what
    the slot held. *)
Lemma write_event_header_run t e wdata :
  16 ≤ length wdata →
  ∃ h stale, length h = 16 ∧
    write_event_header t e (0%N, wdata) = Done (tt, (16%N, h ++ drop 16 wdata), []) ∧
    (fits 16 (st_service_id t) → fits 8 (service_version_major t) → fits 16 (event_id e) →
      ∀ payload, parse_header (h ++ payload) = Some (event_header t e stale, payload)).
Proof.
  intros (d0 & d1 & d2 & d3 & d4 & d5 & d6 & d7 & d8 & d9 & d10 & d11 & d12 & d13 & d14 &
    d15 & ->)%header_room.
  eexists (_ :: _ :: _ :: _ :: _ :: _ :: _ :: _ :: _ :: _ :: _ :: _ :: _ :: _ :: _ :: _ :: []), _.
  split; [done|]. split.
  - change (0%N, ?l) with (N.of_nat (length (@nil N)), [] ++ l).
    unfold write_event_header.
    rewrite !put_u16_step, skip_step, !put_u16_step, !put_step, put_run. reflexivity.
  - intros ? ? ? payload. cbn [app parse_header]. unfold event_header.
    rewrite !(wrap8_shiftr (st_service_id t)), !(wrap8_shiftr (event_id e)), !wrap8_land by done.
    rewrite (be16_split (st_service_id t)), (be16_split (event_id e)) by done.
    rewrite (wrap_small 8 (service_version_major t)) by done. reflexivity.
Qed.

(** Handling a well-formed sample: the payload is a header and the message if
    the slot has room, and the sample is dropped if it has room for the header
    only. *)
Lemma on_sample_spec i context slot o :
  16 ≤ length slot → psd_ok o →
  if decide (16 + length (psd_message o) ≤ length slot) then
    ∃ h stale, length h = 16 ∧
      on_sample i context (Some slot) (Some o) =
        Done [Update_socom (lec_socom_event_id context) (h ++ psd_message o)] ∧
      (fits 16 (st_service_id (lsi_service_type_config i)) →
       fits 8 (service_version_major (lsi_service_type_config i)) →
       fits 16 (event_id (lec_config context)) →
       parse_header (h ++ psd_message o) = Some
         (event_header (lsi_service_type_config i) (lec_config context) stale, psd_message o))
  else on_sample i context (Some slot) (Some o) = Done [].
Proof.
  intros Hl Ho. unfold on_sample.
  destruct (write_event_header_run (lsi_service_type_config i) (lec_config context) slot Hl)
    as (h & stale & Hh & E & Hp). rewrite E.
  change (N.to_nat 16) with 16.
  rewrite drop_app_length', take_app_length' by done.
  rewrite serialize_spec by done. rewrite length_drop.
  destruct (decide (length (psd_message o) ≤ length slot - 16)) as [Hd|Hd];
    destruct (decide (16 + length (psd_message o) ≤ length slot)); try lia.
  - cbn [mbind outcome_bind]. rewrite decide_True by done. exists h, stale.
    split; [done|]. split; [|auto]. cbn [from_option id].
    rewrite (assoc_L (++)), shrink_bytes_prefix; [done|]. rewrite length_app, Hh. lia.
  - cbn [mbind outcome_bind]. by rewrite decide_False.
Qed.

(** Forwarding an update of an event that has a context. *)
Lemma forward_event_spec i id e s h message sample :
  rsi_event_contexts i !! id = Some {| rec_config := Some e; rec_serializer := Some s |} →
  event_name e ∈ rsi_skeleton_events i → length h = 16 →
  (max_message_size s ≤ N.of_nat (length (psd_data sample)))%N →
  forward_event i id (h ++ message) (Some sample) =
    if decide (N.of_nat (length message) ≤ max_message_size s)%N
    then Done (i, [Send_sample (event_name e) {| psd_size := N.of_nat (length message);
      psd_data := message ++ drop (length message) (psd_data sample) |}])
    else Done (i, []).
Proof.
  intros Hctx Hsk Hh Hcap. unfold forward_event, emplace. rewrite Hctx, Hctx.
  cbn [deref mbind outcome_bind rec_config rsi_skeleton_events rec_serializer].
  rewrite (decide_True (P := event_name e ∈ _)) by done.
  rewrite length_app, Hh. unfold kSomeipFullHeaderSize.
  rewrite (proj2 (N.leb_le 16 _)) by lia. change (N.to_nat 16) with 16.
  rewrite drop_app_length', deserialize_spec by done.
  destruct i as [ti si ci]; simpl in *. by case_decide.
Qed.

Section event_lemmas.
Context (config : option Root) (name : string).

Lemma wrap16_succ n : (N.of_nat (S n) < 65536)%N → wrap16 (N.of_nat n + 1) = N.of_nat (S n).
Proof. intros Hn. rewrite wrap_small by (unfold fits; lia). lia. Qed.

(** A context belongs to the event at the position that is its socom id. *)
Definition context_ok (l : list Event) (event : string) (c : Local_event_context) : Prop :=
  ∃ n, lec_socom_event_id c = N.of_nat n ∧ l !! n = Some (lec_config c) ∧
    event_name (lec_config c) = event ∧
    get_serializer config name event = Some (lec_serializer c).

Lemma local_events_ok proxy l pre contexts :
  (N.of_nat (length (pre ++ l)) < 65536)%N →
  (∀ ev c, contexts !! ev = Some c → context_ok (pre ++ l) ev c) →
  let '(contexts', actions) :=
    local_events config name proxy l (N.of_nat (length pre)) contexts in
  (∀ ev c, contexts' !! ev = Some c → context_ok (pre ++ l) ev c) ∧
  (∀ ev c, Set_receive_handler ev c ∈ actions → context_ok (pre ++ l) ev c).
Proof.
  revert pre contexts. induction l as [|e l IH]; intros pre contexts Hl Hc; simpl.
  { split; [done|]. by intros ? ? ?%elem_of_nil. }
  rewrite length_app in Hl. simpl in Hl.
  rewrite wrap16_succ by lia.
  assert (pre ++ e :: l = (pre ++ [e]) ++ l) as Epre by by rewrite <-(assoc_L (++)).
  assert (S (length pre) = length (pre ++ [e])) as Elen by (rewrite length_app; simpl; lia).
  rewrite Elen, Epre in *.
  assert (N.of_nat (length ((pre ++ [e]) ++ l)) < 65536)%N as Hl'
    by (rewrite !length_app; simpl; lia).
  destruct (decide (event_name e ∈ proxy)); [|by apply IH].
  destruct (get_serializer config name (event_name e)) as [s|] eqn:Es; [|by apply IH].
  set (c0 := {| lec_config := e; lec_serializer := s; lec_socom_event_id := _ |}).
  assert (context_ok ((pre ++ [e]) ++ l) (event_name e) c0) as H0.
  { exists (length pre). split_and!; try done. rewrite <-(assoc_L (++)). simpl.
    by rewrite list_lookup_middle. }
  assert (∀ ev c, emplace (event_name e) c0 contexts !! ev = Some c →
    context_ok ((pre ++ [e]) ++ l) ev c) as Hc'.
  { intros ev c. unfold emplace. destruct (contexts !! event_name e); [apply Hc|].
    intros [[<- <-]|[_ ?]]%lookup_insert_Some; auto. }
  pose proof (IH (pre ++ [e]) (emplace (event_name e) c0 contexts) Hl' Hc') as Hi.
  destruct (local_events _ _ _ _ _ _) as [contexts' actions]. destruct Hi as [Hi1 Hi2].
  split; [done|]. intros ev c. rewrite !elem_of_cons. intros [[= -> ->]|[?|?]]; [|done|auto].
  destruct (emplace (event_name e) c0 contexts !! event_name e) eqn:E; simpl; auto.
Qed.

(** The context of an event of a remote service. *)
Definition remote_context (skeleton : gset string) (e : Event) : option Remote_event_context :=
  if decide (event_name e ∈ skeleton) then
    (λ s, {| rec_config := Some e; rec_serializer := Some s |}) <$>
      get_serializer config name (event_name e)
  else None.

Lemma remote_events_lookup skeleton l n contexts k :
  (N.of_nat (n + length l) < 65536)%N →
  (∀ k, n ≤ k → contexts !! N.of_nat k = None) →
  remote_events config name skeleton l (N.of_nat n) contexts !! N.of_nat k =
    if decide (k < n) then contexts !! N.of_nat k
    else l !! (k - n) ≫= remote_context skeleton.
Proof.
  revert n contexts. induction l as [|e l IH]; intros n contexts Hl Hc; simpl in *.
  { case_decide; [done|]. by rewrite Hc by lia. }
  rewrite wrap16_succ by lia.
  assert (∀ contexts', (∀ k, n < k → contexts' !! N.of_nat k = None) →
    contexts' !! N.of_nat n = remote_context skeleton e →
    (∀ k, k < n → contexts' !! N.of_nat k = contexts !! N.of_nat k) →
    remote_events config name skeleton l (N.of_nat (S n)) contexts' !! N.of_nat k =
    if decide (k < n) then contexts !! N.of_nat k
    else (e :: l) !! (k - n) ≫= remote_context skeleton) as Hgo.
  { intros contexts' H1 H2 H3. rewrite IH by (lia || (intros; apply H1; lia)).
    destruct (decide (k < S n)), (decide (k < n)); try lia; [by apply H3| |].
    - replace k with n by lia. by rewrite Nat.sub_diag.
    - by replace (k - n) with (S (k - S n)) by lia. }
  unfold remote_context in Hgo at 1. destruct (decide (event_name e ∈ skeleton)).
  - destruct (get_serializer config name (event_name e)) as [s|]; apply Hgo; simpl.
    + intros j Hj. unfold emplace. rewrite Hc by done.
      rewrite lookup_insert_ne by lia. apply Hc. lia.
    + unfold emplace. by rewrite Hc, lookup_insert_eq by done.
    + intros j Hj. unfold emplace. rewrite Hc by done. by rewrite lookup_insert_ne by lia.
    + intros j Hj. apply Hc. lia.
    + by apply Hc.
    + done.
  - apply Hgo; [intros j Hj; apply Hc; lia|by apply Hc|done].
Qed.
End event_lemmas.

Section configuration_lemmas.
Context (config : option Root).

Lemma largest_event_spec name l m n :
  largest_event config name l m = Some n →
  (m ≤ n)%N ∧ ∀ e s, e ∈ l → get_serializer config name (event_name e) = Some s →
    (max_message_size s ≤ n)%N.
Proof.
  revert m. induction l as [|e l IH]; intros m; simpl.
  { intros [= <-]. split; [done|]. by intros ? ? ?%elem_of_nil. }
  destruct (get_serializer config name (event_name e)) as [s|] eqn:Es; [|done].
  destruct (N.eqb_spec (max_message_size s) 0); [done|]. intros [Hm Hl]%IH.
  split; [lia|]. intros e' s' [->|He]%elem_of_cons Hs; [|by eapply Hl].
  rewrite Es in Hs. injection Hs as ->. lia.
Qed.

Lemma largest_event_known name l m :
  (∀ e, e ∈ l → ∃ s, get_serializer config name (event_name e) = Some s ∧
    (0 < max_message_size s < 2 ^ 32)%N) → (m < 2 ^ 32)%N →
  ∃ n, largest_event config name l m = Some n ∧ (n < 2 ^ 32)%N.
Proof.
  revert m. induction l as [|e l IH]; intros m Hl Hm; simpl; [eauto|].
  destruct (Hl e) as (s & Hs & Hb); [left|]. rewrite Hs.
  destruct (N.eqb_spec (max_message_size s) 0); [lia|].
  apply IH; [|lia]. intros e' He'. apply Hl. by right.
Qed.

(** The memory of a service in the two configurations. *)
Definition paired (types : list ServiceType) (iface : Service_interface_identifier)
    (own server : option Shared_memory_metadata) : Prop :=
  match own, server with
  | None, None => True
  | Some own, Some server => ∃ t n, t ∈ types ∧ service_interface t = Done iface ∧
      event_slot_size config t = Done n ∧ path own ≠ path server ∧
      ((is_Some (local_service_instances t) ∧
        slot_size own = n ∧ slot_count own = kMaxSampleCount ∧
        slot_size server = 1%N ∧ slot_count server = 1%N) ∨
       (local_service_instances t = None ∧ is_Some (remote_service_instances t) ∧
        slot_size server = n ∧ slot_count server = kMaxSampleCount ∧
        slot_size own = 1%N ∧ slot_count own = 1%N))
  | _, _ => False
  end.

Lemma paired_mono types types' iface own server :
  types ⊆ types' → paired types iface own server → paired types' iface own server.
Proof.
  intros Hs. destruct own, server; simpl; try done.
  intros (t & n & Ht & Hr). exists t, n. split; [by apply Hs|done].
Qed.

Lemma add_shared_memory_paired types t shm shm' :
  add_shared_memory config t shm = Done shm' →
  (∀ iface inst, paired types iface (lookup_configuration shm.1 iface inst)
    (lookup_configuration shm.2 iface inst)) →
  ∀ iface inst, paired (t :: types) iface (lookup_configuration shm'.1 iface inst)
    (lookup_configuration shm'.2 iface inst).
Proof.
  destruct shm as [own server]. unfold add_shared_memory.
  intros (iface0 & Hi & (inst0 & _ & (name & Hn &
    E)%outcome_bind_Done)%outcome_bind_Done)%outcome_bind_Done.
  intros Hp iface inst.
  assert (paired (t :: types) iface (lookup_configuration own iface inst)
    (lookup_configuration server iface inst)) as Hold
    by (apply (paired_mono types); [by intros x Hx; right|apply Hp]).
  destruct (make_shared_memory_path name (st_service_id t)) as [p|] eqn:Ep;
    [|by injection E as <-].
  destruct (make_counterpart_shared_memory_path name (st_service_id t)) as [c|] eqn:Ec;
    [|by injection E as <-].
  pose proof (counterpart_differs _ _ _ _ Ep Ec) as Hpc.
  apply outcome_bind_Done in E as (n & En & E).
  destruct (local_service_instances t) as [ls|] eqn:El.
  2: destruct (remote_service_instances t) as [rs|] eqn:Er; [|by injection E as <-].
  all: injection E as <-; simpl; rewrite !lookup_insert_configuration;
    destruct (decide (iface0 = iface ∧ inst0 = inst)) as [[-> ->]|_]; [|done];
    simpl; exists t, n; split_and!; try done; try set_solver.
Qed.

Lemma shared_memory_paired types l shm shm' :
  shared_memory_configurations config l shm = Done shm' →
  (∀ iface inst, paired types iface (lookup_configuration shm.1 iface inst)
    (lookup_configuration shm.2 iface inst)) →
  ∀ iface inst, paired (l ++ types) iface (lookup_configuration shm'.1 iface inst)
    (lookup_configuration shm'.2 iface inst).
Proof.
  revert types shm. induction l as [|t l IH]; intros types shm; simpl; [by intros [= <-]|].
  intros (shm1 & E1 & E2)%outcome_bind_Done Hp iface inst.
  eapply paired_mono; [|eapply (IH (t :: types)); [exact E2|by eapply add_shared_memory_paired]].
  intros x. set_solver.
Qed.
End configuration_lemmas.

(** ** Properties *)

(** A slot holds every event. If the serializer knows the maximal size of all
    events of a service type, the slot size that gatewayd configures for it is
    large enough for the header and any sample of any of these events whose
    message does not exceed the event's maximum: the sample is passed on, never
    dropped for lack of space. *)
Theorem slot_holds_every_event config t name l i context slot o :
  service_type_name t = Some name → events t = Some l →
  (∀ e, e ∈ l → ∃ s, get_serializer config name (event_name e) = Some s ∧
    (0 < max_message_size s < 2 ^ 32)%N) →
  lec_config context ∈ l →
  get_serializer config name (event_name (lec_config context)) = Some (lec_serializer context) →
  psd_ok o → (psd_size o ≤ max_message_size (lec_serializer context))%N →
  event_slot_size config t = Done (N.of_nat (length slot)) →
  ∃ bytes, on_sample i context (Some slot) (Some o) =
    Done [Update_socom (lec_socom_event_id context) bytes].
Proof.
  intros Hn Hl Hs He Hser Ho Hm Hsize.
  destruct (largest_event_known config name l 0 Hs) as (n & Hlarge & Hb); [done|].
  assert (N.of_nat (length slot) = n + 16)%N as Hslot.
  { unfold event_slot_size in Hsize. rewrite Hl, Hn in Hsize. destruct l as [|e l].
    - by apply elem_of_nil in He.
    - cbn [deref mbind outcome_bind] in Hsize. rewrite Hlarge in Hsize.
      injection Hsize as <-. apply wrap_small. unfold fits, kSomeipFullHeaderSize. lia. }
  pose proof (proj2 (largest_event_spec _ _ _ _ _ Hlarge) _ _ He Hser).
  pose proof (length_psd_message o Ho).
  pose proof (on_sample_spec i context slot o ltac:(lia) Ho) as Hspec.
  rewrite decide_True in Hspec by lia. destruct Hspec as (h & _ & _ & E & _). eauto.
Qed.

(** The two ends agree on the memory of a service. For every service, the
    configuration gatewayd uses itself and the one it sends to someipd both have
    an entry or both have none; the paths differ; and the events are written by
    the daemon that has them, gatewayd for a local service and someipd for a
    remote one, into slots of the computed size, while the other direction has a
    single slot of one byte. *)
Theorem shared_memory_agreed config l own server iface inst :
  shared_memory_configurations config l (∅, ∅) = Done (own, server) →
  paired config l iface (lookup_configuration own iface inst)
    (lookup_configuration server iface inst).
Proof.
  intros E. pose proof (shared_memory_paired config [] l _ _ E) as Hp.
  rewrite (right_id_L [] (++)) in Hp. by apply Hp.
Qed.

(** An update for an event without a context. If an event was left out when
    the instance was created, its updates, to which the instance subscribes all
    the same, are dereferenced through a null pointer. *)
Theorem update_without_context_faults config t name l skeleton n e i :
  service_type_name t = Some name → events t = Some l →
  (N.of_nat (length l) < 65536)%N → l !! n = Some e → event_name e ∉ skeleton →
  remote_create config t skeleton true true = Done (Ok i,
    [Make_client {| sii_id := name; sii_version := {| major := service_version_major t;
       minor := wrap16 (service_version_minor t) |} |} name (wrap16 (N.of_nat (length l)))]) →
  (∃ actions, remote_state_change i true true = Done actions ∧
    Subscribe_socom (N.of_nat n) ∈ actions) ∧
  ∀ payload allocated, forward_event i (N.of_nat n) payload allocated = Fault Null_dereference.
Proof.
  intros Hn Hl Hlen He Hsk E. unfold remote_create in E. cbn [negb] in E.
  unfold service_interface, service_instance in E. rewrite Hn, Hl in E.
  cbn [deref mbind outcome_bind mret outcome_ret] in E. injection E as <-. split.
  - unfold remote_state_change. simpl. rewrite Hl. eexists. split; [done|].
    apply list_elem_of_fmap. exists n. apply lookup_lt_Some in He. split.
    + f_equal. symmetry. apply wrap_small. unfold fits. lia.
    + apply elem_of_seq. lia.
  - intros payload allocated. unfold forward_event, emplace. simpl.
    pose proof (remote_events_lookup config name skeleton l 0 ∅ n ltac:(done)
      ltac:(intros; apply lookup_empty)) as Hlk.
    rewrite (decide_False (P := n < 0)), Nat.sub_0_r, He in Hlk by lia.
    cbn [mbind option_bind] in Hlk. unfold remote_context in Hlk.
    rewrite decide_False in Hlk by done.
    change (N.of_nat 0) with 0%N in Hlk. by rewrite Hlk, lookup_insert_eq.
Qed.

(** ** Witnesses *)

Definition demo_context : Local_event_context :=
  {| lec_config := demo_event_config; lec_serializer := {| max_message_size := 8 |};
     lec_socom_event_id := 0 |}.
Definition demo_local : LocalServiceInstance :=
  {| lsi_service_type_config := demo_service_type;
     lsi_event_contexts := {[ "E" := demo_context ]} |}.
Definition demo_sample : PreSerializedData :=
  {| psd_size := 3; psd_data := [1; 2; 3; 0; 0; 0; 0; 0]%N |}.

Lemma slot_holds_every_event_witness :
  event_slot_size (Some demo_root) demo_service_type = Done 24%N ∧
  ∃ bytes, on_sample demo_local demo_context (Some (replicate 24 0%N)) (Some demo_sample) =
    Done [Update_socom 0 bytes].
Proof.
  split; [reflexivity|].
  apply (slot_holds_every_event (Some demo_root) demo_service_type "S" [demo_event_config]
    demo_local demo_context (replicate 24 0%N) demo_sample).
  - reflexivity.
  - reflexivity.
  - intros e ->%list_elem_of_singleton. exists {| max_message_size := 8 |}.
    split; [reflexivity|split; reflexivity].
  - simpl. set_solver.
  - reflexivity.
  - unfold psd_ok. simpl. lia.
  - simpl. lia.
  - reflexivity.
Defined.

Lemma shared_memory_agreed_witness : ∃ own server,
  shared_memory_configurations (Some demo_root) [demo_service_type] (∅, ∅) = Done (own, server) ∧
  paired (Some demo_root) [demo_service_type]
    {| sii_id := "S"; sii_version := {| major := 1; minor := 0 |} |}
    (lookup_configuration own {| sii_id := "S"; sii_version := {| major := 1; minor := 0 |} |} "S")
    (lookup_configuration server
      {| sii_id := "S"; sii_version := {| major := 1; minor := 0 |} |} "S").
Proof.
  eexists _, _. split; [reflexivity|]. apply shared_memory_agreed. reflexivity.
Defined.

Lemma update_without_context_faults_witness : ∃ i,
  (∃ actions, remote_create (Some demo_root) demo_service_type ∅ true true
    = Done (Ok i, actions)) ∧
  forward_event i 0 [] None = Fault Null_dereference.
Proof.
  eexists. split; [eexists; reflexivity|].
  refine (proj2 (update_without_context_faults (Some demo_root) demo_service_type "S"
    [demo_event_config] ∅ 0 demo_event_config _ eq_refl eq_refl eq_refl eq_refl _ eq_refl)
    [] None). set_solver.
Defined.
