(* ===== verification/Someipd.v ===== *)
(** * someipd

    [src/score/someipd/impl/local_network_service.cpp],
    [remote_network_service.cpp] and [routing.cpp]: the daemon that connects
    gatewayd (through the connectors of socom) with the SOME/IP network (through
    vsomeip).

    vsomeip and the runtime are not part of these files; the calls the code
    makes are the actions of the model, and what they return are arguments. *)

From stdpp Require Import base numbers list gmap strings.
From S2P Require Import Prelude.
From S2P Require Import IpcTypes.
From S2P Require Import Config.
From S2P Require Import SomeipMessage.

(** ** Data *)

Inductive Someipd_error : Type :=
  | request_rejected
  | kInitializationFailed.

Inductive Someipd_action : Type :=
  | Create_client_connector (interface : Service_interface_identifier)
      (instance : Service_instance) (num_events : N)
  | Create_server_connector (interface : Service_interface_identifier)
      (instance : Service_instance) (num_events : N)
  | Subscribe_connector (event_id : N)
  | Update_connector (event_id : N) (payload : list N)
  | Vsomeip_notify (service instance event : N) (payload : list N)
  | Vsomeip_request_service (service instance : N)
  | Vsomeip_register_message_handler (service instance event socom_event_id : N)
  | Vsomeip_request_event (service instance event : N) (groups : gset N)
  | Vsomeip_subscribe (service instance eventgroup : N)
  | Vsomeip_offer_event (service instance event : N) (groups : gset N)
  | Vsomeip_offer_service (service instance major : N)
  | Vsomeip_start
  | Vsomeip_stop.

(** [LocalNetworkService] and [RemoteNetworkService] hold the same two
    configurations. *)
Record NetworkService : Type := {
  ns_service_instance_config : ServiceInstance;
  ns_service_type_config : ServiceType;
}.

(** What the code reads of a [vsomeip::message]. *)
Record Vsomeip_message : Type := {
  vm_service : N;
  vm_client : N;
  vm_session : N;
  vm_protocol_version : N;
  vm_interface_version : N;
  vm_message_type : N;
  vm_return_code : N;
  vm_payload : list N;
}.

(** ** LocalNetworkService *)

Definition local_network_create (i : ServiceInstance) (t : ServiceType) (connector_ok : bool) :
    outcome (Result Someipd_error NetworkService * list Someipd_action) :=
  iface ← service_interface t;
  inst ← service_instance t;
  l ← deref (events t);
  let make := Create_client_connector iface inst (wrap16 (N.of_nat (length l))) in
  mret (if connector_ok then
          Ok {| ns_service_instance_config := i; ns_service_type_config := t |}
        else Err request_rejected, [make]).

(** The callback [on_service_state_change]: subscribe to all events. *)
Fixpoint subscribe_all (l : list Event) (socom_event_id : N) : list Someipd_action :=
  match l with
  | [] => []
  | _ :: l' => Subscribe_connector socom_event_id :: subscribe_all l' (wrap16 (socom_event_id + 1))
  end.

Definition local_network_state_change (s : NetworkService) (client_connector available : bool) :
    outcome (list Someipd_action) :=
  if available then
    l ← deref (events (ns_service_type_config s));
    if client_connector || (length l =? 0) then mret (subscribe_all l 0)
    else Fault Null_dereference
  else mret [].

(** [forward_to_vsomeip]: the size of the rest underflows when the payload is
    shorter than a header, and the subspan's precondition fails. *)
Definition forward_to_vsomeip (s : NetworkService) (event_index : N) (payload : list N) :
    outcome (list Someipd_action) :=
  l ← deref (events (ns_service_type_config s));
  match l !! N.to_nat event_index with
  | None => mret []
  | Some event_config =>
    let size := N.of_nat (length payload) in
    let count := wrap64 (size + 2 ^ 64 - kSomeipFullHeaderSize) in
    if (kSomeipFullHeaderSize <=? size)%N && (count <=? size - kSomeipFullHeaderSize)%N then
      let event_data :=
        take (N.to_nat count) (drop (N.to_nat kSomeipFullHeaderSize) payload) in
      mret [Vsomeip_notify (st_service_id (ns_service_type_config s))
              (instance_id (ns_service_instance_config s)) (event_id event_config) event_data]
    else Fault Out_of_bounds
  end.

(** ** RemoteNetworkService *)

Definition remote_network_create (i : ServiceInstance) (t : ServiceType) (connector_ok : bool) :
    outcome (Result Someipd_error NetworkService * list Someipd_action) :=
  iface ← service_interface t;
  inst ← service_instance t;
  l ← deref (events t);
  let make := Create_server_connector iface inst (wrap16 (N.of_nat (length l))) in
  mret (if connector_ok then
          Ok {| ns_service_instance_config := i; ns_service_type_config := t |}
        else Err request_rejected, [make]).

(** The header of a message from the network. *)
Definition write_message_header (vsomeip_event_id : N) (msg : Vsomeip_message) : WM unit :=
  put_u16 (vm_service msg);;
  put_u16 vsomeip_event_id;;
  put_u32 (wrap32 (N.of_nat (length (vm_payload msg)) + 8));;
  put_u16 (vm_client msg);;
  put_u16 (vm_session msg);;
  put (vm_protocol_version msg);;
  put (vm_interface_version msg);;
  put (vm_message_type msg);;
  put (vm_return_code msg).

(** The message handler that [setup_vsomeip] registers: [slot] is the writable
    data of the allocated payload. The copy is not bounded by it. *)
Definition on_vsomeip_message (socom_event_id vsomeip_event_id : N) (slot : option (list N))
    (msg : Vsomeip_message) : outcome (list Someipd_action) :=
  match slot with
  | None => mret []
  | Some wdata =>
    match write_message_header vsomeip_event_id msg (0%N, wdata) with
    | Fault f => Fault f
    | Done (_, (pos, wdata), _) =>
      wdata ← memcpy wdata pos (vm_payload msg);
      let pos := (pos + N.of_nat (length (vm_payload msg)))%N in
      mret [Update_connector socom_event_id (shrink_bytes wdata pos)]
    end
  end.

(** The loop of [setup_vsomeip]. *)
Fixpoint setup_events (service instance : N) (l : list Event) (i : N) : list Someipd_action :=
  match l with
  | [] => []
  | e :: l' =>
    Vsomeip_register_message_handler service instance (event_id e) (wrap16 i) ::
    Vsomeip_request_event service instance (event_id e) {[ event_id e ]} ::
    Vsomeip_subscribe service instance (event_id e) ::
    setup_events service instance l' (i + 1)%N
  end.

Definition setup_vsomeip (s : NetworkService) : outcome (list Someipd_action) :=
  let service := st_service_id (ns_service_type_config s) in
  let instance := instance_id (ns_service_instance_config s) in
  l ← deref (events (ns_service_type_config s));
  mret (Vsomeip_request_service service instance :: setup_events service instance l 0).

(** ** Routing *)

Definition routing_create (init_ok : bool) : Result Someipd_error unit :=
  if init_ok then Ok tt else Err kInitializationFailed.

(** The event groups of an event; without any, the event is its own group. *)
Definition event_groups (e : Event) : gset N :=
  match eventgroup_ids e with
  | Some (g :: gs) => list_to_set (g :: gs)
  | _ => {[ event_id e ]}
  end.

Definition offer_instance (t : ServiceType) (l : list Event) (i : ServiceInstance) :
    list Someipd_action :=
  ((λ e, Vsomeip_offer_event (st_service_id t) (instance_id i) (event_id e) (event_groups e))
    <$> l) ++
  [Vsomeip_offer_service (st_service_id t) (instance_id i) (service_version_major t)].

Definition offer_service_type (t : ServiceType) : outcome (list Someipd_action) :=
  match local_service_instances t with
  | None | Some [] => mret []
  | Some instances =>
    l ← deref (events t);
    mret (instances ≫= offer_instance t l)
  end.

Fixpoint setup_offerings (l : list ServiceType) : outcome (list Someipd_action) :=
  match l with
  | [] => mret []
  | t :: l' =>
    a ← offer_service_type t;
    a' ← setup_offerings l';
    mret (a ++ a')
  end.

Fixpoint lookup_instance_id (l : list ServiceType) (service_id : N) : outcome N :=
  match l with
  | [] => mret kAnyInstance
  | t :: l' =>
    if (st_service_id t =? service_id)%N then
      instances ← deref (local_service_instances t);
      match instances with i :: _ => mret (instance_id i) | [] => Fault Out_of_bounds end
    else lookup_instance_id l' service_id
  end.

(** The callback that [main] passes to [Run]. *)
Fixpoint setup_remote_services (l : list NetworkService) : outcome (list Someipd_action) :=
  match l with
  | [] => mret []
  | s :: l' =>
    a ← setup_vsomeip s;
    a' ← setup_remote_services l';
    mret (a ++ a')
  end.

(** The state handler that [Run] registers; [registered]: is the state
    ST_REGISTERED? *)
Definition on_routing_state (root : Root) (remote_services : list NetworkService)
    (registered : bool) : outcome (list Someipd_action) :=
  if registered then
    offers ← setup_offerings (service_types root);
    setup ← setup_remote_services remote_services;
    mret (offers ++ setup)
  else mret [].

(** [Run]: the states vsomeip reports before the shutdown is requested. *)
Fixpoint routing_states (root : Root) (remote_services : list NetworkService)
    (states : list bool) : outcome (list Someipd_action) :=
  match states with
  | [] => mret []
  | registered :: states' =>
    a ← on_routing_state root remote_services registered;
    a' ← routing_states root remote_services states';
    mret (a ++ a')
  end.

Definition routing_run (root : Root) (remote_services : list NetworkService)
    (states : list bool) : outcome (list Someipd_action) :=
  a ← routing_states root remote_services states;
  mret (Vsomeip_start :: a ++ [Vsomeip_stop]).

(** ** main *)

Section main.
(** Does the runtime make the connector of an instance? *)
Context (connector_ok : ServiceType → ServiceInstance → bool).
(** [LocalNetworkService::Create] or [RemoteNetworkService::Create]. *)
Context (create : ServiceInstance → ServiceType → bool →
  outcome (Result Someipd_error NetworkService * list Someipd_action)).

(** The inner loop: an instance that cannot be created is skipped. *)
Fixpoint create_instances (t : ServiceType) (l : list ServiceInstance) :
    outcome (list NetworkService * list Someipd_action) :=
  match l with
  | [] => mret ([], [])
  | i :: l' =>
    '(r, a) ← create i t (connector_ok t i);
    '(services, a') ← create_instances t l';
    mret (match r with Ok s => s :: services | Err _ => services end, a ++ a')
  end.

(** The outer loop over the service types that have instances. *)
Fixpoint create_services (instances : ServiceType → option (list ServiceInstance))
    (l : list ServiceType) : outcome (list NetworkService * list Someipd_action) :=
  match l with
  | [] => mret ([], [])
  | t :: l' =>
    '(services, a) ← create_instances t (default [] (instances t));
    '(services', a') ← create_services instances l';
    mret (services ++ services', a ++ a')
  end.
End main.

(** What [main] does between the start of the IPC server and the shutdown. *)
Definition someipd_main (root : Root) (init_ok : bool)
    (connector_ok : ServiceType → ServiceInstance → bool) (states : list bool) :
    outcome (Result Someipd_error (list NetworkService * list NetworkService) *
             list Someipd_action) :=
  match routing_create init_ok with
  | Err e => mret (Err e, [])
  | Ok _ =>
    '(locals, a) ← create_services connector_ok local_network_create
      local_service_instances (service_types root);
    '(remotes, a') ← create_services connector_ok remote_network_create
      remote_service_instances (service_types root);
    a'' ← routing_run root remotes states;
    mret (Ok (locals, remotes), a ++ a' ++ a'')
  end.

(** ** Lemmas *)

(** What the network's header fields have to be. *)
Definition message_fits (msg : Vsomeip_message) : Prop :=
  fits 16 (vm_service msg) ∧ fits 16 (vm_client msg) ∧ fits 16 (vm_session msg) ∧
  fits 8 (vm_protocol_version msg) ∧ fits 8 (vm_interface_version msg) ∧
  fits 8 (vm_message_type msg) ∧ fits 8 (vm_return_code msg).

Definition message_header (ev : N) (msg : Vsomeip_message) : Someip_header :=
  {| h_service_id := vm_service msg; h_method_id := ev;
     h_length := wrap32 (N.of_nat (length (vm_payload msg)) + 8);
     h_client_id := vm_client msg; h_session_id := vm_session msg;
     h_protocol_version := vm_protocol_version msg;
     h_interface_version := vm_interface_version msg;
     h_message_type := vm_message_type msg; h_return_code := vm_return_code msg |}.

Lemma write_message_header_run ev msg wdata :
  16 ≤ length wdata →
  ∃ h, length h = 16 ∧
    write_message_header ev msg (0%N, wdata) = Done (tt, (16%N, h ++ drop 16 wdata), []) ∧
    (message_fits msg → fits 16 ev →
      ∀ payload, parse_header (h ++ payload) = Some (message_header ev msg, payload)).
Proof.
  intros (d0 & d1 & d2 & d3 & d4 & d5 & d6 & d7 & d8 & d9 & d10 & d11 & d12 & d13 & d14 &
    d15 & ->)%header_room.
  eexists (_ :: _ :: _ :: _ :: _ :: _ :: _ :: _ :: _ :: _ :: _ :: _ :: _ :: _ :: _ :: _ :: []).
  split; [done|]. split.
  - change (0%N, ?l) with (N.of_nat (length (@nil N)), [] ++ l).
    unfold write_message_header.
    rewrite !put_u16_step, put_u32_step, !put_u16_step, !put_step, put_run. reflexivity.
  - intros (?&?&?&?&?&?&?) ? payload. cbn [app parse_header]. unfold message_header.
    rewrite !wrap8_shiftr, be32_split, !wrap8_land, !be16_split by (done || apply wrap_fits).
    by rewrite !(wrap_small 8) by done.
Qed.

(** A slot that is too small for the header is overrun by it. *)
Lemma write_message_header_short ev msg wdata :
  length wdata < 16 → write_message_header ev msg (0%N, wdata) = Fault Out_of_bounds.
Proof.
  intros Hl. do 16 (destruct wdata as [|? wdata]; [reflexivity|]). simpl in Hl. lia.
Qed.

(** The handler writes the header and the data to the front of the slot and
    passes on exactly these bytes, if the slot has room; it writes past the end
    of the slot otherwise. *)
Lemma on_vsomeip_message_spec id ev slot msg :
  if decide (16 + length (vm_payload msg) ≤ length slot) then
    ∃ h, length h = 16 ∧
      on_vsomeip_message id ev (Some slot) msg =
        Done [Update_connector id (h ++ vm_payload msg)] ∧
      (message_fits msg → fits 16 ev →
        parse_header (h ++ vm_payload msg) = Some (message_header ev msg, vm_payload msg))
  else on_vsomeip_message id ev (Some slot) msg = Fault Out_of_bounds.
Proof.
  unfold on_vsomeip_message.
  destruct (decide (16 ≤ length slot)) as [Hl|Hl].
  - destruct (write_message_header_run ev msg slot Hl) as (h & Hh & E & Hp). rewrite E.
    assert (memcpy (h ++ drop 16 slot) 16 (vm_payload msg) =
      if decide (16 + length (vm_payload msg) ≤ length slot)
      then Done (h ++ vm_payload msg ++ drop (16 + length (vm_payload msg)) slot)
      else Fault Out_of_bounds) as Em.
    { unfold memcpy. rewrite length_app, length_drop, Hh. case_decide.
      - rewrite (proj2 (N.leb_le _ _)) by lia.
        change (N.to_nat 16) with 16. rewrite <-Hh at 1. rewrite take_app_length.
        rewrite drop_app_ge by lia. rewrite Hh, drop_drop.
        by replace (16 + length (vm_payload msg) - 16) with (length (vm_payload msg)) by lia.
      - by rewrite (proj2 (N.leb_gt _ _)) by lia. }
    rewrite Em. case_decide; [|done]. exists h. split; [done|]. split; [|auto].
    cbn [mbind outcome_bind]. rewrite (assoc_L (++)), shrink_bytes_prefix; [done|].
    rewrite length_app, Hh. lia.
  - rewrite decide_False by lia. by rewrite write_message_header_short by lia.
Qed.

(** Forwarding removes a header's length from the front. *)
Lemma forward_to_vsomeip_spec s l n e payload :
  events (ns_service_type_config s) = Some l → l !! n = Some e →
  fits 64 (N.of_nat (length payload)) →
  forward_to_vsomeip s (N.of_nat n) payload =
    if decide (16 ≤ length payload) then
      Done [Vsomeip_notify (st_service_id (ns_service_type_config s))
        (instance_id (ns_service_instance_config s)) (event_id e) (drop 16 payload)]
    else Fault Out_of_bounds.
Proof.
  intros Hl He Hf. unfold forward_to_vsomeip. rewrite Hl. cbn [deref mbind outcome_bind].
  rewrite Nat2N.id, He. unfold fits, kSomeipFullHeaderSize in *. case_decide as Hd.
  - replace (N.of_nat (length payload) + 2 ^ 64 - 16)%N
      with (N.of_nat (length payload - 16) + 1 * 2 ^ 64)%N by lia.
    unfold wrap. rewrite N.Div0.mod_add, N.mod_small by lia.
    rewrite !(proj2 (N.leb_le _ _)) by lia. cbn [andb]. rewrite Nat2N.id.
    change (N.to_nat 16) with 16. rewrite take_ge by (rewrite length_drop; lia). done.
  - by rewrite (proj2 (N.leb_gt _ _)) by lia.
Qed.

Lemma setup_offerings_app t l1 l2 actions :
  setup_offerings (l1 ++ t :: l2) = Done actions →
  ∃ a1 a a2, offer_service_type t = Done a ∧ actions = a1 ++ a ++ a2.
Proof.
  revert actions. induction l1 as [|u l1 IH]; intros actions; simpl.
  - intros (a & Ha & (a2 & Ha2 & [= <-])%outcome_bind_Done)%outcome_bind_Done.
    by exists [], a, a2.
  - intros (b & Hb & (b2 & Hb2 & [= <-])%outcome_bind_Done)%outcome_bind_Done.
    apply IH in Hb2 as (a1 & a & a2 & Ha & ->). exists (b ++ a1), a, a2.
    by rewrite <-(assoc_L (++)).
Qed.

Lemma event_groups_nonempty e : event_groups e ≠ ∅.
Proof. unfold event_groups. destruct (eventgroup_ids e) as [[|g gs]|]; set_solver. Qed.

Lemma offered_configured l actions s i m :
  setup_offerings l = Done actions → Vsomeip_offer_service s i m ∈ actions →
  ∃ t inst, t ∈ l ∧ inst ∈ default [] (local_service_instances t) ∧
    st_service_id t = s ∧ instance_id inst = i ∧ service_version_major t = m.
Proof.
  revert actions. induction l as [|t l IH]; intros actions; simpl;
    [by intros [= <-] ?%elem_of_nil|].
  intros (a & Ha & (a2 & Ha2 & [= <-])%outcome_bind_Done)%outcome_bind_Done.
  intros [Hin|Hin]%elem_of_app.
  - exists t. unfold offer_service_type in Ha.
    destruct (local_service_instances t) as [[|i1 il]|] eqn:El; simpl in Ha;
      [injection Ha as <-; by apply elem_of_nil in Hin| |injection Ha as <-;
        by apply elem_of_nil in Hin].
    apply outcome_bind_Done in Ha as (es & Hes & [= <-]).
    change (Vsomeip_offer_service s i m ∈ (i1 :: il) ≫= offer_instance t es) in Hin.
    apply list_elem_of_bind in Hin as (inst & Hin & Hi). exists inst.
    unfold offer_instance in Hin. apply elem_of_app in Hin as [Hin|Hin].
    + by apply list_elem_of_fmap in Hin as (? & ? & ?).
    + apply list_elem_of_singleton in Hin as [= -> -> ->]. set_solver.
  - destruct (IH _ Ha2 Hin) as (t' & inst & Ht & Hr). exists t', inst. set_solver.
Qed.

(** ** Properties *)

(** C38: messages from the network. The handler that someipd registers for an
    event turns a message into a payload whose first sixteen bytes are a SOME/IP
    header with the message's fields and the length of the rest, followed by the
    data; it does so exactly if the allocated slot has room for both, and writes
    past the end of the slot otherwise: nothing bounds the size of the data. *)
Theorem network_message_payload id ev slot msg :
  message_fits msg → fits 16 ev → (N.of_nat (length (vm_payload msg)) + 8 < 2 ^ 32)%N →
  if decide (16 + length (vm_payload msg) ≤ length slot) then
    ∃ bytes, on_vsomeip_message id ev (Some slot) msg = Done [Update_connector id bytes] ∧
      length bytes = 16 + length (vm_payload msg) ∧
      parse_header bytes = Some
        ({| h_service_id := vm_service msg; h_method_id := ev;
            h_length := N.of_nat (length (vm_payload msg)) + 8;
            h_client_id := vm_client msg; h_session_id := vm_session msg;
            h_protocol_version := vm_protocol_version msg;
            h_interface_version := vm_interface_version msg;
            h_message_type := vm_message_type msg;
            h_return_code := vm_return_code msg |}, vm_payload msg)
  else on_vsomeip_message id ev (Some slot) msg = Fault Out_of_bounds.
Proof.
  intros Hm He Hl. pose proof (on_vsomeip_message_spec id ev slot msg) as Hs.
  case_decide; [|done]. destruct Hs as (h & Hh & E & Hp). eexists. split; [exact E|].
  split; [by rewrite length_app, Hh|]. rewrite (Hp Hm He). unfold message_header.
  by rewrite wrap_small.
Qed.

(** Someipd offers what is configured. Once it is registered, it offers every
    configured local instance of every service type, each after all of its
    events, every event in at least one event group, and no service that is not
    configured. *)
Theorem offerings_complete l actions :
  setup_offerings l = Done actions →
  (∀ t i, t ∈ l → i ∈ default [] (local_service_instances t) →
    ∃ es a1 a2, events t = Some es ∧
      actions = a1 ++
        ((λ e, Vsomeip_offer_event (st_service_id t) (instance_id i) (event_id e)
           (event_groups e)) <$> es) ++
        Vsomeip_offer_service (st_service_id t) (instance_id i) (service_version_major t) :: a2) ∧
  (∀ e, event_groups e ≠ ∅) ∧
  (∀ s i m, Vsomeip_offer_service s i m ∈ actions →
    ∃ t inst, t ∈ l ∧ inst ∈ default [] (local_service_instances t) ∧
      st_service_id t = s ∧ instance_id inst = i ∧ service_version_major t = m).
Proof.
  intros Hs. split_and!.
  - intros t i (l1 & l2 & ->)%list_elem_of_split Hi.
    apply setup_offerings_app in Hs as (a1 & a & a2 & Ha & ->).
    unfold offer_service_type in Ha.
    destruct (local_service_instances t) as [[|i0 il]|]; [by apply elem_of_nil in Hi| |
      by apply elem_of_nil in Hi]. simpl in Hi.
    apply outcome_bind_Done in Ha as (es & Hes & Ha).
    assert (a = (i0 :: il) ≫= offer_instance t es) as -> by by injection Ha.
    apply list_elem_of_split in Hi as (il1 & il2 & E). rewrite E, bind_app, bind_cons.
    exists es, (a1 ++ (il1 ≫= offer_instance t es)), ((il2 ≫= offer_instance t es) ++ a2).
    unfold deref in Hes. destruct (events t); [|done]. split; [congruence|].
    unfold offer_instance at 2. rewrite <-!(assoc_L (++)). done.
  - apply event_groups_nonempty.
  - intros s i m. by apply offered_configured.
Qed.

(** ** Witnesses *)

Definition demo_vsomeip_message : Vsomeip_message :=
  {| vm_service := 4660; vm_client := 1; vm_session := 2; vm_protocol_version := 1;
     vm_interface_version := 1; vm_message_type := 2; vm_return_code := 0;
     vm_payload := [1; 2; 3]%N |}.

Lemma network_message_payload_witness : ∃ bytes,
  on_vsomeip_message 0 32769 (Some (replicate 24 0%N)) demo_vsomeip_message =
    Done [Update_connector 0 bytes] ∧ length bytes = 19.
Proof.
  pose proof (network_message_payload 0 32769 (replicate 24 0%N) demo_vsomeip_message) as H.
  rewrite decide_True in H by (simpl; lia).
  destruct H as (bytes & E & Hl & _); [|reflexivity|reflexivity|].
  - repeat split; reflexivity.
  - exists bytes. split; [exact E|exact Hl].
Defined.

Lemma offerings_complete_witness :
  ∃ actions, setup_offerings [demo_service_type] = Done actions ∧
    Vsomeip_offer_service 4660 7 1 ∈ actions.
Proof.
  eexists. split; [reflexivity|].
  destruct (proj1 (offerings_complete [demo_service_type] _ eq_refl) demo_service_type
    {| instance_specifier := "s"; instance_id := 7 |}) as (es & a1 & a2 & _ & E);
    [by left|by left|].
  rewrite E. apply elem_of_app. right. apply elem_of_app. right. by left.
Defined.
