(* ===== verification/StringRegistry.v ===== *)
(** * Interned strings

    [src/score/socom/impl/string_registry.cpp], [string_registry.hpp],
    [registry_string_view.hpp] and [service_interface_identifier.hpp]: the names of
    services and instances are views of strings that a registry keeps once, and two
    views are compared by address and length instead of by their characters. The
    other files treat names as plain strings; this one shows that they may
    ([interned_equality], [identifier_equality]).

    Memory is a map from addresses to characters. String literals lie in it from the
    start; the registry allocates the other strings past its end, each with the null
    character that [std::string] keeps behind its characters. An unordered set is the
    list of its elements in the order of iteration. *)

From stdpp Require Import base numbers list gmap strings.
From S2P Require Import Prelude.
From S2P Require Import IpcTypes.

(** ** Memory and views *)

Abbreviation Memory := (gmap N Ascii.ascii).
Definition nul : Ascii.ascii := Ascii.Ascii false false false false false false false false.

(** [std::string_view] and [Registry_string_view]. *)
Record String_view : Type := { sv_data : N; sv_length : nat }.

#[export] Instance String_view_eq_dec : EqDecision String_view.
Proof. solve_decision. Defined.

(** The [n] characters from address [p] on. *)
Fixpoint read (m : Memory) (p : N) (n : nat) : option (list Ascii.ascii) :=
  match n with
  | O => Some []
  | S n => c ← m !! p; l ← read m (p + 1) n; Some (c :: l)
  end.
Definition content (m : Memory) (v : String_view) : option (list Ascii.ascii) :=
  read m (sv_data v) (sv_length v).

(** The characters from address [p] up to a null character, as [std::string] reads a
    [char const*]. No string is longer than the memory. *)
Fixpoint c_string_upto (fuel : nat) (m : Memory) (p : N) : option (list Ascii.ascii) :=
  match fuel with
  | O => None
  | S fuel =>
    c ← m !! p;
    if decide (c = nul) then Some [] else l ← c_string_upto fuel m (p + 1); Some (c :: l)
  end.
Definition c_string (m : Memory) (p : N) : option (list Ascii.ascii) :=
  c_string_upto (S (size m)) m p.

(** Characters in a row. *)
Fixpoint store (m : Memory) (p : N) (l : list Ascii.ascii) : Memory :=
  match l with
  | [] => m
  | c :: l => store (<[p := c]> m) (p + 1) l
  end.

(** ** Comparison of views *)

(** [operator==] of [Registry_string_view]. *)
Definition view_eqb (lhs rhs : String_view) : bool :=
  (sv_data lhs =? sv_data rhs)%N && (sv_length lhs =? sv_length rhs).

(** The order of [std::string_view]. *)
Fixpoint chars_ltb (l r : list Ascii.ascii) : bool :=
  match l, r with
  | _, [] => false
  | [], _ :: _ => true
  | a :: l, b :: r =>
    let a := Ascii.N_of_ascii a in
    let b := Ascii.N_of_ascii b in
    if (a <? b)%N then true else if (b <? a)%N then false else chars_ltb l r
  end.

(** [operator<] of [Registry_string_view]: by characters. *)
Definition view_ltb (m : Memory) (lhs rhs : String_view) : bool :=
  match content m lhs, content m rhs with
  | Some l, Some r => chars_ltb l r
  | _, _ => false
  end.

(** [std::hash<Registry_string_view>]: of the address. *)
Definition view_hash (hash_intptr : N → N) (v : String_view) : N := hash_intptr (sv_data v).

(** ** The registry *)

Record String_registry : Type := {
  m_registered_strings : list String_view;
  m_dynamic_allocated : list String_view;
  memory : Memory;
  memory_end : N;
}.

(** The element of the set with these characters. *)
Fixpoint find_content (m : Memory) (s : list Ascii.ascii) (l : list String_view) :
    option String_view :=
  match l with
  | [] => None
  | v :: l => if decide (content m v = Some s) then Some v else find_content m s l
  end.

(** [std::find_if] with the predicate [entry.data() == new_string]. *)
Fixpoint find_c_string (m : Memory) (s : list Ascii.ascii) (l : list String_view) :
    outcome (option String_view) :=
  match l with
  | [] => Done None
  | v :: l =>
    match c_string m (sv_data v) with
    | None => Fault Out_of_bounds
    | Some t => if decide (t = s) then Done (Some v) else find_c_string m s l
    end
  end.

(** [std::unordered_set::insert]. *)
Definition set_insert (r : String_registry) (v : String_view) (s : list Ascii.ascii) :
    String_view * bool * String_registry :=
  match find_content (memory r) s (m_registered_strings r) with
  | Some w => (w, false, r)
  | None =>
    (v, true, {| m_registered_strings := v :: m_registered_strings r;
                 m_dynamic_allocated := m_dynamic_allocated r;
                 memory := memory r; memory_end := memory_end r |})
  end.

(** [m_dynamic_allocated.emplace_front]. *)
Definition allocate_string (r : String_registry) (s : list Ascii.ascii) :
    String_view * String_registry :=
  let v := {| sv_data := memory_end r; sv_length := length s |} in
  (v, {| m_registered_strings := m_registered_strings r;
         m_dynamic_allocated := v :: m_dynamic_allocated r;
         memory := store (memory r) (memory_end r) (s ++ [nul]);
         memory_end := memory_end r + N.of_nat (length s) + 1 |}).

(** [insert(std::string_view, Literal_tag)]; [s] are the characters of the view. *)
Definition insert_literal (r : String_registry) (new_string : String_view)
    (s : list Ascii.ascii) : String_view * bool * String_registry :=
  set_insert r new_string s.

(** [insert(std::string_view)]. *)
Definition insert_view (r : String_registry) (s : list Ascii.ascii) :
    String_view * bool * String_registry :=
  match find_content (memory r) s (m_registered_strings r) with
  | Some v => (v, false, r)
  | None => let '(v, r) := allocate_string r s in set_insert r v s
  end.

(** [insert(std::string&&)]. *)
Definition insert_string (r : String_registry) (s : list Ascii.ascii) :
    outcome (String_view * bool * String_registry) :=
  o ← find_c_string (memory r) s (m_registered_strings r);
  mret match o with
       | Some v => (v, false, r)
       | None => let '(v, r) := allocate_string r s in set_insert r v s
       end.

(** ** Identifiers *)

(** [Service_interface_identifier]: the name is a view. *)
Record Interface_identifier : Type := { ii_id : String_view; ii_version : Version }.
(** [Service_instance_identifier]. *)
Record Service_instance_identifier : Type := {
  sid_interface : Interface_identifier;
  sid_instance : String_view;
}.

(** [std::tie(a, b) < std::tie(c, d)]. *)
Definition tie_ltb {A B} (ltA : A → A → bool) (ltB : B → B → bool) (l r : A * B) : bool :=
  ltA l.1 r.1 || (negb (ltA r.1 l.1) && ltB l.2 r.2).

Definition Version_eqb (lhs rhs : Version) : bool :=
  (major lhs =? major rhs)%N && (minor lhs =? minor rhs)%N.
Definition Version_ltb (lhs rhs : Version) : bool :=
  tie_ltb N.ltb N.ltb (major lhs, minor lhs) (major rhs, minor rhs).

Definition identifier_eqb (lhs rhs : Interface_identifier) : bool :=
  view_eqb (ii_id lhs) (ii_id rhs) && Version_eqb (ii_version lhs) (ii_version rhs).
Definition identifier_ltb (m : Memory) (lhs rhs : Interface_identifier) : bool :=
  tie_ltb (view_ltb m) Version_ltb (ii_id lhs, ii_version lhs) (ii_id rhs, ii_version rhs).
Definition identifier_hash (hash_intptr hash_u16 : N → N) (i : Interface_identifier) : N :=
  let h1 := view_hash hash_intptr (ii_id i) in
  let h2 := hash_u16 (major (ii_version i)) in
  let h3 := hash_u16 (minor (ii_version i)) in
  N.lxor (N.lxor h1 (wrap64 (N.shiftl h2 1))) (wrap64 (N.shiftl h3 2)).

Definition instance_identifier_ltb (m : Memory) (lhs rhs : Service_instance_identifier) : bool :=
  tie_ltb (view_ltb m) (identifier_ltb m) (sid_instance lhs, sid_interface lhs)
    (sid_instance rhs, sid_interface rhs).

(** ** Interface definitions *)

(** [Num_of_events] and [Num_of_methods] are 16 bits wide: larger counts lose their upper
    half. *)
Definition to_num_of_events (value : N) : N := wrap16 value.
Definition to_num_of_methods (value : N) : N := wrap16 value.

Record Service_interface_definition : Type := {
  def_interface : Interface_identifier;
  def_num_methods : N;
  def_num_events : N;
}.

#[export] Instance Interface_identifier_eq_dec : EqDecision Interface_identifier.
Proof. solve_decision. Defined.
#[export] Instance Service_interface_definition_eq_dec : EqDecision Service_interface_definition.
Proof. solve_decision. Defined.

Definition make_definition (sif : Interface_identifier) (num_of_methods num_of_events : N) :
    Service_interface_definition :=
  {| def_interface := sif; def_num_methods := num_of_methods; def_num_events := num_of_events |}.
(** A client's definition without members. *)
Definition bare_definition (sif : Interface_identifier) : Service_interface_definition :=
  {| def_interface := sif; def_num_methods := 0; def_num_events := 0 |}.

Definition definition_ltb (m : Memory) (lhs rhs : Service_interface_definition) : bool :=
  identifier_ltb m (def_interface lhs) (def_interface rhs).

(** Definitions of one interface are expected to have the same members. *)
Definition definition_eqb (m : Memory) (lhs rhs : Service_interface_definition) : outcome bool :=
  let is_equal := negb (definition_ltb m lhs rhs) && negb (definition_ltb m rhs lhs) in
  if negb is_equal || ((def_num_events lhs =? def_num_events rhs)%N &&
                       (def_num_methods lhs =? def_num_methods rhs)%N)
  then Done is_equal else Fault Assertion_failed.

(** ** Reading and writing memory *)

Lemma read_snoc m p s c :
  read m p (length (s ++ [c])) = Some (s ++ [c]) →
  read m p (length s) = Some s ∧ m !! (p + N.of_nat (length s))%N = Some c.
Proof.
  revert p. induction s as [|a s IH]; intros p; simpl.
  { intros (c' & Hc & [= ->])%bind_Some. by rewrite N.add_0_r. }
  intros (c' & Hc & (l & Hr & [= -> ->])%bind_Some)%bind_Some.
  apply IH in Hr as [Hr Hn]. split.
  - rewrite Hc. simpl. by rewrite Hr.
  - rewrite <-Hn. f_equal. lia.
Qed.

Lemma read_length m p n l : read m p n = Some l → length l = n.
Proof.
  revert p l. induction n as [|n IH]; intros p l; simpl; [by intros [= <-]|].
  intros (c & _ & (l' & H & [= <-])%bind_Some)%bind_Some. simpl. by rewrite (IH _ _ H).
Qed.

Lemma read_mono m m' p n l : m ⊆ m' → read m p n = Some l → read m' p n = Some l.
Proof.
  intros Hm. revert p l. induction n as [|n IH]; intros p l; simpl; [done|].
  intros (c & Hc & (l' & H & [= <-])%bind_Some)%bind_Some.
  rewrite (lookup_weaken _ _ _ _ Hc Hm). simpl. by rewrite (IH _ _ H).
Qed.

Lemma content_mono m m' v s : m ⊆ m' → content m v = Some s → content m' v = Some s.
Proof. apply read_mono. Qed.

Lemma store_subseteq m p l :
  (∀ a, is_Some (m !! a) → (a < p)%N) → m ⊆ store m p l.
Proof.
  revert m p. induction l as [|c l IH]; intros m p Hm; simpl; [done|].
  transitivity (<[p := c]> m).
  - apply insert_subseteq. apply eq_None_not_Some. intros H. apply Hm in H. lia.
  - apply IH. intros a [x Hx]. apply lookup_insert_Some in Hx as [[<- _]|[_ Hx]]; [lia|].
    assert (a < p)%N by eauto. lia.
Qed.

Lemma store_end m p l a :
  (∀ a, is_Some (m !! a) → (a < p)%N) → is_Some (store m p l !! a) →
  (a < p + N.of_nat (length l))%N.
Proof.
  revert m p. induction l as [|c l IH]; intros m p Hm Ha; simpl in *.
  { apply Hm in Ha. lia. }
  apply IH in Ha; [lia|]. intros b [x Hx].
  apply lookup_insert_Some in Hx as [[<- _]|[_ Hx]]; [lia|]. assert (b < p)%N by eauto. lia.
Qed.

Lemma read_store m p l :
  (∀ a, is_Some (m !! a) → (a < p)%N) → read (store m p l) p (length l) = Some l.
Proof.
  revert m p. induction l as [|c l IH]; intros m p Hm; simpl; [done|].
  assert (∀ a, is_Some (<[p := c]> m !! a) → (a < p + 1)%N) as Hm'.
  { intros b [x Hx]. apply lookup_insert_Some in Hx as [[<- _]|[_ Hx]]; [lia|].
    assert (b < p)%N by eauto. lia. }
  rewrite (lookup_weaken (<[p := c]> m) _ p c); [|by rewrite lookup_insert_eq|].
  2:{ by apply store_subseteq. }
  simpl. by rewrite IH.
Qed.

(** A string takes its place in memory. *)
Lemma read_size m p n l : read m p n = Some l → n ≤ size m.
Proof.
  revert m p l. induction n as [|n IH]; intros m p l; simpl; [lia|].
  intros (c & Hc & (l' & H & [= <-])%bind_Some)%bind_Some.
  assert (read (delete p m) (p + 1) n = Some l') as H'.
  { assert (∀ k q l, (p < q)%N → read m q k = Some l → read (delete p m) q k = Some l) as Hd.
    { clear. induction k as [|k IHk]; intros q l Hq; simpl; [done|].
      intros (c & Hc & (l' & H & [= <-])%bind_Some)%bind_Some.
      rewrite lookup_delete_ne by lia. rewrite Hc. simpl.
      by rewrite (IHk (q + 1)%N l') by (done || lia). }
    apply Hd; [lia|done]. }
  apply IH in H'. rewrite map_size_delete_Some in H' by eauto.
  assert (size m ≠ 0) by (rewrite map_size_ne_0_lookup; eauto). lia.
Qed.

(** A string without a null character that ends in one is read back. *)
Lemma c_string_read m p n s :
  read m p n = Some s → nul ∉ s → m !! (p + N.of_nat n)%N = Some nul → c_string m p = Some s.
Proof.
  intros Hr Hs Hn.
  assert (∀ fuel q k l, k < fuel → read m q k = Some l → nul ∉ l →
    m !! (q + N.of_nat k)%N = Some nul → c_string_upto fuel m q = Some l) as Hgo.
  { clear. induction fuel as [|fuel IH]; intros q k l Hk Hr Hl Hn; [lia|]. simpl.
    destruct k as [|k]; simpl in Hr.
    - injection Hr as <-. rewrite N.add_0_r in Hn. by rewrite Hn.
    - apply bind_Some in Hr as (c & Hc & (l' & Hr & [= <-])%bind_Some). rewrite Hc. simpl.
      apply not_elem_of_cons in Hl as [Hcn Hl]. rewrite decide_False by done.
      rewrite (IH (q + 1)%N k l'); [done|lia|done|done|].
      by replace (q + 1 + N.of_nat k)%N with (q + N.of_nat (S k))%N by lia. }
  apply (Hgo _ _ n); try done. apply read_size in Hr. lia.
Qed.

(** ** The registry keeps each string once *)

Lemma find_content_Some m s l v :
  find_content m s l = Some v → v ∈ l ∧ content m v = Some s.
Proof.
  induction l as [|w l IH]; simpl; [done|]. case_decide as E.
  - intros [= <-]. split; [left|done].
  - intros H. apply IH in H as [??]. split; [by right|done].
Qed.

Lemma find_content_None m s l :
  find_content m s l = None → ∀ v, v ∈ l → content m v ≠ Some s.
Proof.
  induction l as [|w l IH]; simpl; [set_solver|]. case_decide as E; [done|].
  intros H v Hv. apply elem_of_cons in Hv as [->|Hv]; [done|]. by apply IH.
Qed.

(** Well-formed registries: the strings can be read, end in a null character and have
    none inside, and no two entries have the same characters. *)
Record registry_ok (r : String_registry) : Prop := {
  ro_end : ∀ a, is_Some (memory r !! a) → (a < memory_end r)%N;
  ro_plain : ∀ v, v ∈ m_registered_strings r → ∃ s, content (memory r) v = Some s ∧
    (nul ∉ s) ∧ memory r !! (sv_data v + N.of_nat (sv_length v))%N = Some nul;
  ro_unique : ∀ v w s, v ∈ m_registered_strings r → w ∈ m_registered_strings r →
    content (memory r) v = Some s → content (memory r) w = Some s → v = w;
}.

(** A view of a null-terminated string in memory without a null character inside. *)
Definition plain_view (m : Memory) (v : String_view) (s : list Ascii.ascii) : Prop :=
  content m v = Some s ∧ (nul ∉ s) ∧ m !! (sv_data v + N.of_nat (sv_length v))%N = Some nul.

Lemma plain_view_mono m m' v s : m ⊆ m' → plain_view m v s → plain_view m' v s.
Proof.
  intros Hm (H1 & H2 & H3). split_and!; [by eapply content_mono|done|].
  by eapply lookup_weaken.
Qed.

(** Every insertion keeps the strings that are there, and yields an entry with the
    characters asked for. *)
Definition inserted (r r' : String_registry) (v : String_view) (s : list Ascii.ascii) : Prop :=
  registry_ok r' ∧ memory r ⊆ memory r' ∧ m_registered_strings r ⊆ m_registered_strings r' ∧
  v ∈ m_registered_strings r' ∧ content (memory r') v = Some s.

Lemma set_insert_ok r v s w b r' :
  registry_ok r → plain_view (memory r) v s → set_insert r v s = (w, b, r') →
  inserted r r' w s ∧ (b = true ↔ find_content (memory r) s (m_registered_strings r) = None).
Proof.
  intros [He Hp Hu] Hv. unfold set_insert.
  destruct (find_content _ _ _) as [x|] eqn:E; intros [= <- <- <-].
  - apply find_content_Some in E as [Hx Hs]. by split.
  - pose proof (find_content_None _ _ _ E) as Hnone. split; [|done].
    destruct Hv as (Hv1 & Hv2 & Hv3). split_and!; simpl; [|done|set_solver|left|done].
    split; simpl; [done|..].
    + intros y Hy. apply elem_of_cons in Hy as [->|Hy]; [by exists s|by apply Hp].
    + intros y z t Hy Hz Hyt Hzt. apply elem_of_cons in Hy as [->|Hy];
        apply elem_of_cons in Hz as [->|Hz]; [done|..].
      * rewrite Hv1 in Hyt. injection Hyt as <-. by destruct (Hnone z Hz).
      * rewrite Hv1 in Hzt. injection Hzt as <-. by destruct (Hnone y Hy).
      * by apply (Hu y z t).
Qed.

Lemma allocate_string_ok r s v r' :
  registry_ok r → nul ∉ s → allocate_string r s = (v, r') →
  registry_ok r' ∧ memory r ⊆ memory r' ∧ m_registered_strings r' = m_registered_strings r ∧
  plain_view (memory r') v s.
Proof.
  intros [He Hp Hu] Hs [= <- <-].
  assert (memory r ⊆ store (memory r) (memory_end r) (s ++ [nul])) as Hm
    by by apply store_subseteq.
  pose proof (read_store (memory r) (memory_end r) (s ++ [nul]) He) as Hr.
  apply read_snoc in Hr as [Hr Hn]. split_and!; simpl; try done. split; simpl.
  - intros a Ha. apply store_end in Ha; [|done]. rewrite length_app in Ha. simpl in Ha. lia.
  - intros w Hw. destruct (Hp w Hw) as (t & Ht). exists t. by eapply plain_view_mono.
  - intros w x t Hw Hx Hwt Hxt. destruct (Hp w Hw) as (tw & Hw' & _).
    destruct (Hp x Hx) as (tx & Hx' & _). apply (Hu w x t); try done.
    + by rewrite Hw', <-Hwt, (content_mono _ _ _ _ Hm Hw').
    + by rewrite Hx', <-Hxt, (content_mono _ _ _ _ Hm Hx').
Qed.

Lemma inserted_trans r0 r r' v s :
  memory r0 ⊆ memory r → m_registered_strings r = m_registered_strings r0 →
  inserted r r' v s → inserted r0 r' v s.
Proof.
  intros Hm Hr (H1 & H2 & H3 & H4 & H5). rewrite Hr in H3.
  split_and!; try done. by transitivity (memory r).
Qed.

Lemma inserted_here r v s :
  registry_ok r → v ∈ m_registered_strings r → content (memory r) v = Some s → inserted r r v s.
Proof. intros. by split_and!. Qed.

Lemma allocate_insert_ok r s v b r' :
  registry_ok r → nul ∉ s → (let '(v, r) := allocate_string r s in set_insert r v s) = (v, b, r') →
  inserted r r' v s.
Proof.
  intros Hok Hs. destruct (allocate_string r s) as [w r1] eqn:E. intros Ei.
  destruct (allocate_string_ok r s w r1 Hok Hs E) as (Hok1 & Hm & Hr & Hv).
  apply (inserted_trans r r1); [done|done|]. by apply (set_insert_ok r1 w s v b r').
Qed.

Lemma insert_view_ok r s v b r' :
  registry_ok r → nul ∉ s → insert_view r s = (v, b, r') → inserted r r' v s.
Proof.
  intros Hok Hs. unfold insert_view. destruct (find_content _ _ _) as [w|] eqn:E.
  - intros [= <- <- <-]. apply find_content_Some in E as [??]. by apply inserted_here.
  - by apply allocate_insert_ok.
Qed.

(** In a well-formed registry the comparison with C strings finds what the
    comparison of characters finds. *)
Lemma find_c_string_content r s :
  registry_ok r →
  find_c_string (memory r) s (m_registered_strings r) =
    Done (find_content (memory r) s (m_registered_strings r)).
Proof.
  intros [_ Hp _]. induction (m_registered_strings r) as [|v l IH]; [done|]. simpl.
  destruct (Hp v) as (t & Ht & Hn & Hz); [left|]. rewrite (c_string_read _ _ _ t) by done.
  rewrite IH by (intros w Hw; apply Hp; by right).
  destruct (decide (t = s)) as [->|Hne]; destruct (decide (content (memory r) v = Some s));
    try done; congruence.
Qed.

Lemma insert_string_ok r s :
  registry_ok r → nul ∉ s →
  ∃ v b r', insert_string r s = Done (v, b, r') ∧ inserted r r' v s ∧
    insert_view r s = (v, b, r').
Proof.
  intros Hok Hs. unfold insert_string. rewrite find_c_string_content by done. simpl.
  destruct (insert_view r s) as [[v b] r'] eqn:E. exists v, b, r'.
  pose proof (insert_view_ok r s v b r' Hok Hs E) as Hi. unfold insert_view in E.
  by destruct (find_content _ _ _); rewrite <-E.
Qed.

(** ** Runs of a registry *)

(** The registry after any insertions of plain strings, with the strings and the
    views that were handed out for them. *)
Inductive registry_run : String_registry → list (list Ascii.ascii * String_view) → Prop :=
  | registry_start m n :
      (∀ a, is_Some (m !! a) → (a < n)%N) →
      registry_run {| m_registered_strings := []; m_dynamic_allocated := [];
                      memory := m; memory_end := n |} []
  | registry_literal r log v s w b r' :
      registry_run r log → plain_view (memory r) v s → insert_literal r v s = (w, b, r') →
      registry_run r' ((s, w) :: log)
  | registry_view r log s w b r' :
      registry_run r log → nul ∉ s → insert_view r s = (w, b, r') →
      registry_run r' ((s, w) :: log)
  | registry_string r log s w b r' :
      registry_run r log → nul ∉ s → insert_string r s = Done (w, b, r') →
      registry_run r' ((s, w) :: log).

Lemma registry_run_ok r log :
  registry_run r log →
  registry_ok r ∧ Forall (λ e, e.2 ∈ m_registered_strings r ∧
    content (memory r) e.2 = Some e.1) log.
Proof.
  assert (∀ r r' log s w, inserted r r' w s →
    Forall (λ e, e.2 ∈ m_registered_strings r ∧ content (memory r) e.2 = Some e.1) log →
    Forall (λ e, e.2 ∈ m_registered_strings r' ∧ content (memory r') e.2 = Some e.1)
      ((s, w) :: log)) as Hstep.
  { intros r0 r' log0 s w (_ & Hm & Hr & Hw & Hs) Hlog. constructor; [done|].
    eapply Forall_impl; [apply Hlog|]. intros [t x] [Hx Ht]. split; [by apply Hr|].
    by eapply content_mono. }
  induction 1 as [m n Hm|r log v s w b r' _ [Hok Hlog] Hv E|r log s w b r' _ [Hok Hlog] Hs E
    |r log s w b r' _ [Hok Hlog] Hs E].
  - split; [|constructor]. split; simpl; [done|set_solver|set_solver].
  - destruct (set_insert_ok r v s w b r' Hok Hv E) as [Hi _]. split; [apply Hi|].
    by eapply Hstep.
  - pose proof (insert_view_ok r s w b r' Hok Hs E) as Hi. split; [apply Hi|]. by eapply Hstep.
  - destruct (insert_string_ok r s Hok Hs) as (v0 & b0 & r0 & E0 & Hi & _).
    rewrite E in E0. injection E0 as <- <- <-. split; [apply Hi|]. by eapply Hstep.
Qed.

Lemma view_eqb_eq v w : view_eqb v w = true ↔ v = w.
Proof.
  unfold view_eqb. rewrite andb_true_iff, N.eqb_eq, Nat.eqb_eq. destruct v, w; simpl.
  split; [by intros [-> ->]|by intros [= -> ->]].
Qed.

(** Views of one registry are equal, by address and length, exactly if they were
    handed out for the same characters; and a view keeps its characters for ever. The
    three ways to insert a string agree. *)
Theorem interned_equality r log s1 v1 s2 v2 :
  registry_run r log → (s1, v1) ∈ log → (s2, v2) ∈ log →
  (view_eqb v1 v2 = true ↔ s1 = s2) ∧ content (memory r) v1 = Some s1.
Proof.
  intros Hrun H1 H2. destruct (registry_run_ok r log Hrun) as [Hok Hlog].
  rewrite Forall_forall in Hlog. destruct (Hlog _ H1) as [Hv1 Hs1].
  destruct (Hlog _ H2) as [Hv2 Hs2]. simpl in *. split; [|done]. rewrite view_eqb_eq. split.
  - intros ->. congruence.
  - intros ->. by apply (ro_unique r Hok v1 v2 s2).
Qed.

(** ** Order *)

(** What [std::map] and [std::set] need of a comparison: it is transitive, and keys
    of which none is smaller are the same key. *)
Record strict_order {A} (lt : A → A → bool) (P : A → Prop) : Prop := {
  so_trans : ∀ x y z, P x → P y → P z → lt x y = true → lt y z = true → lt x z = true;
  so_irrefl : ∀ x, P x → lt x x = false;
  so_total : ∀ x y, P x → P y → lt x y = false → lt y x = false → x = y;
}.

Lemma tie_order {A B} (ltA : A → A → bool) (ltB : B → B → bool) P Q :
  strict_order ltA P → strict_order ltB Q →
  strict_order (tie_ltb ltA ltB) (λ x, P x.1 ∧ Q x.2).
Proof.
  intros [tA iA eA] [tB iB eB]. unfold tie_ltb. split.
  - intros [x1 x2] [y1 y2] [z1 z2] [Px Qx] [Py Qy] [Pz Qz]. simpl in *.
    destruct (ltA x1 y1) eqn:Exy, (ltA y1 z1) eqn:Eyz; simpl; intros H1 H2.
    + by rewrite (tA x1 y1 z1).
    + apply andb_true_iff in H2 as [H2 _]. apply negb_true_iff in H2.
      rewrite <-(eA y1 z1) by done. by rewrite Exy.
    + apply andb_true_iff in H1 as [H1 _]. apply negb_true_iff in H1.
      rewrite (eA x1 y1) by done. by rewrite Eyz.
    + apply andb_true_iff in H1 as [H1 ?], H2 as [H2 ?]. apply negb_true_iff in H1, H2.
      rewrite (eA x1 y1), (eA y1 z1) by done. rewrite iA by done. simpl. by apply (tB x2 y2 z2).
  - intros [x1 x2] [Px Qx]. simpl in *. rewrite iA, iB by done. done.
  - intros [x1 x2] [y1 y2] [Px Qx] [Py Qy]. simpl in *.
    destruct (ltA x1 y1) eqn:Exy, (ltA y1 x1) eqn:Eyx; simpl; try done.
    intros H1 H2. f_equal; [by apply eA|by apply eB].
Qed.

Lemma chars_order : strict_order chars_ltb (λ _, True).
Proof.
  assert (∀ a b, (Ascii.N_of_ascii a <? Ascii.N_of_ascii b)%N = false →
    (Ascii.N_of_ascii b <? Ascii.N_of_ascii a)%N = false → a = b) as Htot.
  { intros a b ?%N.ltb_ge ?%N.ltb_ge. rewrite <-(Ascii.ascii_N_embedding a).
    rewrite <-(Ascii.ascii_N_embedding b). f_equal. lia. }
  split.
  - intros x y z _ _ _. revert y z. induction x as [|a x IH]; intros [|b y] [|c z]; simpl;
      try done.
    destruct (N.ltb_spec (Ascii.N_of_ascii a) (Ascii.N_of_ascii b)),
      (N.ltb_spec (Ascii.N_of_ascii b) (Ascii.N_of_ascii a)),
      (N.ltb_spec (Ascii.N_of_ascii b) (Ascii.N_of_ascii c)),
      (N.ltb_spec (Ascii.N_of_ascii c) (Ascii.N_of_ascii b)),
      (N.ltb_spec (Ascii.N_of_ascii a) (Ascii.N_of_ascii c)),
      (N.ltb_spec (Ascii.N_of_ascii c) (Ascii.N_of_ascii a)); try done; try lia. apply IH.
  - intros x _. induction x as [|a x IH]; simpl; [done|]. by rewrite N.ltb_irrefl.
  - intros x y _ _. revert y. induction x as [|a x IH]; intros [|b y]; simpl; try done.
    destruct (Ascii.N_of_ascii a <? Ascii.N_of_ascii b)%N eqn:E1; [done|].
    destruct (Ascii.N_of_ascii b <? Ascii.N_of_ascii a)%N eqn:E2; [done|].
    intros H1 H2. rewrite (Htot a b) by done. f_equal. by apply IH.
Qed.

Lemma Version_order : strict_order Version_ltb (λ _, True).
Proof.
  assert (strict_order N.ltb (λ _, True)) as HN.
  { split.
    - intros x y z _ _ _ ?%N.ltb_lt ?%N.ltb_lt. apply N.ltb_lt. lia.
    - intros x _. apply N.ltb_irrefl.
    - intros x y _ _ ?%N.ltb_ge ?%N.ltb_ge. lia. }
  destruct (tie_order _ _ _ _ HN HN) as [H1 H2 H3]. unfold Version_ltb. split.
  - intros x y z _ _ _. by apply H1.
  - intros x _. by apply H2.
  - intros [a b] [c d] _ _ E1 E2. simpl in *. by specialize (H3 (a, b) (c, d) (conj I I) (conj I I)
      E1 E2) as [= -> ->].
Qed.

(** The views of a registry, ordered by their characters. *)
Lemma view_order r : registry_ok r →
  strict_order (view_ltb (memory r)) (λ v, v ∈ m_registered_strings r).
Proof.
  intros [_ Hp Hu]. destruct chars_order as [H1 H2 H3]. unfold view_ltb. split.
  - intros x y z Hx Hy Hz. destruct (Hp x Hx) as (? & -> & _), (Hp y Hy) as (? & -> & _),
      (Hp z Hz) as (? & -> & _). by apply H1.
  - intros x Hx. destruct (Hp x Hx) as (? & -> & _). by apply H2.
  - intros x y Hx Hy. destruct (Hp x Hx) as (s & Es & _), (Hp y Hy) as (t & Et & _).
    rewrite Es, Et. intros E1 E2. apply (Hu x y s); try done.
    by rewrite (H3 s t I I E1 E2).
Qed.

(** ** Identifiers as plain strings *)

(** The identifier that the other files use for it. *)
Definition denote (m : Memory) (i : Interface_identifier) : option Service_interface_identifier :=
  s ← content m (ii_id i); Some {| sii_id := string_of s; sii_version := ii_version i |}.

Definition registered (r : String_registry) (i : Interface_identifier) : Prop :=
  ii_id i ∈ m_registered_strings r.

Lemma Version_eqb_eq v w : Version_eqb v w = true ↔ v = w.
Proof.
  unfold Version_eqb. rewrite andb_true_iff, !N.eqb_eq. destruct v, w; simpl.
  split; [by intros [-> ->]|by intros [= -> ->]].
Qed.

Lemma identifier_eqb_eq i j : identifier_eqb i j = true ↔ i = j.
Proof.
  unfold identifier_eqb. rewrite andb_true_iff, view_eqb_eq, Version_eqb_eq.
  destruct i, j; simpl. split; [by intros [-> ->]|by intros [= -> ->]].
Qed.

(** Unordered containers need equal identifiers to have the same hash. *)
Lemma identifier_hash_eq hash_intptr hash_u16 i j :
  identifier_eqb i j = true →
  identifier_hash hash_intptr hash_u16 i = identifier_hash hash_intptr hash_u16 j.
Proof. by intros ->%identifier_eqb_eq. Qed.

(** The order tells the identifiers of a registry apart. *)
Lemma identifier_order r : registry_ok r →
  ∀ i j, registered r i → registered r j →
  identifier_ltb (memory r) i j = false ∧ identifier_ltb (memory r) j i = false ↔ i = j.
Proof.
  intros Hok i j Hi Hj. unfold identifier_ltb.
  destruct (tie_order _ _ _ _ (view_order r Hok) Version_order) as [_ H2 H3]. split.
  - intros [E1 E2].
    specialize (H3 (ii_id i, ii_version i) (ii_id j, ii_version j) (conj Hi I) (conj Hj I) E1 E2).
    destruct i, j. simpl in *. congruence.
  - intros ->. by rewrite H2.
Qed.

(** Comparing the definitions of a registry's interfaces: equality is the interfaces',
    and the assertion fails exactly for one interface with different members. *)
Lemma definition_eqb_spec r d e :
  registry_ok r → registered r (def_interface d) → registered r (def_interface e) →
  definition_eqb (memory r) d e =
    if decide (def_interface d = def_interface e) then
      if decide (d = e) then Done true else Fault Assertion_failed
    else Done false.
Proof.
  intros Hok Hd He. pose proof (identifier_order r Hok _ _ Hd He) as Ho.
  unfold definition_eqb, definition_ltb. case_decide as Hi.
  - destruct (proj2 Ho Hi) as [-> ->]. simpl. destruct d as [i a b], e as [j c f]. simpl in *.
    subst j.
    destruct (N.eqb_spec b f) as [->|]; [|by rewrite decide_False by congruence].
    destruct (N.eqb_spec a c) as [->|]; simpl; [by rewrite decide_True|].
    by rewrite decide_False by congruence.
  - destruct (identifier_ltb _ _ _); [done|]. destruct (identifier_ltb _ _ _); [done|].
    by destruct Hi, Ho as [Ho _]; apply Ho.
Qed.

(** The lexicographic order of names, by the codes of the characters: a name comes before
    another one if it is a proper prefix, or if the first characters that differ are in
    this order. *)
Definition name_lt (s t : list Ascii.ascii) : Prop :=
  ∃ p, (∃ c l, s = p ∧ t = p ++ c :: l) ∨
       (∃ a l b l', s = p ++ a :: l ∧ t = p ++ b :: l' ∧
          (Ascii.N_of_ascii a < Ascii.N_of_ascii b)%N).

(** Versions in the order of their numbers, the major one first. *)
Definition version_lt (v w : Version) : Prop :=
  (major v < major w)%N ∨ major v = major w ∧ (minor v < minor w)%N.

Lemma name_lt_cons a s t : name_lt s t → name_lt (a :: s) (a :: t).
Proof.
  intros (p & [(c & l & -> & ->)|(x & l & y & l' & -> & -> & Hxy)]); exists (a :: p).
  - left. by exists c, l.
  - right. by exists x, l, y, l'.
Qed.

Lemma chars_ltb_spec s t : chars_ltb s t = true ↔ name_lt s t.
Proof.
  split.
  - revert t. induction s as [|a s IH]; intros [|b t]; simpl; try done.
    { intros _. exists []. left. by exists b, t. }
    destruct (N.ltb_spec (Ascii.N_of_ascii a) (Ascii.N_of_ascii b)) as [Hab|Hab].
    { intros _. exists []. right. by exists a, s, b, t. }
    destruct (N.ltb_spec (Ascii.N_of_ascii b) (Ascii.N_of_ascii a)) as [Hba|Hba]; [done|].
    assert (a = b) as ->.
    { rewrite <-(Ascii.ascii_N_embedding a), <-(Ascii.ascii_N_embedding b). f_equal. lia. }
    intros H. by apply name_lt_cons, IH.
  - intros (p & H). revert s t H. induction p as [|x p IH]; intros s t H.
    + destruct H as [(c & l & -> & ->)|(a & l & b & l' & -> & -> & Hab)]; simpl; [done|].
      by rewrite (proj2 (N.ltb_lt _ _) Hab).
    + destruct H as [(c & l & -> & ->)|(a & l & b & l' & -> & -> & Hab)]; simpl;
        rewrite N.ltb_irrefl; apply IH; [left; by exists c, l|right; by exists a, l, b, l'].
Qed.

Lemma Version_ltb_spec v w : Version_ltb v w = true ↔ version_lt v w.
Proof.
  unfold Version_ltb, tie_ltb, version_lt. simpl.
  rewrite orb_true_iff, andb_true_iff, negb_true_iff, !N.ltb_lt, N.ltb_ge. lia.
Qed.

(** C35: identifiers whose names come from the registry behave as pairs of a plain
    string and a version, although the names are compared by address. The names are those
    that were given to the registry by any insertions of strings without a null character.
    The identifiers compare equal exactly if the names have the same characters and the
    versions are the same, and [operator<] is the lexicographic order: by the names,
    character by character, then by the major and then by the minor version. *)
Theorem identifier_equality r log s v t w vs vt :
  registry_run r log → (s, v) ∈ log → (t, w) ∈ log →
  let i := {| ii_id := v; ii_version := vs |} in
  let j := {| ii_id := w; ii_version := vt |} in
  (identifier_eqb i j = true ↔ s = t ∧ vs = vt) ∧
  (identifier_ltb (memory r) i j = true ↔ name_lt s t ∨ s = t ∧ version_lt vs vt) ∧
  denote (memory r) i = Some {| sii_id := string_of s; sii_version := vs |}.
Proof.
  intros Hrun Hs Ht i j. destruct (interned_equality r log s v t w Hrun Hs Ht) as [He Hc].
  destruct (interned_equality r log t w s v Hrun Ht Hs) as [_ Hc'].
  assert (chars_ltb s t = false → chars_ltb t s = false ↔ s = t) as Htot.
  { intros E. destruct chars_order as [_ Hi Htot]. split; [by apply Htot|].
    intros ->. by apply Hi. }
  split_and!.
  - unfold identifier_eqb. simpl. by rewrite andb_true_iff, He, Version_eqb_eq.
  - unfold identifier_ltb, tie_ltb, view_ltb. simpl. rewrite Hc, Hc'.
    rewrite orb_true_iff, andb_true_iff, negb_true_iff, Version_ltb_spec, <-chars_ltb_spec.
    destruct (chars_ltb s t) eqn:E; [naive_solver|]. rewrite Htot by done. naive_solver.
  - unfold denote. simpl. by rewrite Hc.
Qed.

(** ** Strings that are not plain *)

Lemma read_take m p n1 n2 l :
  read m p (n1 + n2) = Some l → read m p n1 = Some (take n1 l).
Proof.
  revert p l. induction n1 as [|n1 IH]; intros p l; simpl; [done|].
  intros (c & Hc & (l' & H & [= <-])%bind_Some)%bind_Some. rewrite Hc. simpl. by rewrite (IH _ _ H).
Qed.

Lemma read_lookup m p n l i c :
  read m p n = Some l → l !! i = Some c → m !! (p + N.of_nat i)%N = Some c.
Proof.
  revert p l i. induction n as [|n IH]; intros p l i; simpl; [by intros [= <-]|].
  intros (c' & Hc & (l' & H & [= <-])%bind_Some)%bind_Some Hi.
  destruct i as [|i]; simpl in Hi; [injection Hi as <-; by rewrite N.add_0_r|].
  rewrite <-(IH _ _ _ H Hi). f_equal. lia.
Qed.

(** A null character inside a name confuses the registry: after a name [s]
    followed by a null character and anything else, the name [s] given as a
    [std::string] is answered with the longer name. *)
Theorem null_character_conflates s t m n :
  (∀ a, is_Some (m !! a) → (a < n)%N) → nul ∉ s →
  let r0 := {| m_registered_strings := []; m_dynamic_allocated := [];
               memory := m; memory_end := n |} in
  let '(v, b, r) := insert_view r0 (s ++ nul :: t) in
  b = true ∧ insert_string r s = Done (v, false, r) ∧
  content (memory r) v = Some (s ++ nul :: t).
Proof.
  intros Hm Hs. simpl. unfold set_insert. simpl.
  pose proof (read_store m n ((s ++ nul :: t) ++ [nul]) Hm) as Hr.
  pose proof (read_snoc _ _ _ _ Hr) as [Hc _].
  assert (c_string (store m n ((s ++ nul :: t) ++ [nul])) n = Some s) as Hcs.
  { apply (c_string_read _ _ (length s)); [|done|].
    - rewrite length_app in Hc. rewrite (read_take _ _ _ _ _ Hc). by rewrite take_app_length.
    - apply (read_lookup _ _ _ _ _ _ Hc). by rewrite lookup_app_r, Nat.sub_diag by lia. }
  split_and!; [done| |done]. unfold insert_string. simpl. rewrite Hcs.
  by rewrite decide_True.
Qed.

(** ** Witnesses *)

(** A literal ["ab"] in memory, inserted in all three ways, and another name. *)
Definition a_chars : list Ascii.ascii := chars "ab".
Definition b_chars : list Ascii.ascii := chars "abc".
Definition sample_memory : Memory := store ∅ 0 (a_chars ++ [nul]).
Definition sample_view : String_view := {| sv_data := 0; sv_length := 2 |}.
Definition empty_registry : String_registry :=
  {| m_registered_strings := []; m_dynamic_allocated := [];
     memory := sample_memory; memory_end := 3 |}.
Definition literal_registry : String_registry :=
  (insert_literal empty_registry sample_view a_chars).2.
Definition sample_registry : String_registry := (insert_view literal_registry b_chars).2.
Definition sample_other : String_view := {| sv_data := 3; sv_length := 3 |}.

Lemma sample_memory_end a : is_Some (sample_memory !! a) → (a < 3)%N.
Proof.
  intros Ha. apply (store_end ∅ 0) in Ha; [simpl in Ha; lia|]. intros b []. done.
Qed.

Lemma sample_registry_run :
  registry_run sample_registry [(a_chars, sample_view); (b_chars, sample_other);
    (a_chars, sample_view)].
Proof.
  eapply (registry_string sample_registry _ _ _ false); [|by vm_compute; set_solver|reflexivity].
  eapply (registry_view literal_registry _ _ _ true); [|by vm_compute; set_solver|reflexivity].
  eapply (registry_literal empty_registry _ sample_view _ _ true); [|split_and!;
    [done| |done]|reflexivity].
  - apply registry_start, sample_memory_end.
  - vm_compute. set_solver.
Qed.

Lemma interned_equality_witness :
  (view_eqb sample_view sample_other = true ↔ a_chars = b_chars) ∧
  content (memory sample_registry) sample_view = Some a_chars.
Proof.
  apply (interned_equality sample_registry [(a_chars, sample_view); (b_chars, sample_other);
    (a_chars, sample_view)]).
  - apply sample_registry_run.
  - left.
  - right. left.
Defined.

(** The shorter name comes first, whatever the versions are. *)
Lemma identifier_equality_witness :
  let i := {| ii_id := sample_view; ii_version := {| major := 2; minor := 0 |} |} in
  let j := {| ii_id := sample_other; ii_version := {| major := 1; minor := 7 |} |} in
  identifier_eqb i j = false ∧ identifier_ltb (memory sample_registry) i j = true ∧
  (a_chars ≠ b_chars) ∧ name_lt a_chars b_chars.
Proof.
  destruct (identifier_equality sample_registry [(a_chars, sample_view); (b_chars, sample_other);
    (a_chars, sample_view)] a_chars sample_view b_chars sample_other {| major := 2; minor := 0 |}
    {| major := 1; minor := 7 |}) as (He & Hl & _).
  - apply sample_registry_run.
  - left.
  - right. left.
  - assert (name_lt a_chars b_chars) as Hlt.
    { exists a_chars. left. by eexists _, []. }
    split; [|split; [|split]]; [| |done|done].
    + apply not_true_iff_false. rewrite He. by intros [? _].
    + apply Hl. by left.
Defined.

Lemma null_character_conflates_witness :
  let '(v, b, r) := insert_view {| m_registered_strings := []; m_dynamic_allocated := [];
    memory := ∅; memory_end := 0 |} (a_chars ++ nul :: b_chars) in
  b = true ∧ insert_string r a_chars = Done (v, false, r) ∧
  content (memory r) v = Some (a_chars ++ nul :: b_chars).
Proof.
  apply (null_character_conflates a_chars b_chars ∅ 0).
  - intros a []. done.
  - vm_compute. set_solver.
Defined.
