(* ===== verification/Callbacks.v ===== *)
(** * Callbacks, scope guards and deadlock detection

    [src/score/socom/final_action.hpp], [impl/temporary_thread_id_add.cpp] and the
    life of a connector between its callbacks and its destructor
    ([impl/client_connector_impl.cpp], [impl/server_connector_impl.cpp]): a thread that
    calls a callback holds a token of the connector, and the destructor waits until no
    token is left. A destructor that runs inside a callback of its own connector would
    wait for itself; the detector finds exactly these. *)

From stdpp Require Import base numbers list gmap.
From S2P Require Import Prelude.

(** ** Final actions *)

(** Objects of class [Final_action]: the functor they hold, if any. Functors are
    numbered by their construction; [fa_runs] are the ones that have been called. *)
Record Final_actions : Type := {
  fa_objects : gmap N (option N);
  fa_runs : list N;
  fa_made : N;
}.

(** [Final_action(F f)]. *)
Definition fa_construct (id : N) (w : Final_actions) : Final_actions :=
  {| fa_objects := <[id := Some (fa_made w)]> (fa_objects w);
     fa_runs := fa_runs w; fa_made := fa_made w + 1 |}.

(** [Final_action(Final_action&& other)]: the other object is disarmed. *)
Definition fa_move (id other : N) (w : Final_actions) : Final_actions :=
  {| fa_objects := <[id := mjoin (fa_objects w !! other)]> (<[other := None]> (fa_objects w));
     fa_runs := fa_runs w; fa_made := fa_made w |}.

(** [execute()]: the functor is taken out of the object and called. *)
Definition fa_execute (id : N) (w : Final_actions) : Final_actions :=
  {| fa_objects := <[id := None]> (fa_objects w);
     fa_runs := fa_runs w ++ option_list (mjoin (fa_objects w !! id)); fa_made := fa_made w |}.

(** [~Final_action()]. *)
Definition fa_destroy (id : N) (w : Final_actions) : Final_actions :=
  let w := fa_execute id w in
  {| fa_objects := delete id (fa_objects w); fa_runs := fa_runs w; fa_made := fa_made w |}.

Inductive fa_step : Final_actions → Final_actions → Prop :=
  | fa_step_construct w id : fa_objects w !! id = None → fa_step w (fa_construct id w)
  | fa_step_move w id other :
      fa_objects w !! id = None → is_Some (fa_objects w !! other) → fa_step w (fa_move id other w)
  | fa_step_execute w id : is_Some (fa_objects w !! id) → fa_step w (fa_execute id w)
  | fa_step_destroy w id : is_Some (fa_objects w !! id) → fa_step w (fa_destroy id w).

Definition fa_init : Final_actions := {| fa_objects := ∅; fa_runs := []; fa_made := 0 |}.

(** How many objects hold functor [f], and how often it has been called. *)
Definition fa_holders (w : Final_actions) (f : N) : nat :=
  map_count (λ o, bool_decide (o = Some f)) (fa_objects w).
Definition fa_called (w : Final_actions) (f : N) : nat :=
  length (filter (λ g, g = f) (fa_runs w)).

(** ** The deadlock detector *)

Definition enter_callback (m_thread_ids : list N) (thread : N) : list N :=
  m_thread_ids ++ [thread].

(** [~Temporary_thread_id_add()]. *)
Definition leave_callback (m_thread_ids : list N) (thread : N) : outcome (list N) :=
  match list_find (λ id, id = thread) m_thread_ids with
  | Some (i, _) => Done (delete i m_thread_ids)
  | None => Fault Assertion_failed
  end.

Definition check_deadlock (m_thread_ids : list N) (thread : N) : outcome unit :=
  if decide (thread ∈ m_thread_ids) then Fault Aborted else Done tt.

(** ** A connector and the threads that use it *)

(** What a thread is doing with the connector: it holds a token and is about to call
    a callback; it is in a callback; it is in the destructor and waits. *)
Inductive Frame : Type := Holding | In_callback | Waiting.

#[export] Instance Frame_eq_dec : EqDecision Frame.
Proof. solve_decision. Defined.

Record Connector : Type := {
  cn_thread_ids : list N;             (* of the detector *)
  cn_stacks : gmap N (list Frame);    (* per thread, the innermost first *)
  cn_token : bool;                    (* [m_stop_block_token != nullptr] *)
  cn_destroyed : bool;
}.

Definition cn_stack (w : Connector) (t : N) : list Frame := default [] (cn_stacks w !! t).
Definition set_stack (w : Connector) (t : N) (l : list Frame) : gmap N (list Frame) :=
  <[t := l]> (cn_stacks w).

(** Somebody holds a token beside the connector itself. *)
Definition is_token (f : Frame) : bool :=
  match f with Holding | In_callback => true | Waiting => false end.
Definition tokens (w : Connector) : bool :=
  bool_decide (¬ map_Forall (λ _ l, existsb is_token l = false) (cn_stacks w)).

(** User code runs at the bottom of a thread and inside callbacks. *)
Definition runs_user_code (l : list Frame) : bool :=
  match l with [] | In_callback :: _ => true | _ => false end.
(** A thread that does not wait. *)
Definition is_running (l : list Frame) : bool :=
  match l with Waiting :: _ => false | _ => true end.

Inductive Connector_event : Type :=
  | Acquire (t : N)     (* an endpoint of the connector is locked *)
  | Enter (t : N)       (* [enter_callback], then the user's function *)
  | Leave (t : N)       (* it returns *)
  | Release (t : N)     (* the endpoint is dropped *)
  | Destroy (t : N)     (* the destructor up to its wait *)
  | Finish (t : N).     (* the wait ends *)

(** One event, [None] where it cannot happen. [detect] is the macro
    [WITH_SOCOM_DEADLOCK_DETECTION]. A weak token can be locked while the connector
    or somebody else holds a token. *)
Definition connector_step (detect : bool) (e : Connector_event) (w : Connector) :
    option (outcome Connector) :=
  match e with
  | Acquire t =>
    if is_running (cn_stack w t) && (cn_token w || tokens w) then
      Some (Done {| cn_thread_ids := cn_thread_ids w;
        cn_stacks := set_stack w t (Holding :: cn_stack w t);
        cn_token := cn_token w; cn_destroyed := cn_destroyed w |})
    else None
  | Enter t =>
    match cn_stack w t with
    | Holding :: l => Some (Done {| cn_thread_ids := enter_callback (cn_thread_ids w) t;
        cn_stacks := set_stack w t (In_callback :: l);
        cn_token := cn_token w; cn_destroyed := cn_destroyed w |})
    | _ => None
    end
  | Leave t =>
    match cn_stack w t with
    | In_callback :: l => Some (ids ← leave_callback (cn_thread_ids w) t;
        mret {| cn_thread_ids := ids; cn_stacks := set_stack w t (Holding :: l);
          cn_token := cn_token w; cn_destroyed := cn_destroyed w |})
    | _ => None
    end
  | Release t =>
    match cn_stack w t with
    | Holding :: l => Some (Done {| cn_thread_ids := cn_thread_ids w;
        cn_stacks := set_stack w t l;
        cn_token := cn_token w; cn_destroyed := cn_destroyed w |})
    | _ => None
    end
  | Destroy t =>
    if runs_user_code (cn_stack w t) && cn_token w then
      Some ((if detect then check_deadlock (cn_thread_ids w) t else Done tt);;
        mret {| cn_thread_ids := cn_thread_ids w;
          cn_stacks := set_stack w t (Waiting :: cn_stack w t);
          cn_token := false; cn_destroyed := cn_destroyed w |})
    else None
  | Finish t =>
    match cn_stack w t with
    | Waiting :: l =>
      if tokens w then None
      else Some (Done {| cn_thread_ids := cn_thread_ids w; cn_stacks := set_stack w t l;
        cn_token := cn_token w; cn_destroyed := true |})
    | _ => None
    end
  end.

Definition connector_init : Connector :=
  {| cn_thread_ids := []; cn_stacks := ∅; cn_token := true; cn_destroyed := false |}.

(** The runs of a connector, from a given state. *)
Inductive connector_run (detect : bool) (w : Connector) : Connector → Prop :=
  | connector_stop : connector_run detect w w
  | connector_next w1 e w2 :
      connector_run detect w w1 → connector_step detect e w1 = Some (Done w2) →
      connector_run detect w w2.

(** The steps that only finish what has been started. *)
Definition finishing (e : Connector_event) : bool :=
  match e with Leave _ | Release _ | Finish _ => true | _ => false end.

Fixpoint connector_steps (detect : bool) (es : list Connector_event) (w : Connector) :
    option (outcome Connector) :=
  match es with
  | [] => Some (Done w)
  | e :: es => match connector_step detect e w with
               | Some (Done w) => connector_steps detect es w
               | r => r
               end
  end.

(** ** Final actions run once *)

Lemma fa_called_app w f l :
  length (filter (λ g, g = f) (fa_runs w ++ l)) =
    fa_called w f + length (filter (λ g, g = f) l).
Proof. unfold fa_called. by rewrite filter_app, length_app. Qed.

Lemma fa_called_option (o : option N) f :
  length (filter (λ g, g = f) (option_list o)) = Nat.b2n (bool_decide (o = Some f)).
Proof.
  destruct o as [g|]; [|done]. simpl. rewrite filter_cons.
  case_decide; case_bool_decide; simplify_eq; done.
Qed.

Definition fa_once (w : Final_actions) : Prop :=
  ∀ f, fa_holders w f + fa_called w f = Nat.b2n (f <? fa_made w)%N.

Lemma fa_once_construct w id :
  fa_objects w !! id = None → fa_once w → fa_once (fa_construct id w).
Proof.
  intros Hid Hw f. specialize (Hw f). unfold fa_holders, fa_called in *. simpl.
  rewrite map_count_insert by done. destruct (decide (fa_made w = f)) as [<-|Hne].
  - revert Hw. rewrite bool_decide_true by done. N_cmp. simpl. lia.
  - rewrite bool_decide_false by congruence. rewrite <-Nat.add_assoc, Hw.
    destruct (N.ltb_spec f (fa_made w)), (N.ltb_spec f (fa_made w + 1)); simpl; lia.
Qed.

Lemma fa_once_execute w id :
  is_Some (fa_objects w !! id) → fa_once w → fa_once (fa_execute id w).
Proof.
  intros [o Hid] Hw f. specialize (Hw f).
  unfold fa_holders in *. unfold fa_called at 1. simpl.
  rewrite fa_called_app, fa_called_option, Hid. simpl.
  pose proof (map_count_update (λ o, bool_decide (o = Some f)) _ id o None Hid) as Hc.
  simpl in Hc. change (mjoin (Some o)) with o. lia.
Qed.

Lemma fa_once_move w id other :
  fa_objects w !! id = None → is_Some (fa_objects w !! other) →
  fa_once w → fa_once (fa_move id other w).
Proof.
  intros Hid [o Ho] Hw f. specialize (Hw f). unfold fa_holders, fa_called in *. simpl.
  rewrite Ho. change (mjoin (Some o)) with o.
  rewrite map_count_insert by (rewrite lookup_insert_ne; [done|congruence]).
  pose proof (map_count_update (λ o, bool_decide (o = Some f)) _ other o None Ho) as Hc.
  simpl in Hc. lia.
Qed.

Lemma fa_once_destroy w id :
  is_Some (fa_objects w !! id) → fa_once w → fa_once (fa_destroy id w).
Proof.
  intros Hid Hw f. specialize (fa_once_execute w id Hid Hw f).
  unfold fa_holders, fa_called. simpl. rewrite delete_insert_eq.
  rewrite (map_count_delete _ (<[id:=None]> _) id None) by apply lookup_insert_eq.
  by rewrite delete_insert_eq.
Qed.

#[local] Hint Resolve fa_once_construct fa_once_execute fa_once_move fa_once_destroy : gateway.

Lemma fa_once_init : fa_once fa_init.
Proof.
  intros f. unfold fa_holders, fa_called. simpl. rewrite map_count_empty.
  by destruct (N.ltb_spec f 0); [lia|].
Qed.

(** However final actions are constructed, moved, executed and destroyed, the
    functor of each construction is either held by exactly one object and has not run,
    or is held by none and has run exactly once. *)
Theorem final_action_runs_once w f :
  rtc fa_step fa_init w → (f < fa_made w)%N →
  (fa_holders w f = 1 ∧ fa_called w f = 0) ∨ (fa_holders w f = 0 ∧ fa_called w f = 1).
Proof.
  intros Hrun Hf.
  assert (fa_once w) as Hw.
  { eapply (rtc_ind_r (λ w, fa_once w)); [apply fa_once_init| |exact Hrun].
    intros w1 w2 _ Hstep Hw1. destruct Hstep; auto with gateway. }
  specialize (Hw f). apply N.ltb_lt in Hf. rewrite Hf in Hw. simpl in Hw. lia.
Qed.

Lemma final_action_runs_once_witness :
  let w := fa_destroy 2 (fa_destroy 1 (fa_move 2 1 (fa_construct 1 fa_init))) in
  (fa_holders w 0 = 1 ∧ fa_called w 0 = 0) ∨ (fa_holders w 0 = 0 ∧ fa_called w 0 = 1).
Proof.
  intros w. apply (final_action_runs_once w 0); [|by vm_compute].
  eapply rtc_l; [apply (fa_step_construct fa_init 1); reflexivity|].
  eapply rtc_l; [apply (fa_step_move _ 2 1); [reflexivity|by eexists]|].
  eapply rtc_l; [apply (fa_step_destroy _ 1); by eexists|].
  eapply rtc_l; [apply (fa_step_destroy _ 2); by eexists|]. apply rtc_refl.
Defined.

(** ** The detector is exact *)

Definition count_of {A} `{EqDecision A} (x : A) (l : list A) : nat :=
  length (filter (λ y, y = x) l).

Lemma count_of_cons {A} `{EqDecision A} (x y : A) l :
  count_of x (y :: l) = (if decide (y = x) then 1 else 0) + count_of x l.
Proof. unfold count_of. rewrite filter_cons. by case_decide. Qed.

Lemma count_of_app {A} `{EqDecision A} (x : A) l k :
  count_of x (l ++ k) = count_of x l + count_of x k.
Proof. unfold count_of. by rewrite filter_app, length_app. Qed.

#[local] Instance count_of_Permutation {A} `{EqDecision A} (x : A) :
  Proper ((≡ₚ) ==> eq) (count_of x).
Proof. intros l k E. unfold count_of. by rewrite E. Qed.

Lemma count_of_pos {A} `{EqDecision A} (x : A) l : x ∈ l ↔ 0 < count_of x l.
Proof.
  split.
  - intros [l1 [l2 ->]]%list_elem_of_split.
    rewrite count_of_app, count_of_cons, decide_True by done. lia.
  - unfold count_of. destruct (filter (λ y, y = x) l) as [|y k] eqn:E; simpl; [lia|].
    intros _. assert (y ∈ filter (λ y, y = x) l) as [-> ?]%list_elem_of_filter; [|done].
    rewrite E. left.
Qed.

Lemma leave_callback_removes ids t ids' : leave_callback ids t = Done ids' → ids ≡ₚ t :: ids'.
Proof.
  unfold leave_callback. destruct (list_find _ ids) as [[i x]|] eqn:E; [|done].
  intros [= <-]. apply list_find_Some in E as (Hi & -> & _). by apply delete_Permutation.
Qed.

Lemma leave_callback_found ids t : t ∈ ids → ∃ ids', leave_callback ids t = Done ids'.
Proof.
  intros Ht. unfold leave_callback.
  destruct (list_find_elem_of (λ id, id = t) ids t Ht eq_refl) as [[i x] ->]. eauto.
Qed.

Lemma cn_stack_set w t l u ids tok d :
  cn_stack {| cn_thread_ids := ids; cn_stacks := set_stack w t l; cn_token := tok;
              cn_destroyed := d |} u = if decide (t = u) then l else cn_stack w u.
Proof.
  unfold cn_stack, set_stack. simpl. destruct (decide (t = u)) as [->|Hne].
  - by rewrite lookup_insert_eq.
  - by rewrite lookup_insert_ne.
Qed.

(** The detector knows of each thread how often it is in a callback. *)
Definition detector_counts (w : Connector) : Prop :=
  ∀ t, count_of t (cn_thread_ids w) = count_of In_callback (cn_stack w t).

(** With detection, a waiting thread does nothing else. *)
Definition waits_alone (w : Connector) : Prop :=
  ∀ t, Waiting ∈ cn_stack w t → cn_stack w t = [Waiting].

(** What a step does when it happens: the stack of its thread changes. *)
Inductive connector_change (detect : bool) (w : Connector) : Connector_event → Connector → Prop :=
  | change_acquire t :
      is_running (cn_stack w t) = true → cn_token w = true ∨ tokens w = true →
      connector_change detect w (Acquire t)
        {| cn_thread_ids := cn_thread_ids w;
           cn_stacks := set_stack w t (Holding :: cn_stack w t);
           cn_token := cn_token w; cn_destroyed := cn_destroyed w |}
  | change_enter t l :
      cn_stack w t = Holding :: l →
      connector_change detect w (Enter t)
        {| cn_thread_ids := cn_thread_ids w ++ [t];
           cn_stacks := set_stack w t (In_callback :: l);
           cn_token := cn_token w; cn_destroyed := cn_destroyed w |}
  | change_leave t l ids :
      cn_stack w t = In_callback :: l → cn_thread_ids w ≡ₚ t :: ids →
      connector_change detect w (Leave t)
        {| cn_thread_ids := ids; cn_stacks := set_stack w t (Holding :: l);
           cn_token := cn_token w; cn_destroyed := cn_destroyed w |}
  | change_release t l :
      cn_stack w t = Holding :: l →
      connector_change detect w (Release t)
        {| cn_thread_ids := cn_thread_ids w; cn_stacks := set_stack w t l;
           cn_token := cn_token w; cn_destroyed := cn_destroyed w |}
  | change_destroy t :
      runs_user_code (cn_stack w t) = true → cn_token w = true →
      (detect = true → t ∉ cn_thread_ids w) →
      connector_change detect w (Destroy t)
        {| cn_thread_ids := cn_thread_ids w;
           cn_stacks := set_stack w t (Waiting :: cn_stack w t);
           cn_token := false; cn_destroyed := cn_destroyed w |}
  | change_finish t l :
      cn_stack w t = Waiting :: l → tokens w = false →
      connector_change detect w (Finish t)
        {| cn_thread_ids := cn_thread_ids w; cn_stacks := set_stack w t l;
           cn_token := cn_token w; cn_destroyed := true |}.

Lemma connector_step_change detect e w w' :
  connector_step detect e w = Some (Done w') → connector_change detect w e w'.
Proof.
  destruct e as [t|t|t|t|t|t]; simpl.
  - destruct (is_running _) eqn:Hr, (cn_token w || tokens w) eqn:Ht; simpl; intros; simplify_eq.
    constructor; [done|]. by apply orb_true_iff.
  - destruct (cn_stack w t) as [|[] l] eqn:E; intros; simplify_eq. by constructor.
  - destruct (cn_stack w t) as [|[] l] eqn:E; try done.
    intros [= (ids & Hids & [= <-])%outcome_bind_Done].
    constructor; [done|]. by apply leave_callback_removes.
  - destruct (cn_stack w t) as [|[] l] eqn:E; intros; simplify_eq. by constructor.
  - destruct (runs_user_code _) eqn:Hr, (cn_token w) eqn:Ht; try done; simpl.
    intros [= (? & Hd & [= <-])%outcome_bind_Done]. constructor; [done|done|].
    intros ->. unfold check_deadlock in Hd. by destruct (decide _).
  - destruct (cn_stack w t) as [|[] l] eqn:E; try done.
    destruct (tokens w) eqn:Ht; intros; simplify_eq. by constructor.
Qed.

Lemma detector_counts_step detect e w w' :
  detector_counts w → connector_change detect w e w' → detector_counts w'.
Proof.
  intros Hw Hstep u. pose proof (Hw u) as Hu. destruct Hstep;
    rewrite cn_stack_set; simpl; destruct (decide (t = u)) as [->|Hne]; try done;
    try match goal with H : cn_stack w _ = _ |- _ => rewrite H in Hu end;
    try match goal with H : cn_thread_ids w ≡ₚ _ |- _ => rewrite H in Hu end;
    rewrite ?count_of_app, ?count_of_cons in *; simpl in *;
    rewrite ?decide_True in * by done; rewrite ?(decide_False (P := t = u)) in * by done;
    unfold count_of in *; simpl in *; lia.
Qed.

Lemma user_code_outside ids l (t : N) :
  count_of t ids = count_of In_callback l → t ∉ ids → runs_user_code l = true → l = [].
Proof.
  intros Hc Ht. destruct l as [|[] l]; try done. intros _. destruct Ht.
  apply count_of_pos. rewrite Hc, count_of_cons, decide_True by done. lia.
Qed.

Lemma waits_alone_step e w w' :
  detector_counts w → waits_alone w → connector_change true w e w' → waits_alone w'.
Proof.
  intros Hc Hw Hstep u Hu. pose proof (Hw u) as Hwu. revert Hu.
  destruct Hstep as [t Hr _|t l E|t l ids E _|t l E|t Hr _ Hd|t l E _]; rewrite cn_stack_set;
    destruct (decide (t = u)) as [->|Hne]; try done.
  - intros [?|Hin]%elem_of_cons; [done|]. by rewrite (Hwu Hin) in Hr.
  - intros [?|Hin]%elem_of_cons; [done|]. rewrite E in Hwu. discriminate Hwu. by right.
  - intros [?|Hin]%elem_of_cons; [done|]. rewrite E in Hwu. discriminate Hwu. by right.
  - intros Hin. rewrite E in Hwu. discriminate Hwu. by right.
  - rewrite (user_code_outside _ _ _ (Hc u) (Hd eq_refl) Hr). done.
  - rewrite E in Hwu. injection (Hwu ltac:(left)) as ->. by intros ?%not_elem_of_nil.
Qed.

Lemma detector_counts_run detect w : connector_run detect connector_init w → detector_counts w.
Proof.
  induction 1 as [|w1 e w2 _ IH Hstep]; [done|].
  eapply detector_counts_step; [done|]. by apply connector_step_change.
Qed.

Lemma waits_alone_run w : connector_run true connector_init w → waits_alone w.
Proof.
  induction 1 as [|w1 e w2 Hrun IH Hstep]; [intros t ?%not_elem_of_nil; done|].
  eapply waits_alone_step; [by eapply detector_counts_run|done|].
  by apply connector_step_change.
Qed.

(** C36: The deadlock detector is exact. In every run, whatever the threads do, the
    destructor aborts exactly when its thread is in a callback of the connector, where
    its wait would never end, and leaving a callback always finds the thread's entry. *)
Theorem detector_exact w t :
  connector_run true connector_init w →
  (check_deadlock (cn_thread_ids w) t = Fault Aborted ↔ In_callback ∈ cn_stack w t) ∧
  (In_callback ∈ cn_stack w t → ∃ ids, leave_callback (cn_thread_ids w) t = Done ids).
Proof.
  intros Hc%detector_counts_run.
  assert (t ∈ cn_thread_ids w ↔ In_callback ∈ cn_stack w t) as Ht
    by (by rewrite !count_of_pos, (Hc t)).
  split.
  - rewrite <-Ht. unfold check_deadlock. by destruct (decide _).
  - rewrite <-Ht. apply leave_callback_found.
Qed.

(** Thread 1 is in a callback while thread 2 destroys the connector. *)
Definition busy_connector : Connector :=
  {| cn_thread_ids := [1%N]; cn_stacks := {[ 1%N := [In_callback]; 2%N := [Waiting] ]};
     cn_token := false; cn_destroyed := false |}.

Lemma connector_steps_run detect es w0 w w' :
  connector_run detect w0 w → connector_steps detect es w = Some (Done w') →
  connector_run detect w0 w'.
Proof.
  revert w. induction es as [|e es IH]; simpl; intros w Hrun Hs; [by simplify_eq|].
  destruct (connector_step detect e w) as [[w2|]|] eqn:E; simplify_eq.
  eapply IH; [|done]. by eapply connector_next.
Qed.

Lemma busy_connector_run : connector_run true connector_init busy_connector.
Proof.
  eapply (connector_steps_run _ [Acquire 1; Enter 1; Destroy 2] _ connector_init);
    [constructor|vm_compute; reflexivity].
Qed.

Lemma detector_exact_witness :
  In_callback ∈ cn_stack busy_connector 1 ∧
  check_deadlock (cn_thread_ids busy_connector) 1 = Fault Aborted.
Proof.
  assert (In_callback ∈ cn_stack busy_connector 1) as H by (vm_compute; left).
  split; [exact H|]. by apply (detector_exact busy_connector 1 busy_connector_run).
Defined.

(** ** Destructors finish *)

Lemma tokens_held w t f : f ∈ cn_stack w t → is_token f = true → tokens w = true.
Proof.
  unfold cn_stack. intros Hf Hl. apply bool_decide_eq_true. intros Hn.
  destruct (cn_stacks w !! t) as [l|] eqn:E; simpl in Hf; [|by apply not_elem_of_nil in Hf].
  specialize (Hn t l E). assert (existsb is_token l = true) as Ht; [|simpl in Hn; congruence].
  apply existsb_exists. exists f. split; [|done]. by apply list_elem_of_In.
Qed.

Lemma connector_steps_app detect es1 es2 w w1 :
  connector_steps detect es1 w = Some (Done w1) →
  connector_steps detect (es1 ++ es2) w = connector_steps detect es2 w1.
Proof.
  revert w. induction es1 as [|e es1 IH]; simpl; intros w Hs; [by simplify_eq|].
  destruct (connector_step _ _ _) as [[w2|]|]; simplify_eq. by apply IH.
Qed.

(** [w] becomes [w'] by steps that only finish what has been started. *)
Definition finishes (w w' : Connector) : Prop :=
  ∃ es, Forall (λ e, finishing e = true) es ∧ connector_steps true es w = Some (Done w').

Lemma finishes_refl w : finishes w w.
Proof. by exists []. Qed.

Lemma finishes_trans w1 w2 w3 : finishes w1 w2 → finishes w2 w3 → finishes w1 w3.
Proof.
  intros (es1 & Hf1 & Hs1) (es2 & Hf2 & Hs2). exists (es1 ++ es2). split.
  - by apply Forall_app.
  - by rewrite (connector_steps_app _ _ _ _ _ Hs1).
Qed.

Lemma finishes_step e w1 w2 :
  finishing e = true → connector_step true e w1 = Some (Done w2) → finishes w1 w2.
Proof. intros He Hs. exists [e]. split; [by repeat constructor|]. simpl. by rewrite Hs. Qed.

Lemma token_release_run w t l :
  cn_stacks w !! t = Some (Holding :: l) → detector_counts w →
  ∃ w', finishes w w' ∧ detector_counts w' ∧ cn_stacks w' = <[t := l]> (cn_stacks w).
Proof.
  intros Hs Hc. assert (cn_stack w t = Holding :: l) as E by (unfold cn_stack; by rewrite Hs).
  eexists. split_and!.
  - apply (finishes_step (Release t)); [done|]. simpl. by rewrite E.
  - eapply (detector_counts_step true (Release t)); [done|]. by constructor.
  - done.
Qed.

Lemma leave_run w t l :
  cn_stacks w !! t = Some (In_callback :: l) → detector_counts w →
  ∃ w', finishes w w' ∧ detector_counts w' ∧
    cn_stacks w' = <[t := Holding :: l]> (cn_stacks w).
Proof.
  intros Hs Hc. assert (cn_stack w t = In_callback :: l) as E by (unfold cn_stack; by rewrite Hs).
  destruct (leave_callback_found (cn_thread_ids w) t) as [ids Hids].
  { apply count_of_pos. rewrite (Hc t), E, count_of_cons, decide_True by done. lia. }
  eexists. split_and!.
  - apply (finishes_step (Leave t)); [done|]. simpl. by rewrite E, Hids.
  - eapply (detector_counts_step true (Leave t)); [done|]. constructor; [done|].
    by apply leave_callback_removes.
  - done.
Qed.

(** A thread that does not wait gives back its tokens. *)
Lemma drain_thread l w t :
  cn_stacks w !! t = Some l → Waiting ∉ l → detector_counts w →
  ∃ w', finishes w w' ∧ detector_counts w' ∧ cn_stacks w' = <[t := []]> (cn_stacks w).
Proof.
  revert w. induction l as [|f l IH]; intros w Hs Hl Hc.
  { exists w. split_and!; [apply finishes_refl|done|]. by rewrite insert_id. }
  apply not_elem_of_cons in Hl as [Hf Hl].
  assert (∃ w1, finishes w w1 ∧ detector_counts w1 ∧ cn_stacks w1 = <[t := l]> (cn_stacks w))
    as (w1 & H1 & Hc1 & E1).
  { destruct f; [by apply token_release_run| |done].
    destruct (leave_run w t l Hs Hc) as (w1 & H1 & Hc1 & E1).
    destruct (token_release_run w1 t l) as (w2 & H2 & Hc2 & E2); [|done|].
    - rewrite E1. apply lookup_insert_eq.
    - exists w2. split_and!; [by eapply finishes_trans|done|].
      by rewrite E2, E1, insert_insert_eq. }
  destruct (IH w1) as (w2 & H2 & Hc2 & E2); [by rewrite E1, lookup_insert_eq|done|done|].
  exists w2. split_and!; [by eapply finishes_trans|done|]. by rewrite E2, E1, insert_insert_eq.
Qed.

(** How many threads hold tokens. *)
Definition holders (w : Connector) : nat := map_count (existsb is_token) (cn_stacks w).

Lemma tokens_holder w : tokens w = true → ∃ t l,
  cn_stacks w !! t = Some l ∧ existsb is_token l = true.
Proof.
  unfold tokens. rewrite bool_decide_eq_true, map_not_Forall by solve_decision.
  intros (t & l & Hl & Ht). exists t, l. split; [done|]. by destruct (existsb is_token l).
Qed.

Lemma destructor_finishes n w t :
  holders w ≤ n → detector_counts w → waits_alone w → Waiting ∈ cn_stack w t →
  ∃ w', finishes w w' ∧ cn_destroyed w' = true.
Proof.
  revert w. induction n as [|n IH]; intros w Hn Hc Hw Ht;
    destruct (tokens w) eqn:Htok.
  2, 4: eexists; split; [apply (finishes_step (Finish t)); [done|];
    simpl; by rewrite (Hw t Ht), Htok|done].
  - destruct (tokens_holder w Htok) as (u & l & Hl & Hu).
    pose proof (map_count_pos _ _ _ _ Hl Hu). unfold holders in Hn. lia.
  - destruct (tokens_holder w Htok) as (u & l & Hl & Hu).
    assert (cn_stack w u = l) as El by (unfold cn_stack; by rewrite Hl).
    assert (Waiting ∉ l) as Hnw.
    { intros Hin. rewrite <-El in Hin. apply Hw in Hin. rewrite El in Hin. by rewrite Hin in Hu. }
    destruct (drain_thread l w u Hl Hnw Hc) as (w1 & H1 & Hc1 & E1).
    assert (∀ v, cn_stack w1 v = if decide (u = v) then [] else cn_stack w v) as Es.
    { intros v. unfold cn_stack. rewrite E1. case_decide; subst;
        [by rewrite lookup_insert_eq|by rewrite lookup_insert_ne]. }
    destruct (IH w1) as (w2 & H2 & Hd); [| done | | |].
    + unfold holders in *. rewrite E1.
      pose proof (map_count_update (existsb is_token) _ u l [] Hl) as Hm.
      rewrite Hu in Hm. simpl in Hm. lia.
    + intros v. rewrite Es. case_decide; [by intros ?%not_elem_of_nil|apply Hw].
    + rewrite Es. case_decide; [|done]. subst. done.
    + exists w2. split; [by eapply finishes_trans|done].
Qed.

(** With deadlock detection a destructor that waits can always finish: whatever the
    threads have done before, letting the started callbacks return and their tokens
    drop, and nothing else, ends the wait. *)
Theorem waiting_destructor_finishes w t :
  connector_run true connector_init w → Waiting ∈ cn_stack w t →
  ∃ es w', Forall (λ e, finishing e = true) es ∧
    connector_steps true es w = Some (Done w') ∧ cn_destroyed w' = true.
Proof.
  intros Hrun Ht.
  destruct (destructor_finishes (holders w) w t) as (w' & (es & Hf & Hs) & Hd);
    eauto using detector_counts_run, waits_alone_run.
Qed.

Lemma waiting_destructor_finishes_witness :
  ∃ es w', Forall (λ e, finishing e = true) es ∧
    connector_steps true es busy_connector = Some (Done w') ∧ cn_destroyed w' = true.
Proof.
  apply (waiting_destructor_finishes busy_connector 2 busy_connector_run). vm_compute. left.
Defined.

(** ** Without detection *)

Lemma stuck_thread_step detect e w w' t l f :
  cn_stack w t = Waiting :: l → f ∈ l → is_token f = true →
  connector_change detect w e w' → cn_stack w' t = Waiting :: l ∧ cn_destroyed w' = cn_destroyed w.
Proof.
  intros Hs Hf Hl Hstep.
  assert (tokens w = true) as Htok by (apply (tokens_held w t f); [rewrite Hs; by right|done]).
  destruct Hstep as [u Hr _|u k E|u k ids E _|u k E|u Hr _ Hd|u k E Hn]; rewrite ?cn_stack_set;
    simpl;
    try (destruct (decide (u = t)) as [->|]); try congruence; try (split; congruence);
    by rewrite Hs in Hr.
Qed.

(** Without detection, a connector destroyed in one of its own callbacks is never
    gone: the destructor waits for the callback that called it, whatever other threads
    do. *)
Theorem undetected_deadlock w t w1 w2 :
  In_callback ∈ cn_stack w t →
  connector_step false (Destroy t) w = Some (Done w1) → connector_run false w1 w2 →
  head (cn_stack w2 t) = Some Waiting ∧ cn_destroyed w2 = cn_destroyed w.
Proof.
  intros Hin Hd%connector_step_change Hrun.
  assert (cn_stack w2 t = Waiting :: cn_stack w t ∧ cn_destroyed w2 = cn_destroyed w) as [-> ?];
    [|done].
  induction Hrun as [|w2 e w3 _ [IHs IHd] Hstep%connector_step_change].
  - inversion Hd. subst. rewrite cn_stack_set, decide_True by done. done.
  - destruct (stuck_thread_step _ _ _ _ _ _ In_callback IHs Hin eq_refl Hstep) as [-> ->]. done.
Qed.

Lemma undetected_deadlock_witness :
  ∃ w w1 w2, In_callback ∈ cn_stack w 1 ∧
    connector_step false (Destroy 1) w = Some (Done w1) ∧ connector_run false w1 w2 ∧
    head (cn_stack w2 1) = Some Waiting ∧ cn_destroyed w2 = cn_destroyed w.
Proof.
  set (w := {| cn_thread_ids := [1%N]; cn_stacks := {[ 1%N := [In_callback] ]};
               cn_token := true; cn_destroyed := false |}).
  eexists w, _, _. split_and!; [vm_compute; left|vm_compute; reflexivity|constructor| |].
  all: eapply (undetected_deadlock w 1); [vm_compute; left|vm_compute; reflexivity|constructor].
Defined.
