(* ===== verification/Socom.v ===== *)
(** * The socom runtime and its connectors

    [src/score/socom/impl/runtime_impl.cpp], [client_connector_impl.cpp] and
    [server_connector_impl.cpp]: the runtime keeps, per interface, major version
    and instance, the one server and the one client that are registered, connects
    them when their minor versions allow it, and asks the registered bridges for
    services that clients wait for.

    The connectors are objects with an identity, so the model has one store for
    them, for the runtime's tables and for the bridges. Each call of the API is
    one step; the callbacks of the users are its visible actions. A call that a
    user makes from a callback is a step that follows, and calls of other threads
    come before or after a step. The reference-counted tokens of the code say who
    still points to a connector: here a wait for a token is a check that nobody
    does, and [Tokens] has the counts. *)

From stdpp Require Import base numbers list gmap strings.
From S2P Require Import Prelude.
From S2P Require Import IpcTypes.

(** ** Data *)

(** [socom::Error]. *)
Inductive Socom_error : Type :=
  | runtime_error_service_not_available
  | runtime_error_request_rejected
  | logic_error_id_out_of_range
  | runtime_error_malformed_payload
  | runtime_error_permission_not_allowed.

(** [socom::Server_connector_error]. *)
Inductive Server_connector_error : Type :=
  | server_logic_error_id_out_of_range
  | runtime_error_no_client_subscribed_for_event.

Inductive Construction_error : Type :=
  | duplicate_service
  | duplicate_client
  | callback_missing.

Inductive Event_mode : Type := mode_update | mode_update_and_initial_value.

(** [client_connector::Impl]; [cc_requests] tells whether its registration holds
    requests to the bridges. *)
Record Client_connector : Type := mkClientConnector {
  cc_interface : Service_interface_identifier;
  cc_instance : Service_instance;
  cc_stop_token : bool;
  cc_server : option N;
  cc_requests : bool;
}.

(** [server_connector::Impl]: [m_registration != nullptr], [m_stop_block_token],
    the client of the connection and the clients that the events point to. *)
Record Server_connector : Type := mkServerConnector {
  sc_interface : Service_interface_identifier;
  sc_num_methods : N;
  sc_num_events : nat;
  sc_instance : Service_instance;
  sc_registered : bool;
  sc_stop_token : bool;
  sc_subscriber : list (option N);
  sc_update_requester : list (option N);
  sc_event_infos : list Event_mode;
  sc_client : option N;
}.

(** [Service_record]. *)
Record Service_record : Type := {
  sr_server : option (Service_interface_identifier * N);
  sr_client : option (Service_interface_identifier * N);
}.
Definition empty_record : Service_record := {| sr_server := None; sr_client := None |}.

(** An entry of [m_service_requests]: how many registrations share the map of
    requests, the bridges that hold one, and the record of subscribers. *)
Record Bridge_requests : Type := {
  br_holders : nat;
  br_bridges : gset N;
  br_identities : list (option N);
}.

(** The key of a record: the minor version is ignored. *)
Abbreviation Record_key := (string * N * string)%type.
Definition record_key (interface : Service_interface_identifier) (instance : Service_instance) :
    Record_key := (sii_id interface, major (sii_version interface), instance).
Abbreviation Request_key := (Service_interface_identifier * string)%type.

Record Socom : Type := mkSocom {
  so_servers : gmap N Server_connector;
  so_clients : gmap N Client_connector;
  so_records : gmap Record_key Service_record;
  so_identifiers : gset (Service_interface_identifier * string);
  so_bridges : gmap N N;                       (* their identities *)
  so_requests : gmap Request_key Bridge_requests;
  so_next : N;                                 (* the next object *)
}.

Definition so_init : Socom := mkSocom ∅ ∅ ∅ ∅ ∅ ∅ 0.

Section setters.
Context (w : Socom).
Definition set_servers x := mkSocom x (so_clients w) (so_records w) (so_identifiers w)
  (so_bridges w) (so_requests w) (so_next w).
Definition set_clients x := mkSocom (so_servers w) x (so_records w) (so_identifiers w)
  (so_bridges w) (so_requests w) (so_next w).
Definition set_records x := mkSocom (so_servers w) (so_clients w) x (so_identifiers w)
  (so_bridges w) (so_requests w) (so_next w).
Definition set_identifiers x := mkSocom (so_servers w) (so_clients w) (so_records w) x
  (so_bridges w) (so_requests w) (so_next w).
Definition set_bridges x := mkSocom (so_servers w) (so_clients w) (so_records w)
  (so_identifiers w) x (so_requests w) (so_next w).
Definition set_requests x := mkSocom (so_servers w) (so_clients w) (so_records w)
  (so_identifiers w) (so_bridges w) x (so_next w).
Definition set_next x := mkSocom (so_servers w) (so_clients w) (so_records w)
  (so_identifiers w) (so_bridges w) (so_requests w) x.
End setters.

Section server_setters.
Context (s : Server_connector).
Definition sc_set_registered x := mkServerConnector (sc_interface s) (sc_num_methods s)
  (sc_num_events s) (sc_instance s) x (sc_stop_token s) (sc_subscriber s)
  (sc_update_requester s) (sc_event_infos s) (sc_client s).
Definition sc_set_stop_token x := mkServerConnector (sc_interface s) (sc_num_methods s)
  (sc_num_events s) (sc_instance s) (sc_registered s) x (sc_subscriber s)
  (sc_update_requester s) (sc_event_infos s) (sc_client s).
Definition sc_set_subscriber x := mkServerConnector (sc_interface s) (sc_num_methods s)
  (sc_num_events s) (sc_instance s) (sc_registered s) (sc_stop_token s) x
  (sc_update_requester s) (sc_event_infos s) (sc_client s).
Definition sc_set_update_requester x := mkServerConnector (sc_interface s) (sc_num_methods s)
  (sc_num_events s) (sc_instance s) (sc_registered s) (sc_stop_token s) (sc_subscriber s)
  x (sc_event_infos s) (sc_client s).
Definition sc_set_event_infos x := mkServerConnector (sc_interface s) (sc_num_methods s)
  (sc_num_events s) (sc_instance s) (sc_registered s) (sc_stop_token s) (sc_subscriber s)
  (sc_update_requester s) x (sc_client s).
Definition sc_set_client x := mkServerConnector (sc_interface s) (sc_num_methods s)
  (sc_num_events s) (sc_instance s) (sc_registered s) (sc_stop_token s) (sc_subscriber s)
  (sc_update_requester s) (sc_event_infos s) x.
End server_setters.

Definition cc_set_server (c : Client_connector) x := mkClientConnector (cc_interface c)
  (cc_instance c) (cc_stop_token c) x (cc_requests c).
Definition cc_set_stop_token (c : Client_connector) x := mkClientConnector (cc_interface c)
  (cc_instance c) x (cc_server c) (cc_requests c).
Definition cc_set_requests (c : Client_connector) x := mkClientConnector (cc_interface c)
  (cc_instance c) (cc_stop_token c) (cc_server c) x.

(** The callbacks of the users, and the handles of the bridges. *)
Inductive Socom_action : Type :=
  | Cb_service_state_change (client : N) (available : bool) (server : N)
  | Cb_event_update (client : N) (event_id payload : N)
  | Cb_event_requested_update (client : N) (event_id payload : N)
  | Cb_event_payload_allocate (client : N) (event_id : N)
  | Cb_event_subscription_change (server : N) (event_id : N) (subscribed : bool)
  | Cb_event_update_request (server : N) (event_id : N)
  | Cb_method_call (server : N) (method_id payload : N)
  | Cb_method_call_payload_allocate (server : N) (method_id : N)
  | Bridge_request (bridge : N) (interface : Service_interface_identifier)
      (instance : Service_instance)
  | Bridge_request_dropped (bridge : N) (interface : Service_interface_identifier)
      (instance : Service_instance).

Abbreviation SoM := (M Socom Socom_action).

(** ** Access to objects *)

Definition get_server (s : N) : SoM Server_connector :=
  o ← reads (λ w, so_servers w !! s); the Use_after_free o.
Definition get_client (c : N) : SoM Client_connector :=
  o ← reads (λ w, so_clients w !! c); the Use_after_free o.
Definition update_server (s : N) (f : Server_connector → Server_connector) : SoM unit :=
  modify (λ w, set_servers w (alter f s (so_servers w))).
Definition update_client (c : N) (f : Client_connector → Client_connector) : SoM unit :=
  modify (λ w, set_clients w (alter f c (so_clients w))).

(** [Service_database::get_record]: a missing record is created. *)
Definition get_record (w : Socom) (k : Record_key) : Service_record :=
  default empty_record (so_records w !! k).
Definition update_record (k : Record_key) (r : Service_record) : SoM unit :=
  modify (λ w, set_records w (<[k := r]> (so_records w))).

(** ** Events of a server *)

Definition clear_event (id : nat) (l : list (option N)) : list (option N) := <[id := None]> l.
Definition set_event (id : nat) (c : N) (l : list (option N)) : list (option N) :=
  <[id := Some c]> l.
(** [Event::get_client]. *)
Definition event_client (id : nat) (l : list (option N)) : option N := mjoin (l !! id).

(** [unsubscribe_event(client, id)]. *)
Definition unsubscribe_event_id (s : N) (id : nat) : SoM unit :=
  o ← get_server s;
  assertM (id <? length (sc_subscriber o));;
  assertM (id <? length (sc_update_requester o));;
  assertM (id <? length (sc_event_infos o));;
  let was_subscribed := bool_decide (is_Some (event_client id (sc_subscriber o))) in
  update_server s (λ o, sc_set_update_requester
    (sc_set_subscriber o (clear_event id (sc_subscriber o)))
    (clear_event id (sc_update_requester o)));;
  whenM was_subscribed (emit (Cb_event_subscription_change s (N.of_nat id) false)).

(** [unsubscribe_event(client)]. *)
Definition unsubscribe_events (s : N) : SoM unit :=
  o ← get_server s;
  forM (seq 0 (sc_num_events o)) (unsubscribe_event_id s).

(** [unsubscribe_event()]. *)
Definition clear_events (o : Server_connector) : Server_connector :=
  sc_set_update_requester (sc_set_subscriber o (const None <$> sc_subscriber o))
    (const None <$> sc_update_requester o).

(** [remove_client]. *)
Definition remove_connected_client (s : N) : SoM unit :=
  o ← get_server s;
  _ ← the Null_dereference (sc_client o);
  unsubscribe_events s;;
  update_server s (λ o, sc_set_client o None).

(** ** Connecting *)

(** [m_server.reset()] of a client: dropping the endpoint runs the action that
    the server has attached to it. *)
Definition reset_server (c : N) : SoM unit :=
  o ← get_client c;
  match cc_server o with
  | None => mret tt
  | Some s =>
    update_client c (λ o, cc_set_server o None);;
    remove_connected_client s
  end.

(** [Impl::receive(Service_state_change)] of a client. *)
Definition receive_service_state (c : N) (available : bool) (s : N) : SoM unit :=
  (if available then mret tt else reset_server c);;
  emit (Cb_service_state_change c available s).

(** [Impl::receive(Connect)] of a server. *)
Definition receive_connect (s c : N) : SoM (Result Socom_error unit) :=
  o ← get_server s;
  if sc_stop_token o then
    assertM (bool_decide (sc_client o = None));;
    update_server s (λ o, sc_set_client o (Some c));;
    mret (Ok tt)
  else mret (Err runtime_error_service_not_available).

(** The function that [make_on_server_update_callback] returns, with
    [set_id_mappings_and_server]. *)
Definition on_server_update (c s : N) : SoM unit :=
  o ← get_client c;
  if cc_stop_token o then
    r ← receive_connect s c;
    match r with
    | Err _ => mret tt
    | Ok _ =>
      o ← get_client c;
      if cc_stop_token o then
        update_client c (λ o, cc_set_server o (Some s));;
        receive_service_state c true s
      else remove_connected_client s
    end
  else mret tt.

Definition is_minor_version_compatible (server client : Service_interface_identifier) : bool :=
  (minor (sii_version client) <=? minor (sii_version server))%N.

Definition is_interface_compatible (server client : Service_interface_identifier) : bool :=
  bool_decide (sii_id server = sii_id client) &&
  (major (sii_version server) =? major (sii_version client))%N &&
  is_minor_version_compatible server client.

(** Bind a client to a server if their minor versions allow it. *)
Definition bind_client (server_interface : Service_interface_identifier) (s : N)
    (client_interface : Service_interface_identifier) (c : N) : SoM unit :=
  if is_minor_version_compatible server_interface client_interface then
    assertM (is_interface_compatible server_interface client_interface);;
    on_server_update c s
  else mret tt.

(** ** Bridges *)

Definition is_forward_subscription (identity : option N) (bridge_callback_identity : N)
    (subscriber_identity_record : list (option N)) : bool :=
  let is_current_subscriber := bool_decide (identity = Some bridge_callback_identity) in
  match subscriber_identity_record with
  | [_] => negb is_current_subscriber
  | [_; _] =>
    bool_decide (Some bridge_callback_identity ∈ subscriber_identity_record) &&
    negb is_current_subscriber
  | _ => false
  end.

(** [get_bridge_requests] for a client without an identity of its own, as
    [get_or_create_service_requests] calls it. *)
Definition get_service_requests (interface : Service_interface_identifier)
    (instance : Service_instance) : SoM unit :=
  w ← get_state;
  let k := (interface, instance) in
  let r := match so_requests w !! k with
           | Some r => if br_holders r =? 0 then None else Some r
           | None => None
           end in
  let r := default {| br_holders := 0; br_bridges := ∅; br_identities := [] |} r in
  let identities := br_identities r ++ [None] in
  let forwarded := filter (λ b, is_forward_subscription None b.2 identities = true)
                     (map_to_list (so_bridges w)) in
  forM forwarded (λ b, emit (Bridge_request b.1 interface instance));;
  modify (λ w, set_requests w (<[k := {| br_holders := S (br_holders r);
    br_bridges := br_bridges r ∪ list_to_set forwarded.*1;
    br_identities := identities |}]> (so_requests w))).

(** The end of a registration that holds requests: the last holder drops the
    requests and removes the entry. *)
Definition remove_service_requests (interface : Service_interface_identifier)
    (instance : Service_instance) : SoM unit :=
  let k := (interface, instance) in
  o ← reads (λ w, so_requests w !! k);
  r ← the Null_dereference o;
  if br_holders r =? 1 then
    forM (elements (br_bridges r)) (λ b, emit (Bridge_request_dropped b interface instance));;
    modify (λ w, set_requests w (delete k (so_requests w)))
  else
    modify (λ w, set_requests w (<[k := {| br_holders := pred (br_holders r);
      br_bridges := br_bridges r; br_identities := br_identities r |}]> (so_requests w))).

(** [register_bridge]: the new bridge is asked for every service that clients wait
    for. *)
Definition register_bridge (b : N) : SoM unit :=
  w ← get_state;
  forM (map_to_list (so_requests w)) (λ k, emit (Bridge_request b k.1.1 k.1.2));;
  modify (λ w, set_requests w ((λ r, {| br_holders := br_holders r;
    br_bridges := if br_holders r =? 0 then br_bridges r else {[ b ]} ∪ br_bridges r;
    br_identities := br_identities r |}) <$> so_requests w)).

Definition register_service_bridge (callback_ok : bool) (identity : N) :
    SoM (Result Construction_error N) :=
  if callback_ok then
    b ← reads so_next;
    modify (λ w, set_next (set_bridges w (<[b := identity]> (so_bridges w))) (b + 1)%N);;
    register_bridge b;;
    mret (Ok b)
  else mret (Err callback_missing).

(** [cleanup]: the requests of a bridge are erased from every live entry. *)
Definition cleanup_bridge (b : N) : SoM unit :=
  w ← get_state;
  forM (filter (λ k, b ∈ br_bridges k.2) (map_to_list (so_requests w)))
    (λ k, emit (Bridge_request_dropped b k.1.1 k.1.2));;
  modify (λ w, set_requests w ((λ r, {| br_holders := br_holders r;
    br_bridges := br_bridges r ∖ {[ b ]}; br_identities := br_identities r |})
    <$> so_requests w)).

(** [stop_registration]. *)
Definition stop_registration (b : N) : SoM unit :=
  modify (λ w, set_bridges w (delete b (so_bridges w)));;
  cleanup_bridge b.

(** ** Client connectors *)

(** [Service_record::register_client_connector]: one client per record. *)
Definition register_client_connector (k : Record_key) (interface : Service_interface_identifier)
    (c : N) : SoM (Result Construction_error (option (Service_interface_identifier * N))) :=
  w ← get_state;
  let record := get_record w k in
  match sr_client record with
  | Some _ => update_record k record;; mret (Err duplicate_client)
  | None =>
    update_record k {| sr_server := sr_server record; sr_client := Some (interface, c) |};;
    mret (Ok (sr_server record))
  end.

(** [register_connector] of a client: it is bound to the server of its record, or the
    bridges are asked for one. The result tells whether requests are held. *)
Definition register_connector_client (interface : Service_interface_identifier)
    (instance : Service_instance) (c : N) : SoM (Result Construction_error bool) :=
  r ← register_client_connector (record_key interface instance) interface c;
  match r with
  | Err e => mret (Err e)
  | Ok (Some (server_interface, s)) =>
    bind_client server_interface s interface c;;
    mret (Ok false)
  | Ok None =>
    get_service_requests interface instance;;
    mret (Ok true)
  end.

(** [make_client_connector]: a connector that cannot be registered is destroyed
    again. *)
Definition make_client_connector (callbacks_ok : bool) (interface : Service_interface_identifier)
    (instance : Service_instance) : SoM (Result Construction_error N) :=
  if callbacks_ok then
    c ← reads so_next;
    modify (λ w, set_next (set_clients w (<[c := mkClientConnector interface instance true
      None false]> (so_clients w))) (c + 1)%N);;
    registration ← register_connector_client interface instance c;
    match registration with
    | Err e =>
      modify (λ w, set_clients w (delete c (so_clients w)));;
      mret (Err e)
    | Ok requests =>
      update_client c (λ o, cc_set_requests o requests);;
      mret (Ok c)
    end
  else mret (Err callback_missing).

(** The destructor of a client connector; it waits until no server points to
    the client. *)
Definition destroy_client_connector (c : N) : SoM unit :=
  update_client c (λ o, cc_set_stop_token o false);;
  reset_server c;;
  o ← get_client c;
  let k := record_key (cc_interface o) (cc_instance o) in
  w ← get_state;
  update_record k {| sr_server := sr_server (get_record w k); sr_client := None |};;
  whenM (cc_requests o) (remove_service_requests (cc_interface o) (cc_instance o));;
  w ← get_state;
  if decide (map_Forall (λ _ o, sc_client o ≠ Some c) (so_servers w)) then
    modify (λ w, set_clients w (delete c (so_clients w)))
  else raise Waits_forever.

(** ** Server connectors *)

Definition make_server_connector (callbacks_ok : bool) (interface : Service_interface_identifier)
    (num_methods : N) (num_events : nat) (instance : Service_instance) :
    SoM (Result Construction_error N) :=
  if callbacks_ok then
    w ← get_state;
    if decide ((interface, instance) ∈ so_identifiers w) then mret (Err duplicate_service)
    else
      let s := so_next w in
      modify (λ w, set_identifiers w ({[ (interface, instance) ]} ∪ so_identifiers w));;
      modify (λ w, set_next (set_servers w (<[s := mkServerConnector interface num_methods
        num_events instance false false (replicate num_events None)
        (replicate num_events None) (replicate num_events mode_update) None]>
        (so_servers w))) (so_next w + 1)%N);;
      mret (Ok s)
  else mret (Err callback_missing).

(** [Service_record::register_server_connector]. *)
Definition register_server_connector (k : Record_key) (interface : Service_interface_identifier)
    (s : N) : SoM (option (Service_interface_identifier * N)) :=
  w ← get_state;
  let record := get_record w k in
  assertM (bool_decide (sr_server record = None));;
  update_record k {| sr_server := Some (interface, s); sr_client := sr_client record |};;
  mret (sr_client record).

(** [register_connector] of a server. *)
Definition register_connector_server (interface : Service_interface_identifier)
    (instance : Service_instance) (s : N) : SoM unit :=
  current_client ← register_server_connector (record_key interface instance) interface s;
  match current_client with
  | Some (client_interface, c) => bind_client interface s client_interface c
  | None => mret tt
  end.

(** [Disabled_server_connector::enable] with [Impl::enable]. *)
Definition enable_server (s : N) : SoM unit :=
  o ← get_server s;
  assertM (negb (sc_registered o));;
  update_server s (λ o, sc_set_stop_token o true);;
  register_connector_server (sc_interface o) (sc_instance o) s;;
  update_server s (λ o, sc_set_registered o true).

(** [disable]: it waits until the client has let go of the server. *)
Definition disable_server (s : N) : SoM unit :=
  o ← get_server s;
  if sc_registered o then
    update_server s (λ o, sc_set_registered o false);;
    w ← get_state;
    let k := record_key (sc_interface o) (sc_instance o) in
    update_record k {| sr_server := None; sr_client := sr_client (get_record w k) |};;
    update_server s (λ o, clear_events (sc_set_stop_token o false));;
    o ← get_server s;
    match sc_client o with
    | Some c => receive_service_state c false s
    | None => mret tt
    end;;
    o ← get_server s;
    if bool_decide (sc_client o = None) then mret tt else raise Waits_forever
  else mret tt.

(** The destructor of a server connector, and the action that frees the
    identifier. *)
Definition destroy_server_connector (s : N) : SoM unit :=
  disable_server s;;
  o ← get_server s;
  modify (λ w, set_identifiers w (so_identifiers w ∖ {[ (sc_interface o, sc_instance o) ]}));;
  modify (λ w, set_servers w (delete s (so_servers w))).

(** [update_event]. *)
Definition update_event (s : N) (id : N) (payload : N) : SoM (Result Server_connector_error unit) :=
  o ← get_server s;
  if (N.of_nat (sc_num_events o) <=? id)%N then mret (Err server_logic_error_id_out_of_range)
  else
    assertM (N.to_nat id <? length (sc_subscriber o));;
    match event_client (N.to_nat id) (sc_subscriber o) with
    | Some c => emit (Cb_event_update c id payload);; mret (Ok tt)
    | None => mret (Ok tt)
    end.

(** [update_requested_event]. *)
Definition update_requested_event (s : N) (id : N) (payload : N) :
    SoM (Result Server_connector_error unit) :=
  o ← get_server s;
  if (N.of_nat (sc_num_events o) <=? id)%N then mret (Err server_logic_error_id_out_of_range)
  else
    assertM (N.to_nat id <? length (sc_update_requester o));;
    update_server s (λ o, sc_set_update_requester o
      (clear_event (N.to_nat id) (sc_update_requester o)));;
    match event_client (N.to_nat id) (sc_update_requester o) with
    | Some c => emit (Cb_event_requested_update c id payload);; mret (Ok tt)
    | None => mret (Ok tt)
    end.

(** [allocate_event_payload]: the subscriber's callback allocates. *)
Definition allocate_event_payload {A} (s : N) (id : N)
    (allocated : Result Server_connector_error A) : SoM (Result Server_connector_error A) :=
  o ← get_server s;
  if (N.of_nat (sc_num_events o) <=? id)%N then mret (Err server_logic_error_id_out_of_range)
  else
    assertM (N.to_nat id <? length (sc_subscriber o));;
    match event_client (N.to_nat id) (sc_subscriber o) with
    | Some c => emit (Cb_event_payload_allocate c id);; mret allocated
    | None => mret (Err runtime_error_no_client_subscribed_for_event)
    end.

Definition get_event_mode (s : N) (id : N) : SoM (Result Server_connector_error Event_mode) :=
  o ← get_server s;
  if (N.of_nat (sc_num_events o) <=? id)%N then mret (Err server_logic_error_id_out_of_range)
  else mode ← the Out_of_bounds (sc_event_infos o !! N.to_nat id); mret (Ok mode).

(** ** Calls of a client *)

(** [lock_server]: nothing is sent without a server. *)
Definition lock_server {A} (c : N) (f : N → SoM (Result Socom_error A)) :
    SoM (Result Socom_error A) :=
  o ← get_client c;
  match cc_server o with
  | Some s => f s
  | None => mret (Err runtime_error_service_not_available)
  end.

(** [receive(Subscribe_event)] of a server. *)
Definition receive_subscribe_event (s : N) (id : N) (mode : Event_mode) :
    SoM (Result Socom_error unit) :=
  o ← get_server s;
  if (N.of_nat (length (sc_event_infos o)) <=? id)%N then mret (Err logic_error_id_out_of_range)
  else
    let i := N.to_nat id in
    assertM (i <? length (sc_subscriber o));;
    assertM (i <? length (sc_update_requester o));;
    let already_subscribed := bool_decide (is_Some (event_client i (sc_subscriber o))) in
    let already_update_requester :=
      bool_decide (is_Some (event_client i (sc_update_requester o))) in
    client ← the Null_dereference (sc_client o);
    update_server s (λ o, sc_set_subscriber o (set_event i client (sc_subscriber o)));;
    let is_update_requester :=
      match mode with mode_update_and_initial_value => true | mode_update => false end in
    whenM is_update_requester
      (update_server s (λ o, sc_set_event_infos
        (sc_set_update_requester o (set_event i client (sc_update_requester o)))
        (<[i := mode_update_and_initial_value]> (sc_event_infos o))));;
    whenM (negb already_subscribed) (emit (Cb_event_subscription_change s id true));;
    whenM (is_update_requester && negb already_update_requester)
      (emit (Cb_event_update_request s id));;
    mret (Ok tt).

(** [receive(Unsubscribe_event)]. *)
Definition receive_unsubscribe_event (s : N) (id : N) : SoM (Result Socom_error unit) :=
  o ← get_server s;
  if (N.of_nat (length (sc_event_infos o)) <=? id)%N then mret (Err logic_error_id_out_of_range)
  else unsubscribe_event_id s (N.to_nat id);; mret (Ok tt).

(** [receive(Request_event_update)]. *)
Definition receive_request_event_update (s : N) (id : N) : SoM (Result Socom_error unit) :=
  o ← get_server s;
  if (N.of_nat (length (sc_update_requester o)) <=? id)%N
  then mret (Err logic_error_id_out_of_range)
  else
    let i := N.to_nat id in
    if bool_decide (is_Some (event_client i (sc_update_requester o))) then mret (Ok tt)
    else
      client ← the Null_dereference (sc_client o);
      update_server s (λ o, sc_set_update_requester o
        (set_event i client (sc_update_requester o)));;
      emit (Cb_event_update_request s id);;
      mret (Ok tt).

(** [receive(Call_method)]. *)
Definition receive_call_method (s : N) (id payload : N) : SoM (Result Socom_error unit) :=
  o ← get_server s;
  if (sc_num_methods o <=? id)%N then mret (Err logic_error_id_out_of_range)
  else emit (Cb_method_call s id payload);; mret (Ok tt).

(** [receive(Allocate_method_call_payload)]: the server's callback allocates. *)
Definition receive_allocate_method_call_payload {A} (s : N) (id : N)
    (allocated : Result Socom_error A) : SoM (Result Socom_error A) :=
  o ← get_server s;
  if (sc_num_methods o <=? id)%N then mret (Err logic_error_id_out_of_range)
  else emit (Cb_method_call_payload_allocate s id);; mret allocated.

(** The calls send their messages to the server. *)
Definition subscribe_event (c : N) (id : N) (mode : Event_mode) : SoM (Result Socom_error unit) :=
  lock_server c (λ s, receive_subscribe_event s id mode).
Definition unsubscribe_event (c : N) (id : N) : SoM (Result Socom_error unit) :=
  lock_server c (λ s, receive_unsubscribe_event s id).
Definition request_event_update (c : N) (id : N) : SoM (Result Socom_error unit) :=
  lock_server c (λ s, receive_request_event_update s id).
Definition call_method (c : N) (id payload : N) : SoM (Result Socom_error unit) :=
  lock_server c (λ s, receive_call_method s id payload).
Definition allocate_method_call_payload {A} (c : N) (id : N) (allocated : Result Socom_error A) :
    SoM (Result Socom_error A) :=
  lock_server c (λ s, receive_allocate_method_call_payload s id allocated).

Definition is_service_available (c : N) : SoM bool :=
  o ← get_client c; mret (bool_decide (is_Some (cc_server o))).
