(* ===== verification/SocomInvariant.v ===== *)
(** * The invariant of the socom runtime

    What holds between two calls of the API: the tables of the runtime name
    exactly the live clients and the enabled servers, a client and a server point
    to each other exactly if they are registered for the same service and their
    minor versions allow it, and a bridge holds one request for every client that
    found no server. *)

From stdpp Require Import base numbers list gmap strings.
From S2P Require Import Prelude.
From S2P Require Import IpcTypes.
From S2P Require Import Socom.

(** ** Definitions *)

Definition ckey (C : Client_connector) : Record_key :=
  record_key (cc_interface C) (cc_instance C).
Definition skey (S : Server_connector) : Record_key :=
  record_key (sc_interface S) (sc_instance S).

(** The client and the server of a record belong together. *)
Definition matching (r : Service_record) : bool :=
  match sr_server r, sr_client r with
  | Some (i, _), Some (j, _) => is_minor_version_compatible i j
  | _, _ => false
  end.

(** The server a client of the record is connected to, and vice versa. *)
Definition server_of (r : Service_record) : option N :=
  if matching r then snd <$> sr_server r else None.
Definition client_of (r : Service_record) : option N :=
  if matching r then snd <$> sr_client r else None.

(** The events point to nothing but the connected client. *)
Definition events_ok (S : Server_connector) : Prop :=
  length (sc_subscriber S) = sc_num_events S ∧
  length (sc_update_requester S) = sc_num_events S ∧
  length (sc_event_infos S) = sc_num_events S ∧
  (∀ id c, event_client id (sc_subscriber S) = Some c → sc_client S = Some c) ∧
  (∀ id c, event_client id (sc_update_requester S) = Some c → sc_client S = Some c).

Definition client_ok (w : Socom) (c : N) (C : Client_connector) : Prop :=
  (c < so_next w)%N ∧ cc_stop_token C = true ∧
  sr_client (get_record w (ckey C)) = Some (cc_interface C, c) ∧
  cc_server C = server_of (get_record w (ckey C)).

Definition server_ok (w : Socom) (s : N) (S : Server_connector) : Prop :=
  (s < so_next w)%N ∧ events_ok S ∧ sc_stop_token S = sc_registered S ∧
  if sc_registered S then
    sr_server (get_record w (skey S)) = Some (sc_interface S, s) ∧
    sc_client S = client_of (get_record w (skey S))
  else sc_client S = None.

(** The records name exactly the live clients and the enabled servers, and these
    are connected as their records say. *)
Record conn_inv (w : Socom) : Prop := {
  v_clients : ∀ c C, so_clients w !! c = Some C → client_ok w c C;
  v_servers : ∀ s S, so_servers w !! s = Some S → server_ok w s S;
  v_record_client : ∀ k i c, sr_client (get_record w k) = Some (i, c) →
    ∃ C, so_clients w !! c = Some C ∧ cc_interface C = i ∧ ckey C = k;
  v_record_server : ∀ k i s, sr_server (get_record w k) = Some (i, s) →
    ∃ S, so_servers w !! s = Some S ∧ sc_registered S = true ∧
      sc_interface S = i ∧ skey S = k;
}.

(** The identifiers are those of the server connectors, each used once. *)
Definition ident (S : Server_connector) : Service_interface_identifier * string :=
  (sc_interface S, sc_instance S).
Record id_inv (w : Socom) : Prop := {
  v_identified : ∀ x, x ∈ so_identifiers w ↔ ∃ s S, so_servers w !! s = Some S ∧ ident S = x;
  v_unique : ∀ s1 s2 S1 S2, so_servers w !! s1 = Some S1 → so_servers w !! s2 = Some S2 →
    ident S1 = ident S2 → s1 = s2;
}.

(** What the runtime keeps for a waiting client: every bridge holds a request. *)
Definition request_key (C : Client_connector) : Request_key := (cc_interface C, cc_instance C).
Definition full_request (w : Socom) : Bridge_requests :=
  {| br_holders := 1; br_bridges := dom (so_bridges w); br_identities := [None] |}.
Record req_inv (w : Socom) : Prop := {
  v_waiting : ∀ c C, so_clients w !! c = Some C → cc_requests C = true →
    so_requests w !! request_key C = Some (full_request w);
  v_requests : ∀ k r, so_requests w !! k = Some r →
    ∃ c C, so_clients w !! c = Some C ∧ cc_requests C = true ∧ k = request_key C;
  v_bridges : ∀ b i, so_bridges w !! b = Some i → (b < so_next w)%N;
}.

Record so_inv (w : Socom) : Prop := {
  v_conn : conn_inv w;
  v_id : id_inv w;
  v_req : req_inv w;
}.

(** The reports of the state of a service among the actions. *)
Definition notice (a : Socom_action) : option (N * bool * N) :=
  match a with Cb_service_state_change c available s => Some (c, available, s) | _ => None end.
Definition notices (o : list Socom_action) : list (N * bool * N) := omap notice o.

(** ** Running the code *)

Lemma get_server_run {B} s S (k : Server_connector → SoM B) w :
  so_servers w !! s = Some S → (get_server s ≫= k) w = k S w.
Proof.
  intros E. apply bind_silent. unfold get_server. rewrite reads_run. by rewrite E.
Qed.

Lemma get_client_run {B} c C (k : Client_connector → SoM B) w :
  so_clients w !! c = Some C → (get_client c ≫= k) w = k C w.
Proof.
  intros E. apply bind_silent. unfold get_client. rewrite reads_run. by rewrite E.
Qed.

Lemma alter_as_insert {A} (m : gmap N A) i x f : m !! i = Some x → alter f i m = <[i := f x]> m.
Proof.
  intros E. apply map_eq. intros j. destruct (decide (i = j)) as [->|].
  - by rewrite lookup_alter_eq, lookup_insert_eq, E.
  - by rewrite lookup_alter_ne, lookup_insert_ne.
Qed.

Lemma update_server_run {B} s S f (k : unit → SoM B) w :
  so_servers w !! s = Some S →
  (update_server s f ≫= k) w = k tt (set_servers w (<[s := f S]> (so_servers w))).
Proof.
  intros E. unfold update_server. by rewrite modify_run, (alter_as_insert _ _ _ _ E).
Qed.

Lemma update_client_run {B} c C f (k : unit → SoM B) w :
  so_clients w !! c = Some C →
  (update_client c f ≫= k) w = k tt (set_clients w (<[c := f C]> (so_clients w))).
Proof.
  intros E. unfold update_client. by rewrite modify_run, (alter_as_insert _ _ _ _ E).
Qed.

Lemma update_record_run {B} k r (f : unit → SoM B) w :
  (update_record k r ≫= f) w = f tt (set_records w (<[k := r]> (so_records w))).
Proof. unfold update_record. by rewrite modify_run. Qed.

(** *** Events *)

Lemma event_client_clear id j l :
  event_client j (clear_event id l) = if decide (id = j) then None else event_client j l.
Proof.
  unfold event_client, clear_event. case_decide as E.
  - subst j. destruct (decide (id < length l)).
    + by rewrite list_lookup_insert_eq.
    + rewrite list_insert_ge by lia. by rewrite lookup_ge_None_2 by lia.
  - by rewrite list_lookup_insert_ne.
Qed.

Lemma length_clear_event id l : length (clear_event id l) = length l.
Proof. apply length_insert. Qed.

Lemma event_client_set id c j l :
  event_client j (set_event id c l) =
    if decide (id = j ∧ id < length l) then Some c else event_client j l.
Proof.
  unfold event_client, set_event. case_decide as E.
  - destruct E as [<- ?]. by rewrite list_lookup_insert_eq.
  - destruct (decide (id = j)) as [<-|]; [|by rewrite list_lookup_insert_ne].
    by rewrite list_insert_ge by naive_solver lia.
Qed.

Lemma event_client_cleared j (l : list (option N)) : event_client j (const None <$> l) = None.
Proof. unfold event_client. rewrite list_lookup_fmap. by destruct (l !! j). Qed.

Definition clear_range (ids : list nat) (l : list (option N)) : list (option N) :=
  foldl (λ l id, clear_event id l) l ids.

Lemma length_clear_range ids l : length (clear_range ids l) = length l.
Proof.
  revert l. induction ids as [|id ids IH]; intros l; simpl; [done|].
  rewrite IH. apply length_insert.
Qed.

Lemma clear_range_lookup ids l i x :
  clear_range ids l !! i = Some x → x = None ∨ (¬ (i ∈ ids) ∧ l !! i = Some x).
Proof.
  revert l. induction ids as [|id ids IH]; intros l; simpl; [set_solver|].
  intros E. destruct (IH _ E) as [?|[Hn El]]; [by left|].
  destruct (decide (i = id)) as [->|].
  - left. unfold clear_event in El.
    pose proof (lookup_lt_Some _ _ _ El) as Hl. rewrite length_insert in Hl.
    rewrite list_lookup_insert_eq in El by done. by simplify_eq.
  - right. split; [set_solver|]. unfold clear_event in El.
    by rewrite list_lookup_insert_ne in El.
Qed.

Lemma clear_range_all n (l : list (option N)) :
  length l = n → clear_range (seq 0 n) l = (const None <$> l).
Proof.
  intros <-. apply list_eq. intros i. rewrite list_lookup_fmap.
  destruct (l !! i) as [x|] eqn:E; simpl.
  - destruct (lookup_lt_is_Some_2 (clear_range (seq 0 (length l)) l) i) as [y Ey].
    { rewrite length_clear_range. by eapply lookup_lt_Some. }
    rewrite Ey. destruct (clear_range_lookup _ _ _ _ Ey) as [->|[Hn _]]; [done|].
    destruct Hn. apply elem_of_seq. apply lookup_lt_Some in E. lia.
  - apply lookup_ge_None. rewrite length_clear_range. by apply lookup_ge_None.
Qed.

Lemma notices_app o1 o2 : notices (o1 ++ o2) = notices o1 ++ notices o2.
Proof. apply omap_app. Qed.

Definition unsubscribed (s : N) (a : Socom_action) : Prop :=
  ∃ id, a = Cb_event_subscription_change s id false.

Lemma unsubscribed_no_notice s o : Forall (unsubscribed s) o → notices o = [].
Proof. by induction 1 as [|? ? [id ->] _ IH]. Qed.

Lemma unsubscribe_event_id_run s S id w :
  so_servers w !! s = Some S → events_ok S → id < sc_num_events S →
  ∃ o, unsubscribe_event_id s id w =
    Done (tt, set_servers w (<[s := sc_set_update_requester
      (sc_set_subscriber S (clear_event id (sc_subscriber S)))
      (clear_event id (sc_update_requester S))]> (so_servers w)), o) ∧ Forall (unsubscribed s) o.
Proof.
  intros E (H1 & H2 & H3 & _) Hid. unfold unsubscribe_event_id.
  rewrite (get_server_run _ _ _ _ E).
  rewrite !assert_run by (apply Nat.ltb_lt; lia).
  rewrite (update_server_run _ _ _ _ _ E).
  destruct (bool_decide _); eexists; (split; [reflexivity|]); repeat constructor.
  by exists (N.of_nat id).
Qed.

Lemma events_ok_unsubscribed S id :
  events_ok S → events_ok (sc_set_update_requester
    (sc_set_subscriber S (clear_event id (sc_subscriber S)))
    (clear_event id (sc_update_requester S))).
Proof.
  intros (H1 & H2 & H3 & H4 & H5).
  split_and!; simpl; rewrite ?length_clear_event; try done;
    intros j c; rewrite event_client_clear; case_decide; naive_solver.
Qed.

Lemma unsubscribe_range_run s S ids w :
  so_servers w !! s = Some S → events_ok S → Forall (λ id, id < sc_num_events S) ids →
  ∃ o, forM ids (unsubscribe_event_id s) w =
    Done (tt, set_servers w (<[s := sc_set_update_requester
      (sc_set_subscriber S (clear_range ids (sc_subscriber S)))
      (clear_range ids (sc_update_requester S))]> (so_servers w)), o) ∧ Forall (unsubscribed s) o.
Proof.
  revert S w. induction ids as [|id ids IH]; intros S w E Hok Hids; simpl.
  { exists []. split; [|constructor]. unfold mret, M_ret. do 3 f_equal.
    destruct w as [servers ? ? ? ? ? ?], S; unfold set_servers; simpl in *.
    f_equal. symmetry. by apply insert_id. }
  apply Forall_cons in Hids as [Hid Hids].
  destruct (unsubscribe_event_id_run s S id w E Hok Hid) as (o1 & E1 & Ho1).
  set (S1 := sc_set_update_requester _ _) in E1.
  set (w1 := set_servers w _) in E1.
  destruct (IH S1 w1) as (o2 & E2 & Ho2).
  - unfold w1. simpl. apply lookup_insert_eq.
  - by apply events_ok_unsubscribed.
  - done.
  - exists (o1 ++ o2). split; [|by apply Forall_app].
    rewrite (bind_run _ _ _ _ _ _ E1), E2. do 3 f_equal.
    unfold w1, S1, set_servers. simpl. f_equal. by rewrite insert_insert_eq.
Qed.

Lemma unsubscribe_events_run s S w :
  so_servers w !! s = Some S → events_ok S →
  ∃ o, unsubscribe_events s w =
    Done (tt, set_servers w (<[s := clear_events S]> (so_servers w)),
      o) ∧ Forall (unsubscribed s) o.
Proof.
  intros E Hok. unfold unsubscribe_events. rewrite (get_server_run _ _ _ _ E).
  destruct (unsubscribe_range_run s S (seq 0 (sc_num_events S)) w E Hok) as (o & E' & Ho).
  { apply Forall_forall. intros x Hx. apply elem_of_seq in Hx. lia. }
  exists o. split; [|done]. rewrite E'. destruct Hok as (H1 & H2 & _).
  by rewrite !clear_range_all.
Qed.

Lemma events_ok_cleared S : events_ok S → events_ok (sc_set_client (clear_events S) None).
Proof.
  intros (? & ? & ? & _). split_and!; simpl; rewrite ?length_fmap; try done;
    intros id c; by rewrite event_client_cleared.
Qed.

(** *** Connecting and disconnecting *)

Definition disconnected (S : Server_connector) : Server_connector :=
  sc_set_client (clear_events S) None.

Lemma remove_connected_client_run s S c w :
  so_servers w !! s = Some S → events_ok S → sc_client S = Some c →
  ∃ o, remove_connected_client s w =
    Done (tt, set_servers w (<[s := disconnected S]> (so_servers w)),
      o) ∧ Forall (unsubscribed s) o.
Proof.
  intros E Hok Hc. unfold remove_connected_client.
  rewrite (get_server_run _ _ _ _ E), (the_run _ _ _ _ _ Hc).
  destruct (unsubscribe_events_run s S w E Hok) as (o & E' & Ho).
  exists o. split; [|done]. rewrite (bind_run _ _ _ _ _ _ E').
  unfold update_server, modify. simpl. rewrite app_nil_r.
  rewrite (alter_as_insert _ _ (clear_events S)) by apply lookup_insert_eq.
  unfold set_servers. simpl. by rewrite insert_insert_eq.
Qed.

Definition detach (w : Socom) (c : N) (C : Client_connector) (s : N) (S : Server_connector) :
    Socom :=
  set_servers (set_clients w (<[c := cc_set_server C None]> (so_clients w)))
    (<[s := disconnected S]> (so_servers w)).

Lemma reset_server_run c C s S w :
  so_clients w !! c = Some C → cc_server C = Some s →
  so_servers w !! s = Some S → events_ok S → is_Some (sc_client S) →
  ∃ o, reset_server c w = Done (tt, detach w c C s S, o) ∧ Forall (unsubscribed s) o.
Proof.
  intros EC Es ES Hok [c' Hc]. unfold reset_server.
  rewrite (get_client_run _ _ _ _ EC), Es, (update_client_run _ _ _ _ _ EC).
  by apply (remove_connected_client_run s S c').
Qed.

Lemma reset_server_none c C w :
  so_clients w !! c = Some C → cc_server C = None → reset_server c w = Done (tt, w, []).
Proof. intros EC Es. unfold reset_server. by rewrite (get_client_run _ _ _ _ EC), Es. Qed.

Definition attach (w : Socom) (c : N) (C : Client_connector) (s : N) (S : Server_connector) :
    Socom :=
  set_clients (set_servers w (<[s := sc_set_client S (Some c)]> (so_servers w)))
    (<[c := cc_set_server C (Some s)]> (so_clients w)).

(** Binding connects the two and tells the client, exactly if the minor versions
    are compatible. *)
Lemma bind_client_run i s S j c C w :
  so_clients w !! c = Some C → so_servers w !! s = Some S →
  cc_stop_token C = true → sc_stop_token S = true → sc_client S = None →
  sii_id i = sii_id j → major (sii_version i) = major (sii_version j) →
  bind_client i s j c w =
    Done (tt, if is_minor_version_compatible i j then attach w c C s S else w,
      if is_minor_version_compatible i j then [Cb_service_state_change c true s] else []).
Proof.
  intros EC ES HC HS Hn Hid Hm. unfold bind_client, is_interface_compatible.
  destruct (is_minor_version_compatible i j); [|done].
  rewrite Hid, Hm, N.eqb_refl. rewrite bool_decide_eq_true_2 by done. simpl.
  rewrite (bind_silent (mret tt) _ w tt w) by done.
  unfold on_server_update. rewrite (get_client_run _ _ _ _ EC), HC.
  erewrite bind_silent; last first.
  { unfold receive_connect. rewrite (get_server_run _ _ _ _ ES), HS.
    rewrite Hn, bool_decide_eq_true_2 by done. simpl.
    rewrite (bind_silent (mret tt) _ w tt w) by done.
    by rewrite (update_server_run _ _ _ _ _ ES). }
  simpl. rewrite (get_client_run _ C) by done. rewrite HC.
  by rewrite (update_client_run _ C) by done.
Qed.

(** ** The tables *)

Lemma get_record_insert_eq w k r : get_record (set_records w (<[k := r]> (so_records w))) k = r.
Proof. unfold get_record. simpl. by rewrite lookup_insert_eq. Qed.

Lemma get_record_insert_ne w k k' r :
  k ≠ k' → get_record (set_records w (<[k := r]> (so_records w))) k' = get_record w k'.
Proof. intros Hn. unfold get_record. simpl. by rewrite lookup_insert_ne. Qed.

(** A change that touches nothing but the record, the client and the servers of one
    key is judged there. *)
Lemma conn_inv_local k w w' :
  conn_inv w → (so_next w ≤ so_next w')%N →
  (∀ k', k ≠ k' → get_record w' k' = get_record w k') →
  (∀ c C, ckey C ≠ k → so_clients w' !! c = Some C ↔ so_clients w !! c = Some C) →
  (∀ s S, skey S ≠ k → so_servers w' !! s = Some S ↔ so_servers w !! s = Some S) →
  (∀ c C, so_clients w' !! c = Some C → ckey C = k → client_ok w' c C) →
  (∀ s S, so_servers w' !! s = Some S → skey S = k → server_ok w' s S) →
  (∀ i c, sr_client (get_record w' k) = Some (i, c) →
    ∃ C, so_clients w' !! c = Some C ∧ cc_interface C = i ∧ ckey C = k) →
  (∀ i s, sr_server (get_record w' k) = Some (i, s) →
    ∃ S, so_servers w' !! s = Some S ∧ sc_registered S = true ∧ sc_interface S = i ∧ skey S = k) →
  conn_inv w'.
Proof.
  intros Hinv Hnext Hr Hc Hs Hck Hsk Hrc Hrs. split.
  - intros c C E. destruct (decide (ckey C = k)) as [|Hk]; [by apply Hck|].
    destruct (v_clients _ Hinv c C) as (? & ? & ? & ?); [by apply Hc|].
    unfold client_ok. rewrite Hr by done. split_and!; try done. lia.
  - intros s S E. destruct (decide (skey S = k)) as [|Hk]; [by apply Hsk|].
    destruct (v_servers _ Hinv s S) as (? & ? & ? & ?); [by apply Hs|].
    unfold server_ok. rewrite Hr by done. split_and!; try done. lia.
  - intros k' i c E. destruct (decide (k = k')) as [<-|Hk]; [by apply Hrc|].
    rewrite Hr in E by done. destruct (v_record_client _ Hinv _ _ _ E) as (C & ? & ? & ?).
    exists C. split; [|done]. apply Hc; congruence.
  - intros k' i s E. destruct (decide (k = k')) as [<-|Hk]; [by apply Hrs|].
    rewrite Hr in E by done. destruct (v_record_server _ Hinv _ _ _ E) as (S & ? & ? & ? & ?).
    exists S. split; [|done]. apply Hs; congruence.
Qed.

Lemma insert_local {A} (key : A → Record_key) (m : gmap N A) i x k :
  key x = k → (∀ y, m !! i = Some y → key y = k) →
  ∀ j y, key y ≠ k → <[i := x]> m !! j = Some y ↔ m !! j = Some y.
Proof.
  intros Hx Hm j y Hy. destruct (decide (i = j)) as [<-|]; [|by rewrite lookup_insert_ne].
  rewrite lookup_insert_eq. naive_solver.
Qed.

Lemma delete_local {A} (key : A → Record_key) (m : gmap N A) i k :
  (∀ y, m !! i = Some y → key y = k) →
  ∀ j y, key y ≠ k → delete i m !! j = Some y ↔ m !! j = Some y.
Proof.
  intros Hm j y Hy. destruct (decide (i = j)) as [<-|]; [|by rewrite lookup_delete_ne].
  rewrite lookup_delete_eq. naive_solver.
Qed.

(** One client per record, and one enabled server. *)
Lemma client_unique w c C c' C' : conn_inv w →
  so_clients w !! c = Some C → so_clients w !! c' = Some C' → ckey C = ckey C' → c = c' ∧ C = C'.
Proof.
  intros Hinv E E' Hk. destruct (v_clients _ Hinv _ _ E) as (_ & _ & H1 & _).
  destruct (v_clients _ Hinv _ _ E') as (_ & _ & H2 & _). rewrite Hk, H2 in H1. naive_solver.
Qed.

Lemma server_unique w s S s' S' : conn_inv w →
  so_servers w !! s = Some S → so_servers w !! s' = Some S' → skey S = skey S' →
  sc_registered S = true → sc_registered S' = true → s = s' ∧ S = S'.
Proof.
  intros Hinv E E' Hk Hr Hr'. destruct (v_servers _ Hinv _ _ E) as (_ & _ & _ & H1).
  destruct (v_servers _ Hinv _ _ E') as (_ & _ & _ & H2). rewrite Hr in H1. rewrite Hr' in H2.
  rewrite Hk in H1. naive_solver.
Qed.

(** A connected client and its server point to each other. *)
Lemma connected_server w c C s : conn_inv w →
  so_clients w !! c = Some C → cc_server C = Some s →
  ∃ S, so_servers w !! s = Some S ∧ sc_registered S = true ∧ sc_client S = Some c ∧
    skey S = ckey C ∧ is_minor_version_compatible (sc_interface S) (cc_interface C) = true.
Proof.
  intros Hinv EC Es. destruct (v_clients _ Hinv _ _ EC) as (_ & _ & Hrc & Hcs).
  rewrite Hcs in Es. unfold server_of in Es. destruct (matching _) eqn:Hm; [|done].
  destruct (sr_server _) as [[i s']|] eqn:Er; [|done]. simplify_eq/=.
  destruct (v_record_server _ Hinv _ _ _ Er) as (S & ES & Hreg & Hi & Hk).
  destruct (v_servers _ Hinv _ _ ES) as (_ & _ & _ & Hrec). rewrite Hreg, Hk in Hrec.
  destruct Hrec as [_ Hcl]. exists S. split_and!; try done.
  - rewrite Hcl. unfold client_of. by rewrite Hm, Hrc.
  - unfold matching in Hm. rewrite Er, Hrc in Hm. by rewrite Hi.
Qed.

Lemma connected_client w s S c : conn_inv w →
  so_servers w !! s = Some S → sc_client S = Some c →
  ∃ C, so_clients w !! c = Some C ∧ cc_server C = Some s ∧ sc_registered S = true ∧
    ckey C = skey S.
Proof.
  intros Hinv ES Ec. destruct (v_servers _ Hinv _ _ ES) as (_ & _ & _ & Hrec).
  destruct (sc_registered S); [|congruence]. destruct Hrec as [Hrs Hcl].
  rewrite Hcl in Ec. unfold client_of in Ec. destruct (matching _) eqn:Hm; [|done].
  destruct (sr_client _) as [[i c']|] eqn:Er; [|done]. simplify_eq/=.
  destruct (v_record_client _ Hinv _ _ _ Er) as (C & EC & _ & Hk).
  destruct (v_clients _ Hinv _ _ EC) as (_ & _ & _ & Hcs). exists C. split_and!; try done.
  rewrite Hcs, Hk. unfold server_of. by rewrite Hm, Hrs.
Qed.

(** ** Preservation: who is connected to whom *)

Definition with_client (r : Service_record) x : Service_record :=
  {| sr_server := sr_server r; sr_client := x |}.
Definition with_server (r : Service_record) x : Service_record :=
  {| sr_server := x; sr_client := sr_client r |}.

(** A new client [c], registered but not connected. *)
Definition registered_client (w : Socom) (c : N) (C : Client_connector) : Socom :=
  set_next
    (set_records (set_clients w (<[c := C]> (so_clients w)))
      (<[ckey C := with_client (get_record w (ckey C)) (Some (cc_interface C, c))]>
        (so_records w)))
    (c + 1)%N.

Lemma conn_fresh_client w : conn_inv w → so_clients w !! so_next w = None.
Proof.
  intros Hinv. destruct (so_clients w !! so_next w) eqn:E; [|done].
  destruct (v_clients _ Hinv _ _ E) as (? & _). lia.
Qed.

Lemma conn_fresh_server w : conn_inv w → so_servers w !! so_next w = None.
Proof.
  intros Hinv. destruct (so_servers w !! so_next w) eqn:E; [|done].
  destruct (v_servers _ Hinv _ _ E) as (? & _). lia.
Qed.

Lemma record_server_live w k i s : conn_inv w → sr_server (get_record w k) = Some (i, s) →
  ∃ S, so_servers w !! s = Some S ∧ sc_registered S = true ∧ sc_interface S = i ∧ skey S = k ∧
    server_ok w s S.
Proof.
  intros Hinv E. destruct (v_record_server _ Hinv _ _ _ E) as (S & ES & ? & ? & ?).
  pose proof (v_servers _ Hinv _ _ ES). eauto 10.
Qed.

Lemma conn_new_client w C :
  conn_inv w → sr_client (get_record w (ckey C)) = None →
  cc_stop_token C = true → cc_server C = None →
  let w' := registered_client w (so_next w) C in
  server_of (get_record w' (ckey C)) = None → conn_inv w'.
Proof.
  intros Hinv Hn Hst Hcs w' Hno. pose proof (conn_fresh_client w Hinv) as Hfresh.
  assert (get_record w' (ckey C) = with_client (get_record w (ckey C))
    (Some (cc_interface C, so_next w))) as Hr by (unfold get_record; simpl;
      by rewrite lookup_insert_eq).
  apply (conn_inv_local (ckey C) w); [done|simpl; lia|..].
  - intros k' Hk. unfold get_record. simpl. by rewrite lookup_insert_ne.
  - apply insert_local; [done|]. congruence.
  - done.
  - intros c C' E Hk. simpl in E. destruct (decide (so_next w = c)) as [<-|].
    + rewrite lookup_insert_eq in E. simplify_eq. unfold client_ok. rewrite Hno, Hr.
      split_and!; try done. simpl. lia.
    + rewrite lookup_insert_ne in E by done.
      destruct (v_clients _ Hinv _ _ E) as (_ & _ & H1 & _). congruence.
  - intros s S E Hk. destruct (v_servers _ Hinv _ _ E) as (H1 & H2 & H3 & H4).
    unfold server_ok. split_and!; try done; [simpl; lia|].
    destruct (sc_registered S); [|done]. rewrite Hk in H4 |- *. rewrite Hr.
    destruct H4 as [H4 H5]. split; [done|]. rewrite H5. unfold client_of, server_of, matching in *.
    rewrite Hn. rewrite Hr in Hno. simpl in Hno |- *. rewrite H4 in Hno |- *. simpl in Hno.
    by destruct (is_minor_version_compatible _ _).
  - intros i c. rewrite Hr. simpl. intros [= <- <-]. exists C. by rewrite lookup_insert_eq.
  - intros i s. rewrite Hr. simpl. intros E.
    by destruct (v_record_server _ Hinv _ _ _ E) as (S & ?); eauto.
Qed.

(** Client [c] and server [s] become the connected pair of their record. *)
Lemma conn_link w w' c C s S :
  conn_inv w → (so_next w ≤ so_next w')%N → (c < so_next w')%N → (s < so_next w')%N →
  so_clients w' = <[c := C]> (so_clients w) → so_servers w' = <[s := S]> (so_servers w) →
  (∀ k', ckey C ≠ k' → get_record w' k' = get_record w k') →
  get_record w' (ckey C) =
    {| sr_server := Some (sc_interface S, s); sr_client := Some (cc_interface C, c) |} →
  is_minor_version_compatible (sc_interface S) (cc_interface C) = true →
  skey S = ckey C → cc_server C = Some s → sc_client S = Some c →
  cc_stop_token C = true → sc_stop_token S = true → sc_registered S = true → events_ok S →
  (∀ C', so_clients w !! c = Some C' → ckey C' = ckey C) →
  (∀ S', so_servers w !! s = Some S' → skey S' = ckey C) →
  (∀ i c', sr_client (get_record w (ckey C)) = Some (i, c') → c' = c) →
  (∀ i s', sr_server (get_record w (ckey C)) = Some (i, s') → s' = s) →
  conn_inv w'.
Proof.
  intros Hinv Hnext Hcn Hsn HC HS Hr Hrk Hmin Hk Hcs Hsc Hct Hst Hreg Hok Hc Hs Huc Hus.
  apply (conn_inv_local (ckey C) w); [done|done|done|..].
  - rewrite HC. by apply insert_local.
  - rewrite HS. by apply insert_local.
  - intros c' C' E Hk'. rewrite HC in E. destruct (decide (c = c')) as [<-|].
    + rewrite lookup_insert_eq in E. simplify_eq. unfold client_ok, server_of, matching.
      rewrite Hrk. simpl. by rewrite Hmin.
    + rewrite lookup_insert_ne in E by done. destruct (v_clients _ Hinv _ _ E) as (_ & _ & H1 & _).
      rewrite Hk' in H1. apply Huc in H1. congruence.
  - intros s' S' E Hk'. rewrite HS in E. destruct (decide (s = s')) as [<-|].
    + rewrite lookup_insert_eq in E. simplify_eq. unfold server_ok, client_of, matching.
      rewrite Hreg, Hk, Hrk. simpl. by rewrite Hmin.
    + rewrite lookup_insert_ne in E by done.
      destruct (v_servers _ Hinv _ _ E) as (H1 & H2 & H3 & H4). split_and!; try done; [lia|].
      destruct (sc_registered S'); [|done]. rewrite Hk' in H4. destruct H4 as [H4 _].
      apply Hus in H4. congruence.
  - intros i c'. rewrite Hrk. simpl. intros [= <- <-]. exists C. by rewrite HC, lookup_insert_eq.
  - intros i s'. rewrite Hrk. simpl. intros [= <- <-]. exists S. by rewrite HS, lookup_insert_eq.
Qed.

(** Server [s] is registered, and no client can be connected to it. *)
Lemma conn_new_server w w' s S :
  conn_inv w → so_next w' = so_next w → (s < so_next w')%N →
  so_clients w' = so_clients w → so_servers w' = <[s := S]> (so_servers w) →
  (∀ k', skey S ≠ k' → get_record w' k' = get_record w k') →
  get_record w' (skey S) = with_server (get_record w (skey S)) (Some (sc_interface S, s)) →
  matching (get_record w' (skey S)) = false → sr_server (get_record w (skey S)) = None →
  sc_client S = None → sc_stop_token S = true → sc_registered S = true → events_ok S →
  (∀ S', so_servers w !! s = Some S' → skey S' = skey S) →
  conn_inv w'.
Proof.
  intros Hinv Hnext Hsn HC HS Hr Hrk Hno Hnone Hsc Hst Hreg Hok Hs.
  apply (conn_inv_local (skey S) w); [done|lia|done|by rewrite HC|..].
  - rewrite HS. by apply insert_local.
  - intros c C E Hk. rewrite HC in E. destruct (v_clients _ Hinv _ _ E) as (H1 & H2 & H3 & H4).
    unfold client_ok, server_of. rewrite Hk in *. rewrite Hno, Hrk. split_and!; try done; [lia|].
    rewrite H4. unfold server_of, matching. by rewrite Hnone.
  - intros s' S' E Hk'. rewrite HS in E. destruct (decide (s = s')) as [<-|].
    + rewrite lookup_insert_eq in E. simplify_eq. unfold server_ok, client_of.
      by rewrite Hreg, Hno, Hrk.
    + rewrite lookup_insert_ne in E by done.
      destruct (v_servers _ Hinv _ _ E) as (H1 & H2 & H3 & H4). split_and!; try done; [lia|].
      destruct (sc_registered S'); [|done]. rewrite Hk', Hnone in H4. naive_solver.
  - intros i c. rewrite Hrk, HC. apply (v_record_client _ Hinv).
  - intros i s'. rewrite Hrk. simpl. intros [= <- <-]. exists S. by rewrite HS, lookup_insert_eq.
Qed.

(** Server [s] leaves its record, and the client of the record lets go of it. *)
Lemma conn_remove_server w w' s S D :
  conn_inv w → so_servers w !! s = Some S → sc_registered S = true → so_next w' = so_next w →
  so_servers w' = <[s := D]> (so_servers w) →
  so_clients w' = match sc_client S with
                  | Some c => alter (λ C, cc_set_server C None) c (so_clients w)
                  | None => so_clients w
                  end →
  (∀ k', skey S ≠ k' → get_record w' k' = get_record w k') →
  get_record w' (skey S) = with_server (get_record w (skey S)) None →
  skey D = skey S → events_ok D → sc_registered D = false → sc_stop_token D = false →
  sc_client D = None → conn_inv w'.
Proof.
  intros Hinv ES Hreg Hnext HS HC Hr Hrk HkD Hok HrD HtD HcD.
  pose proof (connected_client w s S) as Hlive.
  destruct (v_servers _ Hinv _ _ ES) as (Hs & _ & _ & Hrec). rewrite Hreg in Hrec.
  destruct Hrec as [Hrs Hcl].
  assert (∀ c C, so_clients w' !! c = Some C → ckey C = skey S →
    ∃ C0, so_clients w !! c = Some C0 ∧ C = cc_set_server C0 None) as Hback.
  { intros c C E Hk. rewrite HC in E. destruct (sc_client S) as [c0|] eqn:Ec0.
    - rewrite lookup_alter_Some in E. destruct E as [(<- & C0 & ? & ->)|[Hn E]]; [by eauto|].
      destruct (Hlive c0 Hinv ES eq_refl) as (C0 & E0 & _ & _ & Hk0).
      destruct (client_unique w c C c0 C0) as [-> _]; congruence.
    - exists C. split; [done|]. destruct (v_clients _ Hinv _ _ E) as (_ & _ & Hc & Hcs).
      rewrite Hk in Hc, Hcs. unfold client_of, server_of in *. rewrite Hc in Hcl.
      destruct (matching _); [done|]. by destruct C; simpl in *; subst. }
  apply (conn_inv_local (skey S) w); [done|lia|done|..].
  - intros c C Hk. rewrite HC. destruct (sc_client S) as [c0|] eqn:Ec0; [|done].
    destruct (Hlive c0 Hinv ES eq_refl) as (C0 & E0 & _ & _ & Hk0).
    rewrite (alter_as_insert _ _ _ _ E0).
    revert c C Hk. apply insert_local; [done|]. congruence.
  - rewrite HS. apply insert_local; [done|]. congruence.
  - intros c C E Hk. destruct (Hback c C E Hk) as (C0 & E0 & ->).
    destruct (v_clients _ Hinv _ _ E0) as (H1 & H2 & H3 & H4). unfold client_ok.
    rewrite Hk, Hrk. split_and!; try done; [lia|]. simpl. by rewrite <-Hk.
  - intros s' S' E Hk. rewrite HS in E. destruct (decide (s = s')) as [<-|].
    + rewrite lookup_insert_eq in E. simplify_eq. unfold server_ok. rewrite HrD.
      split_and!; try done. lia.
    + rewrite lookup_insert_ne in E by done.
      destruct (v_servers _ Hinv _ _ E) as (H1 & H2 & H3 & H4). split_and!; try done; [lia|].
      destruct (sc_registered S') eqn:Hr'; [|done].
      by destruct (server_unique w s S s' S').
  - intros i c. rewrite Hrk. simpl. intros E.
    destruct (v_record_client _ Hinv _ _ _ E) as (C & EC & <- & Hk). rewrite HC.
    destruct (sc_client S) as [c0|]; [|by eauto].
    destruct (decide (c0 = c)) as [->|].
    + exists (cc_set_server C None). by rewrite lookup_alter_eq, EC.
    + exists C. by rewrite lookup_alter_ne.
  - intros i s'. by rewrite Hrk.
Qed.

(** Client [c] leaves its record and is gone; its server has let go of it. *)
Lemma conn_remove_client w w' c C :
  conn_inv w → so_clients w !! c = Some C → so_next w' = so_next w →
  so_clients w' = delete c (so_clients w) →
  so_servers w' = match cc_server C with
                  | Some s => alter disconnected s (so_servers w)
                  | None => so_servers w
                  end →
  (∀ k', ckey C ≠ k' → get_record w' k' = get_record w k') →
  get_record w' (ckey C) = with_client (get_record w (ckey C)) None →
  conn_inv w'.
Proof.
  intros Hinv EC Hnext HC HS Hr Hrk.
  destruct (v_clients _ Hinv _ _ EC) as (_ & _ & Hrc & Hcs).
  pose proof (connected_server w c C) as Hlive.
  assert (∀ r, client_of (with_client r None) = None) as Hnocl.
  { intros r. unfold client_of, matching. simpl. by destruct (sr_server r) as [[]|]. }
  apply (conn_inv_local (ckey C) w); [done|lia|done|..].
  - rewrite HC. apply delete_local. congruence.
  - intros s S Hk. rewrite HS. destruct (cc_server C) as [s0|] eqn:Es0; [|done].
    destruct (Hlive s0 Hinv EC eq_refl) as (S0 & E0 & _ & _ & Hk0 & _).
    rewrite (alter_as_insert _ _ _ _ E0).
    revert s S Hk. apply insert_local; [done|]. congruence.
  - intros c' C' E Hk. rewrite HC in E. apply lookup_delete_Some in E as [Hn E].
    by destruct (client_unique w c C c' C').
  - intros s S E Hk. rewrite HS in E.
    assert (server_ok w s S ∧ cc_server C ≠ Some s ∨
      ∃ S0, so_servers w !! s = Some S0 ∧ server_ok w s S0 ∧ S = disconnected S0) as Hcases.
    { destruct (cc_server C) as [s0|].
      - rewrite lookup_alter_Some in E. destruct E as [(<- & S0 & ? & ->)|[? E]].
        + right. exists S0. pose proof (v_servers _ Hinv s0 S0). naive_solver.
        + left. split; [by apply (v_servers _ Hinv)|congruence].
      - left. split; [by apply (v_servers _ Hinv)|done]. }
    destruct Hcases as [[(H1 & H2 & H3 & H4) Hne]|(S0 & E0 & (H1 & H2 & H3 & H4) & ->)].
    + split_and!; try done; [lia|]. destruct (sc_registered S) eqn:Hreg; [|done].
      rewrite Hk, Hrk, Hnocl. rewrite Hk in H4. destruct H4 as [H4 H5]. split; [done|].
      rewrite H5. unfold client_of. rewrite Hcs in Hne. unfold server_of in Hne.
      destruct (matching _); [|done]. rewrite H4 in Hne. done.
    + change (skey (disconnected S0)) with (skey S0) in Hk. unfold server_ok.
      change (skey (disconnected S0)) with (skey S0).
      change (sc_interface (disconnected S0)) with (sc_interface S0).
      rewrite Hk, Hrk, Hnocl. split_and!; [lia|by apply events_ok_cleared|done|].
      simpl. destruct (sc_registered S0); [|done]. rewrite Hk in H4. naive_solver.
  - intros i c'. by rewrite Hrk.
  - intros i s. rewrite Hrk. simpl. intros E.
    destruct (v_record_server _ Hinv _ _ _ E) as (S & ES & Hreg & <- & Hk). rewrite HS.
    destruct (cc_server C) as [s0|]; [|by eauto].
    destruct (decide (s0 = s)) as [->|].
    + exists (disconnected S). by rewrite lookup_alter_eq, ES.
    + exists S. by rewrite lookup_alter_ne.
Qed.

(** The events of a server change. *)
Lemma conn_events w s S S' :
  conn_inv w → so_servers w !! s = Some S → events_ok S' →
  skey S' = skey S → sc_interface S' = sc_interface S → sc_registered S' = sc_registered S →
  sc_stop_token S' = sc_stop_token S → sc_client S' = sc_client S →
  conn_inv (set_servers w (<[s := S']> (so_servers w))).
Proof.
  intros Hinv ES Hok Hk Hi Hr Ht Hc. apply (conn_inv_local (skey S) w); try done.
  - apply insert_local; [done|]. congruence.
  - intros c C E Hk'. by apply (v_clients _ Hinv).
  - intros s' S0 E Hk'. simpl in E. destruct (decide (s = s')) as [<-|].
    + rewrite lookup_insert_eq in E. injection E as <-.
      destruct (v_servers _ Hinv _ _ ES) as (H1 & H2 & H3 & H4). unfold server_ok.
      rewrite Hk, Hi, Hr, Ht, Hc. by split_and!.
    + rewrite lookup_insert_ne in E by done. by apply (v_servers _ Hinv).
  - apply (v_record_client _ Hinv).
  - intros i s' E. destruct (v_record_server _ Hinv _ _ _ E) as (S0 & E0 & ? & ? & ?).
    simpl. destruct (decide (s = s')) as [<-|].
    + exists S'. rewrite lookup_insert_eq. assert (S0 = S) as -> by congruence.
      split_and!; congruence.
    + exists S0. by rewrite lookup_insert_ne.
Qed.

(** A server that is not registered comes or goes. *)
Lemma conn_idle_server w n s S :
  conn_inv w → so_servers w !! s = None → (so_next w ≤ n)%N → (s < n)%N →
  events_ok S → sc_registered S = false → sc_stop_token S = false → sc_client S = None →
  conn_inv (set_next (set_servers w (<[s := S]> (so_servers w))) n).
Proof.
  intros Hinv ES Hn Hsn Hok Hr Ht Hc. apply (conn_inv_local (skey S) w); try done.
  - apply insert_local; [done|]. congruence.
  - intros c C E Hk. destruct (v_clients _ Hinv _ _ E) as (H1 & H2). split; [simpl; lia|done].
  - intros s' S' E Hk. simpl in E. destruct (decide (s = s')) as [<-|].
    + rewrite lookup_insert_eq in E. injection E as <-. unfold server_ok. rewrite Hr.
      by split_and!.
    + rewrite lookup_insert_ne in E by done.
      destruct (v_servers _ Hinv _ _ E) as (H1 & H2). split; [simpl; lia|done].
  - apply (v_record_client _ Hinv).
  - intros i s' E. destruct (v_record_server _ Hinv _ _ _ E) as (S0 & E0 & ?).
    exists S0. simpl. rewrite lookup_insert_ne by congruence. done.
Qed.

Lemma conn_delete_server w s S :
  conn_inv w → so_servers w !! s = Some S → sc_registered S = false →
  conn_inv (set_servers w (delete s (so_servers w))).
Proof.
  intros Hinv ES Hr. apply (conn_inv_local (skey S) w); try done.
  - apply delete_local. congruence.
  - intros c C E Hk. by apply (v_clients _ Hinv).
  - intros s' S' E Hk. simpl in E. apply lookup_delete_Some in E as [_ E].
    by apply (v_servers _ Hinv).
  - apply (v_record_client _ Hinv).
  - intros i s' E. destruct (v_record_server _ Hinv _ _ _ E) as (S0 & E0 & ?).
    exists S0. simpl. rewrite lookup_delete_ne by (intros <-; naive_solver congruence). done.
Qed.

(** ** Preservation: identifiers and requests *)

(** Only the names of the servers matter to the identifiers. *)
Lemma id_inv_same w w' :
  id_inv w → so_identifiers w' = so_identifiers w →
  ident <$> so_servers w' = ident <$> so_servers w → id_inv w'.
Proof.
  intros [H1 H2] Hi Hs.
  assert (∀ s x, (∃ S, so_servers w' !! s = Some S ∧ ident S = x) ↔
    (∃ S, so_servers w !! s = Some S ∧ ident S = x)) as Hnames.
  { intros s x. pose proof (f_equal (lookup s) Hs) as E. rewrite !lookup_fmap in E.
    destruct (so_servers w' !! s), (so_servers w !! s); simpl in E; try done;
      split; intros (S & [= <-] & <-); eexists; (split; [done|congruence]). }
  split.
  - intros x. rewrite Hi, H1. split; intros (s & HS); exists s; by apply Hnames.
  - intros s1 s2 S1 S2 E1 E2 E.
    destruct (proj1 (Hnames s1 (ident S1))) as (T1 & ? & ?); [by eauto|].
    destruct (proj1 (Hnames s2 (ident S2))) as (T2 & ? & ?); [by eauto|].
    apply (H2 s1 s2 T1 T2); congruence.
Qed.

Lemma id_insert (m : gmap N Server_connector) s S S' :
  m !! s = Some S → ident S' = ident S → ident <$> <[s := S']> m = ident <$> m.
Proof.
  intros E Hi. rewrite fmap_insert, Hi. apply insert_id. by rewrite lookup_fmap, E.
Qed.

(** Only the requests of the clients matter to the requests. *)
Definition creq (C : Client_connector) : option Request_key :=
  if cc_requests C then Some (request_key C) else None.

Lemma creq_spec (m : gmap N Client_connector) c k :
  omap creq m !! c = Some k ↔
  ∃ C, m !! c = Some C ∧ cc_requests C = true ∧ k = request_key C.
Proof.
  rewrite lookup_omap, bind_Some. unfold creq. split.
  - intros (C & E & HC). exists C. destruct (cc_requests C); [|done]. by injection HC as <-.
  - intros (C & E & Hq & ->). exists C. by rewrite Hq.
Qed.

Lemma req_inv_same w w' :
  req_inv w → so_requests w' = so_requests w → so_bridges w' = so_bridges w →
  (so_next w ≤ so_next w')%N → omap creq (so_clients w') = omap creq (so_clients w) → req_inv w'.
Proof.
  intros [H1 H2 H3] Hr Hb Hn Hc. split.
  - intros c C E Hq. unfold full_request. rewrite Hr, Hb.
    assert (omap creq (so_clients w') !! c = Some (request_key C)) as E'
      by (apply creq_spec; eauto).
    rewrite Hc in E'. apply creq_spec in E' as (C0 & E0 & Hq0 & ->). by apply (H1 c).
  - intros k r E. rewrite Hr in E. destruct (H2 k r E) as (c & HC).
    exists c. apply creq_spec. rewrite Hc. by apply creq_spec.
  - intros b i E. rewrite Hb in E. specialize (H3 b i E). lia.
Qed.
