(* ===== verification/SocomCalls.v ===== *)
(** * The calls of the socom API

    Every call, with what it does to the three things users see: which server a
    client is told of, which requests the bridges hold, and the state that
    [SocomInvariant] describes ([good]). A call returns, or it is the enabling of a
    server whose service another server with another minor version already
    provides ([socom_step_good]); [trace_inv] adds the calls up. *)

From stdpp Require Import base numbers list gmap strings.
From S2P Require Import Prelude.
From S2P Require Import IpcTypes.
From S2P Require Import Socom.
From S2P Require Import SocomInvariant.

(** ** Calls *)

Inductive Socom_call : Type :=
  | Make_client (callbacks_ok : bool) (interface : Service_interface_identifier)
      (instance : Service_instance)
  | Destroy_client (c : N)
  | Make_server (callbacks_ok : bool) (interface : Service_interface_identifier)
      (num_methods : N) (num_events : nat) (instance : Service_instance)
  | Enable (s : N)
  | Disable (s : N)
  | Destroy_server (s : N)
  | Register_bridge (callback_ok : bool) (identity : N)
  | Unregister_bridge (b : N)
  | Update_event (s id payload : N)
  | Update_requested_event (s id payload : N)
  | Allocate_event_payload (s id : N)
  | Get_event_mode (s id : N)
  | Subscribe_event (c id : N) (mode : Event_mode)
  | Unsubscribe_event (c id : N)
  | Request_event_update (c id : N)
  | Call_method (c id payload : N)
  | Allocate_method_call_payload (c id : N).

(** A call whose result is not looked at. *)
Definition run {A} (m : SoM A) : SoM unit := m ≫= λ _, mret tt.

Definition socom_step (call : Socom_call) : SoM unit :=
  match call with
  | Make_client ok i inst => run (make_client_connector ok i inst)
  | Destroy_client c => destroy_client_connector c
  | Make_server ok i m e inst => run (make_server_connector ok i m e inst)
  | Enable s => enable_server s
  | Disable s => disable_server s
  | Destroy_server s => destroy_server_connector s
  | Register_bridge ok i => run (register_service_bridge ok i)
  | Unregister_bridge b => stop_registration b
  | Update_event s id p => run (update_event s id p)
  | Update_requested_event s id p => run (update_requested_event s id p)
  | Allocate_event_payload s id => run (allocate_event_payload s id (Ok tt))
  | Get_event_mode s id => run (get_event_mode s id)
  | Subscribe_event c id mode => run (subscribe_event c id mode)
  | Unsubscribe_event c id => run (unsubscribe_event c id)
  | Request_event_update c id => run (request_event_update c id)
  | Call_method c id p => run (call_method c id p)
  | Allocate_method_call_payload c id => run (allocate_method_call_payload c id (Ok tt))
  end.

(** Users call connectors that they own, and enable only a disabled one: the types
    of the API see to both. *)
Definition socom_admissible (w : Socom) (call : Socom_call) : Prop :=
  match call with
  | Destroy_client c | Subscribe_event c _ _ | Unsubscribe_event c _ | Request_event_update c _
  | Call_method c _ _ | Allocate_method_call_payload c _ => is_Some (so_clients w !! c)
  | Enable s => ∃ S, so_servers w !! s = Some S ∧ sc_registered S = false
  | Disable s | Destroy_server s | Update_event s _ _ | Update_requested_event s _ _
  | Allocate_event_payload s _ | Get_event_mode s _ => is_Some (so_servers w !! s)
  | Unregister_bridge b => is_Some (so_bridges w !! b)
  | Make_client _ _ _ | Make_server _ _ _ _ _ | Register_bridge _ _ => True
  end.

(** ** Single calls *)

(** Actions in a row. *)
Lemma forM_emit_run {A} (f : A → Socom_action) l w :
  forM l (λ x, emit (f x) : SoM unit) w = Done (tt, w, f <$> l).
Proof.
  induction l as [|x l IH]; [done|]. simpl.
  rewrite (bind_run _ _ _ tt w [f x]) by done. by rewrite IH.
Qed.

Definition request_forwarded (w : Socom) (i : Service_interface_identifier) (inst : string) :=
  (λ b : N * N, Bridge_request b.1 i inst) <$> map_to_list (so_bridges w).

(** The first request for a service goes to every bridge. *)
Lemma get_service_requests_run i inst w :
  so_requests w !! (i, inst) = None →
  get_service_requests i inst w =
    Done (tt, set_requests w (<[(i, inst) := full_request w]> (so_requests w)),
      request_forwarded w i inst).
Proof.
  intros E. unfold get_service_requests.
  rewrite (bind_silent get_state _ w w w) by done. rewrite E. simpl.
  replace (filter _ (map_to_list (so_bridges w))) with (map_to_list (so_bridges w)).
  2:{ symmetry. by apply filter_all. }
  rewrite (bind_run _ _ _ _ _ _ (forM_emit_run _ _ _)). simpl. unfold modify.
  rewrite app_nil_r, union_empty_l_L.
  by replace (list_to_set (map_to_list (so_bridges w)).*1) with (dom (so_bridges w))
    by (apply leibniz_equiv, dom_alt).
Qed.

(** ** What a call does to what users see *)

(** What client [c] knows of its server after the reports; [None] if a report does
    not fit what it knew. *)
Fixpoint told (c : N) (server : option N) (reports : list (N * bool * N)) : option (option N) :=
  match reports with
  | [] => Some server
  | (c', available, s) :: reports =>
    if decide (c' = c) then
      match available, server with
      | true, None => told c (Some s) reports
      | false, Some s' => if decide (s = s') then told c None reports else None
      | _, _ => None
      end
    else told c server reports
  end.

#[export] Instance Socom_action_eq_dec : EqDecision Socom_action.
Proof. solve_decision. Defined.

(** How often an action occurs, and the requests that bridge [b] has been given for a
    service and not been freed of. *)
Definition occurrences (a : Socom_action) (o : list Socom_action) : Z :=
  Z.of_nat (length (filter (λ x, x = a) o)).
Definition balance (b : N) (k : Request_key) (o : list Socom_action) : Z :=
  (occurrences (Bridge_request b k.1 k.2) o - occurrences (Bridge_request_dropped b k.1 k.2) o)%Z.

(** The requests the runtime holds. *)
Definition held (w : Socom) (b : N) (k : Request_key) : Z :=
  match so_requests w !! k with
  | Some r => if decide (b ∈ br_bridges r) then 1 else 0
  | None => 0
  end.

Definition server_before (w : Socom) (c : N) : option N := so_clients w !! c ≫= cc_server.

Record good (w w' : Socom) (o : list Socom_action) : Prop := {
  g_inv : so_inv w';
  g_next : (so_next w ≤ so_next w')%N;
  g_fresh : ∀ c, is_Some (so_clients w' !! c) → is_Some (so_clients w !! c) ∨ (so_next w ≤ c)%N;
  g_named : Forall (λ n, (n.1.1 < so_next w')%N) (notices o);
  g_told : ∀ c C, so_clients w' !! c = Some C →
    told c (server_before w c) (notices o) = Some (cc_server C);
  g_held : ∀ b k, (held w' b k = held w b k + balance b k o)%Z;
}.

(** *** Counting *)

Lemma occurrences_app a o1 o2 :
  occurrences a (o1 ++ o2) = (occurrences a o1 + occurrences a o2)%Z.
Proof. unfold occurrences. rewrite filter_app, length_app. lia. Qed.

Lemma balance_app b k o1 o2 : balance b k (o1 ++ o2) = (balance b k o1 + balance b k o2)%Z.
Proof. unfold balance. rewrite !occurrences_app. lia. Qed.

Lemma occurrences_0 a o : a ∉ o → occurrences a o = 0%Z.
Proof. intros Ha. unfold occurrences. rewrite filter_none; [done|]. by intros x Hx ->. Qed.

Lemma occurrences_1 a o : NoDup o → a ∈ o → occurrences a o = 1%Z.
Proof.
  unfold occurrences. induction 1 as [|x o Hx Ho IH]; intros Ha; [by apply not_elem_of_nil in Ha|].
  rewrite filter_cons. destruct (decide (x = a)) as [->|Hne].
  - rewrite filter_none; [done|]. by intros y Hy ->.
  - apply elem_of_cons in Ha as [->|Ha]; [done|]. by apply IH.
Qed.

(** Neither requests nor drops of requests. *)
Definition bridgeless (o : list Socom_action) : Prop :=
  Forall (λ a, match a with Bridge_request _ _ _ | Bridge_request_dropped _ _ _ => False
                          | _ => True end) o.

Lemma balance_bridgeless b k o : bridgeless o → balance b k o = 0%Z.
Proof.
  intros Ho. unfold balance. rewrite !occurrences_0; [done|..];
    intros Ha; by pose proof (proj1 (Forall_forall _ _) Ho _ Ha).
Qed.

Lemma told_app c x o1 o2 :
  told c x (o1 ++ o2) = told c x o1 ≫= λ y, told c y o2.
Proof.
  revert x. induction o1 as [|[[c' []] s] o1 IH]; intros x; simpl; [done|..];
    repeat case_match; naive_solver.
Qed.

Lemma told_other c x o : Forall (λ n, n.1.1 ≠ c) o → told c x o = Some x.
Proof.
  induction 1 as [|[[c' v] s] o Hc Ho IH]; [done|]. simpl in *. by rewrite decide_False.
Qed.

(** A step of the code that reports nothing and leaves the servers of the clients
    alone. *)
Lemma good_quiet w w' o :
  so_inv w' → so_clients w' = so_clients w → (so_next w ≤ so_next w')%N →
  so_requests w' = so_requests w → notices o = [] → bridgeless o → good w w' o.
Proof.
  intros Hinv HC Hn Hr Ho Hb. split; try done.
  - intros c. rewrite HC. auto.
  - rewrite Ho. constructor.
  - intros c C E. rewrite Ho. simpl. unfold server_before. by rewrite <-HC, E.
  - intros b k. unfold held. rewrite Hr, balance_bridgeless by done. lia.
Qed.

Lemma good_refl w : so_inv w → good w w [].
Proof. intros. apply good_quiet; try done. constructor. Qed.

(** The outcome of a call that has been evaluated. *)
Ltac returns := do 3 eexists; split; [reflexivity|].

Lemma unsubscribed_bridgeless s o : Forall (unsubscribed s) o → bridgeless o.
Proof. intros Ho. eapply Forall_impl; [apply Ho|]. by intros a [id ->]. Qed.

(** *** Making a client *)

Lemma conn_inv_same w w' :
  conn_inv w → (so_next w ≤ so_next w')%N → so_clients w' = so_clients w →
  so_servers w' = so_servers w → (∀ k, get_record w' k = get_record w k) → conn_inv w'.
Proof.
  intros [H1 H2 H3 H4] Hn HC HS Hr. split.
  - intros c C E. rewrite HC in E. unfold client_ok. rewrite Hr.
    destruct (H1 c C E) as (? & ?). split; [lia|done].
  - intros s S E. rewrite HS in E. unfold server_ok. rewrite Hr.
    destruct (H2 s S E) as (? & ?). split; [lia|done].
  - intros k i c. rewrite Hr, HC. apply H3.
  - intros k i s. rewrite Hr, HS. apply H4.
Qed.

(** Looking at a record may create it. *)
Lemma so_inv_touch w k : so_inv w →
  so_inv (set_records w (<[k := get_record w k]> (so_records w))).
Proof.
  intros [H1 H2 H3]. split.
  - apply (conn_inv_same w); try done. intros k'. destruct (decide (k = k')) as [<-|].
    + apply get_record_insert_eq.
    + by apply get_record_insert_ne.
  - by apply (id_inv_same w).
  - by apply (req_inv_same w).
Qed.

(** The new client of [make_client_connector]. *)
Definition new_client (i : Service_interface_identifier) (inst : string) : Client_connector :=
  mkClientConnector i inst true None false.

Lemma server_before_fresh w : so_inv w → server_before w (so_next w) = None.
Proof. intros [H _ _]. unfold server_before. by rewrite conn_fresh_client. Qed.

(** No request is kept for a service without a client. *)
Lemma no_client_no_request w i inst :
  so_inv w → sr_client (get_record w (record_key i inst)) = None →
  so_requests w !! (i, inst) = None.
Proof.
  intros [H1 _ H3] Hn. destruct (so_requests w !! (i, inst)) as [r|] eqn:E; [|done].
  destruct (v_requests _ H3 _ _ E) as (c & C & EC & _ & Hk).
  destruct (v_clients _ H1 _ _ EC) as (_ & _ & Hc & _).
  unfold ckey, request_key in *. injection Hk as -> ->. congruence.
Qed.

Lemma balance_forwarded w i inst b k :
  balance b k (request_forwarded w i inst) =
    if decide (k = (i, inst) ∧ b ∈ dom (so_bridges w)) then 1%Z else 0%Z.
Proof.
  unfold balance. rewrite (occurrences_0 (Bridge_request_dropped _ _ _)).
  2:{ unfold request_forwarded. rewrite list_elem_of_fmap. naive_solver. }
  assert (Bridge_request b k.1 k.2 ∈ request_forwarded w i inst ↔
    k = (i, inst) ∧ b ∈ dom (so_bridges w)) as Hin.
  { unfold request_forwarded. rewrite list_elem_of_fmap, elem_of_dom. destruct k as [i' inst'].
    split.
    - intros ([b' x] & [= -> -> ->] & Hb). apply elem_of_map_to_list in Hb. by eauto.
    - intros ([= -> ->] & [x Hx]). exists (b, x). by rewrite elem_of_map_to_list. }
  case_decide as Hd.
  - rewrite occurrences_1; [done| |by apply Hin]. unfold request_forwarded.
    change (NoDup (((λ b, Bridge_request b i inst) ∘ fst) <$> map_to_list (so_bridges w))).
    rewrite list_fmap_compose.
    apply NoDup_fmap_2; [|apply NoDup_fst_map_to_list]. by intros ?? [= ->].
  - rewrite occurrences_0; [done|]. by rewrite Hin.
Qed.

Lemma req_waiting_client w i inst :
  so_inv w → sr_client (get_record w (record_key i inst)) = None →
  let C := cc_set_requests (new_client i inst) true in
  req_inv (set_requests (registered_client w (so_next w) C)
    (<[(i, inst) := full_request w]> (so_requests w))).
Proof.
  intros Hinv Hn C. pose proof (no_client_no_request w i inst Hinv Hn) as Hr.
  destruct Hinv as [H1 _ H3]. pose proof (conn_fresh_client w H1) as Hf. split; simpl.
  - intros c C' E Hq. destruct (decide (so_next w = c)) as [<-|].
    + rewrite lookup_insert_eq in E. injection E as <-. apply lookup_insert_eq.
    + rewrite lookup_insert_ne in E by done. pose proof (v_waiting _ H3 c C' E Hq) as Hw.
      rewrite lookup_insert_ne; [done|]. congruence.
  - intros k r E. destruct (decide (k = (i, inst))) as [->|].
    + exists (so_next w), C. by rewrite lookup_insert_eq.
    + rewrite lookup_insert_ne in E by done.
      destruct (v_requests _ H3 _ _ E) as (c & C' & EC & ?). exists c, C'.
      by rewrite lookup_insert_ne by congruence.
  - intros b x E. pose proof (v_bridges _ H3 b x E). lia.
Qed.

(** A client that comes without a server: every bridge is asked. *)
Lemma good_waiting_client w i inst :
  so_inv w → sr_server (get_record w (record_key i inst)) = None →
  sr_client (get_record w (record_key i inst)) = None →
  let C := cc_set_requests (new_client i inst) true in
  good w (set_requests (registered_client w (so_next w) C)
    (<[(i, inst) := full_request w]> (so_requests w))) (request_forwarded w i inst).
Proof.
  intros Hinv Hs Hn C. pose proof (no_client_no_request w i inst Hinv Hn) as Hr.
  assert (notices (request_forwarded w i inst) = []) as Hq.
  { unfold request_forwarded. by induction (map_to_list (so_bridges w)). }
  split; simpl; rewrite ?Hq.
  - split; [|by apply (id_inv_same w); [apply Hinv|..]|by apply req_waiting_client].
    apply (conn_inv_same (registered_client w (so_next w) C)); try done.
    apply conn_new_client; try done; [apply Hinv|].
    unfold get_record at 1. simpl. rewrite lookup_insert_eq. unfold server_of, matching. simpl.
    change (ckey C) with (record_key i inst). by rewrite Hs.
  - lia.
  - intros c [C' E]. destruct (decide (so_next w = c)) as [<-|]; [by right|].
    rewrite lookup_insert_ne in E by done. left. by eauto.
  - constructor.
  - intros c C' E. simpl. destruct (decide (so_next w = c)) as [<-|].
    + rewrite lookup_insert_eq in E. injection E as <-. by rewrite server_before_fresh.
    + rewrite lookup_insert_ne in E by done. unfold server_before. by rewrite E.
  - intros b k. rewrite balance_forwarded. unfold held. simpl.
    destruct (decide (k = (i, inst))) as [->|Hk].
    + rewrite lookup_insert_eq, Hr. simpl. repeat case_decide; naive_solver lia.
    + rewrite lookup_insert_ne by done. rewrite (decide_False (P := _ ∧ _)) by naive_solver. lia.
Qed.

(** A client that finds a server: the two are connected if they fit. *)
Definition joined (w : Socom) (i : Service_interface_identifier) (inst : string) (s : N)
    (S : Server_connector) : Socom :=
  let c := so_next w in
  let C := new_client i inst in
  if is_minor_version_compatible (sc_interface S) i
  then attach (registered_client w c C) c C s S else registered_client w c C.

Lemma get_record_registered w c C :
  get_record (registered_client w c C) (ckey C) =
    with_client (get_record w (ckey C)) (Some (cc_interface C, c)).
Proof. unfold get_record. simpl. by rewrite lookup_insert_eq. Qed.

Lemma get_record_registered_ne w c C k :
  ckey C ≠ k → get_record (registered_client w c C) k = get_record w k.
Proof. intros Hk. unfold get_record. simpl. by rewrite lookup_insert_ne. Qed.

Lemma conn_joined w i inst s S :
  conn_inv w → sr_client (get_record w (record_key i inst)) = None →
  sr_server (get_record w (record_key i inst)) = Some (sc_interface S, s) →
  so_servers w !! s = Some S → sc_registered S = true → skey S = record_key i inst →
  conn_inv (joined w i inst s S).
Proof.
  intros Hinv Hn Hs ES Hreg Hk. unfold joined.
  pose proof (get_record_registered w (so_next w) (new_client i inst)) as Hrec.
  change (ckey (new_client i inst)) with (record_key i inst) in Hrec.
  destruct (v_servers _ Hinv _ _ ES) as (Hlt & Hok & Htok & H4). rewrite Hreg, Hk in H4.
  destruct (is_minor_version_compatible _ _) eqn:Hm.
  - apply (conn_link w _ (so_next w) (cc_set_server (new_client i inst) (Some s)) s
      (sc_set_client S (Some (so_next w)))); try done; simpl; try lia.
    + by rewrite insert_insert_eq.
    + intros k' Hk'. by apply (get_record_registered_ne w (so_next w) (new_client i inst)).
    + etransitivity; [apply Hrec|]. unfold with_client. by rewrite Hs.
    + by rewrite Htok.
    + destruct Hok as (? & ? & ? & H6 & H7). destruct H4 as [_ H4].
      unfold client_of, matching in H4. rewrite Hn, Hs in H4.
      split_and!; try done; intros id c Hid; simpl in Hid.
      * apply H6 in Hid. congruence.
      * apply H7 in Hid. congruence.
    + by rewrite conn_fresh_client.
    + intros S' ES'. rewrite ES in ES'. by injection ES' as <-.
    + change (ckey (cc_set_server (new_client i inst) (Some s))) with (record_key i inst).
      by rewrite Hn.
    + change (ckey (cc_set_server (new_client i inst) (Some s))) with (record_key i inst).
      rewrite Hs. by intros ? ? [= _ ->].
  - apply conn_new_client; try done. change (ckey (new_client i inst)) with (record_key i inst).
    rewrite Hrec. unfold server_of, matching. simpl. by rewrite Hs, Hm.
Qed.

(** A client that holds no request comes, with or without a server. *)
Lemma creq_new (m : gmap N Client_connector) c C :
  m !! c = None → cc_requests C = false → omap creq (<[c := C]> m) = omap creq m.
Proof.
  intros E Hq. apply map_eq. intros j. rewrite !lookup_omap.
  destruct (decide (c = j)) as [<-|]; [|by rewrite lookup_insert_ne].
  rewrite lookup_insert_eq, E. simpl. unfold creq. by rewrite Hq.
Qed.

Lemma good_new_client w w' C o :
  so_inv w → conn_inv w' → cc_requests C = false →
  so_clients w' = <[so_next w := C]> (so_clients w) →
  ident <$> so_servers w' = ident <$> so_servers w → so_identifiers w' = so_identifiers w →
  so_requests w' = so_requests w → so_bridges w' = so_bridges w →
  so_next w' = (so_next w + 1)%N → bridgeless o →
  notices o = match cc_server C with Some s => [(so_next w, true, s)] | None => [] end →
  good w w' o.
Proof.
  intros Hinv Hconn Hq HC HS Hi Hr Hb Hn Ho Hno. split.
  - split; [done| |].
    + by apply (id_inv_same w); [apply Hinv|..].
    + apply (req_inv_same w); try done; [apply Hinv|lia|]. rewrite HC.
      apply creq_new; [apply conn_fresh_client, Hinv|done].
  - lia.
  - intros c [C' E]. rewrite HC in E. destruct (decide (so_next w = c)) as [<-|]; [by right|].
    rewrite lookup_insert_ne in E by done. left. by eauto.
  - rewrite Hno. destruct (cc_server C); repeat constructor. simpl. lia.
  - intros c C' E. rewrite Hno, HC in *. destruct (decide (so_next w = c)) as [<-|Hne].
    + rewrite lookup_insert_eq in E. injection E as <-. rewrite server_before_fresh by done.
      destruct (cc_server C); simpl; [|done]. by rewrite decide_True.
    + rewrite lookup_insert_ne in E by done. unfold server_before. rewrite E.
      apply told_other. destruct (cc_server C); by repeat constructor.
  - intros b k. unfold held. rewrite Hr, balance_bridgeless by done. lia.
Qed.

Lemma good_joined w i inst s S :
  so_inv w → sr_client (get_record w (record_key i inst)) = None →
  sr_server (get_record w (record_key i inst)) = Some (sc_interface S, s) →
  so_servers w !! s = Some S → sc_registered S = true → skey S = record_key i inst →
  good w (joined w i inst s S)
    (if is_minor_version_compatible (sc_interface S) i
     then [Cb_service_state_change (so_next w) true s] else []).
Proof.
  intros Hinv Hn Hs ES Hreg Hk. pose proof (v_conn _ Hinv) as Hconn.
  pose proof (conn_joined w i inst s S Hconn Hn Hs ES Hreg Hk) as Hj.
  unfold joined in *. destruct (is_minor_version_compatible _ _).
  - apply (good_new_client w _ (cc_set_server (new_client i inst) (Some s))); try done; simpl.
    + by rewrite insert_insert_eq.
    + by apply (id_insert _ _ S).
    + by repeat constructor.
  - apply (good_new_client w _ (new_client i inst)); try done. constructor.
Qed.

(** The new client after a failed registration. *)
Lemma so_inv_next w n : so_inv w → (so_next w ≤ n)%N → so_inv (set_next w n).
Proof.
  intros [H1 H2 H3] Hn. split.
  - by apply (conn_inv_same w).
  - by apply (id_inv_same w).
  - by apply (req_inv_same w).
Qed.

Definition with_client_object (w : Socom) (i : Service_interface_identifier) (inst : string) :
    Socom :=
  set_next (set_clients w (<[so_next w := new_client i inst]> (so_clients w))) (so_next w + 1)%N.

Lemma register_client_run w i inst :
  register_client_connector (record_key i inst) i (so_next w) (with_client_object w i inst) =
  let r := get_record w (record_key i inst) in
  match sr_client r with
  | Some _ => Done (Err duplicate_client, set_records (with_client_object w i inst)
      (<[record_key i inst := r]> (so_records w)), [])
  | None => Done (Ok (sr_server r), registered_client w (so_next w) (new_client i inst), [])
  end.
Proof.
  unfold register_client_connector. rewrite (bind_silent get_state _ _ _ _ eq_refl).
  change (get_record (with_client_object w i inst) (record_key i inst)) with
    (get_record w (record_key i inst)). simpl.
  by destruct (sr_client (get_record w (record_key i inst))); rewrite update_record_run.
Qed.

Lemma register_joined_run w i inst s S :
  conn_inv w → sr_client (get_record w (record_key i inst)) = None →
  sr_server (get_record w (record_key i inst)) = Some (sc_interface S, s) →
  so_servers w !! s = Some S → sc_registered S = true → skey S = record_key i inst →
  register_connector_client i inst (so_next w) (with_client_object w i inst) =
    Done (Ok false, joined w i inst s S,
      if is_minor_version_compatible (sc_interface S) i
      then [Cb_service_state_change (so_next w) true s] else []).
Proof.
  intros Hinv Hc Hs ES Hreg Hk. destruct (v_servers _ Hinv _ _ ES) as (_ & _ & Htok & Hcl).
  rewrite Hreg in Htok, Hcl. destruct Hcl as [_ Hcl].
  unfold register_connector_client. pose proof (register_client_run w i inst) as Hrun.
  cbv zeta in Hrun. rewrite Hc, Hs in Hrun. rewrite (bind_silent _ _ _ _ _ Hrun).
  erewrite bind_run; last first.
  { apply (bind_client_run _ _ S _ _ (new_client i inst)); try done; simpl.
    - apply lookup_insert_eq.
    - rewrite Hcl. unfold client_of, matching. rewrite Hk, Hc. by rewrite Hs.
    - by injection Hk.
    - by injection Hk. }
  unfold mret, M_ret. by rewrite app_nil_r.
Qed.

Lemma register_waiting_run w i inst :
  so_inv w → sr_client (get_record w (record_key i inst)) = None →
  sr_server (get_record w (record_key i inst)) = None →
  register_connector_client i inst (so_next w) (with_client_object w i inst) =
    Done (Ok true, set_requests (registered_client w (so_next w) (new_client i inst))
      (<[(i, inst) := full_request w]> (so_requests w)), request_forwarded w i inst).
Proof.
  intros Hinv Hc Hs. unfold register_connector_client.
  pose proof (register_client_run w i inst) as Hrun. cbv zeta in Hrun. rewrite Hc, Hs in Hrun.
  rewrite (bind_silent _ _ _ _ _ Hrun).
  rewrite (bind_run _ _ _ _ _ _ (get_service_requests_run i inst
    (registered_client w (so_next w) (new_client i inst)) (no_client_no_request w i inst Hinv Hc))).
  unfold mret, M_ret. by rewrite app_nil_r.
Qed.

Lemma register_duplicate_run w i inst x :
  sr_client (get_record w (record_key i inst)) = Some x →
  register_connector_client i inst (so_next w) (with_client_object w i inst) =
    Done (Err duplicate_client, set_records (with_client_object w i inst)
      (<[record_key i inst := get_record w (record_key i inst)]> (so_records w)), []).
Proof.
  intros Hc. unfold register_connector_client. pose proof (register_client_run w i inst) as Hrun.
  cbv zeta in Hrun. rewrite Hc in Hrun. by rewrite (bind_silent _ _ _ _ _ Hrun).
Qed.

(** The client of a new connection holds no request. *)
Lemma joined_client w i inst s S :
  ∃ C, so_clients (joined w i inst s S) !! so_next w = Some C ∧ cc_set_requests C false = C.
Proof.
  unfold joined. destruct (is_minor_version_compatible _ _); eexists;
    (split; [apply lookup_insert_eq|done]).
Qed.

(** A client of an enabled, compatible server is told while it is made. *)
Lemma make_client_told w i inst s S :
  so_inv w → sr_client (get_record w (record_key i inst)) = None →
  sr_server (get_record w (record_key i inst)) = Some (sc_interface S, s) →
  so_servers w !! s = Some S → is_minor_version_compatible (sc_interface S) i = true →
  make_client_connector true i inst w =
    Done (Ok (so_next w), joined w i inst s S, [Cb_service_state_change (so_next w) true s]).
Proof.
  intros Hinv Hc Hs ES Hcomp. unfold make_client_connector. rewrite reads_run, modify_run.
  change (set_next (set_clients w _) _) with (with_client_object w i inst).
  destruct (record_server_live w _ _ _ (v_conn _ Hinv) Hs) as (S' & ES' & Hreg & _ & Hk & _).
  assert (S' = S) as -> by congruence.
  rewrite (bind_run _ _ _ _ _ _ (register_joined_run w i inst s S (v_conn _ Hinv) Hc Hs ES Hreg
    Hk)).
  destruct (joined_client w i inst s S) as (C & EC & HC).
  rewrite (update_client_run _ C) by done. rewrite Hcomp, HC, insert_id by done.
  by destruct (joined w i inst s S).
Qed.

(** A client of a service that nobody provides waits, and every bridge is asked. *)
Definition waiting (w : Socom) (i : Service_interface_identifier) (inst : string) : Socom :=
  set_requests (registered_client w (so_next w) (cc_set_requests (new_client i inst) true))
    (<[(i, inst) := full_request w]> (so_requests w)).

Lemma make_client_waits w i inst :
  so_inv w → sr_client (get_record w (record_key i inst)) = None →
  sr_server (get_record w (record_key i inst)) = None →
  make_client_connector true i inst w =
    Done (Ok (so_next w), waiting w i inst, request_forwarded w i inst).
Proof.
  intros Hinv Hc Hs. unfold make_client_connector. rewrite reads_run, modify_run.
  change (set_next (set_clients w _) _) with (with_client_object w i inst).
  rewrite (bind_run _ _ _ _ _ _ (register_waiting_run w i inst Hinv Hc Hs)).
  rewrite (update_client_run _ (new_client i inst)) by apply lookup_insert_eq.
  unfold mret, M_ret. rewrite app_nil_r. unfold waiting, set_clients. simpl.
  by rewrite insert_insert_eq.
Qed.

(** [make_client_connector] on every path. *)
Lemma make_client_good ok i inst w :
  so_inv w → ∃ r w' o, make_client_connector ok i inst w = Done (r, w', o) ∧ good w w' o.
Proof.
  intros Hinv. destruct ok; [|returns; by apply good_refl].
  unfold make_client_connector. rewrite reads_run, modify_run.
  change (set_next (set_clients w _) _) with (with_client_object w i inst).
  destruct (sr_client (get_record w (record_key i inst))) as [x|] eqn:Hc.
  { rewrite (bind_run _ _ _ _ _ _ (register_duplicate_run w i inst x Hc)). returns.
    assert (delete (so_next w) (<[so_next w := new_client i inst]> (so_clients w)) =
      so_clients w) as Hdel by (apply delete_insert_id, conn_fresh_client, Hinv).
    apply good_quiet; try done; simpl; [|lia|constructor].
    unfold set_clients. simpl. rewrite Hdel.
    apply (so_inv_touch (set_next w (so_next w + 1)%N) (record_key i inst)).
    apply so_inv_next; [done|lia]. }
  destruct (sr_server (get_record w (record_key i inst))) as [[j s]|] eqn:Hs.
  - destruct (record_server_live w _ _ _ (v_conn _ Hinv) Hs) as (S & ES & Hreg & <- & Hk & Hok).
    rewrite (bind_run _ _ _ _ _ _ (register_joined_run w i inst s S (v_conn _ Hinv) Hc Hs ES Hreg
      Hk)).
    destruct (joined_client w i inst s S) as (C & EC & HC).
    rewrite (update_client_run _ C) by done. rewrite HC, insert_id by done. returns.
    rewrite app_nil_r. pose proof (good_joined w i inst s S Hinv Hc Hs ES Hreg Hk) as Hgood.
    by destruct (joined w i inst s S).
  - pose proof (make_client_waits w i inst Hinv Hc Hs) as E. unfold make_client_connector in E.
    rewrite reads_run, modify_run in E.
    change (set_next (set_clients w _) _) with (with_client_object w i inst) in E.
    do 3 eexists. split; [exact E|by apply good_waiting_client].
Qed.

(** *** Destroying a client *)

Definition drops (w : Socom) (C : Client_connector) : list Socom_action :=
  if cc_requests C then
    (λ b, Bridge_request_dropped b (cc_interface C) (cc_instance C)) <$>
      elements (dom (so_bridges w))
  else [].

Lemma balance_drops w C b k :
  balance b k (drops w C) =
    if decide (creq C = Some k ∧ b ∈ dom (so_bridges w)) then (-1)%Z else 0%Z.
Proof.
  unfold balance, drops, creq. destruct (cc_requests C); [|by rewrite decide_False by naive_solver].
  rewrite (occurrences_0 (Bridge_request _ _ _)).
  2:{ rewrite list_elem_of_fmap. naive_solver. }
  assert (Bridge_request_dropped b k.1 k.2 ∈
    ((λ b, Bridge_request_dropped b (cc_interface C) (cc_instance C)) <$>
      elements (dom (so_bridges w))) ↔ Some (request_key C) = Some k ∧ b ∈ dom (so_bridges w))
    as Hin.
  { rewrite list_elem_of_fmap. destruct k as [i inst]. unfold request_key. simpl. split.
    - intros (b' & [= -> -> ->] & Hb). by apply elem_of_elements in Hb.
    - intros ([= <- <-] & Hb). exists b. by rewrite elem_of_elements. }
  case_decide as Hd.
  - rewrite occurrences_1; [done| |by apply Hin].
    apply NoDup_fmap_2; [|apply NoDup_elements]. by intros ?? [= ->].
  - rewrite occurrences_0; [done|]. by rewrite Hin.
Qed.

Lemma remove_service_requests_run w0 w C :
  cc_requests C = true → so_requests w !! request_key C = Some (full_request w0) →
  remove_service_requests (cc_interface C) (cc_instance C) w =
    Done (tt, set_requests w (delete (request_key C) (so_requests w)), drops w0 C).
Proof.
  intros Hq E. unfold remove_service_requests. rewrite reads_run.
  rewrite (the_run _ _ (full_request w0)) by done. simpl.
  rewrite (bind_run _ _ _ _ _ _ (forM_emit_run _ _ _)). unfold drops. rewrite Hq.
  unfold modify. by rewrite app_nil_r.
Qed.

Lemma drop_requests_run w0 w C :
  (cc_requests C = true → so_requests w !! request_key C = Some (full_request w0)) →
  whenM (cc_requests C) (remove_service_requests (cc_interface C) (cc_instance C)) w =
    Done (tt, set_requests w (if cc_requests C then delete (request_key C) (so_requests w)
      else so_requests w), drops w0 C).
Proof.
  intros E. destruct (cc_requests C) eqn:Hq.
  - by apply remove_service_requests_run; [|apply E].
  - unfold drops. rewrite Hq. by destruct w.
Qed.

(** The state after a client is gone. *)
Definition without_client_connector (w : Socom) (c : N) (C : Client_connector) : Socom :=
  mkSocom
    match cc_server C with Some s => alter disconnected s (so_servers w) | None => so_servers w end
    (delete c (so_clients w))
    (<[ckey C := with_client (get_record w (ckey C)) None]> (so_records w))
    (so_identifiers w) (so_bridges w)
    (if cc_requests C then delete (request_key C) (so_requests w) else so_requests w)
    (so_next w).

Lemma id_alter (m : gmap N Server_connector) s f :
  (∀ S, ident (f S) = ident S) → ident <$> alter f s m = ident <$> m.
Proof.
  intros Hf. apply map_eq. intros j. rewrite !lookup_fmap.
  destruct (decide (s = j)) as [<-|]; [|by rewrite lookup_alter_ne].
  rewrite lookup_alter_eq. destruct (m !! s); simpl; [|done]. by rewrite Hf.
Qed.

(** Clients that wait wait for different services. *)
Lemma request_unique w c C c' C' : so_inv w →
  so_clients w !! c = Some C → so_clients w !! c' = Some C' →
  request_key C = request_key C' → c = c'.
Proof.
  intros [H _ _] E E' Hk. apply (client_unique w c C c' C'); try done.
  unfold request_key in Hk. injection Hk as Hi Hj. unfold ckey. by rewrite Hi, Hj.
Qed.

Lemma so_inv_without_client w c C :
  so_inv w → so_clients w !! c = Some C → so_inv (without_client_connector w c C).
Proof.
  intros Hinv E. pose proof Hinv as [H1 H2 H3]. split.
  - apply (conn_remove_client w _ c C); try done; unfold get_record; simpl.
    + intros k' Hk. by rewrite lookup_insert_ne.
    + by rewrite lookup_insert_eq.
  - apply (id_inv_same w); [done..|]. simpl. destruct (cc_server C); [|done]. by apply id_alter.
  - split; simpl.
    + intros c' C' E' Hq. apply lookup_delete_Some in E' as [Hne E'].
      pose proof (v_waiting _ H3 c' C' E' Hq) as Hw. destruct (cc_requests C); [|done].
      rewrite lookup_delete_ne; [done|]. intros Hk. by apply Hne, (request_unique w c C c' C').
    + intros k r Hk. assert (so_requests w !! k = Some r ∧ creq C ≠ Some k) as [Hr Hne].
      { unfold creq. destruct (cc_requests C); [|done]. apply lookup_delete_Some in Hk as [? ?].
        split; [done|congruence]. }
      destruct (v_requests _ H3 k r Hr) as (c' & C' & E' & Hq & ->). exists c', C'.
      rewrite lookup_delete_ne; [done|]. intros <-. destruct Hne. unfold creq.
      assert (C' = C) as -> by congruence. by rewrite Hq.
    + apply (v_bridges _ H3).
Qed.

Lemma good_without_client w c C s o :
  so_inv w → so_clients w !! c = Some C → Forall (unsubscribed s) o →
  good w (without_client_connector w c C) (o ++ drops w C).
Proof.
  intros Hinv E Ho. pose proof (so_inv_without_client w c C Hinv E) as Hinv'.
  assert (notices (o ++ drops w C) = []) as Hno.
  { rewrite notices_app, (unsubscribed_no_notice s) by done. unfold drops.
    destruct (cc_requests C); [|done]. by induction (elements (dom (so_bridges w))). }
  split; try done; rewrite ?Hno.
  - intros c' [C' E']. simpl in E'. apply lookup_delete_Some in E' as [_ E']. eauto.
  - constructor.
  - intros c' C' E'. simpl in E'. apply lookup_delete_Some in E' as [_ E'].
    simpl. unfold server_before. by rewrite E'.
  - intros b k. rewrite balance_app, balance_drops.
    rewrite (balance_bridgeless _ _ o) by by eapply unsubscribed_bridgeless.
    unfold held, creq. simpl. destruct (cc_requests C) eqn:Hq.
    + destruct (decide (request_key C = k)) as [<-|Hne].
      * rewrite lookup_delete_eq, (v_waiting _ (v_req _ Hinv) c C E Hq). simpl.
        repeat case_decide; naive_solver lia.
      * rewrite lookup_delete_ne by done.
        rewrite (decide_False (P := _ ∧ _)) by naive_solver. lia.
    + rewrite (decide_False (P := _ ∧ _)) by naive_solver. lia.
Qed.

Definition gone (C : Client_connector) : Client_connector :=
  cc_set_server (cc_set_stop_token C false) None.

(** The server of a client that goes away. *)
Definition servers_after (w : Socom) (C : Client_connector) : gmap N Server_connector :=
  match cc_server C with Some s => alter disconnected s (so_servers w) | None => so_servers w end.

Lemma release_run w c C :
  conn_inv w → so_clients w !! c = Some C →
  ∃ s o, reset_server c (set_clients w (<[c := cc_set_stop_token C false]> (so_clients w))) =
    Done (tt, set_servers (set_clients w (<[c := gone C]> (so_clients w))) (servers_after w C), o)
    ∧ Forall (unsubscribed s) o.
Proof.
  intros Hinv E. unfold servers_after. destruct (cc_server C) as [s|] eqn:Es.
  - destruct (connected_server w c C s Hinv E Es) as (S & ES & Hreg & Hc & _).
    destruct (v_servers _ Hinv _ _ ES) as (_ & Hok & _). exists s.
    destruct (reset_server_run c (cc_set_stop_token C false) s S
      (set_clients w (<[c := cc_set_stop_token C false]> (so_clients w)))) as (o & Eo & Ho);
      try done; [apply lookup_insert_eq|].
    exists o. split; [|done]. rewrite Eo. unfold detach. simpl.
    by rewrite insert_insert_eq, (alter_as_insert _ _ _ _ ES).
  - exists 0%N, []. split; [|constructor].
    rewrite (reset_server_none c (cc_set_stop_token C false)); [|apply lookup_insert_eq|done].
    replace (gone C) with (cc_set_stop_token C false); [done|].
    unfold gone, cc_set_server. simpl. by rewrite <-Es.
Qed.

(** Nobody points to a client that has let go of its server. *)
Lemma nobody_points w c C :
  conn_inv w → so_clients w !! c = Some C →
  map_Forall (λ _ o, sc_client o ≠ Some c) (servers_after w C).
Proof.
  intros Hinv E s S ES Hc. unfold servers_after in ES.
  assert (so_servers w !! s = Some S → cc_server C = Some s) as Hback.
  { intros ES'. destruct (connected_client w s S c Hinv ES' Hc) as (C' & E' & ? & _).
    congruence. }
  destruct (cc_server C) as [s0|]; [|by specialize (Hback ES)].
  rewrite lookup_alter_Some in ES. destruct ES as [(<- & S0 & ? & ->)|[Hne ES]]; [done|].
  specialize (Hback ES). congruence.
Qed.

(** [release_run] determines the rest. *)
Definition released (w : Socom) (c : N) (C : Client_connector) : Socom :=
  set_servers (set_clients w (<[c := gone C]> (so_clients w))) (servers_after w C).

Lemma destroy_client_released c C w o :
  so_inv w → so_clients w !! c = Some C →
  reset_server c (set_clients w (<[c := cc_set_stop_token C false]> (so_clients w))) =
    Done (tt, released w c C, o) →
  destroy_client_connector c w = Done (tt, without_client_connector w c C, o ++ drops w C).
Proof.
  intros Hinv E Eo. pose proof (v_conn _ Hinv) as Hconn. unfold destroy_client_connector.
  rewrite (update_client_run _ C) by done. rewrite (bind_run _ _ _ _ _ _ Eo).
  rewrite (get_client_run _ (gone C)) by apply lookup_insert_eq.
  rewrite (bind_silent get_state _ _ _ _ eq_refl), update_record_run.
  erewrite bind_run by (apply (drop_requests_run w _ C); apply (v_waiting _ (v_req _ Hinv) c C E)).
  rewrite (bind_silent get_state _ _ _ _ eq_refl).
  rewrite decide_True by by apply nobody_points. unfold modify. rewrite app_nil_r.
  unfold without_client_connector, released, set_clients, set_requests. simpl.
  by rewrite delete_insert_eq.
Qed.

Lemma destroy_client_run c C w :
  so_inv w → so_clients w !! c = Some C →
  ∃ s o, destroy_client_connector c w =
      Done (tt, without_client_connector w c C, o ++ drops w C) ∧ Forall (unsubscribed s) o.
Proof.
  intros Hinv E. destruct (release_run w c C (v_conn _ Hinv) E) as (s & o & Eo & Ho).
  exists s, o. split; [|done]. by apply destroy_client_released.
Qed.

Lemma destroy_client_good c C w :
  so_inv w → so_clients w !! c = Some C →
  ∃ w' o, destroy_client_connector c w = Done (tt, w', o) ∧ good w w' o.
Proof.
  intros Hinv E. destruct (destroy_client_run c C w Hinv E) as (s & o & Er & Ho).
  do 2 eexists. split; [exact Er|]. by eapply good_without_client.
Qed.

(** *** Making, enabling and disabling a server *)

Definition new_server (i : Service_interface_identifier) (m : N) (e : nat) (inst : string) :
    Server_connector :=
  mkServerConnector i m e inst false false (replicate e None) (replicate e None)
    (replicate e mode_update) None.

Lemma events_ok_new i m e inst : events_ok (new_server i m e inst).
Proof.
  assert (∀ id c, event_client id (replicate e None) = Some c → False) as Hno.
  { intros id c. unfold event_client. destruct (replicate e None !! id) as [x|] eqn:E; [|done].
    apply lookup_replicate in E as [-> _]. done. }
  split_and!; simpl; rewrite ?length_replicate; try done; intros id c Hc; by destruct (Hno id c).
Qed.

Lemma id_new_server w w' s S :
  id_inv w → so_servers w !! s = None → ident S ∉ so_identifiers w →
  so_servers w' = <[s := S]> (so_servers w) →
  so_identifiers w' = {[ ident S ]} ∪ so_identifiers w → id_inv w'.
Proof.
  intros [H1 H2] E Hn HS Hi.
  assert (∀ s' S', so_servers w !! s' = Some S' → ident S' ≠ ident S) as Hne.
  { intros s' S' E' Hid. apply Hn. rewrite <-Hid. apply H1. eauto. }
  split.
  - intros x. rewrite Hi, HS, elem_of_union, elem_of_singleton, H1. split.
    + intros [->|(s' & S' & E' & <-)]; [exists s, S; by rewrite lookup_insert_eq|].
      exists s', S'. by rewrite lookup_insert_ne by congruence.
    + intros (s' & S' & E' & <-). apply lookup_insert_Some in E' as [[<- <-]|[_ E']]; eauto.
  - rewrite HS. intros s1 s2 S1 S2 E1 E2 Hid.
    apply lookup_insert_Some in E1 as [[<- <-]|[_ E1]];
      apply lookup_insert_Some in E2 as [[<- <-]|[_ E2]]; try done.
    + by destruct (Hne s2 S2).
    + by destruct (Hne s1 S1).
    + by apply (H2 s1 s2 S1 S2).
Qed.

(** The state after a new server is made. *)
Definition with_new_server (w : Socom) (S : Server_connector) : Socom :=
  mkSocom (<[so_next w := S]> (so_servers w)) (so_clients w) (so_records w)
    ({[ ident S ]} ∪ so_identifiers w) (so_bridges w) (so_requests w) (so_next w + 1)%N.

Lemma make_server_run i m e inst w :
  (i, inst) ∉ so_identifiers w →
  make_server_connector true i m e inst w =
    Done (Ok (so_next w), with_new_server w (new_server i m e inst), []).
Proof.
  intros Hn. unfold make_server_connector. rewrite (bind_silent get_state _ w w w) by done.
  case_decide; [done|]. by rewrite !modify_run.
Qed.

Lemma make_server_good ok i m e inst w :
  so_inv w → ∃ r w' o, make_server_connector ok i m e inst w = Done (r, w', o) ∧ good w w' o.
Proof.
  intros Hinv. destruct ok; [|returns; by apply good_refl].
  destruct (decide ((i, inst) ∈ so_identifiers w)) as [Hd|Hd].
  { unfold make_server_connector. rewrite (bind_silent get_state _ w w w) by done.
    case_decide; [|done]. returns. by apply good_refl. }
  rewrite make_server_run by done. returns. pose proof Hinv as [H1 H2 H3].
  pose proof (conn_fresh_server w H1) as Hf. apply good_quiet; try done; [|simpl; lia|constructor].
  split.
  - apply (conn_inv_same (set_next (set_servers w (<[so_next w := new_server i m e inst]>
      (so_servers w))) (so_next w + 1)%N)); try done.
    apply conn_idle_server; try done; [lia|lia|apply events_ok_new].
  - by apply (id_new_server w _ (so_next w) (new_server i m e inst)).
  - apply (req_inv_same w); try done. simpl. lia.
Qed.

(** The server while it is being registered, and after. *)
Definition enabling (S : Server_connector) : Server_connector := sc_set_stop_token S true.
Definition enabled (S : Server_connector) : Server_connector :=
  sc_set_registered (enabling S) true.

(** The state after server [s] is enabled: the client of its record is connected if
    it fits. *)
Definition with_server_enabled (w : Socom) (s : N) (S : Server_connector) : Socom :=
  let k := skey S in
  let w1 := set_records w (<[k := with_server (get_record w k) (Some (sc_interface S, s))]>
              (so_records w)) in
  match sr_client (get_record w k) with
  | Some (j, c) =>
    if is_minor_version_compatible (sc_interface S) j then
      mkSocom (<[s := sc_set_client (enabled S) (Some c)]> (so_servers w))
        (alter (λ C, cc_set_server C (Some s)) c (so_clients w)) (so_records w1)
        (so_identifiers w) (so_bridges w) (so_requests w) (so_next w)
    else set_servers w1 (<[s := enabled S]> (so_servers w))
  | None => set_servers w1 (<[s := enabled S]> (so_servers w))
  end.

Definition enable_reports (w : Socom) (s : N) (S : Server_connector) : list Socom_action :=
  match sr_client (get_record w (skey S)) with
  | Some (j, c) => if is_minor_version_compatible (sc_interface S) j
                   then [Cb_service_state_change c true s] else []
  | None => []
  end.

Lemma register_server_run w k i s :
  register_server_connector k i s w =
    match sr_server (get_record w k) with
    | Some _ => Fault Assertion_failed
    | None => Done (sr_client (get_record w k), set_records w
        (<[k := with_server (get_record w k) (Some (i, s))]> (so_records w)), [])
    end.
Proof.
  unfold register_server_connector. rewrite (bind_silent get_state _ _ _ _ eq_refl).
  destruct (sr_server (get_record w k)) as [x|]; [done|].
  rewrite assert_run by done. by rewrite update_record_run.
Qed.

Lemma enable_run w s S :
  conn_inv w → so_servers w !! s = Some S → sc_registered S = false →
  sr_server (get_record w (skey S)) = None →
  enable_server s w = Done (tt, with_server_enabled w s S, enable_reports w s S).
Proof.
  intros Hinv ES Hreg Hnone. destruct (v_servers _ Hinv _ _ ES) as (_ & _ & _ & Hcl).
  rewrite Hreg in Hcl. unfold enable_server.
  rewrite (get_server_run _ _ _ _ ES), assert_run by by rewrite Hreg.
  rewrite (update_server_run _ _ _ _ _ ES). unfold register_connector_server. rewrite bind_assoc.
  set (w1 := set_servers w _).
  pose proof (register_server_run w1 (skey S) (sc_interface S) s) as Hrun.
  change (get_record w1 (skey S)) with (get_record w (skey S)) in Hrun. rewrite Hnone in Hrun.
  rewrite (bind_silent _ _ _ _ _ Hrun). subst w1.
  unfold with_server_enabled, enable_reports, with_server.
  destruct (sr_client (get_record w (skey S))) as [[j c]|] eqn:Hc.
  - destruct (v_record_client _ Hinv _ _ _ Hc) as (C & EC & <- & Hk).
    destruct (v_clients _ Hinv _ _ EC) as (_ & Htok & _).
    erewrite bind_run; last first.
    { apply (bind_client_run _ _ (enabling S) _ _ C); try done; [apply lookup_insert_eq|..];
        unfold ckey, skey, record_key in Hk; by injection Hk. }
    rewrite (alter_as_insert _ _ _ _ EC). destruct (is_minor_version_compatible _ _).
    + unfold update_server, modify. simpl.
      rewrite (alter_as_insert _ _ (sc_set_client (enabling S) (Some c))) by apply lookup_insert_eq.
      by rewrite !insert_insert_eq.
    + unfold update_server, modify. simpl.
      rewrite (alter_as_insert _ _ (enabling S)) by apply lookup_insert_eq.
      by rewrite !insert_insert_eq.
  - rewrite (bind_silent (mret tt) _ _ tt _) by done.
    unfold update_server, modify. simpl.
    rewrite (alter_as_insert _ _ (enabling S)) by apply lookup_insert_eq.
    by rewrite !insert_insert_eq.
Qed.

Lemma events_ok_connect S c : events_ok S → sc_client S = None → events_ok (sc_set_client S c).
Proof.
  intros (? & ? & ? & H1 & H2) Hn. split_and!; try done; intros id c' Hc; simpl in Hc;
    [apply H1 in Hc|apply H2 in Hc]; congruence.
Qed.

Lemma conn_enabled w s S :
  conn_inv w → so_servers w !! s = Some S → sc_registered S = false →
  sr_server (get_record w (skey S)) = None → conn_inv (with_server_enabled w s S).
Proof.
  intros Hinv ES Hreg Hnone. destruct (v_servers _ Hinv _ _ ES) as (Hlt & Hok & _ & Hcl).
  rewrite Hreg in Hcl. unfold with_server_enabled.
  set (r' := with_server _ _).
  assert (matching r' = false →
    conn_inv (set_servers (set_records w (<[skey S := r']> (so_records w)))
      (<[s := enabled S]> (so_servers w)))) as Hno.
  { intros Hm. apply (conn_new_server w _ s (enabled S)); try done;
      change (skey (enabled S)) with (skey S).
    - intros k' Hk. by apply (get_record_insert_ne w).
    - apply (get_record_insert_eq w).
    - unfold get_record. simpl. by rewrite lookup_insert_eq.
    - intros S' E'. rewrite ES in E'. by injection E' as <-. }
  destruct (sr_client (get_record w (skey S))) as [[j c]|] eqn:Hc.
  - destruct (v_record_client _ Hinv _ _ _ Hc) as (C & EC & <- & Hk).
    destruct (v_clients _ Hinv _ _ EC) as (Hclt & Htok & _).
    destruct (is_minor_version_compatible _ _) eqn:Hm.
    + rewrite (alter_as_insert _ _ _ _ EC).
      assert (ckey (cc_set_server C (Some s)) = skey S) as HkC by done.
      apply (conn_link w _ c (cc_set_server C (Some s)) s (sc_set_client (enabled S) (Some c)));
        try done; rewrite ?HkC; simpl.
      * intros k' Hk'. by apply (get_record_insert_ne w).
      * etransitivity; [apply (get_record_insert_eq w)|]. unfold r', with_server. by rewrite Hc.
      * by apply (events_ok_connect (enabled S)).
      * intros C' E'. rewrite EC in E'. by injection E' as <-.
      * intros S' E'. rewrite ES in E'. by injection E' as <-.
      * rewrite Hc. by intros ? ? [= _ ->].
      * by rewrite Hnone.
    + apply Hno. unfold r', matching. simpl. by rewrite Hc, Hm.
  - apply Hno. unfold r', matching. simpl. by rewrite Hc.
Qed.

Lemma creq_alter (m : gmap N Client_connector) c f :
  (∀ C, creq (f C) = creq C) → omap creq (alter f c m) = omap creq m.
Proof.
  intros Hf. apply map_eq. intros j. rewrite !lookup_omap.
  destruct (decide (c = j)) as [<-|]; [|by rewrite lookup_alter_ne].
  rewrite lookup_alter_eq. destruct (m !! c); simpl; [apply Hf|done].
Qed.

(** A server comes or goes: its client, if any, is told. *)
Lemma good_server_change w w' c x o :
  so_inv w → conn_inv w' → so_next w' = so_next w → so_identifiers w' = so_identifiers w →
  ident <$> so_servers w' = ident <$> so_servers w → so_bridges w' = so_bridges w →
  so_requests w' = so_requests w →
  so_clients w' = alter (λ C, cc_set_server C x) c (so_clients w) → is_Some (so_clients w !! c) →
  told c (server_before w c) (notices o) = Some x → Forall (λ n, n.1.1 = c) (notices o) →
  bridgeless o → good w w' o.
Proof.
  intros Hinv Hconn Hn Hi HS Hb Hr HC [C EC] Ht Hall Ho. split.
  - split; [done| |].
    + by apply (id_inv_same w); [apply Hinv|..].
    + apply (req_inv_same w); try done; [apply Hinv|lia|]. rewrite HC. by apply creq_alter.
  - lia.
  - intros c' [C' E']. rewrite HC in E'. apply lookup_alter_Some in E'. left. naive_solver.
  - eapply Forall_impl; [apply Hall|]. intros n ->.
    destruct (v_clients _ (v_conn _ Hinv) _ _ EC) as (? & _). lia.
  - intros c' C' E'. rewrite HC in E'. apply lookup_alter_Some in E'.
    destruct E' as [(<- & C0 & E0 & ->)|[Hne E']]; [done|].
    unfold server_before. rewrite E'. apply told_other.
    eapply Forall_impl; [apply Hall|]. intros n ->. done.
  - intros b k. unfold held. rewrite Hr, balance_bridgeless by done. lia.
Qed.

Lemma enable_good w s S :
  so_inv w → so_servers w !! s = Some S → sc_registered S = false →
  sr_server (get_record w (skey S)) = None →
  good w (with_server_enabled w s S) (enable_reports w s S).
Proof.
  intros Hinv ES Hreg Hnone. pose proof (v_conn _ Hinv) as Hconn.
  pose proof (conn_enabled w s S Hconn ES Hreg Hnone) as Hc'.
  unfold with_server_enabled, enable_reports in *.
  assert (∀ r, conn_inv (set_servers (set_records w r) (<[s := enabled S]> (so_servers w))) →
    good w (set_servers (set_records w r) (<[s := enabled S]> (so_servers w))) []) as Hquiet.
  { intros r Hr. apply good_quiet; try done; [|constructor]. split; [done| |].
    - apply (id_inv_same w); [apply Hinv|done|]. by apply (id_insert _ _ S).
    - by apply (req_inv_same w); [apply Hinv|..]. }
  destruct (sr_client (get_record w (skey S))) as [[j c]|] eqn:Hc; [|by apply Hquiet].
  destruct (is_minor_version_compatible _ _); [|by apply Hquiet].
  destruct (v_record_client _ Hconn _ _ _ Hc) as (C & EC & <- & Hk).
  destruct (v_clients _ Hconn _ _ EC) as (_ & _ & _ & Hs).
  apply (good_server_change w _ c (Some s)); try done; simpl.
  - by apply (id_insert _ _ S).
  - unfold server_before. rewrite EC. simpl. rewrite Hs, Hk. unfold server_of, matching.
    rewrite Hnone. by rewrite decide_True.
  - by repeat constructor.
  - by repeat constructor.
Qed.

(** The server once it has stopped: its events are cleared. *)
Definition stopped (S : Server_connector) : Server_connector :=
  clear_events (sc_set_stop_token (sc_set_registered S false) false).

Lemma events_ok_stopped S : events_ok S → events_ok (stopped S).
Proof.
  intros (? & ? & ? & _). split_and!; simpl; rewrite ?length_fmap; try done;
    intros id c; by rewrite event_client_cleared.
Qed.

(** The state after server [s] is disabled, and what its client is told. *)
Definition with_server_disabled (w : Socom) (s : N) (S : Server_connector) : Socom :=
  let records := <[skey S := with_server (get_record w (skey S)) None]> (so_records w) in
  match sc_client S with
  | Some c =>
    mkSocom (<[s := disconnected (stopped S)]> (so_servers w))
      (alter (λ C, cc_set_server C None) c (so_clients w)) records (so_identifiers w)
      (so_bridges w) (so_requests w) (so_next w)
  | None => set_servers (set_records w records) (<[s := stopped S]> (so_servers w))
  end.

Lemma disable_run w s S :
  conn_inv w → so_servers w !! s = Some S → sc_registered S = true →
  ∃ o, disable_server s w = Done (tt, with_server_disabled w s S, o) ∧ bridgeless o ∧
    notices o = match sc_client S with Some c => [(c, false, s)] | None => [] end ∧
    Forall (λ a, unsubscribed s a ∨ ∃ c, a = Cb_service_state_change c false s) o.
Proof.
  intros Hinv ES Hreg. destruct (v_servers _ Hinv _ _ ES) as (_ & Hok & _ & Hcl).
  unfold disable_server. rewrite (get_server_run _ _ _ _ ES), Hreg.
  rewrite (update_server_run _ _ _ _ _ ES), (bind_silent get_state _ _ _ _ eq_refl).
  rewrite update_record_run, (update_server_run _ (sc_set_registered S false))
    by apply lookup_insert_eq.
  set (w2 := set_servers (set_records _ _) _).
  assert (so_servers w2 !! s = Some (stopped S)) as E2 by apply lookup_insert_eq.
  rewrite (get_server_run _ _ _ _ E2). change (sc_client (stopped S)) with (sc_client S).
  unfold with_server_disabled. destruct (sc_client S) as [c|] eqn:Hc.
  - destruct (connected_client w s S c Hinv ES Hc) as (C & EC & Hs & _ & Hk).
    destruct (reset_server_run c C s (stopped S) w2) as (o & Eo & Ho); try done;
      [by apply events_ok_stopped|].
    exists (o ++ [Cb_service_state_change c false s]). split_and!.
    + erewrite bind_run; last first.
      { unfold receive_service_state. rewrite (bind_run _ _ _ _ _ _ Eo). reflexivity. }
      rewrite (get_server_run _ (disconnected (stopped S))) by apply lookup_insert_eq. simpl.
      rewrite app_nil_r. unfold detach, set_servers. simpl.
      by rewrite !insert_insert_eq, (alter_as_insert _ _ _ _ EC).
    + apply Forall_app. split; [by eapply unsubscribed_bridgeless|by repeat constructor].
    + rewrite notices_app. by rewrite (unsubscribed_no_notice s).
    + apply Forall_app. split; [|constructor; [right; by exists c|constructor]].
      eapply Forall_impl; [exact Ho|]. by left.
  - exists []. split_and!; [|constructor|done|constructor].
    rewrite (bind_silent (mret tt) _ _ tt _) by done.
    rewrite (get_server_run _ _ _ _ E2). simpl. rewrite bool_decide_eq_true_2 by done.
    unfold mret, M_ret. do 3 f_equal. unfold w2, set_servers. simpl. by rewrite insert_insert_eq.
Qed.

Definition disabled (S : Server_connector) : Server_connector :=
  match sc_client S with Some _ => disconnected (stopped S) | None => stopped S end.

Lemma disabled_spec S : events_ok S →
  sc_client (disabled S) = None ∧ ident (disabled S) = ident S ∧ skey (disabled S) = skey S ∧
  sc_registered (disabled S) = false ∧ sc_stop_token (disabled S) = false ∧
  events_ok (disabled S).
Proof.
  intros Hok. pose proof (events_ok_stopped S Hok) as Hs. unfold disabled.
  destruct (sc_client S) eqn:Hc; simpl; [|done]. split_and!; try done.
  by apply events_ok_cleared.
Qed.

Lemma disabled_servers w s S :
  so_servers (with_server_disabled w s S) = <[s := disabled S]> (so_servers w).
Proof. unfold with_server_disabled, disabled. by destruct (sc_client S). Qed.

Lemma conn_disabled w s S :
  conn_inv w → so_servers w !! s = Some S → sc_registered S = true →
  conn_inv (with_server_disabled w s S).
Proof.
  intros Hinv ES Hreg. destruct (v_servers _ Hinv _ _ ES) as (_ & Hok & _).
  destruct (disabled_spec S Hok) as (H1 & H2 & H3 & H4 & H5 & H6).
  apply (conn_remove_server w _ s S (disabled S)); try done; [|apply disabled_servers|..];
    unfold with_server_disabled; destruct (sc_client S); try done.
  - intros k' Hk. by apply (get_record_insert_ne w).
  - intros k' Hk. by apply (get_record_insert_ne w).
  - apply (get_record_insert_eq w).
  - apply (get_record_insert_eq w).
Qed.

Lemma disable_good w s S :
  so_inv w → so_servers w !! s = Some S →
  ∃ w' o S', disable_server s w = Done (tt, w', o) ∧ good w w' o ∧
    so_servers w' !! s = Some S' ∧ ident S' = ident S ∧ sc_registered S' = false.
Proof.
  intros Hinv ES. pose proof (v_conn _ Hinv) as Hconn. destruct (sc_registered S) eqn:Hreg.
  2:{ exists w, [], S. split_and!; try done; [|by apply good_refl].
      unfold disable_server. by rewrite (get_server_run _ _ _ _ ES), Hreg. }
  destruct (disable_run w s S Hconn ES Hreg) as (o & E & Hb & Hno & _).
  destruct (v_servers _ Hconn _ _ ES) as (_ & Hok & _).
  destruct (disabled_spec S Hok) as (_ & Hid & _ & Hr & _).
  pose proof (conn_disabled w s S Hconn ES Hreg) as Hc'.
  pose proof (disabled_servers w s S) as HS.
  exists (with_server_disabled w s S), o, (disabled S). split_and!; try done.
  2:{ rewrite HS. apply lookup_insert_eq. }
  assert (ident <$> so_servers (with_server_disabled w s S) = ident <$> so_servers w) as Hids
    by (rewrite HS; by apply (id_insert _ _ S)).
  unfold with_server_disabled in Hc', Hids |- *. destruct (sc_client S) as [c|] eqn:Hcl.
  - destruct (connected_client w s S c Hconn ES Hcl) as (C & EC & Hs & _).
    apply (good_server_change w _ c None); try done; rewrite ?Hno.
    + unfold server_before. rewrite EC. simpl. rewrite Hs. by rewrite !decide_True.
    + by repeat constructor.
  - apply good_quiet; try done. split; [done| |].
    + by apply (id_inv_same w); [apply Hinv|..].
    + by apply (req_inv_same w); [apply Hinv|..].
Qed.

(** *** Destroying a server *)

Lemma good_delete_server w w' o s S :
  good w w' o → so_servers w' !! s = Some S → sc_registered S = false →
  good w (set_servers (set_identifiers w' (so_identifiers w' ∖ {[ ident S ]}))
    (delete s (so_servers w'))) o.
Proof.
  intros [[H1 H2 H3] Hn Hf Hm Ht Hh] ES Hr. split; try done. split.
  - apply (conn_inv_same (set_servers w' (delete s (so_servers w')))); try done.
    by eapply conn_delete_server.
  - split; simpl.
    + intros x. rewrite elem_of_difference, elem_of_singleton, (v_identified _ H2). split.
      * intros ((s' & S' & E' & <-) & Hne). exists s', S'.
        rewrite lookup_delete_ne; [done|]. intros <-. by simplify_eq.
      * intros (s' & S' & E' & <-). apply lookup_delete_Some in E' as [Hne E'].
        split; [by eauto|]. intros Hi. by apply Hne, (v_unique _ H2 s s' S S').
    + intros s1 s2 S1 S2 E1 E2. apply lookup_delete_Some in E1 as [_ E1].
      apply lookup_delete_Some in E2 as [_ E2]. by apply (v_unique _ H2 s1 s2 S1 S2).
  - by apply (req_inv_same w').
Qed.

Lemma destroy_server_good w s S :
  so_inv w → so_servers w !! s = Some S →
  ∃ w' o, destroy_server_connector s w = Done (tt, w', o) ∧ good w w' o.
Proof.
  intros Hinv ES. destruct (disable_good w s S Hinv ES) as (w' & o & S' & E & Hg & ES' & Hi & Hr).
  unfold destroy_server_connector. rewrite (bind_run _ _ _ _ _ _ E).
  rewrite (get_server_run _ _ _ _ ES'), modify_run. do 2 eexists. split; [reflexivity|].
  rewrite app_nil_r. by apply (good_delete_server w w' o s S').
Qed.

(** *** Bridges *)

(** Every request of the table is complete. *)
Lemma requests_full w k r : req_inv w → so_requests w !! k = Some r → r = full_request w.
Proof.
  intros H E. destruct (v_requests _ H k r E) as (c & C & EC & Hq & ->).
  pose proof (v_waiting _ H c C EC Hq). congruence.
Qed.

(** The same action for every request of the table. *)
Lemma occurrences_per_request w (f : Request_key → Socom_action) k :
  Inj (=) (=) f →
  occurrences (f k) ((λ kr, f kr.1) <$> map_to_list (so_requests w)) =
    match so_requests w !! k with Some _ => 1%Z | None => 0%Z end.
Proof.
  intros Hinj. change ((λ kr, f kr.1) <$> map_to_list (so_requests w)) with
    ((f ∘ fst) <$> map_to_list (so_requests w)). rewrite list_fmap_compose.
  destruct (so_requests w !! k) as [r|] eqn:E.
  - apply occurrences_1; [apply NoDup_fmap_2; [done|apply NoDup_fst_map_to_list]|].
    apply list_elem_of_fmap_2, list_elem_of_fmap. exists (k, r). by rewrite elem_of_map_to_list.
  - apply occurrences_0. rewrite list_elem_of_fmap. intros (k' & Hf & Hk'). apply (inj f) in Hf.
    subst k'. apply list_elem_of_fmap in Hk' as ([k0 r0] & -> & Hin).
    apply elem_of_map_to_list in Hin. simpl in E. congruence.
Qed.

Lemma req_new_bridge w identity :
  req_inv w →
  req_inv (set_requests (set_next (set_bridges w (<[so_next w := identity]> (so_bridges w)))
      (so_next w + 1)%N)
    ((λ r, {| br_holders := br_holders r;
              br_bridges := if br_holders r =? 0 then br_bridges r
                            else {[ so_next w ]} ∪ br_bridges r;
              br_identities := br_identities r |}) <$> so_requests w)).
Proof.
  intros H. split; simpl.
  - intros c C EC Hq. rewrite lookup_fmap, (v_waiting _ H c C EC Hq). simpl.
    unfold full_request. simpl. by rewrite dom_insert_L.
  - intros k r E. rewrite lookup_fmap in E.
    destruct (so_requests w !! k) as [r0|] eqn:E0; [|done]. by apply (v_requests _ H k r0).
  - intros b x E. apply lookup_insert_Some in E as [[<- _]|[_ E]]; [lia|].
    apply (v_bridges _ H) in E. lia.
Qed.

Definition asked (w : Socom) (b : N) : list Socom_action :=
  (λ kr, Bridge_request b kr.1.1 kr.1.2) <$> map_to_list (so_requests w).
Definition freed (w : Socom) (b : N) : list Socom_action :=
  (λ kr, Bridge_request_dropped b kr.1.1 kr.1.2) <$> map_to_list (so_requests w).

Lemma balance_asked w b0 b k :
  balance b k (asked w b0) =
    if decide (b = b0) then match so_requests w !! k with Some _ => 1%Z | None => 0%Z end
    else 0%Z.
Proof.
  unfold balance, asked. rewrite (occurrences_0 (Bridge_request_dropped _ _ _)).
  2:{ rewrite list_elem_of_fmap. naive_solver. }
  case_decide as Hb.
  - subst b. rewrite (occurrences_per_request w (λ k, Bridge_request b0 k.1 k.2) k);
      [by destruct (so_requests w !! k)|]. by intros [] [] [= -> ->].
  - rewrite occurrences_0; [done|]. rewrite list_elem_of_fmap. naive_solver.
Qed.

Lemma balance_freed w b0 b k :
  balance b k (freed w b0) =
    if decide (b = b0) then match so_requests w !! k with Some _ => (-1)%Z | None => 0%Z end
    else 0%Z.
Proof.
  unfold balance, freed. rewrite (occurrences_0 (Bridge_request _ _ _)).
  2:{ rewrite list_elem_of_fmap. naive_solver. }
  case_decide as Hb.
  - subst b. rewrite (occurrences_per_request w (λ k, Bridge_request_dropped b0 k.1 k.2) k);
      [by destruct (so_requests w !! k)|]. by intros [] [] [= -> ->].
  - rewrite occurrences_0; [done|]. rewrite list_elem_of_fmap. naive_solver.
Qed.

(** Bridges come and go without touching connectors. *)
Lemma good_bridges w bridges requests n o :
  so_inv w → (so_next w ≤ n)%N → notices o = [] →
  req_inv (set_requests (set_next (set_bridges w bridges) n) requests) →
  (∀ b k, held (set_requests (set_next (set_bridges w bridges) n) requests) b k =
    held w b k + balance b k o)%Z →
  good w (set_requests (set_next (set_bridges w bridges) n) requests) o.
Proof.
  intros Hinv Hn Hno Hreq Hheld. split; rewrite ?Hno; try done.
  - split; [|by apply (id_inv_same w); [apply Hinv|..]|done].
    destruct (v_conn _ Hinv) as [H1 H2 H3 H4]. split; try done.
    + intros c C E. destruct (H1 c C E) as (? & ?). split; [simpl; lia|done].
    + intros s S E. destruct (H2 s S E) as (? & ?). split; [simpl; lia|done].
  - simpl. eauto.
  - intros c C E. simpl in E |- *. unfold server_before. by rewrite E.
Qed.

Lemma fresh_bridge w : so_inv w → so_next w ∉ dom (so_bridges w).
Proof.
  intros Hinv. rewrite elem_of_dom. intros [x Hx].
  apply (v_bridges _ (v_req _ Hinv)) in Hx. lia.
Qed.

Lemma register_bridge_good ok identity w :
  so_inv w → ∃ r w' o, register_service_bridge ok identity w = Done (r, w', o) ∧ good w w' o.
Proof.
  intros Hinv. destruct ok; [|returns; by apply good_refl].
  unfold register_service_bridge. rewrite reads_run, modify_run. unfold register_bridge.
  rewrite bind_assoc, (bind_silent get_state _ _ _ _ eq_refl), bind_assoc.
  rewrite (bind_run _ _ _ _ _ _ (forM_emit_run _ _ _)), modify_run. returns.
  rewrite app_nil_r. match goal with |- good _ _ ?o => change o with (asked w (so_next w)) end.
  apply good_bridges; [done|lia| |by apply (req_new_bridge w identity), Hinv|].
  { unfold asked. by induction (map_to_list (so_requests w)). }
  intros b k. rewrite balance_asked. unfold held. simpl. rewrite lookup_fmap.
  destruct (so_requests w !! k) as [r|] eqn:E; simpl; [|by destruct (decide _)].
  rewrite (requests_full w k r (v_req _ Hinv) E). simpl. pose proof (fresh_bridge w Hinv).
  repeat case_decide; set_solver by lia.
Qed.

Lemma stop_registration_good b i w :
  so_inv w → so_bridges w !! b = Some i →
  ∃ w' o, stop_registration b w = Done (tt, w', o) ∧ good w w' o.
Proof.
  intros Hinv Hb. pose proof (v_req _ Hinv) as Hreq.
  assert (b ∈ dom (so_bridges w)) as Hdom by (rewrite elem_of_dom; eauto).
  unfold stop_registration. rewrite modify_run. unfold cleanup_bridge.
  rewrite (bind_silent get_state _ _ _ _ eq_refl), filter_all.
  2:{ intros [k r] Hin. apply elem_of_map_to_list in Hin. simpl.
      by rewrite (requests_full w k r Hreq Hin). }
  rewrite (bind_run _ _ _ _ _ _ (forM_emit_run _ _ _)).
  do 2 eexists. split; [reflexivity|]. rewrite app_nil_r.
  match goal with |- good _ _ ?o => change o with (freed w b) end.
  apply (good_bridges w (delete b (so_bridges w)) _ (so_next w)); [done|lia| |..].
  { unfold freed. by induction (map_to_list (so_requests w)). }
  - split; simpl.
    + intros c C EC Hq. rewrite lookup_fmap, (v_waiting _ Hreq c C EC Hq). simpl.
      unfold full_request. simpl. by rewrite dom_delete_L.
    + intros k r E. rewrite lookup_fmap in E.
      destruct (so_requests w !! k) as [r0|] eqn:E0; [|done]. by apply (v_requests _ Hreq k r0).
    + intros b' x E. apply lookup_delete_Some in E as [_ E]. by apply (v_bridges _ Hreq b' x).
  - intros b' k. rewrite balance_freed. unfold held. simpl. rewrite lookup_fmap.
    destruct (so_requests w !! k) as [r|] eqn:E; simpl; [|by destruct (decide _)].
    rewrite (requests_full w k r Hreq E). simpl.
    repeat case_decide; set_solver by lia.
Qed.

(** *** Events and methods *)

(** Only the events of a server change. *)
Lemma good_events w s S S' o :
  so_inv w → so_servers w !! s = Some S → events_ok S' → ident S' = ident S →
  sc_registered S' = sc_registered S → sc_stop_token S' = sc_stop_token S →
  sc_client S' = sc_client S → notices o = [] → bridgeless o →
  good w (set_servers w (<[s := S']> (so_servers w))) o.
Proof.
  intros Hinv ES Hok Hi Hr Ht Hc Hno Ho. apply good_quiet; try done. split.
  - injection Hi as Hi Hj. eapply conn_events; try done; [apply Hinv|].
    unfold skey. by rewrite Hi, Hj.
  - apply (id_inv_same w); [apply Hinv|done|]. by apply (id_insert _ _ S).
  - by apply (req_inv_same w); [apply Hinv|..].
Qed.

Lemma events_ok_set S id c :
  events_ok S → sc_client S = Some c →
  events_ok (sc_set_subscriber S (set_event id c (sc_subscriber S))) ∧
  events_ok (sc_set_update_requester S (set_event id c (sc_update_requester S))).
Proof.
  intros (H1 & H2 & H3 & H4 & H5) Hc. unfold set_event.
  split; split_and!; simpl; rewrite ?length_insert; try done; intros j c';
    change (<[id:=Some c]> ?l) with (set_event id c l);
    rewrite event_client_set; case_decide; naive_solver.
Qed.

Lemma events_ok_clear S id :
  events_ok S → events_ok (sc_set_update_requester S (clear_event id (sc_update_requester S))).
Proof.
  intros (H1 & H2 & H3 & H4 & H5).
  split_and!; simpl; rewrite ?length_clear_event; try done; intros j c.
  rewrite event_client_clear. case_decide; naive_solver.
Qed.

Lemma events_ok_infos S l :
  events_ok S → length l = sc_num_events S → events_ok (sc_set_event_infos S l).
Proof. intros (H1 & H2 & H3 & H4 & H5) Hl. by split_and!. Qed.

(** The server after a subscription, and the callbacks it gets. *)
Definition with_subscriber (S : Server_connector) (c : N) (i : nat) (mode : Event_mode) :
    Server_connector :=
  let S1 := sc_set_subscriber S (set_event i c (sc_subscriber S)) in
  match mode with
  | mode_update => S1
  | mode_update_and_initial_value =>
    sc_set_event_infos (sc_set_update_requester S1 (set_event i c (sc_update_requester S)))
      (<[i := mode_update_and_initial_value]> (sc_event_infos S))
  end.

Definition subscription_actions (s : N) (S : Server_connector) (id : N) (mode : Event_mode) :
    list Socom_action :=
  (if event_client (N.to_nat id) (sc_subscriber S) is Some _ then []
   else [Cb_event_subscription_change s id true]) ++
  match mode with
  | mode_update => []
  | mode_update_and_initial_value =>
    if event_client (N.to_nat id) (sc_update_requester S) is Some _ then []
    else [Cb_event_update_request s id]
  end.

Lemma lock_server_run {A} c C s (f : N → SoM (Result Socom_error A)) w :
  so_clients w !! c = Some C → cc_server C = Some s → lock_server c f w = f s w.
Proof. intros E Es. unfold lock_server. by rewrite (get_client_run _ _ _ _ E), Es. Qed.

Lemma lock_server_none {A} c C (f : N → SoM (Result Socom_error A)) w :
  so_clients w !! c = Some C → cc_server C = None →
  lock_server c f w = Done (Err runtime_error_service_not_available, w, []).
Proof. intros E Es. unfold lock_server. by rewrite (get_client_run _ _ _ _ E), Es. Qed.

Lemma subscribe_run c C s S id mode w :
  so_clients w !! c = Some C → cc_server C = Some s → so_servers w !! s = Some S →
  events_ok S → sc_client S = Some c →
  subscribe_event c id mode w =
    if (id <? N.of_nat (sc_num_events S))%N then
      Done (Ok tt, set_servers w
        (<[s := with_subscriber S c (N.to_nat id) mode]> (so_servers w)),
        subscription_actions s S id mode)
    else Done (Err logic_error_id_out_of_range, w, []).
Proof.
  intros E Es ES (H1 & H2 & H3 & _) Hc. unfold subscribe_event, receive_subscribe_event.
  rewrite (lock_server_run _ _ _ _ _ E Es), (get_server_run _ _ _ _ ES), H3.
  rewrite N.leb_antisym. destruct (id <? N.of_nat (sc_num_events S))%N eqn:Hid; [|done]. simpl.
  apply N.ltb_lt in Hid. rewrite !assert_run by (apply Nat.ltb_lt; lia).
  rewrite (the_run _ _ _ _ _ Hc), (update_server_run _ _ _ _ _ ES).
  unfold subscription_actions, with_subscriber.
  assert (∀ x : option N, bool_decide (is_Some x) = if x is Some _ then true else false) as Hb.
  { intros []; [by apply bool_decide_eq_true_2|by apply bool_decide_eq_false_2]. }
  rewrite !Hb. destruct mode; simpl.
  - rewrite (bind_silent (mret tt) _ _ tt _) by done.
    by destruct (event_client _ (sc_subscriber S)).
  - rewrite (update_server_run _ (sc_set_subscriber S (set_event (N.to_nat id) c
      (sc_subscriber S)))) by apply lookup_insert_eq.
    unfold set_servers. simpl. rewrite insert_insert_eq.
    by destruct (event_client _ (sc_subscriber S)), (event_client _ (sc_update_requester S)).
Qed.

Lemma events_ok_subscriber S c i mode :
  events_ok S → sc_client S = Some c → events_ok (with_subscriber S c i mode).
Proof.
  intros Hok Hc. destruct (events_ok_set S i c Hok Hc) as [Hs _]. unfold with_subscriber.
  destruct mode; [done|]. apply events_ok_infos.
  - by apply (events_ok_set (sc_set_subscriber S (set_event i c (sc_subscriber S)))).
  - simpl. rewrite length_insert. apply Hok.
Qed.

(** What a connected client finds: its server, which points back. *)
Lemma client_server w c C s :
  so_inv w → so_clients w !! c = Some C → cc_server C = Some s →
  ∃ S, so_servers w !! s = Some S ∧ events_ok S ∧ sc_client S = Some c.
Proof.
  intros [Hinv _ _] E Es. destruct (connected_server w c C s Hinv E Es) as (S & ES & _ & Hc & _).
  destruct (v_servers _ Hinv _ _ ES) as (_ & Hok & _). eauto.
Qed.

Lemma subscribe_good c C id mode w :
  so_inv w → so_clients w !! c = Some C →
  ∃ r w' o, subscribe_event c id mode w = Done (r, w', o) ∧ good w w' o.
Proof.
  intros Hinv E. destruct (cc_server C) as [s|] eqn:Es.
  2:{ unfold subscribe_event, receive_subscribe_event. rewrite (lock_server_none _ _ _ _ E Es).
  returns.
      by apply good_refl. }
  destruct (client_server w c C s Hinv E Es) as (S & ES & Hok & Hc).
  rewrite (subscribe_run c C s S) by done.
  destruct (id <? N.of_nat (sc_num_events S))%N; [|returns; by apply good_refl].
  returns. apply (good_events w s S); try done.
  - by apply events_ok_subscriber.
  - by destruct mode.
  - by destruct mode.
  - by destruct mode.
  - by destruct mode.
  - unfold subscription_actions. by repeat case_match.
  - unfold subscription_actions. repeat case_match; by repeat constructor.
Qed.

Lemma unsubscribe_good c C id w :
  so_inv w → so_clients w !! c = Some C →
  ∃ r w' o, unsubscribe_event c id w = Done (r, w', o) ∧ good w w' o.
Proof.
  intros Hinv E. unfold unsubscribe_event, receive_unsubscribe_event.
  destruct (cc_server C) as [s|] eqn:Es.
  2:{ rewrite (lock_server_none _ _ _ _ E Es). returns. by apply good_refl. }
  destruct (client_server w c C s Hinv E Es) as (S & ES & Hok & Hc).
  rewrite (lock_server_run _ _ _ _ _ E Es), (get_server_run _ _ _ _ ES).
  destruct Hok as (H1 & H2 & H3 & H4 & H5) eqn:Heq. clear Heq.
  destruct (N.leb_spec (N.of_nat (length (sc_event_infos S))) id) as [|Hid];
    [returns; by apply good_refl|].
  destruct (unsubscribe_event_id_run s S (N.to_nat id) w ES Hok) as (o & Eo & Ho); [lia|].
  rewrite (bind_run _ _ _ _ _ _ Eo). returns. rewrite app_nil_r.
  apply (good_events w s S); try done.
  - by apply events_ok_unsubscribed.
  - by eapply unsubscribed_no_notice.
  - by eapply unsubscribed_bridgeless.
Qed.

Lemma request_update_run c C s S id w :
  so_clients w !! c = Some C → cc_server C = Some s → so_servers w !! s = Some S →
  events_ok S → sc_client S = Some c → (id < N.of_nat (sc_num_events S))%N →
  request_event_update c id w =
    match event_client (N.to_nat id) (sc_update_requester S) with
    | Some _ => Done (Ok tt, w, [])
    | None => Done (Ok tt, set_servers w (<[s := sc_set_update_requester S
        (set_event (N.to_nat id) c (sc_update_requester S))]> (so_servers w)),
        [Cb_event_update_request s id])
    end.
Proof.
  intros E Es ES (_ & H2 & _) Hc Hid. unfold request_event_update, receive_request_event_update.
  rewrite (lock_server_run _ _ _ _ _ E Es), (get_server_run _ _ _ _ ES), H2.
  rewrite (proj2 (N.leb_gt _ _)) by done.
  destruct (event_client _ (sc_update_requester S)) as [c'|].
  - by rewrite bool_decide_eq_true_2 by by eexists.
  - rewrite bool_decide_eq_false_2 by by intros [].
    by rewrite (the_run _ _ _ _ _ Hc), (update_server_run _ _ _ _ _ ES).
Qed.

Lemma request_update_good c C id w :
  so_inv w → so_clients w !! c = Some C →
  ∃ r w' o, request_event_update c id w = Done (r, w', o) ∧ good w w' o.
Proof.
  intros Hinv E. destruct (cc_server C) as [s|] eqn:Es.
  2:{ unfold request_event_update, receive_request_event_update.
  rewrite (lock_server_none _ _ _ _ E Es). returns.
      by apply good_refl. }
  destruct (client_server w c C s Hinv E Es) as (S & ES & Hok & Hc).
  destruct (N.lt_ge_cases id (N.of_nat (sc_num_events S))) as [Hid|Hid].
  - rewrite (request_update_run c C s S) by done.
    destruct (event_client _ (sc_update_requester S)) as [c'|]; returns; [by apply good_refl|].
    apply (good_events w s S); try done; [by apply events_ok_set|by repeat constructor].
  - unfold request_event_update, receive_request_event_update.
    rewrite (lock_server_run _ _ _ _ _ E Es), (get_server_run _ _ _ _ ES).
    destruct Hok as (_ & H2 & _). rewrite H2, (proj2 (N.leb_le _ _)) by done.
    returns. by apply good_refl.
Qed.

(** Calls that only pass something on. *)
Lemma good_one w a : so_inv w → notice a = None → bridgeless [a] → good w w [a].
Proof.
  intros Hinv Ha Hb. apply good_quiet; try done. unfold notices. simpl. by rewrite Ha.
Qed.

Ltac passes_on :=
  returns; first [ by apply good_refl | apply good_one; [done|done|by repeat constructor] ].

Lemma server_calls_good s S id p w :
  so_inv w → so_servers w !! s = Some S →
  (∃ r w' o, update_event s id p w = Done (r, w', o) ∧ good w w' o) ∧
  (∃ r w' o, update_requested_event s id p w = Done (r, w', o) ∧ good w w' o) ∧
  (∃ r w' o, allocate_event_payload s id (Ok tt) w = Done (r, w', o) ∧ good w w' o) ∧
  (∃ r w' o, get_event_mode s id w = Done (r, w', o) ∧ good w w' o).
Proof.
  intros Hinv ES. destruct (v_servers _ (v_conn _ Hinv) _ _ ES) as (_ & Hok & _).
  unfold update_event, update_requested_event, allocate_event_payload, get_event_mode.
  rewrite !(get_server_run _ _ _ _ ES).
  destruct (N.leb_spec (N.of_nat (sc_num_events S)) id); [by split_and!; passes_on|].
  destruct Hok as (H1 & H2 & H3 & ?) eqn:Heq. clear Heq.
  rewrite !assert_run by (apply Nat.ltb_lt; lia). split_and!.
  - destruct (event_client _ _); passes_on.
  - rewrite (update_server_run _ _ _ _ _ ES). destruct (event_client _ _); returns;
      (apply (good_events w s S); try done;
        [by apply events_ok_clear|by repeat constructor]).
  - destruct (event_client _ _); passes_on.
  - destruct (lookup_lt_is_Some_2 (sc_event_infos S) (N.to_nat id)) as [m Hm]; [lia|].
    rewrite (the_run _ _ _ _ _ Hm). passes_on.
Qed.

Lemma client_calls_good c C id p w :
  so_inv w → so_clients w !! c = Some C →
  (∃ r w' o, call_method c id p w = Done (r, w', o) ∧ good w w' o) ∧
  (∃ r w' o, allocate_method_call_payload c id (Ok tt) w = Done (r, w', o) ∧ good w w' o).
Proof.
  intros Hinv E. unfold call_method, receive_call_method, allocate_method_call_payload,
    receive_allocate_method_call_payload.
  destruct (cc_server C) as [s|] eqn:Es.
  - destruct (client_server w c C s Hinv E Es) as (S & ES & _).
    rewrite !(lock_server_run _ _ _ _ _ E Es), !(get_server_run _ _ _ _ ES).
    destruct (sc_num_methods S <=? id)%N; split; passes_on.
  - rewrite !(lock_server_none _ _ _ _ E Es). split; passes_on.
Qed.

(** ** Runs of the runtime *)

Lemma run_good {A} (m : SoM A) w :
  (∃ r w' o, m w = Done (r, w', o) ∧ good w w' o) →
  ∃ w' o, run m w = Done (tt, w', o) ∧ good w w' o.
Proof.
  intros (r & w' & o & E & Hg). exists w', o. split; [|done]. unfold run.
  rewrite (bind_run _ _ _ _ _ _ E). unfold mret, M_ret. by rewrite app_nil_r.
Qed.

(** Another server of the same service is enabled, and its minor version differs. *)
Definition occupied (w : Socom) (call : Socom_call) : Prop :=
  ∃ s S s' S', call = Enable s ∧ so_servers w !! s = Some S ∧ so_servers w !! s' = Some S' ∧
    sc_registered S' = true ∧ skey S' = skey S ∧
    minor (sii_version (sc_interface S')) ≠ minor (sii_version (sc_interface S)).

Lemma same_key_other_minor w s S s' S' :
  id_inv w → so_servers w !! s = Some S → so_servers w !! s' = Some S' → s ≠ s' →
  skey S' = skey S → minor (sii_version (sc_interface S')) ≠ minor (sii_version (sc_interface S)).
Proof.
  intros Hid E E' Hne Hk Hm. apply Hne, (v_unique _ Hid s s' S S'); try done.
  unfold skey, record_key in Hk. injection Hk as H1 H2 H3. unfold ident. rewrite H3.
  destruct (sc_interface S) as [? []], (sc_interface S') as [? []]. simpl in *. congruence.
Qed.

Lemma enable_occupied w s S :
  so_servers w !! s = Some S → sc_registered S = false →
  sr_server (get_record w (skey S)) ≠ None → enable_server s w = Fault Assertion_failed.
Proof.
  intros ES Hreg Hs. unfold enable_server.
  rewrite (get_server_run _ _ _ _ ES), assert_run by by rewrite Hreg.
  rewrite (update_server_run _ _ _ _ _ ES). unfold register_connector_server. rewrite bind_assoc.
  set (w1 := set_servers w _).
  pose proof (register_server_run w1 (skey S) (sc_interface S) s) as Hrun.
  change (get_record w1 (skey S)) with (get_record w (skey S)) in Hrun.
  destruct (sr_server (get_record w (skey S))); [|done].
  unfold mbind, M_bind. change (record_key (sc_interface S) (sc_instance S)) with (skey S).
  by rewrite Hrun.
Qed.

Lemma enable_step_good w s S :
  so_inv w → so_servers w !! s = Some S → sc_registered S = false →
  (∃ w' o, enable_server s w = Done (tt, w', o) ∧ good w w' o) ∨
  (occupied w (Enable s) ∧ enable_server s w = Fault Assertion_failed).
Proof.
  intros Hinv ES Hreg. pose proof (v_conn _ Hinv) as Hconn.
  destruct (sr_server (get_record w (skey S))) as [[i s']|] eqn:Hs.
  - right. destruct (record_server_live w _ _ _ Hconn Hs) as (S' & ES' & Hr' & <- & Hk & _).
    split.
    + exists s, S, s', S'. split_and!; try done.
      apply (same_key_other_minor w s S s' S'); try done; [apply Hinv|congruence].
    + eapply enable_occupied; [done..|]. by rewrite Hs.
  - left. do 2 eexists. split; [by apply enable_run|by apply enable_good].
Qed.

Lemma socom_step_good w call :
  so_inv w → socom_admissible w call →
  (∃ w' o, socom_step call w = Done (tt, w', o) ∧ good w w' o) ∨
  (occupied w call ∧ socom_step call w = Fault Assertion_failed).
Proof.
  intros Hinv Ha. destruct call; simpl in *;
    try (match type of Ha with True => fail 1 | _ => destruct Ha as [S ES] end);
    try (left; apply run_good);
    try (by apply make_client_good); try (by apply make_server_good);
    try (by apply register_bridge_good); try (by eapply subscribe_good);
    try (by eapply unsubscribe_good); try (by eapply request_update_good);
    try (by eapply (server_calls_good s S id 0%N)); try (by eapply server_calls_good);
    try (by eapply (client_calls_good c S id 0%N)); try (by eapply client_calls_good).
  - left. by eapply destroy_client_good.
  - by apply (enable_step_good w s S); [|apply ES..].
  - left. destruct (disable_good w s S Hinv ES) as (w' & o & ? & ? & ? & _). eauto.
  - left. by eapply destroy_server_good.
  - left. by eapply stop_registration_good.
Qed.

(** The states and the actions after any admissible calls, in any order. *)
Inductive socom_trace : Socom → list Socom_action → Prop :=
  | so_start : socom_trace so_init []
  | so_call w tr call w' o :
      socom_trace w tr → socom_admissible w call → socom_step call w = Done (tt, w', o) →
      socom_trace w' (tr ++ o).

Lemma so_inv_init : so_inv so_init.
Proof.
  split; split; simpl; intros *; rewrite ?lookup_empty; try done.
  split; [set_solver|]. by intros (? & ? & E & _).
Qed.

(** What holds along every run. *)
Lemma trace_inv w tr :
  socom_trace w tr →
  so_inv w ∧ Forall (λ n, (n.1.1 < so_next w)%N) (notices tr) ∧
  (∀ c C, so_clients w !! c = Some C → told c None (notices tr) = Some (cc_server C)) ∧
  (∀ b k, held w b k = balance b k tr).
Proof.
  induction 1 as [|w tr call w' o Htr (Hinv & Hnamed & Htold & Hheld) Ha E].
  { split_and!; [apply so_inv_init|constructor|done|done]. }
  destruct (socom_step_good w call Hinv Ha) as [(w1 & o1 & E1 & Hg)|[_ E1]]; [|congruence].
  rewrite E in E1. injection E1 as <- <-. destruct Hg as [Hi Hn Hf Hm Ht Hh].
  split_and!; [done|..].
  - rewrite notices_app. apply Forall_app. split; [|done].
    eapply Forall_impl; [apply Hnamed|]. simpl. lia.
  - intros c C EC. rewrite notices_app, told_app.
    assert (told c None (notices tr) = Some (server_before w c)) as ->; [|by apply Ht].
    unfold server_before. destruct (so_clients w !! c) as [C0|] eqn:E0; [by apply Htold|].
    apply told_other. eapply Forall_impl; [apply Hnamed|]. intros n Hlt.
    destruct (Hf c) as [[? ?]|?]; [by eauto|congruence|]. simpl in Hlt. lia.
  - intros b k. by rewrite balance_app, <-Hheld, Hh.
Qed.
