(* ===== verification/SocomProperties.v ===== *)
(** * The socom runtime: what users rely on

    Clients are connected to exactly the servers that fit, are told of it exactly
    when it changes, and bridges hold a request for every client that waits for a
    service; events go to the client that has subscribed to them. All of this holds
    after any calls in any order. *)

From stdpp Require Import base numbers list gmap strings.
From S2P Require Import Prelude.
From S2P Require Import IpcTypes.
From S2P Require Import Socom.
From S2P Require Import SocomInvariant.
From S2P Require Import SocomCalls.

(** ** A sample run *)

Section sample.
Let i10 : Service_interface_identifier :=
  {| sii_id := "a"; sii_version := {| major := 1; minor := 0 |} |}.
Let i12 : Service_interface_identifier :=
  {| sii_id := "a"; sii_version := {| major := 1; minor := 2 |} |}.

(** A bridge, a client for version 1.0 and a server of version 1.2. *)
Definition sample_calls : list Socom_call :=
  [Register_bridge true 7; Make_client true i10 "x"; Make_server true i12 1 2 "x"; Enable 2;
   Subscribe_event 1 1 mode_update_and_initial_value].
End sample.

#[export] Instance socom_admissible_dec w call : Decision (socom_admissible w call).
Proof.
  destruct call; simpl; try apply _.
  destruct (so_servers w !! s) as [S|] eqn:E; [|by right; intros (S & ? & _)].
  destruct (decide (sc_registered S = false)); [by left; exists S|].
  right. intros (S' & ? & ?). by simplify_eq.
Defined.

(** Calls in a row, as long as they are admissible and return. *)
Fixpoint replay_calls (calls : list Socom_call) (w : Socom) (tr : list Socom_action) :
    option (Socom * list Socom_action) :=
  match calls with
  | [] => Some (w, tr)
  | call :: calls =>
    if decide (socom_admissible w call) then
      match socom_step call w with
      | Done (_, w', o) => replay_calls calls w' (tr ++ o)
      | Fault _ => None
      end
    else None
  end.

Lemma replay_calls_trace calls w tr w' tr' :
  socom_trace w tr → replay_calls calls w tr = Some (w', tr') → socom_trace w' tr'.
Proof.
  revert w tr. induction calls as [|call calls IH]; intros w tr Htr E; simpl in E;
    [by simplify_eq|].
  case_decide as Ha; [|done]. destruct (socom_step call w) as [[[[] w1] o]|f] eqn:Es; [|done].
  eapply IH; [|done]. by eapply so_call.
Qed.

Definition sample : Socom * list Socom_action :=
  default (so_init, []) (replay_calls sample_calls so_init []).

Lemma sample_trace : socom_trace sample.1 sample.2.
Proof. apply (replay_calls_trace sample_calls so_init []); [constructor|]. by vm_compute. Qed.

(** ** Theorems *)

(** C8: after any calls, every further call that the types of the API admit returns,
    with one exception: enabling a server asserts if another enabled server provides
    the same interface, major version and instance with another minor version. No
    call dereferences a missing object, reads past the events or waits for ever. *)
Theorem socom_calls_return w tr call :
  socom_trace w tr → socom_admissible w call →
  match socom_step call w with
  | Done (_, w', _) => so_inv w'
  | Fault f => f = Assertion_failed ∧ occupied w call
  end.
Proof.
  intros Htr Ha. destruct (trace_inv w tr Htr) as (Hinv & _).
  destruct (socom_step_good w call Hinv Ha) as [(w' & o & -> & Hg)|[Ho ->]]; [apply Hg|done].
Qed.

Lemma socom_calls_return_witness :
  match socom_step (Destroy_server 2) sample.1 with
  | Done (_, w', _) => so_inv w'
  | Fault f => f = Assertion_failed ∧ occupied sample.1 (Destroy_server 2)
  end.
Proof.
  apply (socom_calls_return sample.1 sample.2); [apply sample_trace|].
  by apply (bool_decide_unpack _); vm_compute.
Defined.

(** C7: after any calls, a client has a server exactly if that server is enabled, has
    the client's interface, major version and instance, and a minor version that is
    not smaller; and then the server has that client. *)
Theorem socom_connected_iff w tr c C s S :
  socom_trace w tr → so_clients w !! c = Some C → so_servers w !! s = Some S →
  (cc_server C = Some s ↔
    sc_registered S = true ∧ sii_id (sc_interface S) = sii_id (cc_interface C) ∧
    major (sii_version (sc_interface S)) = major (sii_version (cc_interface C)) ∧
    sc_instance S = cc_instance C ∧
    (minor (sii_version (cc_interface C)) ≤ minor (sii_version (sc_interface S)))%N) ∧
  (sc_client S = Some c ↔ cc_server C = Some s).
Proof.
  intros Htr EC ES. destruct (trace_inv w tr Htr) as ([Hconn _ _] & _). split; split.
  - intros Es. destruct (connected_server w c C s Hconn EC Es) as (S' & ES' & Hr & _ & Hk & Hm).
    rewrite ES in ES'. injection ES' as <-. injection Hk as H1 H2 H3.
    split_and!; try done. by apply N.leb_le.
  - intros (Hr & H1 & H2 & H3 & Hm). destruct (v_clients _ Hconn _ _ EC) as (_ & _ & Hrc & ->).
    destruct (v_servers _ Hconn _ _ ES) as (_ & _ & _ & Hrs). rewrite Hr in Hrs.
    destruct Hrs as [Hrs _]. assert (skey S = ckey C) as Hk.
    { unfold skey, ckey, record_key. by rewrite H1, H2, H3. }
    rewrite Hk in Hrs. unfold server_of, matching. rewrite Hrs, Hrc.
    unfold is_minor_version_compatible. by rewrite (proj2 (N.leb_le _ _) Hm).
  - intros Hc. destruct (connected_client w s S c Hconn ES Hc) as (C' & EC' & Hs & _).
    rewrite EC in EC'. by injection EC' as <-.
  - intros Hs. destruct (connected_server w c C s Hconn EC Hs) as (S' & ES' & _ & Hc & _).
    rewrite ES in ES'. by injection ES' as <-.
Qed.

Lemma socom_connected_iff_witness :
  ∃ C S, so_clients sample.1 !! 1%N = Some C ∧ so_servers sample.1 !! 2%N = Some S ∧
    (sc_client S = Some 1%N ↔ cc_server C = Some 2%N) ∧ cc_server C = Some 2%N.
Proof.
  do 2 eexists. split; [vm_compute; reflexivity|]. split; [vm_compute; reflexivity|]. split.
  - by eapply (socom_connected_iff sample.1 sample.2 1 _ 2); [apply sample_trace|vm_compute..].
  - reflexivity.
Defined.

(** C20: after any calls, what a live client has been told is its connection: the
    reports alternate between available and not available, each names the server that
    comes or goes, and the last one is the state of the connection. *)
Theorem socom_clients_are_told w tr c C :
  socom_trace w tr → so_clients w !! c = Some C →
  told c None (notices tr) = Some (cc_server C).
Proof. intros Htr. destruct (trace_inv w tr Htr) as (_ & _ & Ht & _). apply Ht. Qed.

Lemma socom_clients_are_told_witness :
  told 1 None (notices sample.2) = Some (Some 2%N).
Proof.
  apply (socom_clients_are_told sample.1 sample.2 1 (mkClientConnector
    {| sii_id := "a"; sii_version := {| major := 1; minor := 0 |} |} "x" true (Some 2%N) true)).
  - apply sample_trace.
  - vm_compute. reflexivity.
Defined.

(** C24: after any calls, a bridge holds one request for a service if it is registered
    and a client that found no server for the service still lives, and none
    otherwise: it has been asked exactly once more than it has been freed. *)
Theorem socom_bridges_hold_requests w tr b i inst :
  socom_trace w tr →
  (balance b (i, inst) tr = 1%Z ∧ is_Some (so_bridges w !! b) ∧
    ∃ c C, so_clients w !! c = Some C ∧ cc_requests C = true ∧ request_key C = (i, inst)) ∨
  (balance b (i, inst) tr = 0%Z ∧
    ¬ (is_Some (so_bridges w !! b) ∧
       ∃ c C, so_clients w !! c = Some C ∧ cc_requests C = true ∧ request_key C = (i, inst))).
Proof.
  intros Htr. destruct (trace_inv w tr Htr) as ([_ _ Hreq] & _ & _ & Hheld).
  rewrite <-Hheld. unfold held. destruct (so_requests w !! (i, inst)) as [r|] eqn:E.
  - destruct (v_requests _ Hreq _ _ E) as (c & C & EC & Hq & Hk).
    rewrite (requests_full w _ r Hreq E). simpl.
    case_decide as Hb; rewrite elem_of_dom in Hb; [left|right]; naive_solver.
  - right. split; [done|]. intros (_ & c & C & EC & Hq & Hk).
    pose proof (v_waiting _ Hreq c C EC Hq) as Hw. congruence.
Qed.

Lemma socom_bridges_hold_requests_witness :
  balance 0 ({| sii_id := "a"; sii_version := {| major := 1; minor := 0 |} |}, "x") sample.2 = 1%Z.
Proof.
  destruct (socom_bridges_hold_requests sample.1 sample.2 0
    {| sii_id := "a"; sii_version := {| major := 1; minor := 0 |} |} "x" sample_trace)
    as [[H _]|[_ []]]; [exact H|].
  split; [by eexists; vm_compute|]. exists 1%N. eexists. split; [vm_compute; reflexivity|].
  by split.
Defined.

(** *** Events *)

Lemma update_event_run s S id p w :
  so_servers w !! s = Some S → events_ok S → (id < N.of_nat (sc_num_events S))%N →
  update_event s id p w = Done (Ok tt, w,
    match event_client (N.to_nat id) (sc_subscriber S) with
    | Some c => [Cb_event_update c id p]
    | None => []
    end).
Proof.
  intros ES (H1 & _) Hid. unfold update_event. rewrite (get_server_run _ _ _ _ ES).
  rewrite (proj2 (N.leb_gt _ _)) by done. rewrite assert_run by (apply Nat.ltb_lt; lia).
  by destruct (event_client _ _).
Qed.

Lemma update_requested_run s S id p w :
  so_servers w !! s = Some S → events_ok S → (id < N.of_nat (sc_num_events S))%N →
  update_requested_event s id p w = Done (Ok tt,
    set_servers w (<[s := sc_set_update_requester S
      (clear_event (N.to_nat id) (sc_update_requester S))]> (so_servers w)),
    match event_client (N.to_nat id) (sc_update_requester S) with
    | Some c => [Cb_event_requested_update c id p]
    | None => []
    end).
Proof.
  intros ES (_ & H2 & _) Hid. unfold update_requested_event. rewrite (get_server_run _ _ _ _ ES).
  rewrite (proj2 (N.leb_gt _ _)) by done. rewrite assert_run by (apply Nat.ltb_lt; lia).
  rewrite (update_server_run _ _ _ _ _ ES).
  by destruct (event_client _ _).
Qed.

Lemma unsubscribe_run c C s S id w :
  so_clients w !! c = Some C → cc_server C = Some s → so_servers w !! s = Some S →
  events_ok S → (id < N.of_nat (sc_num_events S))%N →
  ∃ o, unsubscribe_event c id w = Done (Ok tt,
    set_servers w (<[s := sc_set_update_requester
      (sc_set_subscriber S (clear_event (N.to_nat id) (sc_subscriber S)))
      (clear_event (N.to_nat id) (sc_update_requester S))]> (so_servers w)), o).
Proof.
  intros E Es ES Hok Hid. unfold unsubscribe_event, receive_unsubscribe_event.
  rewrite (lock_server_run _ _ _ _ _ E Es), (get_server_run _ _ _ _ ES).
  destruct (unsubscribe_event_id_run s S (N.to_nat id) w ES Hok) as (o & Eo & _); [lia|].
  destruct Hok as (_ & _ & -> & _). rewrite (proj2 (N.leb_gt _ _)) by done.
  exists o. rewrite (bind_run _ _ _ _ _ _ Eo). unfold mret, M_ret. by rewrite app_nil_r.
Qed.

Lemma event_client_clear_eq id l : event_client id (clear_event id l) = None.
Proof. rewrite event_client_clear. by destruct (decide _). Qed.

Lemma event_client_set_eq id c l : id < length l → event_client id (set_event id c l) = Some c.
Proof. intros Hid. rewrite event_client_set. case_decide; naive_solver. Qed.

(** The requester of the initial value after a subscription. *)
Definition requester_after (S : Server_connector) (c id : N) (mode : Event_mode) : option N :=
  match mode with
  | mode_update => event_client (N.to_nat id) (sc_update_requester S)
  | mode_update_and_initial_value => Some c
  end.

Lemma requester_after_spec S c id mode :
  events_ok S → sc_client S = Some c → (id < N.of_nat (sc_num_events S))%N →
  event_client (N.to_nat id) (sc_subscriber (with_subscriber S c (N.to_nat id) mode)) = Some c ∧
  event_client (N.to_nat id) (sc_update_requester (with_subscriber S c (N.to_nat id) mode)) =
    requester_after S c id mode ∧
  sc_num_events (with_subscriber S c (N.to_nat id) mode) = sc_num_events S.
Proof.
  intros (H1 & H2 & _) Hc Hid.
  destruct mode; simpl; rewrite ?event_client_set_eq by lia; done.
Qed.

(** Once a client has subscribed to an event of its server, an update of that event
    goes to this client and to nobody else; a requested update is delivered to it once
    if it has asked for one; and after it has unsubscribed neither is delivered. *)
Theorem socom_event_delivery w tr c C s S id mode p :
  socom_trace w tr → so_clients w !! c = Some C → cc_server C = Some s →
  so_servers w !! s = Some S → (id < N.of_nat (sc_num_events S))%N →
  ∃ w1 o1, subscribe_event c id mode w = Done (Ok tt, w1, o1) ∧
    update_event s id p w1 = Done (Ok tt, w1, [Cb_event_update c id p]) ∧
    (∃ w2 w2', update_requested_event s id p w1 = Done (Ok tt, w2,
        if requester_after S c id mode is Some _ then [Cb_event_requested_update c id p] else []) ∧
      update_requested_event s id p w2 = Done (Ok tt, w2', [])) ∧
    (∃ w3 w3' o3, unsubscribe_event c id w1 = Done (Ok tt, w3, o3) ∧
      update_event s id p w3 = Done (Ok tt, w3, []) ∧
      update_requested_event s id p w3 = Done (Ok tt, w3', [])).
Proof.
  intros Htr EC Es ES Hid. destruct (trace_inv w tr Htr) as (Hinv & _).
  destruct (client_server w c C s Hinv EC Es) as (S0 & ES0 & Hok & Hc).
  rewrite ES in ES0. injection ES0 as <-.
  rewrite (subscribe_run c C s S id mode w EC Es ES Hok Hc), (proj2 (N.ltb_lt _ _) Hid).
  set (S1 := with_subscriber S c (N.to_nat id) mode).
  destruct (requester_after_spec S c id mode Hok Hc Hid) as (Hs1 & Hr1 & Hn1).
  fold S1 in Hs1, Hr1, Hn1.
  assert (events_ok S1) as Hok1 by by apply events_ok_subscriber.
  do 2 eexists. split; [done|]. set (w1 := set_servers w _).
  assert (so_servers w1 !! s = Some S1) as ES1 by apply lookup_insert_eq.
  split; [|split].
  - rewrite (update_event_run s S1) by (by rewrite ?Hn1). by rewrite Hs1.
  - do 2 eexists. split.
    + rewrite (update_requested_run s S1) by (by rewrite ?Hn1). rewrite Hr1.
      assert (∀ c', requester_after S c id mode = Some c' → c' = c) as Hsame.
      { destruct mode; simpl; [|congruence]. intros c' Hc'. destruct Hok as (_ & _ & _ & _ & H5).
        apply H5 in Hc'. congruence. }
      destruct (requester_after S c id mode) as [c'|]; [|done]. by rewrite (Hsame c').
    + erewrite update_requested_run;
        [|apply lookup_insert_eq|by apply events_ok_clear|simpl; by rewrite Hn1].
      simpl. by rewrite event_client_clear_eq.
  - destruct (unsubscribe_run c C s S1 id w1) as (o3 & E3); try done; [by rewrite Hn1|].
    do 3 eexists. split; [apply E3|]. split.
    + erewrite update_event_run;
        [|apply lookup_insert_eq|by apply events_ok_unsubscribed|simpl; by rewrite Hn1].
      simpl. by rewrite event_client_clear_eq.
    + erewrite update_requested_run;
        [|apply lookup_insert_eq|by apply events_ok_unsubscribed|simpl; by rewrite Hn1].
      simpl. by rewrite event_client_clear_eq.
Qed.

(** The client and the server of the sample run. *)
Definition sample_client : Client_connector :=
  mkClientConnector {| sii_id := "a"; sii_version := {| major := 1; minor := 0 |} |} "x" true
    (Some 2%N) true.
Definition sample_server : Server_connector :=
  mkServerConnector {| sii_id := "a"; sii_version := {| major := 1; minor := 2 |} |} 1 2 "x"
    true true [None; Some 1%N] [None; Some 1%N] [mode_update; mode_update_and_initial_value]
    (Some 1%N).

Lemma socom_event_delivery_witness :
  ∃ w1 o1, subscribe_event 1 0 mode_update sample.1 = Done (Ok tt, w1, o1) ∧
    update_event 2 0 99 w1 = Done (Ok tt, w1, [Cb_event_update 1 0 99]).
Proof.
  destruct (socom_event_delivery sample.1 sample.2 1 sample_client 2 sample_server 0
    mode_update 99) as (w1 & o1 & E1 & E2 & _).
  - apply sample_trace.
  - vm_compute. reflexivity.
  - reflexivity.
  - vm_compute. reflexivity.
  - reflexivity.
  - exists w1, o1. split; [exact E1|exact E2].
Defined.

(** A regular update does not answer a request for an update: while a request is
    pending, [update_event] leaves it pending, and the client's further requests are
    not passed on to the server, before and after the update. *)
Theorem socom_update_keeps_request w tr c C s S id p c' :
  socom_trace w tr → so_clients w !! c = Some C → cc_server C = Some s →
  so_servers w !! s = Some S → (id < N.of_nat (sc_num_events S))%N →
  event_client (N.to_nat id) (sc_update_requester S) = Some c' →
  ∃ o, update_event s id p w = Done (Ok tt, w, o) ∧
    request_event_update c id w = Done (Ok tt, w, []).
Proof.
  intros Htr EC Es ES Hid Hreq. destruct (trace_inv w tr Htr) as (Hinv & _).
  destruct (client_server w c C s Hinv EC Es) as (S0 & ES0 & Hok & Hc).
  rewrite ES in ES0. injection ES0 as <-.
  eexists. split; [by apply (update_event_run s S)|].
  rewrite (request_update_run c C s S) by done. by rewrite Hreq.
Qed.

Lemma socom_update_keeps_request_witness :
  ∃ o, update_event 2 1 99 sample.1 = Done (Ok tt, sample.1, o) ∧
    request_event_update 1 1 sample.1 = Done (Ok tt, sample.1, []).
Proof.
  apply (socom_update_keeps_request sample.1 sample.2 1 sample_client 2 sample_server 1 99 1).
  - apply sample_trace.
  - vm_compute. reflexivity.
  - reflexivity.
  - vm_compute. reflexivity.
  - reflexivity.
  - reflexivity.
Defined.

(** A new server whose name is not taken. *)
Lemma trace_make_server w tr i m e inst :
  socom_trace w tr → (i, inst) ∉ so_identifiers w →
  socom_trace (with_new_server w (new_server i m e inst)) tr.
Proof.
  intros Htr Hn. rewrite <-(app_nil_r tr).
  apply (so_call w tr (Make_server true i m e inst)); [done|done|].
  simpl. unfold run. by rewrite (bind_silent _ _ _ _ _ (make_server_run i m e inst w Hn)).
Qed.

(** The check for duplicate services does not protect the registration of servers:
    two servers that differ in the minor version only can both be made and one of them
    enabled, and then enabling the other ends in a failed assertion. *)
Theorem socom_second_minor_version i j (m1 m2 : N) (e1 e2 : nat) inst :
  sii_id i = sii_id j → major (sii_version i) = major (sii_version j) →
  minor (sii_version i) ≠ minor (sii_version j) →
  ∃ w tr, socom_trace w tr ∧ so_servers w !! 1%N = Some (new_server j m2 e2 inst) ∧
    socom_admissible w (Enable 1) ∧ socom_step (Enable 1) w = Fault Assertion_failed.
Proof.
  intros Hid Hmaj Hmin. set (S0 := new_server i m1 e1 inst). set (S1 := new_server j m2 e2 inst).
  set (w2 := with_new_server (with_new_server so_init S0) S1).
  assert (socom_trace w2 []) as Htr.
  { apply trace_make_server.
    - apply trace_make_server; [constructor|]. apply not_elem_of_empty.
    - simpl. rewrite union_empty_r_L, elem_of_singleton. intros [= ->]. done. }
  destruct (trace_inv w2 [] Htr) as ([Hconn _ _] & _).
  pose proof (enable_run w2 0 S0 Hconn eq_refl eq_refl eq_refl) as E.
  pose proof (so_call w2 [] (Enable 0) _ _ Htr (ex_intro _ S0 (conj eq_refl eq_refl)) E) as Htr3.
  set (w3 := with_server_enabled w2 0 S0) in *.
  destruct (trace_inv w3 _ Htr3) as ([Hconn3 _ _] & _).
  assert (so_servers w3 !! 1%N = Some S1) as ES1 by done.
  exists w3, ([] ++ enable_reports w2 0 S0). split_and!; [done|done|by exists S1|].
  apply (enable_occupied w3 1 S1); [done|done|].
  destruct (v_servers _ Hconn3 0%N (enabled S0) eq_refl) as (_ & _ & _ & Hs & _).
  assert (skey S1 = skey (enabled S0)) as ->; [|by rewrite Hs].
  unfold skey, record_key. simpl. by rewrite Hid, Hmaj.
Qed.

Lemma socom_second_minor_version_witness :
  ∃ w tr, socom_trace w tr ∧ socom_step (Enable 1) w = Fault Assertion_failed.
Proof.
  destruct (socom_second_minor_version
    {| sii_id := "a"; sii_version := {| major := 1; minor := 0 |} |}
    {| sii_id := "a"; sii_version := {| major := 1; minor := 2 |} |} 1 1 2 2 "x")
    as (w & tr & Htr & _ & _ & E); [reflexivity|reflexivity|discriminate|].
  exists w, tr. split; [exact Htr|exact E].
Defined.

(** A method call of a connected client reaches its server, and only it, if the
    method exists there; otherwise the client gets an error and nothing happens. *)
Theorem socom_method_calls w tr c C id p :
  socom_trace w tr → so_clients w !! c = Some C →
  (cc_server C = None ∧ call_method c id p w = Done (Err runtime_error_service_not_available, w,
    [])) ∨
  (∃ s S, cc_server C = Some s ∧ so_servers w !! s = Some S ∧ sc_registered S = true ∧
    call_method c id p w =
      if (id <? sc_num_methods S)%N then Done (Ok tt, w, [Cb_method_call s id p])
      else Done (Err logic_error_id_out_of_range, w, [])).
Proof.
  intros Htr EC. destruct (trace_inv w tr Htr) as ([Hconn _ _] & _).
  unfold call_method, receive_call_method.
  destruct (cc_server C) as [s|] eqn:Es; [right|left].
  - destruct (connected_server w c C s Hconn EC Es) as (S & ES & Hr & _). exists s, S.
    split_and!; try done. rewrite (lock_server_run _ _ _ _ _ EC Es), (get_server_run _ _ _ _ ES).
    rewrite N.leb_antisym. by destruct (id <? sc_num_methods S)%N.
  - split; [done|]. by apply (lock_server_none c C).
Qed.

Lemma socom_method_calls_witness :
  call_method 1 0 5 sample.1 = Done (Ok tt, sample.1, [Cb_method_call 2 0 5]).
Proof.
  destruct (socom_method_calls sample.1 sample.2 1 sample_client 0 5 sample_trace)
    as [[H _]|(s & S & Hs & ES & _ & E)]; [vm_compute; reflexivity|discriminate H|].
  injection Hs as <-.
  assert (so_servers sample.1 !! 2%N = Some sample_server) as E2 by (vm_compute; reflexivity).
  rewrite E2 in ES. injection ES as <-. exact E.
Defined.
