(* ===== verification/SocomContract.v ===== *)
(** * The contract of the connectors

    What the headers [src/score/socom/client_connector.hpp] and [server_connector.hpp]
    promise to the applications, as statements about any runtime: the virtual functions are
    a class of operations, and next to them stand the parts of the state that the comments
    speak of. In one place the promise is the code's and not the comment's: [update_event]
    does not clear the list of those who wait for an update. The headers talk of any number
    of clients that subscribe an event; the runtime of [Socom] keeps the contract with one
    client per server. What an application can rely on is proved from the contract. *)

From stdpp Require Import base numbers list gmap strings.
From S2P Require Import Prelude.
From S2P Require Import IpcTypes.
From S2P Require Import Socom.
From S2P Require Import SocomInvariant.
From S2P Require Import SocomCalls.
From S2P Require Import SocomProperties.

(** ** The interface *)

(** An event of a server, as the comments describe it: who has subscribed it, who waits for
    an update, and the combined mode. *)
Record Event_view : Type := {
  ev_subscribers : gset N;
  ev_requesters : gset N;
  ev_mode : Event_mode;
}.

Class Connectors (W : Type) := {
  (* Client_connector *)
  c_subscribe_event : N → N → Event_mode → M W Socom_action (Result Socom_error unit);
  c_unsubscribe_event : N → N → M W Socom_action (Result Socom_error unit);
  c_request_event_update : N → N → M W Socom_action (Result Socom_error unit);
  c_call_method : N → N → N → M W Socom_action (Result Socom_error unit);
  (* Enabled_server_connector *)
  c_update_event : N → N → N → M W Socom_action (Result Server_connector_error unit);
  c_update_requested_event : N → N → N → M W Socom_action (Result Server_connector_error unit);
  c_allocate_event_payload : N → N → M W Socom_action (Result Server_connector_error unit);
  c_get_event_mode : N → N → M W Socom_action (Result Server_connector_error Event_mode);
  (* the state *)
  is_client : W → N → Prop;
  service_of : W → N → option N;
  num_events_of : W → N → option N;
  num_methods_of : W → N → option N;
  event_of : W → N → N → Event_view;
}.

(** "Event_mode::update_and_initial_value is dominant while Event_mode::update is
    recessive". *)
Definition combine (m1 m2 : Event_mode) : Event_mode :=
  match m1, m2 with mode_update, mode_update => mode_update | _,
    _ => mode_update_and_initial_value end.
Definition wants_initial (mode : Event_mode) : bool :=
  match mode with mode_update => false | mode_update_and_initial_value => true end.

Section promises.
Context {W : Type} `{Connectors W}.

(** One event gets another view and all else is as it was. *)
Definition only_event (w w' : W) (s id : N) (v : Event_view) : Prop :=
  (∀ s' id', event_of w' s' id' = if decide ((s, id) = (s', id')) then v else event_of w s' id') ∧
  (∀ c, is_client w' c ↔ is_client w c) ∧ (∀ c, service_of w' c = service_of w c) ∧
  (∀ s, num_events_of w' s = num_events_of w s) ∧ (∀ s, num_methods_of w' s = num_methods_of w s).

(** "If the service state is not Service_state::available, service API calls have no effect
    and return Error::runtime_error_service_not_available. If the passed parameter client_id
    is not valid, service API calls have no effect and return
    Error::logic_error_id_out_of_range". [limit] is the number of the server's events or
    methods. *)
Definition client_errors {A} (limit : W → N → option N) (w : W) (c id : N)
    (call : M W Socom_action (Result Socom_error A)) : Prop :=
  match service_of w c with
  | None => call w = Done (Err runtime_error_service_not_available, w, [])
  | Some s => ∀ n, limit w s = Some n → (n <= id)%N →
      call w = Done (Err logic_error_id_out_of_range, w, [])
  end.

(** A client with an available service, and an id that its server has. *)
Definition usable (limit : W → N → option N) (w : W) (c s id : N) : Prop :=
  is_client w c ∧ service_of w c = Some s ∧ ∃ n, limit w s = Some n ∧ (id < n)%N.

(** [subscribe_event]: the client is registered and the mode combined; on the first
    subscription the server is called back, and asked for the initial value after that. *)
Definition subscribe_promise (w : W) (c s id : N) (mode : Event_mode) : Prop :=
  let v := event_of w s id in
  ∃ w' o, c_subscribe_event c id mode w = Done (Ok tt, w', o) ∧
    only_event w w' s id {| ev_subscribers := {[ c ]} ∪ ev_subscribers v;
      ev_requesters := if wants_initial mode then {[ c ]} ∪ ev_requesters v else ev_requesters v;
      ev_mode := combine (ev_mode v) mode |} ∧
    (ev_subscribers v = ∅ → ev_requesters v = ∅ → o = Cb_event_subscription_change s id true ::
      if wants_initial mode then [Cb_event_update_request s id] else []) ∧
    (ev_subscribers v ≠ ∅ → Cb_event_subscription_change s id true ∉ o).

(** [unsubscribe_event]: "unregisters this Client_connector ... and removes this
    Client_connector instance from the list of update requesters"; the last one is told to
    the server. *)
Definition unsubscribe_promise (w : W) (c s id : N) : Prop :=
  let v := event_of w s id in
  ∃ w', c_unsubscribe_event c id w = Done (Ok tt, w',
      if decide (ev_subscribers v = {[ c ]}) then [Cb_event_subscription_change s id false] else [])
        ∧
    only_event w w' s id {| ev_subscribers := ev_subscribers v ∖ {[ c ]};
      ev_requesters := ev_requesters v ∖ {[ c ]}; ev_mode := ev_mode v |}.

(** [request_event_update]: "calls callback on_event_update_request(server_id) if this is the
    first update_request for the event". *)
Definition request_promise (w : W) (c s id : N) : Prop :=
  let v := event_of w s id in
  ∃ w', c_request_event_update c id w = Done (Ok tt, w',
      if decide (ev_requesters v = ∅) then [Cb_event_update_request s id] else []) ∧
    only_event w w' s id {| ev_subscribers := ev_subscribers v;
      ev_requesters := {[ c ]} ∪ ev_requesters v; ev_mode := ev_mode v |}.

(** [call_method]: "the available Server_connector instance calls the callback
    on_method_call". *)
Definition call_method_promise (w : W) (c s id p : N) : Prop :=
  c_call_method c id p w = Done (Ok tt, w, [Cb_method_call s id p]).

(** Server calls: "If the passed parameter server_id is not valid, service API calls have no
    effect and return logic_error_id_out_of_range". *)
Definition server_error {A} (w : W) (s id : N)
    (call : M W Socom_action (Result Server_connector_error A)) : Prop :=
  ∀ n, num_events_of w s = Some n → (n <= id)%N →
    call w = Done (Err server_logic_error_id_out_of_range, w, []).
Definition has_event (w : W) (s id : N) : Prop := ∃ n, num_events_of w s = Some n ∧ (id < n)%N.

(** [update_event]: "for each connected Client_connector which is subscribed". The comment
    has the list of those who wait for an update cleared; the code keeps it, and so does
    the promise: nothing changes. *)
Definition update_promise (w : W) (s id p : N) : Prop :=
  let v := event_of w s id in
  ∃ w' o, c_update_event s id p w = Done (Ok tt, w', o) ∧
    o ≡ₚ (λ c, Cb_event_update c id p) <$> elements (ev_subscribers v) ∧
    only_event w w' s id v.

(** [update_requested_event]: "Clears the list of event update requesters", each of which
    gets the update. *)
Definition update_requested_promise (w : W) (s id p : N) : Prop :=
  let v := event_of w s id in
  ∃ w' o, c_update_requested_event s id p w = Done (Ok tt, w', o) ∧
    o ≡ₚ (λ c, Cb_event_requested_update c id p) <$> elements (ev_requesters v) ∧
    only_event w w' s id {| ev_subscribers := ev_subscribers v; ev_requesters := ∅;
      ev_mode := ev_mode v |}.

(** [allocate_event_payload]: "requires a Client_connector to be subscribed to the event to
    which payload allocation is delegated". *)
Definition allocate_event_promise (w : W) (s id : N) : Prop :=
  let subscribers := ev_subscribers (event_of w s id) in
  (subscribers = ∅ → c_allocate_event_payload s id w =
    Done (Err runtime_error_no_client_subscribed_for_event, w, [])) ∧
  (subscribers ≠ ∅ → ∃ c, c ∈ subscribers ∧
    c_allocate_event_payload s id w = Done (Ok tt, w, [Cb_event_payload_allocate c id])).

(** [get_event_mode]: "Returns the combined event subscription mode". *)
Definition event_mode_promise (w : W) (s id : N) : Prop :=
  c_get_event_mode s id w = Done (Ok (ev_mode (event_of w s id)), w, []).
End promises.

(** The contract. [runs] are the states of a runtime that has been used as the headers
    allow. *)
Class Connectors_contract (W : Type) `{Connectors W} := {
  runs : W → Prop;
  client_errors_kept w c id mode p : runs w → is_client w c →
    client_errors num_events_of w c id (c_subscribe_event c id mode) ∧
    client_errors num_events_of w c id (c_unsubscribe_event c id) ∧
    client_errors num_events_of w c id (c_request_event_update c id) ∧
    client_errors num_methods_of w c id (c_call_method c id p);
  subscribe_kept w c s id mode : runs w → usable num_events_of w c s id →
    subscribe_promise w c s id mode;
  unsubscribe_kept w c s id : runs w → usable num_events_of w c s id → unsubscribe_promise w c s id;
  request_kept w c s id : runs w → usable num_events_of w c s id → request_promise w c s id;
  call_method_kept w c s id p : runs w → usable num_methods_of w c s id →
    call_method_promise w c s id p;
  server_errors_kept w s id p : runs w →
    server_error w s id (c_update_event s id p) ∧
    server_error w s id (c_update_requested_event s id p) ∧
    server_error w s id (c_allocate_event_payload s id) ∧
    server_error w s id (c_get_event_mode s id);
  update_kept w s id p : runs w → has_event w s id → update_promise w s id p;
  update_requested_kept w s id p : runs w → has_event w s id → update_requested_promise w s id p;
  allocate_event_kept w s id : runs w → has_event w s id → allocate_event_promise w s id;
  event_mode_kept w s id : runs w → has_event w s id → event_mode_promise w s id;
  client_call_runs w w' c id mode r o : runs w → is_client w c →
    c_subscribe_event c id mode w = Done (r, w', o) ∨ c_unsubscribe_event c id w = Done (r, w', o) ∨
    c_request_event_update c id w = Done (r, w', o) → runs w';
  server_call_runs w w' s id p r o : runs w → has_event w s id →
    c_update_event s id p w = Done (r, w', o) ∨ c_update_requested_event s id p w = Done (r, w',
      o) →
    runs w';
}.

(** ** What applications can rely on *)

Section applications.
Context {W : Type} `{Connectors_contract W}.

(** The server updates an event several times. *)
Fixpoint update_events (s id : N) (ps : list N) : M W Socom_action unit :=
  match ps with
  | [] => mret tt
  | p :: ps => c_update_event s id p;; update_events s id ps
  end.

(** The payloads of an event that a client receives. *)
Definition received (c id : N) : list Socom_action → list N :=
  omap (λ a, match a with
    | Cb_event_update c' id' p => if decide (c' = c ∧ id' = id) then Some p else None
    | _ => None
    end).

Lemma received_app c id o1 o2 : received c id (o1 ++ o2) = received c id o1 ++ received c id o2.
Proof. apply omap_app. Qed.

(** One update: a subscriber receives it once, nobody else does. *)
Lemma received_update c id p (cs : gset N) o :
  o ≡ₚ (λ c, Cb_event_update c id p) <$> elements cs →
  received c id o = if decide (c ∈ cs) then [p] else [].
Proof.
  intros Hp. assert (received c id o ≡ₚ if decide (c ∈ elements cs) then [p] else []) as Hr.
  { unfold received. rewrite Hp. clear Hp o. induction (NoDup_elements cs) as [|x l Hx _ IH].
    - rewrite decide_False by apply not_elem_of_nil. done.
    - rewrite fmap_cons. cbn [omap list_omap]. destruct (decide (x = c)) as [->|Hne].
      + rewrite (decide_True (P := c = c ∧ id = id)) by done. rewrite IH.
        rewrite (decide_False (P := c ∈ l)) by done.
        by rewrite decide_True by left.
      + rewrite (decide_False (P := x = c ∧ id = id)) by naive_solver. rewrite IH.
        destruct (decide (c ∈ l)); [rewrite decide_True by by right|rewrite decide_False]; try done.
        rewrite elem_of_cons. naive_solver. }
  rewrite (decide_ext (c ∈ cs) (c ∈ elements cs)) by by rewrite elem_of_elements.
  case_decide; [by apply Permutation_singleton_r|by apply Permutation_nil_r].
Qed.

(** While a set of clients has subscribed, each of them receives every update in order. *)
Lemma update_events_received s id ps : ∀ w,
  runs w → has_event w s id →
  ∃ w' o, update_events s id ps w = Done (tt, w', o) ∧ runs w' ∧
    (∀ c, received c id o = if decide (c ∈ ev_subscribers (event_of w s id)) then ps else []) ∧
    ev_subscribers (event_of w' s id) = ev_subscribers (event_of w s id) ∧
    (∀ c, is_client w' c ↔ is_client w c) ∧ (∀ c, service_of w' c = service_of w c) ∧
    num_events_of w' s = num_events_of w s.
Proof.
  induction ps as [|p ps IH]; intros w Hw Hs; simpl.
  - exists w, []. split_and!; try done. intros c. by case_decide.
  - destruct (update_kept w s id p Hw Hs) as (w1 & o1 & E1 & Ho1 & Hv & Hc1 & Hs1 & Hn1 & _).
    assert (runs w1) as Hw1 by (eapply server_call_runs; [exact Hw|exact Hs|by left]).
    specialize (Hv s id). rewrite decide_True in Hv by done.
    destruct (IH w1) as (w' & o' & E' & Hw' & Hr & Hv' & Hc' & Hs' & Hn'); [done| |].
    { destruct Hs as (n & Hn & Hid). exists n. by rewrite Hn1. }
    exists w', (o1 ++ o'). rewrite (bind_run _ _ _ _ _ _ E1), E'. rewrite Hv in Hv', Hr. simpl in *.
    split_and!; try done.
    + intros c. rewrite received_app, (received_update _ _ _ _ _ Ho1), Hr. by case_decide.
    + intros c. by rewrite Hc', Hc1.
    + intros c. by rewrite Hs', Hs1.
    + by rewrite Hn', Hn1.
Qed.

(** What a subscription means, whatever runtime keeps the contract. From the moment a client
    has subscribed an event of its service, it receives every update of the event, once and
    in the order in which the server makes them, until it unsubscribes; from then on it
    receives none. Another client's share of the updates is the same before and after: it
    receives all of them or none. *)
Lemma contract_means_updates (w : W) c s id mode ps qs :
  runs w → usable num_events_of w c s id →
  ∃ w1 o1 w2 o2 w3 o3 w4 o4,
    c_subscribe_event c id mode w = Done (Ok tt, w1, o1) ∧
    update_events s id ps w1 = Done (tt, w2, o2) ∧
    c_unsubscribe_event c id w2 = Done (Ok tt, w3, o3) ∧
    update_events s id qs w3 = Done (tt, w4, o4) ∧
    received c id o2 = ps ∧ received c id o4 = [] ∧
    ∀ c', c' ≠ c → (received c' id o2, received c' id o4) =
      if decide (c' ∈ ev_subscribers (event_of w s id)) then (ps, qs) else ([], []).
Proof.
  intros Hw Hu. pose proof Hu as (Hc & Hs & n & Hn & Hid).
  destruct (subscribe_kept w c s id mode Hw Hu) as (w1 & o1 & E1 & (Hv1 & Hc1 & Hs1 & Hn1 & _) & _).
  specialize (Hv1 s id). rewrite decide_True in Hv1 by done.
  assert (runs w1) as Hw1 by (eapply client_call_runs; [exact Hw|exact Hc|by left]).
  destruct (update_events_received s id ps w1) as (w2 & o2 & E2 & Hw2 & Hr2 & Hv2 & Hc2 & Hs2 &
    Hn2);
    [done|exists n; by rewrite Hn1|].
  assert (is_client w2 c) as Hcl2 by (apply Hc2, Hc1, Hc).
  assert (usable num_events_of w2 c s id) as Hu2.
  { split; [done|]. rewrite Hs2, Hs1. split; [done|]. exists n. by rewrite Hn2, Hn1. }
  destruct (unsubscribe_kept w2 c s id Hw2 Hu2) as (w3 & E3 & Hv3 & _ & _ & Hn3 & _).
  specialize (Hv3 s id). rewrite decide_True in Hv3 by done.
  assert (runs w3) as Hw3
    by (eapply (client_call_runs w2 w3 c id mode); [exact Hw2|exact Hcl2|by right; left]).
  destruct (update_events_received s id qs w3) as (w4 & o4 & E4 & _ & Hr4 & _);
    [done|exists n; by rewrite Hn3, Hn2, Hn1|].
  eexists w1, o1, w2, o2, w3, _, w4, o4. split; [exact E1|]. split; [exact E2|].
  split; [exact E3|]. split; [exact E4|]. split_and!.
  - rewrite Hr2, Hv1, decide_True; [done|]. set_solver.
  - rewrite Hr4, Hv3, decide_False; [done|]. simpl. set_solver.
  - intros c' Hne. rewrite Hr2, Hr4, Hv3. simpl. rewrite Hv2, Hv1. simpl.
    destruct (decide (c' ∈ ev_subscribers (event_of w s id))).
    + by rewrite !decide_True by set_solver.
    + by rewrite !decide_False by set_solver.
Qed.
End applications.

(** ** The runtime keeps the contract *)

Definition set_of (x : option N) : gset N := match x with Some c => {[ c ]} | None => ∅ end.
Definition server_event (S : Server_connector) (id : N) : Event_view :=
  {| ev_subscribers := set_of (event_client (N.to_nat id) (sc_subscriber S));
     ev_requesters := set_of (event_client (N.to_nat id) (sc_update_requester S));
     ev_mode := default mode_update (sc_event_infos S !! N.to_nat id) |}.
Definition no_event : Event_view :=
  {| ev_subscribers := ∅; ev_requesters := ∅; ev_mode := mode_update |}.

#[export] Instance socom_connectors : Connectors Socom := {|
  c_subscribe_event := subscribe_event;
  c_unsubscribe_event := unsubscribe_event;
  c_request_event_update := request_event_update;
  c_call_method := call_method;
  c_update_event := update_event;
  c_update_requested_event := update_requested_event;
  c_allocate_event_payload s id := allocate_event_payload s id (Ok tt);
  c_get_event_mode := get_event_mode;
  is_client w c := is_Some (so_clients w !! c);
  service_of w c := so_clients w !! c ≫= cc_server;
  num_events_of w s := (λ S, N.of_nat (sc_num_events S)) <$> so_servers w !! s;
  num_methods_of w s := sc_num_methods <$> so_servers w !! s;
  event_of w s id := from_option (λ S, server_event S id) no_event (so_servers w !! s);
|}.

(** One server changes, and in it one event. *)
Lemma only_event_server (w : Socom) s S S' id v :
  so_servers w !! s = Some S → sc_num_events S' = sc_num_events S →
  sc_num_methods S' = sc_num_methods S →
  (∀ id', server_event S' id' = if decide (id = id') then v else server_event S id') →
  only_event w (set_servers w (<[s := S']> (so_servers w))) s id v.
Proof.
  intros ES Hn Hm Hv. split_and!; simpl; try done.
  - intros s' id'. destruct (decide (s = s')) as [<-|Hs].
    + rewrite lookup_insert_eq. simpl. rewrite Hv, ES. simpl.
      by rewrite (decide_ext ((s, id) = (s, id')) (id = id')) by naive_solver.
    + rewrite lookup_insert_ne by done. by rewrite decide_False by congruence.
  - intros s'. destruct (decide (s = s')) as [<-|]; [|by rewrite lookup_insert_ne].
    rewrite lookup_insert_eq, ES. simpl. by rewrite Hn.
  - intros s'. destruct (decide (s = s')) as [<-|]; [|by rewrite lookup_insert_ne].
    rewrite lookup_insert_eq, ES. simpl. by rewrite Hm.
Qed.

Lemma only_event_same (w : Socom) s id : only_event w w s id (event_of w s id).
Proof. split_and!; try done. intros s' id'. case_decide; naive_solver. Qed.

(** What a usable client finds. *)
Lemma usable_server (w : Socom) c s id :
  so_inv w → usable num_events_of w c s id →
  ∃ C S, so_clients w !! c = Some C ∧ cc_server C = Some s ∧ so_servers w !! s = Some S ∧
    events_ok S ∧ sc_client S = Some c ∧ (id < N.of_nat (sc_num_events S))%N ∧
    event_of w s id = server_event S id.
Proof.
  intros Hw ([C EC] & Hs & n & Hn & Hid). simpl in *. rewrite EC in Hs. simpl in Hs.
  destruct (client_server w c C s Hw EC Hs) as (S & ES & Hok & Hc). rewrite ES in Hn.
  injection Hn as <-. exists C, S. split_and!; try done. by rewrite ES.
Qed.

Lemma server_has_event (w : Socom) s id :
  so_inv w → has_event w s id →
  ∃ S, so_servers w !! s = Some S ∧ events_ok S ∧ (id < N.of_nat (sc_num_events S))%N ∧
    event_of w s id = server_event S id.
Proof.
  intros Hw (n & Hn & Hid). simpl in *. destruct (so_servers w !! s) as [S|] eqn:ES; [|done].
  injection Hn as <-. destruct (v_servers _ (v_conn _ Hw) _ _ ES) as (_ & Hok & _). eauto 10.
Qed.

(** The event after each of the operations. *)
Lemma view_subscribed S c id mode id' :
  events_ok S → sc_client S = Some c → (id < N.of_nat (sc_num_events S))%N →
  server_event (with_subscriber S c (N.to_nat id) mode) id' =
    if decide (id = id') then
      {| ev_subscribers := {[ c ]} ∪ ev_subscribers (server_event S id);
         ev_requesters := if wants_initial mode then {[ c ]} ∪ ev_requesters (server_event S id)
                          else ev_requesters (server_event S id);
         ev_mode := combine (ev_mode (server_event S id)) mode |}
    else server_event S id'.
Proof.
  intros (H1 & H2 & H3 & Hs & Hr) Hc Hid. unfold server_event.
  assert (∀ x, (∀ c', x = Some c' → sc_client S = Some c') → {[ c ]} ∪ set_of x = {[ c ]}) as Hu.
  { intros [c'|] Hx; simpl; [|set_solver]. specialize (Hx c' eq_refl).
    assert (c' = c) by congruence.
    set_solver. }
  case_decide as E; [subst id'|].
  - destruct mode; simpl; rewrite ?event_client_set_eq by lia; simpl;
      rewrite ?Hu by eauto; f_equal.
    + by destruct (default mode_update _).
    + rewrite list_lookup_insert_eq by lia. simpl. by destruct (default mode_update _).
  - assert (N.to_nat id ≠ N.to_nat id') by lia.
    destruct mode; simpl; rewrite ?event_client_set, ?decide_False by naive_solver;
      rewrite ?list_lookup_insert_ne by done; done.
Qed.

Lemma view_unsubscribed S c id id' :
  events_ok S → sc_client S = Some c →
  server_event (sc_set_update_requester
      (sc_set_subscriber S (clear_event (N.to_nat id) (sc_subscriber S)))
      (clear_event (N.to_nat id) (sc_update_requester S))) id' =
    if decide (id = id') then
      {| ev_subscribers := ev_subscribers (server_event S id) ∖ {[ c ]};
         ev_requesters := ev_requesters (server_event S id) ∖ {[ c ]};
         ev_mode := ev_mode (server_event S id) |}
    else server_event S id'.
Proof.
  intros (_ & _ & _ & Hs & Hr) Hc. unfold server_event.
  assert (∀ x, (∀ c', x = Some c' → sc_client S = Some c') → set_of x ∖ {[ c ]} = ∅) as Hu.
  { intros [c'|] Hx; simpl; [|set_solver]. specialize (Hx c' eq_refl).
    assert (c' = c) by congruence.
    set_solver. }
  case_decide as E; [subst id'|]; simpl.
  - by rewrite !event_client_clear_eq, !Hu by eauto.
  - by rewrite !event_client_clear, !decide_False by lia.
Qed.

Lemma view_requested S c id id' :
  events_ok S → sc_client S = Some c → (id < N.of_nat (sc_num_events S))%N →
  event_client (N.to_nat id) (sc_update_requester S) = None →
  server_event (sc_set_update_requester S (set_event (N.to_nat id) c (sc_update_requester S))) id' =
    if decide (id = id') then
      {| ev_subscribers := ev_subscribers (server_event S id);
         ev_requesters := {[ c ]} ∪ ev_requesters (server_event S id);
         ev_mode := ev_mode (server_event S id) |}
    else server_event S id'.
Proof.
  intros (_ & H2 & _) Hc Hid Hnone. unfold server_event.
  case_decide as E; [subst id'|]; simpl.
  - rewrite event_client_set_eq by lia. rewrite Hnone. simpl. f_equal. set_solver.
  - rewrite event_client_set, decide_False by naive_solver lia. done.
Qed.

Lemma view_served S id id' :
  server_event (sc_set_update_requester S (clear_event (N.to_nat id) (sc_update_requester S))) id' =
    if decide (id = id') then
      {| ev_subscribers := ev_subscribers (server_event S id); ev_requesters := ∅;
         ev_mode := ev_mode (server_event S id) |}
    else server_event S id'.
Proof.
  unfold server_event. case_decide as E; [subst id'|]; simpl.
  - by rewrite event_client_clear_eq.
  - by rewrite event_client_clear, decide_False by lia.
Qed.

Lemma set_of_empty x : set_of x = ∅ ↔ x = None.
Proof. destruct x; simpl; [|done]. split; [|done]. set_solver. Qed.

(** The last subscriber. *)
Lemma unsubscribe_actions c C s S id (w : Socom) :
  so_clients w !! c = Some C → cc_server C = Some s → so_servers w !! s = Some S →
  events_ok S → sc_client S = Some c → (id < N.of_nat (sc_num_events S))%N →
  unsubscribe_event c id w = Done (Ok tt,
    set_servers w (<[s := sc_set_update_requester
      (sc_set_subscriber S (clear_event (N.to_nat id) (sc_subscriber S)))
      (clear_event (N.to_nat id) (sc_update_requester S))]> (so_servers w)),
    if decide (ev_subscribers (server_event S id) = {[ c ]})
    then [Cb_event_subscription_change s id false] else []).
Proof.
  intros E Es ES (H1 & H2 & H3 & Hs & _) Hc Hid.
  unfold unsubscribe_event, receive_unsubscribe_event, unsubscribe_event_id.
  rewrite (lock_server_run _ _ _ _ _ E Es), !(get_server_run _ _ _ _ ES), H3.
  rewrite (proj2 (N.leb_gt _ _)) by done. rewrite bind_assoc, (get_server_run _ _ _ _ ES).
  do 3 (rewrite bind_assoc, assert_run by (apply Nat.ltb_lt; lia)).
  rewrite bind_assoc, (update_server_run _ _ _ _ _ ES). rewrite N2Nat.id. simpl.
  destruct (event_client (N.to_nat id) (sc_subscriber S)) as [c'|] eqn:Ec.
  - apply Hs in Ec. assert (c' = c) as -> by congruence. rewrite decide_True by done. reflexivity.
  - rewrite decide_False by (simpl; set_solver). reflexivity.
Qed.

(** *** The runtime keeps the contract *)

Lemma so_client_errors_kept (w : Socom) c id mode p :
  so_inv w → is_client w c →
  client_errors num_events_of w c id (c_subscribe_event c id mode) ∧
  client_errors num_events_of w c id (c_unsubscribe_event c id) ∧
  client_errors num_events_of w c id (c_request_event_update c id) ∧
  client_errors num_methods_of w c id (c_call_method c id p).
Proof.
  intros Hw [C EC]. unfold client_errors. simpl. rewrite EC. simpl.
  destruct (cc_server C) as [s|] eqn:Es.
  - destruct (client_server w c C s Hw EC Es) as (S & ES & Hok & Hc). rewrite ES. simpl.
    unfold unsubscribe_event, receive_unsubscribe_event, request_event_update,
      receive_request_event_update, call_method, receive_call_method.
    split_and!; intros n [= <-] Hid;
      try (rewrite (lock_server_run _ _ _ _ _ EC Es), (get_server_run _ _ _ _ ES)).
    + rewrite (subscribe_run c C s S) by done. by rewrite (proj2 (N.ltb_ge _ _)).
    + destruct Hok as (_ & _ & -> & _). by rewrite (proj2 (N.leb_le _ _)).
    + destruct Hok as (_ & -> & _). by rewrite (proj2 (N.leb_le _ _)).
    + by rewrite (proj2 (N.leb_le _ _)).
  - unfold subscribe_event, receive_subscribe_event, unsubscribe_event, receive_unsubscribe_event,
      request_event_update, receive_request_event_update, call_method, receive_call_method.
    by rewrite !(lock_server_none _ _ _ _ EC Es).
Qed.

Lemma so_subscribe_kept (w : Socom) c s id mode :
  so_inv w → usable num_events_of w c s id →
  subscribe_promise w c s id mode.
Proof.
  intros Hw Hu.
  destruct (usable_server w c s id Hw Hu) as (C & S & EC & Es & ES & Hok & Hc & Hid & Hv).
  unfold subscribe_promise. rewrite Hv. simpl c_subscribe_event.
  rewrite (subscribe_run c C s S) by done. rewrite (proj2 (N.ltb_lt _ _)) by done.
  do 2 eexists. split; [reflexivity|]. split; [|split].
  - apply (only_event_server w s S); try done; [by destruct mode..|].
    intros id'. by apply view_subscribed.
  - intros H1%set_of_empty H2%set_of_empty. unfold subscription_actions. rewrite H1, H2.
    by destruct mode.
  - intros H1. unfold subscription_actions.
    destruct (event_client _ (sc_subscriber S)) eqn:E; [|destruct H1; simpl; by rewrite E].
    destruct mode; simpl; [apply not_elem_of_nil|].
    destruct (event_client _ (sc_update_requester S)); [apply not_elem_of_nil|].
    by intros ?%list_elem_of_singleton.
Qed.

Lemma so_unsubscribe_kept (w : Socom) c s id :
  so_inv w → usable num_events_of w c s id → unsubscribe_promise w c s id.
Proof.
  intros Hw Hu.
  destruct (usable_server w c s id Hw Hu) as (C & S & EC & Es & ES & Hok & Hc & Hid & Hv).
  unfold unsubscribe_promise. rewrite Hv. simpl c_unsubscribe_event.
  rewrite (unsubscribe_actions c C s S) by done. eexists. split; [reflexivity|].
  apply (only_event_server w s S); try done. intros id'. by apply view_unsubscribed.
Qed.

Lemma so_request_kept (w : Socom) c s id :
  so_inv w → usable num_events_of w c s id → request_promise w c s id.
Proof.
  intros Hw Hu.
  destruct (usable_server w c s id Hw Hu) as (C & S & EC & Es & ES & Hok & Hc & Hid & Hv).
  unfold request_promise. rewrite Hv. simpl c_request_event_update.
  rewrite (request_update_run c C s S) by done.
  destruct (event_client (N.to_nat id) (sc_update_requester S)) as [c'|] eqn:E.
  - eexists. split.
    { rewrite decide_False; [reflexivity|]. simpl. rewrite E. by rewrite set_of_empty. }
    assert (c' = c) as ->. { destruct Hok as (_ & _ & _ & _ & Hr). apply Hr in E. congruence. }
    pose proof (only_event_same w s id) as Hsame. rewrite Hv in Hsame.
    unfold server_event in *. rewrite E in *. simpl in *.
    by replace ({[c]} ∪ {[c]} : gset N) with ({[c]} : gset N) by set_solver.
  - eexists. split.
    { rewrite decide_True; [reflexivity|]. simpl. by rewrite E. }
    apply (only_event_server w s S); try done. intros id'. by apply view_requested.
Qed.

Lemma so_call_method_kept (w : Socom) c s id p :
  so_inv w → usable num_methods_of w c s id →
  call_method_promise w c s id p.
Proof.
  intros Hw ([C EC] & Hs & n & Hn & Hid). simpl in *. rewrite EC in Hs. simpl in Hs.
  destruct (client_server w c C s Hw EC Hs) as (S & ES & _). rewrite ES in Hn. injection Hn as <-.
  unfold call_method_promise. simpl. unfold call_method, receive_call_method.
  rewrite (lock_server_run _ _ _ _ _ EC Hs), (get_server_run _ _ _ _ ES).
  by rewrite (proj2 (N.leb_gt _ _)).
Qed.

Lemma so_server_errors_kept (w : Socom) s id p :
  so_inv w →
  server_error w s id (c_update_event s id p) ∧
  server_error w s id (c_update_requested_event s id p) ∧
  server_error w s id (c_allocate_event_payload s id) ∧
  server_error w s id (c_get_event_mode s id).
Proof.
  intros Hw. unfold server_error. simpl.
  unfold update_event, update_requested_event, allocate_event_payload, get_event_mode.
  destruct (so_servers w !! s) as [S|] eqn:ES; [|done]. simpl.
  split_and!; intros n [= <-] Hid; rewrite (get_server_run _ _ _ _ ES);
    by rewrite (proj2 (N.leb_le _ _)).
Qed.

Lemma so_update_kept (w : Socom) s id p :
  so_inv w → has_event w s id → update_promise w s id p.
Proof.
  intros Hw Hs. destruct (server_has_event w s id Hw Hs) as (S & ES & Hok & Hid & Hv).
  unfold update_promise. rewrite Hv. simpl c_update_event.
  rewrite (update_event_run s S) by done. eexists _, _. split; [reflexivity|]. split.
  - simpl. destruct (event_client _ _); simpl; [|by rewrite elements_empty].
    by rewrite elements_singleton.
  - pose proof (only_event_same w s id) as Hsame. rewrite Hv in Hsame. exact Hsame.
Qed.

Lemma so_update_requested_kept (w : Socom) s id p :
  so_inv w → has_event w s id → update_requested_promise w s id p.
Proof.
  intros Hw Hs. destruct (server_has_event w s id Hw Hs) as (S & ES & Hok & Hid & Hv).
  unfold update_requested_promise. rewrite Hv. simpl c_update_requested_event.
  rewrite (update_requested_run s S) by done. eexists _, _. split; [reflexivity|]. split.
  - simpl. destruct (event_client _ _); simpl; [|by rewrite elements_empty].
    by rewrite elements_singleton.
  - apply (only_event_server w s S); try done. intros id'. apply view_served.
Qed.

Lemma so_allocate_event_kept (w : Socom) s id :
  so_inv w → has_event w s id → allocate_event_promise w s id.
Proof.
  intros Hw Hs. destruct (server_has_event w s id Hw Hs) as (S & ES & Hok & Hid & Hv).
  unfold allocate_event_promise. rewrite Hv. simpl c_allocate_event_payload.
  unfold allocate_event_payload. rewrite !(get_server_run _ _ _ _ ES).
  rewrite (proj2 (N.leb_gt _ _)) by done. destruct Hok as (H1 & _).
  rewrite !assert_run by (apply Nat.ltb_lt; lia). simpl.
  destruct (event_client _ _) as [c|]; simpl; split; intros Hsub; try done.
  exists c. split; [set_solver|done].
Qed.

Lemma so_event_mode_kept (w : Socom) s id :
  so_inv w → has_event w s id → event_mode_promise w s id.
Proof.
  intros Hw Hs. destruct (server_has_event w s id Hw Hs) as (S & ES & Hok & Hid & Hv).
  unfold event_mode_promise. rewrite Hv. simpl c_get_event_mode. unfold get_event_mode.
  rewrite (get_server_run _ _ _ _ ES), (proj2 (N.leb_gt _ _)) by done.
  destruct Hok as (_ & _ & H3 & _).
  destruct (lookup_lt_is_Some_2 (sc_event_infos S) (N.to_nat id)) as [m Hm]; [lia|].
  rewrite (the_run _ _ _ _ _ Hm). simpl. by rewrite Hm.
Qed.

Lemma so_client_call_runs (w : Socom) w' c id mode r o :
  so_inv w → is_client w c →
  c_subscribe_event c id mode w = Done (r, w', o) ∨ c_unsubscribe_event c id w = Done (r, w', o) ∨
  c_request_event_update c id w = Done (r, w', o) → so_inv w'.
Proof.
  intros Hw [C EC] E. simpl in E.
  destruct (subscribe_good c C id mode w Hw EC) as (r1 & w1 & o1 & E1 & G1).
  destruct (unsubscribe_good c C id w Hw EC) as (r2 & w2 & o2 & E2 & G2).
  destruct (request_update_good c C id w Hw EC) as (r3 & w3 & o3 & E3 & G3).
  destruct E as [E|[E|E]]; [rewrite E1 in E|rewrite E2 in E|rewrite E3 in E];
    injection E as _ <- _; [apply G1|apply G2|apply G3].
Qed.

Lemma so_server_call_runs (w : Socom) w' s id p r o :
  so_inv w → has_event w s id →
  c_update_event s id p w = Done (r, w', o) ∨ c_update_requested_event s id p w = Done (r, w', o) →
  so_inv w'.
Proof.
  intros Hw Hs E. destruct (server_has_event w s id Hw Hs) as (S & ES & _).
  destruct (server_calls_good s S id p w Hw ES)
    as ((r1 & w1 & o1 & E1 & G1) & (r2 & w2 & o2 & E2 & G2) & _). simpl in E.
  destruct E as [E|E]; [rewrite E1 in E|rewrite E2 in E]; injection E as _ <- _;
    [apply G1|apply G2].
Qed.

#[export] Instance socom_contract : Connectors_contract Socom := {|
  runs := so_inv;
  client_errors_kept := so_client_errors_kept;
  subscribe_kept := so_subscribe_kept;
  unsubscribe_kept := so_unsubscribe_kept;
  request_kept := so_request_kept;
  call_method_kept := so_call_method_kept;
  server_errors_kept := so_server_errors_kept;
  update_kept := so_update_kept;
  update_requested_kept := so_update_requested_kept;
  allocate_event_kept := so_allocate_event_kept;
  event_mode_kept := so_event_mode_kept;
  client_call_runs := so_client_call_runs;
  server_call_runs := so_server_call_runs
|}.

(** ** Making connectors

    What [src/score/socom/runtime.hpp] promises about the construction of connectors and the
    registration of bridges, and the connector headers about availability. *)

(** The callbacks that a connector is made with: which of them are set. *)
Record Client_callbacks : Type := {
  on_service_state_change : bool;
  on_event_update : bool;
  on_event_requested_update : bool;
  on_event_payload_allocate : bool;
}.
Record Server_callbacks : Type := {
  on_method_call : bool;
  on_subscription_change : bool;
  on_event_update_request : bool;
  on_method_call_payload_allocate : bool;
}.
Definition is_valid_client (callbacks : Client_callbacks) : bool :=
  on_service_state_change callbacks && on_event_update callbacks &&
  on_event_requested_update callbacks && on_event_payload_allocate callbacks.
Definition is_valid_server (callbacks : Server_callbacks) : bool :=
  on_method_call callbacks && on_event_update_request callbacks &&
  on_subscription_change callbacks && on_method_call_payload_allocate callbacks.

(** The state of a service: who has asked for it and who provides it. *)
Definition asked_by (w : Socom) (i : Service_interface_identifier) (n : Service_instance) :=
  sr_client (get_record w (record_key i n)).
Definition provided_by (w : Socom) (i : Service_interface_identifier) (n : Service_instance) :=
  sr_server (get_record w (record_key i n)).

Record runtime_promises (w : Socom) : Prop := {
  (* "Construction_error::callback_missing is returned if any of the callbacks is not set" *)
  promise_callback_missing : ∀ i n m e identity (cc : Client_callbacks) (sc : Server_callbacks),
    (false ∈ [on_service_state_change cc; on_event_update cc; on_event_requested_update cc;
              on_event_payload_allocate cc] →
      make_client_connector (is_valid_client cc) i n w = Done (Err callback_missing, w, [])) ∧
    (false ∈ [on_method_call sc; on_subscription_change sc; on_event_update_request sc;
              on_method_call_payload_allocate sc] →
      make_server_connector (is_valid_server sc) i m e n w = Done (Err callback_missing, w, [])) ∧
    register_service_bridge false identity w = Done (Err callback_missing, w, []);
  (* "If the first client connector is created and the requested service is locally not
     present, make_client_connector() calls request_service on every bridge" *)
  promise_asks_bridges : ∀ i n, asked_by w i n = None → provided_by w i n = None →
    ∃ c w' o, make_client_connector true i n w = Done (Ok c, w', o) ∧ service_of w' c = None ∧
      ∀ b, Bridge_request b i n ∈ o ↔ is_Some (so_bridges w !! b);
  (* "the SOCom service registry calls the callback
     on_service_state_change(Service_state::available, ...)" *)
  promise_connects : ∀ i n s S, asked_by w i n = None →
    provided_by w i n = Some (sc_interface S, s) → so_servers w !! s = Some S →
    is_minor_version_compatible (sc_interface S) i = true →
    ∃ c w', make_client_connector true i n w =
        Done (Ok c, w', [Cb_service_state_change c true s]) ∧ service_of w' c = Some s;
  (* "returns Construction_error::duplicate_service if a service ... is already registered" *)
  promise_duplicate : ∀ i n m e, (i, n) ∈ so_identifiers w →
    make_server_connector true i m e n w = Done (Err duplicate_service, w, []);
  promise_new_server : ∀ i n m e, (i, n) ∉ so_identifiers w →
    ∃ s w', make_server_connector true i m e n w = Done (Ok s, w', []) ∧
      num_events_of w' s = Some (N.of_nat e) ∧ num_methods_of w' s = Some m ∧
      ∀ c, service_of w' c = service_of w c;
  (* "calls request_service(configuration, instance) on every bridge (already registered or
     registered later)" *)
  promise_late_bridge : ∀ identity, ∃ b w' o,
    register_service_bridge true identity w = Done (Ok b, w', o) ∧
    ∀ i n, Bridge_request b i n ∈ o ↔ is_Some (so_requests w !! (i, n));
  (* "disconnects from all connected Client_connector instances" and calls their
     on_service_state_change(Service_state::not_available) *)
  promise_disable : ∀ s S, so_servers w !! s = Some S → sc_registered S = true →
    ∃ w' o, disable_server s w = Done (tt, w', o) ∧ (∀ c, service_of w' c ≠ Some s) ∧
      ∀ c, (∃ x, Cb_service_state_change c false x ∈ o) ↔ service_of w c = Some s;
}.

Lemma elem_of_notices c b s o :
  Cb_service_state_change c b s ∈ o ↔ (c, b, s) ∈ notices o.
Proof.
  unfold notices. rewrite list_elem_of_omap. split.
  - intros Ha. by exists (Cb_service_state_change c b s).
  - intros (a & Ha & E). destruct a; simplify_eq/=. done.
Qed.

Lemma runtime_promises_kept w : so_inv w → runtime_promises w.
Proof.
  intros Hw. split.
  - intros i n m e identity [c1 c2 c3 c4] [s1 s2 s3 s4]. simpl. split_and!; [..|done]; intros Hin.
    + assert (is_valid_client {| on_service_state_change := c1; on_event_update := c2;
        on_event_requested_update := c3; on_event_payload_allocate := c4 |} = false) as -> by
        (unfold is_valid_client; destruct c1, c2, c3, c4; set_solver). done.
    + assert (is_valid_server {| on_method_call := s1; on_subscription_change := s2;
        on_event_update_request := s3; on_method_call_payload_allocate := s4 |} = false) as -> by
        (unfold is_valid_server; destruct s1, s2, s3, s4; set_solver). done.
  - intros i n Ha Hp. rewrite make_client_waits by done. do 3 eexists. split; [reflexivity|].
    split; [simpl; by rewrite lookup_insert_eq|]. intros b. unfold request_forwarded.
    rewrite list_elem_of_fmap. split.
    + intros ([b' x] & [= ->] & Hb%elem_of_map_to_list). by eexists.
    + intros [x Hx]. exists (b, x). split; [done|]. by apply elem_of_map_to_list.
  - intros i n s S Ha Hp ES Hcomp. rewrite (make_client_told w i n s S) by done.
    do 2 eexists. split; [reflexivity|]. unfold joined. rewrite Hcomp. simpl.
    by rewrite lookup_insert_eq.
  - intros i n m e Hin. unfold make_server_connector.
    rewrite (bind_silent get_state _ w w w) by done.
    by rewrite decide_True.
  - intros i n m e Hin. rewrite make_server_run by done. do 2 eexists. split; [reflexivity|].
    simpl. rewrite lookup_insert_eq. done.
  - intros identity. unfold register_service_bridge. rewrite reads_run, modify_run.
    unfold register_bridge. rewrite bind_assoc, (bind_silent get_state _ _ _ _ eq_refl).
    rewrite bind_assoc, (bind_run _ _ _ _ _ _ (forM_emit_run _ _ _)).
    do 3 eexists. split; [reflexivity|]. intros i n. simpl. rewrite app_nil_r, list_elem_of_fmap.
    split.
    + intros ([[i' n'] r] & [= -> ->] & Hr%elem_of_map_to_list). by eexists.
    + intros [r Hr]. exists (i, n, r). split; [done|]. by apply elem_of_map_to_list.
  - intros s S ES Hreg. pose proof (v_conn _ Hw) as Hconn.
    destruct (disable_run w s S Hconn ES Hreg) as (o & E & _ & Hno & _).
    pose proof (conn_disabled w s S Hconn ES Hreg) as Hconn'.
    destruct (v_servers _ Hconn _ _ ES) as (_ & Hok & _).
    destruct (disabled_spec S Hok) as (_ & _ & _ & Hr & _).
    exists (with_server_disabled w s S), o. split; [done|]. split.
    + intros c Hc. simpl in Hc.
      destruct (so_clients (with_server_disabled w s S) !! c) as [C|] eqn:EC; [|done]. simpl in Hc.
      destruct (connected_server _ c C s Hconn' EC Hc) as (S' & ES' & Hreg' & _).
      rewrite disabled_servers, lookup_insert_eq in ES'. injection ES' as <-. congruence.
    + intros c. setoid_rewrite elem_of_notices. rewrite Hno. simpl. split.
      * intros [x Hx]. destruct (sc_client S) as [c'|] eqn:Hc; [|by apply elem_of_nil in Hx].
        apply list_elem_of_singleton in Hx as [= -> ->].
        destruct (connected_client w s S c' Hconn ES Hc) as (C & EC & Es & _). by rewrite EC.
      * intros Hc. destruct (so_clients w !! c) as [C|] eqn:EC; [|done]. simpl in Hc.
        destruct (connected_server w c C s Hconn EC Hc) as (S' & ES' & _ & Hcl & _).
        rewrite ES in ES'. injection ES' as <-. rewrite Hcl. exists s. by left.
Qed.

(** The mode of an event outlives its subscriptions: after a client that wanted the initial
    value has unsubscribed, [get_event_mode] still reports that mode. *)
Lemma event_mode_stays w c s id :
  runs w → usable num_events_of w c s id →
  ∃ w1 o1 w2 o2, subscribe_event c id mode_update_and_initial_value w = Done (Ok tt, w1, o1) ∧
    unsubscribe_event c id w1 = Done (Ok tt, w2, o2) ∧
    get_event_mode s id w2 = Done (Ok mode_update_and_initial_value, w2, []).
Proof.
  intros Hw Hu. pose proof Hu as (Hc & Hs & n & Hn & Hid).
  destruct (subscribe_kept w c s id mode_update_and_initial_value Hw Hu)
    as (w1 & o1 & E1 & (Hv1 & Hc1 & Hs1 & Hn1 & _) & _).
  assert (runs w1) as Hw1.
  { refine (client_call_runs w w1 c id mode_update_and_initial_value _ _ Hw Hc _). left. exact E1. }
  assert (usable num_events_of w1 c s id) as Hu1.
  { split; [by apply Hc1|]. rewrite Hs1. split; [done|]. exists n. by rewrite Hn1. }
  destruct (unsubscribe_kept w1 c s id Hw1 Hu1) as (w2 & E2 & (Hv2 & _ & _ & Hn2 & _)).
  assert (runs w2) as Hw2.
  { refine (client_call_runs w1 w2 c id mode_update _ _ Hw1 (proj1 Hu1) _). right. left. exact E2. }
  specialize (Hv1 s id). specialize (Hv2 s id). rewrite decide_True in Hv1, Hv2 by done.
  eexists w1, o1, w2, _. split; [exact E1|]. split; [exact E2|].
  pose proof (event_mode_kept w2 s id Hw2) as Hm. unfold event_mode_promise in Hm.
  rewrite Hv2, Hv1 in Hm. cbn [ev_mode] in Hm.
  refine (eq_trans (Hm _) _); [exists n; by rewrite Hn2, Hn1|]. by destruct (ev_mode _).
Qed.
