(* ===== verification/Subscriptions.v ===== *)
(** * Who receives the updates of an event

    The effect of every call of the runtime on the subscribers of the events and on the
    updates that clients receive ([src/score/socom/impl/client_connector_impl.cpp],
    [server_connector_impl.cpp] and [runtime_impl.cpp]), exactly and for all calls: only a
    subscription makes a client a subscriber, only four calls end it, and only
    [update_event] delivers an update. What a subscription means over any sequence of calls
    follows. *)

From stdpp Require Import base numbers list gmap strings.
From S2P Require Import Prelude.
From S2P Require Import IpcTypes.
From S2P Require Import Socom.
From S2P Require Import SocomInvariant.
From S2P Require Import SocomCalls.
From S2P Require Import SocomProperties.
From S2P Require Import SocomContract.

(** ** Specification *)

Definition subscriber (w : Socom) (s id : N) : option N :=
  S ← so_servers w !! s; event_client (N.to_nat id) (sc_subscriber S).

(** The server that a client is connected to. *)
Definition server_of_client (w : Socom) (c : N) : option N := so_clients w !! c ≫= cc_server.

Definition event_exists (w : Socom) (s id : N) : bool :=
  from_option (λ S, (id <? N.of_nat (sc_num_events S))%N) false (so_servers w !! s).

(** The subscriber of an event after a call. *)
Definition subscriber_after (w : Socom) (call : Socom_call) (s id : N) : option N :=
  match call with
  | Subscribe_event c id' _ =>
    if decide (server_of_client w c = Some s ∧ id' = id ∧ event_exists w s id = true)
    then Some c else subscriber w s id
  | Unsubscribe_event c id' =>
    if decide (server_of_client w c = Some s ∧ id' = id) then None else subscriber w s id
  | Destroy_client c =>
    if decide (server_of_client w c = Some s) then None else subscriber w s id
  | Disable s' | Destroy_server s' => if decide (s' = s) then None else subscriber w s id
  | _ => subscriber w s id
  end.

(** The updates of event [id] that client [c] receives from a call. *)
Definition updates_of (w : Socom) (call : Socom_call) (c id : N) : list N :=
  match call with
  | Update_event s id' p => if decide (id' = id ∧ subscriber w s id = Some c) then [p] else []
  | _ => []
  end.

(** ** The effect of each call *)

Definition no_update (a : Socom_action) : Prop :=
  match a with Cb_event_update _ _ _ => False | _ => True end.
Lemma nothing_received c id o : Forall no_update o → received c id o = [].
Proof. induction 1 as [|a o Ha _ IH]; [done|]. destruct a; simpl in *; done. Qed.

Definition same_subscribers (w w' : Socom) : Prop :=
  ∀ s id, subscriber w' s id = subscriber w s id.

Lemma same_subscribers_servers w w' : so_servers w' = so_servers w → same_subscribers w w'.
Proof. intros E s id. unfold subscriber. by rewrite E. Qed.

(** One server changes. *)
Lemma subscriber_insert w w' s S s' id :
  so_servers w' = <[s := S]> (so_servers w) →
  subscriber w' s' id = if decide (s = s') then event_client (N.to_nat id) (sc_subscriber S)
                        else subscriber w s' id.
Proof.
  intros E. unfold subscriber. rewrite E.
  case_decide as Hs; [subst s'; by rewrite lookup_insert_eq|by rewrite lookup_insert_ne].
Qed.
Lemma same_subscribers_insert w w' s S S' :
  so_servers w !! s = Some S → so_servers w' = <[s := S']> (so_servers w) →
  sc_subscriber S' = sc_subscriber S → same_subscribers w w'.
Proof.
  intros ES E Hs s' id. rewrite (subscriber_insert w w' s S') by done.
  case_decide; [subst s'|done]. unfold subscriber. rewrite ES. simpl. by rewrite Hs.
Qed.

(** The subscriber of an event is the client of its server. *)
Lemma subscriber_connected w s id c :
  so_inv w → subscriber w s id = Some c → server_of_client w c = Some s.
Proof.
  intros Hinv Hs. unfold subscriber in Hs. destruct (so_servers w !! s) as [S|] eqn:ES; [|done].
  simpl in Hs. destruct (v_servers _ (v_conn _ Hinv) _ _ ES) as (_ & (_ & _ & _ & Hsub & _) & _).
  destruct (connected_client w s S c (v_conn _ Hinv) ES (Hsub _ _ Hs)) as (C & EC & Hc & _).
  unfold server_of_client. by rewrite EC.
Qed.
Lemma server_subscriber w s id c c' :
  so_inv w → server_of_client w c = Some s → subscriber w s id = Some c' → c' = c.
Proof.
  intros Hinv Hc Hs. unfold server_of_client in Hc.
  destruct (so_clients w !! c) as [C|] eqn:EC; [|done]. simpl in Hc.
  destruct (client_server w c C s Hinv EC Hc) as (S & ES & (_ & _ & _ & Hsub & _) & Hcl).
  unfold subscriber in Hs. rewrite ES in Hs. apply Hsub in Hs. congruence.
Qed.

Lemma make_client_effect ok i n w r w' o :
  so_inv w → make_client_connector ok i n w = Done (r, w', o) →
  same_subscribers w w' ∧ Forall no_update o.
Proof.
  intros Hinv E. destruct ok; [|by injection E as <- <- <-].
  destruct (sr_client (get_record w (record_key i n))) as [x|] eqn:Hc;
    [|destruct (sr_server (get_record w (record_key i n))) as [[j s]|] eqn:Hs].
  - unfold make_client_connector in E. rewrite reads_run, modify_run in E.
    change (set_next (set_clients w _) _) with (with_client_object w i n) in E.
    rewrite (bind_run _ _ _ _ _ _ (register_duplicate_run w i n x Hc)) in E.
    injection E as <- <- <-. by split.
  - destruct (record_server_live w _ _ _ (v_conn _ Hinv) Hs) as (S & ES & Hreg & <- & Hk & _).
    unfold make_client_connector in E. rewrite reads_run, modify_run in E.
    change (set_next (set_clients w _) _) with (with_client_object w i n) in E.
    rewrite (bind_run _ _ _ _ _ _ (register_joined_run w i n s S (v_conn _ Hinv) Hc Hs ES Hreg
      Hk)) in E.
    destruct (joined_client w i n s S) as (C & EC & _).
    rewrite (update_client_run _ C) in E by done. injection E as _ <- <-. rewrite app_nil_r. split.
    + unfold joined. destruct (is_minor_version_compatible _ _); [|by apply same_subscribers_servers].
      by apply (same_subscribers_insert w _ s S (sc_set_client S (Some (so_next w)))).
    + destruct (is_minor_version_compatible _ _); by repeat constructor.
  - rewrite make_client_waits in E by done. injection E as <- <- <-. split; [done|].
    unfold request_forwarded. apply Forall_fmap, Forall_forall. by intros [].
Qed.

Lemma unsubscribed_no_update s o : Forall (unsubscribed s) o → Forall no_update o.
Proof. intros Ho. eapply Forall_impl; [exact Ho|]. by intros a [id ->]. Qed.

Lemma destroy_client_effect c C w w' o :
  so_inv w → so_clients w !! c = Some C → destroy_client_connector c w = Done (tt, w', o) →
  (∀ s id, subscriber w' s id = if decide (server_of_client w c = Some s) then None
    else subscriber w s id) ∧ Forall no_update o.
Proof.
  intros Hinv EC E. destruct (destroy_client_run c C w Hinv EC) as (s0 & o0 & Er & Ho).
  rewrite Er in E. injection E as <- <-. split.
  - intros s id. unfold server_of_client. rewrite EC. simpl. unfold subscriber.
    unfold without_client_connector. simpl. destruct (cc_server C) as [s1|]; [|done].
    destruct (decide (Some s1 = Some s)) as [[= ->]|Hne].
    + rewrite lookup_alter_eq. destruct (so_servers w !! s); [|done]. simpl.
      by rewrite event_client_cleared.
    + by rewrite lookup_alter_ne by congruence.
  - apply Forall_app. split; [by eapply unsubscribed_no_update|]. unfold drops.
    destruct (cc_requests C); [|constructor]. apply Forall_fmap, Forall_forall. done.
Qed.

Lemma make_server_effect ok i m e n w r w' o :
  so_inv w → make_server_connector ok i m e n w = Done (r, w', o) →
  same_subscribers w w' ∧ Forall no_update o.
Proof.
  intros Hinv E. destruct ok; [|by injection E as <- <- <-].
  destruct (decide ((i, n) ∈ so_identifiers w)) as [Hd|Hd].
  { unfold make_server_connector in E. rewrite (bind_silent get_state _ w w w) in E by done.
    rewrite decide_True in E by done. by injection E as <- <- <-. }
  rewrite make_server_run in E by done. injection E as <- <- <-. split; [|constructor].
  intros s id. rewrite (subscriber_insert w _ (so_next w) (new_server i m e n)) by done.
  case_decide; [subst s|done]. unfold subscriber. rewrite (conn_fresh_server w) by apply Hinv.
  simpl. unfold event_client. destruct (replicate e None !! N.to_nat id) eqn:El; [|done].
  by apply lookup_replicate in El as [-> _].
Qed.

Lemma enable_effect s S w w' o :
  so_inv w → so_servers w !! s = Some S → sc_registered S = false →
  enable_server s w = Done (tt, w', o) → same_subscribers w w' ∧ Forall no_update o.
Proof.
  intros Hinv ES Hreg E. destruct (sr_server (get_record w (skey S))) as [x|] eqn:Hn.
  { unfold enable_server in E. rewrite (get_server_run _ _ _ _ ES) in E.
    rewrite assert_run in E by by rewrite Hreg. rewrite (update_server_run _ _ _ _ _ ES) in E.
    unfold register_connector_server in E. rewrite bind_assoc in E.
    unfold mbind at 1, M_bind in E. rewrite register_server_run in E. unfold get_record in *.
    simpl in E. unfold skey in Hn. by rewrite Hn in E. }
  rewrite (enable_run _ s S (v_conn _ Hinv) ES Hreg Hn) in E. injection E as <- <-. split.
  - unfold with_server_enabled. destruct (sr_client _) as [[j c]|];
      [destruct (is_minor_version_compatible _ _)|]; by eapply (same_subscribers_insert w _ s S).
  - unfold enable_reports. destruct (sr_client _) as [[j c]|]; [|constructor].
    destruct (is_minor_version_compatible _ _); by repeat constructor.
Qed.

Lemma disable_effect s S w w' o :
  so_inv w → so_servers w !! s = Some S → disable_server s w = Done (tt, w', o) →
  (∀ s' id, subscriber w' s' id = if decide (s = s') then None else subscriber w s' id) ∧
  Forall no_update o ∧ ∃ S', so_servers w' !! s = Some S'.
Proof.
  intros Hinv ES E. pose proof (v_conn _ Hinv) as Hconn.
  destruct (v_servers _ Hconn _ _ ES) as (_ & Hok & _ & Hcl).
  destruct (sc_registered S) eqn:Hreg.
  - destruct (disable_run w s S Hconn ES Hreg) as (o' & E' & _ & _ & Ho).
    rewrite E' in E. injection E as <- <-.
    destruct (disabled_spec S Hok) as (Hc & _ & _ & _ & _ & (_ & _ & _ & Hsub & _)).
    split_and!.
    + intros s' id. rewrite (subscriber_insert w _ s (disabled S)) by apply disabled_servers.
      case_decide; [|done]. destruct (event_client _ _) as [c|] eqn:Ee; [|done].
      apply Hsub in Ee. congruence.
    + eapply Forall_impl; [exact Ho|]. by intros a [[id ->]|[c ->]].
    + exists (disabled S). rewrite disabled_servers. apply lookup_insert_eq.
  - unfold disable_server in E. rewrite (get_server_run _ _ _ _ ES), Hreg in E.
    injection E as <- <-. split_and!; [|constructor|by exists S]. intros s' id.
    case_decide; [subst s'|done]. unfold subscriber. rewrite ES. simpl.
    destruct (event_client _ _) as [c|] eqn:Ee; [|done]. destruct Hok as (_ & _ & _ & Hsub & _).
    apply Hsub in Ee. congruence.
Qed.

Lemma destroy_server_effect s S w w' o :
  so_inv w → so_servers w !! s = Some S → destroy_server_connector s w = Done (tt, w', o) →
  (∀ s' id, subscriber w' s' id = if decide (s = s') then None else subscriber w s' id) ∧
  Forall no_update o.
Proof.
  intros Hinv ES E. unfold destroy_server_connector in E.
  apply bind_Done in E as ([] & w1 & o1 & o2 & E1 & E & ->).
  destruct (disable_effect s S w w1 o1 Hinv ES E1) as (Hs & Ho & S' & ES').
  rewrite (get_server_run _ _ _ _ ES'), modify_run in E. injection E as <- <-. split.
  - intros s' id. specialize (Hs s' id). unfold subscriber at 1. simpl.
    case_decide; [subst s'; by rewrite lookup_delete_eq|].
    rewrite lookup_delete_ne by done. exact Hs.
  - by rewrite app_nil_r.
Qed.

Lemma bridge_effect w :
  (∀ ok identity r w' o, register_service_bridge ok identity w = Done (r, w', o) →
    same_subscribers w w' ∧ Forall no_update o) ∧
  (∀ b u w' o, stop_registration b w = Done (u, w', o) →
    same_subscribers w w' ∧ Forall no_update o).
Proof.
  split.
  - intros ok identity r w' o E. destruct ok; [|by injection E as <- <- <-].
    unfold register_service_bridge in E. rewrite reads_run, modify_run in E.
    unfold register_bridge in E.
    rewrite bind_assoc, (bind_silent get_state _ _ _ _ eq_refl), bind_assoc in E.
    rewrite (bind_run _ _ _ _ _ _ (forM_emit_run _ _ _)), modify_run in E.
    injection E as _ <- <-. split; [done|]. rewrite app_nil_r.
    apply Forall_fmap, Forall_forall. by intros [[]].
  - intros b u w' o E. unfold stop_registration in E. rewrite modify_run in E.
    unfold cleanup_bridge in E. rewrite (bind_silent get_state _ _ _ _ eq_refl) in E.
    rewrite (bind_run _ _ _ _ _ _ (forM_emit_run _ _ _)) in E. injection E as _ <- <-.
    split; [done|]. rewrite app_nil_r. apply Forall_fmap, Forall_forall. by intros [[]].
Qed.

(** *** Calls on events *)

Lemma subscriber_bound w s S id c :
  so_inv w → so_servers w !! s = Some S → subscriber w s id = Some c →
  (id < N.of_nat (sc_num_events S))%N.
Proof.
  intros Hinv ES Hs. destruct (v_servers _ (v_conn _ Hinv) _ _ ES) as (_ & (H1 & _) & _).
  unfold subscriber in Hs. rewrite ES in Hs. simpl in Hs. unfold event_client in Hs.
  destruct (sc_subscriber S !! N.to_nat id) eqn:El; [|done].
  apply lookup_lt_Some in El. lia.
Qed.

Lemma update_event_effect s S id p w r w' o :
  so_inv w → so_servers w !! s = Some S → update_event s id p w = Done (r, w', o) →
  w' = w ∧ ∀ c id', received c id' o = updates_of w (Update_event s id p) c id'.
Proof.
  intros Hinv ES E. destruct (v_servers _ (v_conn _ Hinv) _ _ ES) as (_ & Hok & _).
  destruct (N.lt_ge_cases id (N.of_nat (sc_num_events S))) as [Hid|Hid].
  - rewrite (update_event_run s S) in E by done. injection E as _ <- <-. split; [done|].
    intros c id'. simpl. unfold subscriber. rewrite ES. simpl.
    destruct (event_client (N.to_nat id) (sc_subscriber S)) as [c'|] eqn:Ec; simpl.
    + destruct (decide (c' = c ∧ id = id')) as [[-> <-]|Hne].
      * by rewrite decide_True.
      * rewrite decide_False; [done|]. intros [<- Hc]. rewrite Ec in Hc. naive_solver.
    + rewrite decide_False; [done|]. intros [<- Hc]. congruence.
  - unfold update_event in E. rewrite (get_server_run _ _ _ _ ES) in E.
    rewrite (proj2 (N.leb_le _ _)) in E by done. injection E as _ <- <-. split; [done|].
    intros c id'. simpl. rewrite decide_False; [done|]. intros [<- Hc].
    apply (subscriber_bound w s S) in Hc; [lia|done..].
Qed.

(** The other calls of a server. *)
Lemma server_calls_effect s S id p w :
  so_inv w → so_servers w !! s = Some S →
  (∀ r w' o, update_requested_event s id p w = Done (r, w', o) →
    same_subscribers w w' ∧ Forall no_update o) ∧
  (∀ r w' o, allocate_event_payload s id (Ok tt) w = Done (r, w', o) →
    same_subscribers w w' ∧ Forall no_update o) ∧
  (∀ r w' o, get_event_mode s id w = Done (r, w', o) →
    same_subscribers w w' ∧ Forall no_update o).
Proof.
  intros Hinv ES. destruct (v_servers _ (v_conn _ Hinv) _ _ ES) as (_ & Hok & _).
  destruct (so_server_errors_kept w s id p Hinv) as (_ & H2 & H3 & H4).
  unfold server_error in *. simpl in H2, H3, H4. rewrite ES in H2, H3, H4.
  destruct (N.lt_ge_cases id (N.of_nat (sc_num_events S))) as [Hid|Hid];
    [clear H2 H3 H4|by split_and!; intros r w' o E;
      rewrite ?(H2 _ eq_refl Hid), ?(H3 _ eq_refl Hid), ?(H4 _ eq_refl Hid) in E;
      injection E as _ <- <-].
  assert (has_event w s id) as Hev by (eexists; simpl; by rewrite ES).
  split_and!; intros r w' o E.
  - rewrite (update_requested_run s S) in E by done. injection E as _ <- <-. split.
    + by eapply (same_subscribers_insert w _ s S).
    + destruct (event_client _ _); by repeat constructor.
  - destruct (so_allocate_event_kept w s id Hinv Hev) as [H1 H2]. simpl in H1, H2.
    destruct (decide (ev_subscribers (event_of w s id) = ∅)) as [He|He].
    + rewrite (H1 He) in E. by injection E as _ <- <-.
    + destruct (H2 He) as (c & _ & E'). rewrite E' in E. injection E as _ <- <-.
      split; [done|by repeat constructor].
  - pose proof (so_event_mode_kept w s id Hinv Hev) as Hm. unfold event_mode_promise in Hm.
    simpl in Hm. rewrite Hm in E. by injection E as _ <- <-.
Qed.

(** A client's call without a server, and one on a server. *)
Lemma client_call_cases w c C id mode p :
  so_inv w → so_clients w !! c = Some C →
  (server_of_client w c = None ∧
    subscribe_event c id mode w = Done (Err runtime_error_service_not_available, w, []) ∧
    unsubscribe_event c id w = Done (Err runtime_error_service_not_available, w, []) ∧
    request_event_update c id w = Done (Err runtime_error_service_not_available, w, []) ∧
    call_method c id p w = Done (Err runtime_error_service_not_available, w, [])) ∨
  ∃ s S, cc_server C = Some s ∧ server_of_client w c = Some s ∧ so_servers w !! s = Some S ∧
    events_ok S ∧ sc_client S = Some c.
Proof.
  intros Hinv EC. unfold server_of_client. rewrite EC. simpl.
  destruct (cc_server C) as [s|] eqn:Es.
  - right. destruct (client_server w c C s Hinv EC Es) as (S & ES & Hok & Hc). eauto 10.
  - left. destruct (so_client_errors_kept w c id mode p Hinv) as (H1 & H2 & H3 & H4);
      [by eexists|]. unfold client_errors in *. simpl in *. rewrite EC in *. simpl in *.
    rewrite Es in *. done.
Qed.

Lemma subscription_actions_no_update s S id mode : Forall no_update (subscription_actions s S id mode).
Proof.
  unfold subscription_actions. apply Forall_app. split; destruct mode;
    repeat (destruct (event_client _ _)); by repeat constructor.
Qed.

Lemma subscribe_effect c C id mode w r w' o :
  so_inv w → so_clients w !! c = Some C → subscribe_event c id mode w = Done (r, w', o) →
  (∀ s id', subscriber w' s id' = subscriber_after w (Subscribe_event c id mode) s id') ∧
  Forall no_update o.
Proof.
  intros Hinv EC E. destruct (client_call_cases w c C id mode 0 Hinv EC)
    as [(Hn & E1 & _)|(s & S & Es & Hc & ES & Hok & Hcl)].
  { rewrite E1 in E. injection E as _ <- <-. split; [|constructor]. intros s id'. simpl.
    by rewrite decide_False by naive_solver. }
  rewrite (subscribe_run c C s S) in E by done.
  destruct (N.ltb_spec id (N.of_nat (sc_num_events S))) as [Hid|Hid]; injection E as _ <- <-.
  - split; [|apply subscription_actions_no_update]. intros s' id'.
    rewrite (subscriber_insert w _ s (with_subscriber S c (N.to_nat id) mode)) by done. simpl.
    rewrite Hc. unfold event_exists, subscriber. case_decide as Hs.
    + subst s'. rewrite ES. simpl.
      assert (sc_subscriber (with_subscriber S c (N.to_nat id) mode) =
        set_event (N.to_nat id) c (sc_subscriber S)) as -> by by destruct mode.
      rewrite event_client_set. destruct Hok as (H1 & _). rewrite H1.
      apply decide_ext. rewrite N.ltb_lt. split.
      * intros [? ?]. assert (id = id') by lia. naive_solver.
      * intros (_ & <- & ?). split; [done|lia].
    + by rewrite decide_False by naive_solver.
  - split; [|constructor]. intros s' id'. simpl. rewrite decide_False; [done|].
    rewrite Hc. unfold event_exists. intros ([= <-] & <- & Hex). rewrite ES in Hex. simpl in Hex.
    apply N.ltb_lt in Hex. lia.
Qed.

Lemma unsubscribe_effect c C id w r w' o :
  so_inv w → so_clients w !! c = Some C → unsubscribe_event c id w = Done (r, w', o) →
  (∀ s id', subscriber w' s id' = subscriber_after w (Unsubscribe_event c id) s id') ∧
  Forall no_update o.
Proof.
  intros Hinv EC E. destruct (client_call_cases w c C id mode_update 0 Hinv EC)
    as [(Hn & _ & E1 & _)|(s & S & Es & Hc & ES & Hok & Hcl)].
  { rewrite E1 in E. injection E as _ <- <-. split; [|constructor]. intros s id'. simpl.
    by rewrite decide_False by naive_solver. }
  destruct (N.lt_ge_cases id (N.of_nat (sc_num_events S))) as [Hid|Hid].
  - rewrite (unsubscribe_actions c C s S) in E by done. injection E as _ <- <-.
    split; [|case_decide; by repeat constructor]. intros s' id'.
    rewrite (subscriber_insert w _ s (sc_set_update_requester
      (sc_set_subscriber S (clear_event (N.to_nat id) (sc_subscriber S)))
      (clear_event (N.to_nat id) (sc_update_requester S)))) by done. simpl. rewrite Hc.
    unfold subscriber. case_decide as Hs; [subst s'; rewrite ES; simpl|].
    + rewrite event_client_clear. apply decide_ext. split; [intros; assert (id = id') by lia|];
        naive_solver.
    + by rewrite decide_False by naive_solver.
  - destruct (so_client_errors_kept w c id mode_update 0 Hinv) as (_ & H2 & _); [by eexists|].
    unfold client_errors in H2. simpl in H2. rewrite EC in H2. simpl in H2. rewrite Es, ES in H2.
    rewrite (H2 _ eq_refl Hid) in E. injection E as _ <- <-. split; [|constructor].
    intros s' id'. simpl. case_decide as Hd; [|done]. destruct Hd as [Hs <-].
    assert (s' = s) as -> by congruence. destruct (subscriber w s id) eqn:Hsub; [|done].
    apply (subscriber_bound w s S) in Hsub; [lia|done..].
Qed.

Lemma client_calls_effect c C id p w :
  so_inv w → so_clients w !! c = Some C →
  (∀ r w' o, request_event_update c id w = Done (r, w', o) →
    same_subscribers w w' ∧ Forall no_update o) ∧
  (∀ r w' o, call_method c id p w = Done (r, w', o) →
    same_subscribers w w' ∧ Forall no_update o) ∧
  (∀ r w' o, allocate_method_call_payload c id (Ok tt) w = Done (r, w', o) →
    same_subscribers w w' ∧ Forall no_update o).
Proof.
  intros Hinv EC. destruct (client_call_cases w c C id mode_update p Hinv EC)
    as [(Hn & _ & _ & E1 & E2)|(s & S & Es & Hc & ES & Hok & Hcl)].
  - split_and!; intros r w' o E; rewrite ?E1, ?E2 in E; [by injection E as _ <- <-..|].
    unfold server_of_client in Hn. rewrite EC in Hn. simpl in Hn.
    unfold allocate_method_call_payload in E. rewrite (lock_server_none _ _ _ _ EC Hn) in E.
    by injection E as _ <- <-.
  - split_and!; intros r w' o E.
    + destruct (N.lt_ge_cases id (N.of_nat (sc_num_events S))) as [Hid|Hid].
      * rewrite (request_update_run c C s S) in E by done.
        destruct (event_client _ _); injection E as _ <- <-; [done|].
        split; [by eapply (same_subscribers_insert w _ s S)|by repeat constructor].
      * destruct (so_client_errors_kept w c id mode_update 0 Hinv) as (_ & _ & H3 & _);
          [by eexists|]. unfold client_errors in H3. simpl in H3. rewrite EC in H3. simpl in H3.
        rewrite Es, ES in H3. rewrite (H3 _ eq_refl Hid) in E. by injection E as _ <- <-.
    + unfold call_method, receive_call_method in E.
      rewrite (lock_server_run _ _ _ _ _ EC Es), (get_server_run _ _ _ _ ES) in E.
      destruct (_ <=? _)%N; injection E as _ <- <-; split; by repeat constructor.
    + unfold allocate_method_call_payload, receive_allocate_method_call_payload in E.
      rewrite (lock_server_run _ _ _ _ _ EC Es), (get_server_run _ _ _ _ ES) in E.
      destruct (_ <=? _)%N; injection E as _ <- <-; split; by repeat constructor.
Qed.

Lemma run_Done {A} (m : SoM A) w u w' o :
  run m w = Done (u, w', o) → ∃ r, m w = Done (r, w', o).
Proof.
  intros E. unfold run in E. apply bind_Done in E as (r & w1 & o1 & o2 & E1 & E & ->).
  injection E as _ <- <-. rewrite app_nil_r. eauto.
Qed.

(** A call that leaves the subscribers alone and delivers nothing. *)
Lemma quiet_effect w w' o :
  same_subscribers w w' ∧ Forall no_update o →
  (∀ s id, subscriber w' s id = subscriber w s id) ∧ (∀ c id, received c id o = []).
Proof. intros [Hs Ho]. split; [done|]. intros c id. by apply nothing_received. Qed.

(** Every call, exactly. *)
Lemma call_effect w call w' o :
  so_inv w → socom_admissible w call → socom_step call w = Done (tt, w', o) →
  (∀ s id, subscriber w' s id = subscriber_after w call s id) ∧
  (∀ c id, received c id o = updates_of w call c id).
Proof.
  intros Hinv Ha E. destruct call; cbn [socom_step] in E;
    try apply run_Done in E as [r E]; simpl in Ha;
    try (match type of Ha with is_Some _ => destruct Ha as [X EX] end).
  - apply quiet_effect. by eapply make_client_effect.
  - destruct (destroy_client_effect c X w w' o Hinv EX E) as [H1 H2]. split; [done|].
    intros c' id. by apply nothing_received.
  - apply quiet_effect. by eapply make_server_effect.
  - destruct Ha as (S & ES & Hreg). apply quiet_effect. by eapply enable_effect.
  - destruct (disable_effect s X w w' o Hinv EX E) as (H1 & H2 & _). split; [done|].
    intros c' id. by apply nothing_received.
  - destruct (destroy_server_effect s X w w' o Hinv EX E) as (H1 & H2). split; [done|].
    intros c' id. by apply nothing_received.
  - apply quiet_effect. by eapply (proj1 (bridge_effect w)).
  - apply quiet_effect. by eapply (proj2 (bridge_effect w)).
  - destruct (update_event_effect s X id payload w r w' o Hinv EX E) as [-> H2]. by split.
  - apply quiet_effect. by eapply (proj1 (server_calls_effect s X id payload w Hinv EX)).
  - apply quiet_effect. by eapply (proj1 (proj2 (server_calls_effect s X id 0 w Hinv EX))).
  - apply quiet_effect. by eapply (proj2 (proj2 (server_calls_effect s X id 0 w Hinv EX))).
  - destruct (subscribe_effect c X id mode w r w' o Hinv EX E) as [H1 H2]. split; [done|].
    intros c' id'. by apply nothing_received.
  - destruct (unsubscribe_effect c X id w r w' o Hinv EX E) as [H1 H2]. split; [done|].
    intros c' id'. by apply nothing_received.
  - apply quiet_effect. by eapply (proj1 (client_calls_effect c X id 0 w Hinv EX)).
  - apply quiet_effect. by eapply (proj1 (proj2 (client_calls_effect c X id payload w Hinv EX))).
  - apply quiet_effect. by eapply (proj2 (proj2 (client_calls_effect c X id 0 w Hinv EX))).
Qed.

(** ** Sequences of calls *)

(** The calls that end the subscription of client [c] to event [id] of server [s]. *)
Definition ends_subscription (c s id : N) (call : Socom_call) : bool :=
  match call with
  | Unsubscribe_event c' id' => bool_decide (c' = c ∧ id' = id)
  | Destroy_client c' => bool_decide (c' = c)
  | Disable s' | Destroy_server s' => bool_decide (s' = s)
  | _ => false
  end.

Definition subscribes (c id : N) (call : Socom_call) : bool :=
  match call with Subscribe_event c' id' _ => bool_decide (c' = c ∧ id' = id) | _ => false end.

(** The payloads with which server [s] updates event [id]. *)
Definition published (s id : N) : list Socom_call → list N :=
  omap (λ call, match call with
    | Update_event s' id' p => if decide (s' = s ∧ id' = id) then Some p else None
    | _ => None
    end).

Lemma subscriber_stays w call c s id :
  so_inv w → subscriber w s id = Some c → ends_subscription c s id call = false →
  subscriber_after w call s id = Some c.
Proof.
  intros Hinv Hs He. assert (∀ c', server_of_client w c' = Some s → c' = c) as Hone.
  { intros c' Hc'. symmetry. by eapply server_subscriber. }
  destruct call; cbn [ends_subscription subscriber_after] in *; try done;
    try apply bool_decide_eq_false in He; case_decide; try done; try naive_solver.
Qed.

Lemma subscriber_updates w call c s id :
  so_inv w → subscriber w s id = Some c → updates_of w call c id = published s id [call].
Proof.
  intros Hinv Hs. destruct call; try done. simpl.
  destruct (decide (s0 = s ∧ id0 = id)) as [[-> ->]|Hne]; [by rewrite decide_True|].
  rewrite decide_False; [done|]. intros [-> Hc]. apply Hne. split; [|done].
  apply subscriber_connected in Hs, Hc; [congruence|done..].
Qed.

(** While the subscription lasts, every update arrives, in order. *)
Lemma subscribed_run calls : ∀ w tr w' tr' c s id,
  so_inv w → subscriber w s id = Some c →
  Forall (λ call, ends_subscription c s id call = false) calls →
  replay_calls calls w tr = Some (w', tr') →
  so_inv w' ∧ subscriber w' s id = Some c ∧
  received c id tr' = received c id tr ++ published s id calls.
Proof.
  induction calls as [|call calls IH]; intros w tr w' tr' c s id Hinv Hs Hc E.
  { injection E as <- <-. by rewrite app_nil_r. }
  apply Forall_cons in Hc as [H1 Hc]. cbn [replay_calls] in E. case_decide as Ha; [|done].
  destruct (socom_step call w) as [[[[] w1] o]|f] eqn:Es; [|done].
  destruct (socom_step_good w call Hinv Ha) as [(w2 & o2 & E2 & Hg)|[_ E2]]; [|congruence].
  rewrite Es in E2. injection E2 as <- <-.
  destruct (call_effect w call w1 o Hinv Ha Es) as [Hsub Hrec].
  destruct (IH w1 (tr ++ o) w' tr' c s id) as (Hi & Hs' & Hr); [apply Hg| |done..|].
  { rewrite Hsub. by apply subscriber_stays. }
  split_and!; [done..|]. rewrite Hr, received_app, Hrec, (subscriber_updates _ _ _ s) by done.
  rewrite <-app_assoc. f_equal. change (call :: calls) with ([call] ++ calls).
  unfold published at 3. by rewrite omap_app.
Qed.

Lemma nobody_subscribes w call c id :
  (∀ s, subscriber w s id ≠ Some c) → subscribes c id call = false →
  ∀ s, subscriber_after w call s id ≠ Some c.
Proof.
  intros Hn Hc s. destruct call; cbn [subscribes subscriber_after] in *;
    try apply bool_decide_eq_false in Hc; try case_decide; naive_solver.
Qed.

(** Without a subscription nothing arrives. *)
Lemma unsubscribed_run calls : ∀ w tr w' tr' c id,
  so_inv w → (∀ s, subscriber w s id ≠ Some c) →
  Forall (λ call, subscribes c id call = false) calls →
  replay_calls calls w tr = Some (w', tr') → received c id tr' = received c id tr.
Proof.
  induction calls as [|call calls IH]; intros w tr w' tr' c id Hinv Hs Hc E.
  { by injection E as <- <-. }
  apply Forall_cons in Hc as [H1 Hc]. cbn [replay_calls] in E. case_decide as Ha; [|done].
  destruct (socom_step call w) as [[[[] w1] o]|f] eqn:Es; [|done].
  destruct (socom_step_good w call Hinv Ha) as [(w2 & o2 & E2 & Hg)|[_ E2]]; [|congruence].
  rewrite Es in E2. injection E2 as <- <-.
  destruct (call_effect w call w1 o Hinv Ha Es) as [Hsub Hrec].
  rewrite (IH w1 (tr ++ o) w' tr' c id); [|apply Hg| |done..].
  - rewrite received_app, Hrec. replace (updates_of w call c id) with (@nil N);
      [by rewrite app_nil_r|]. destruct call; try done. simpl. rewrite decide_False; naive_solver.
  - intros s. rewrite Hsub. by apply nobody_subscribes.
Qed.

(** Subscribing makes the client the subscriber of the event; unsubscribing leaves it none. *)
Lemma subscribe_starts w c s id mode :
  so_inv w → server_of_client w c = Some s → event_exists w s id = true →
  ∃ w1 o1, subscribe_event c id mode w = Done (Ok tt, w1, o1) ∧ so_inv w1 ∧
    subscriber w1 s id = Some c.
Proof.
  intros Hinv Hc Hex. pose proof Hc as Hs. unfold server_of_client in Hc.
  destruct (so_clients w !! c) as [C|] eqn:EC; [|done].
  destruct (client_server w c C s Hinv EC Hc) as (S & ES & Hok & Hcl).
  destruct (subscribe_good c C id mode w Hinv EC) as (r & w1 & o1 & E & Hg).
  pose proof (subscribe_run c C s S id mode w EC Hc ES Hok Hcl) as E1.
  pose proof Hex as Hid. unfold event_exists in Hid. rewrite ES in Hid. simpl in Hid.
  rewrite Hid, E in E1. injection E1 as -> _ _.
  exists w1, o1. split_and!; [done|apply Hg|].
  destruct (subscribe_effect c C id mode w _ _ _ Hinv EC E) as [Hsub _].
  rewrite Hsub. simpl. by rewrite decide_True.
Qed.

Lemma unsubscribe_ends w c s id :
  so_inv w → subscriber w s id = Some c →
  ∃ w1 o1, unsubscribe_event c id w = Done (Ok tt, w1, o1) ∧ so_inv w1 ∧
    ∀ s', subscriber w1 s' id ≠ Some c.
Proof.
  intros Hinv Hs. pose proof (subscriber_connected w s id c Hinv Hs) as Hc.
  unfold server_of_client in Hc. destruct (so_clients w !! c) as [C|] eqn:EC; [|done].
  destruct (client_server w c C s Hinv EC Hc) as (S & ES & Hok & Hcl).
  destruct (unsubscribe_good c C id w Hinv EC) as (r & w1 & o1 & E & Hg).
  pose proof (unsubscribe_actions c C s S id w EC Hc ES Hok Hcl
    (subscriber_bound w s S id c Hinv ES Hs)) as E1.
  rewrite E in E1. injection E1 as -> _ _. exists w1, o1. split_and!; [done|apply Hg|].
  destruct (unsubscribe_effect c C id w _ _ _ Hinv EC E) as [Hsub _].
  intros s'. rewrite Hsub. simpl. case_decide as Hd; [done|]. intros Hs'.
  apply Hd. split; [|done]. by eapply subscriber_connected.
Qed.

(** C21: what a subscription means, after any calls and through any calls. A client that is
    connected to a server subscribes an event that the server has; the call succeeds. In
    every sequence of calls after it, of whatever connectors, in which the client neither
    unsubscribes the event nor is destroyed and the server is neither disabled nor
    destroyed, the client receives exactly the updates that the server makes of the event,
    each once and in order. Then unsubscribing succeeds, and in every sequence of calls
    without a new subscription the client receives no update of the event any more, from any
    server. *)
Theorem subscription_means_updates w tr c s id mode :
  socom_trace w tr → server_of_client w c = Some s → event_exists w s id = true →
  ∃ w1 o1, subscribe_event c id mode w = Done (Ok tt, w1, o1) ∧
    ∀ calls w2 o2, replay_calls calls w1 [] = Some (w2, o2) →
      Forall (λ call, ends_subscription c s id call = false) calls →
      received c id o2 = published s id calls ∧
      ∃ w3 o3, unsubscribe_event c id w2 = Done (Ok tt, w3, o3) ∧
        ∀ calls' w4 o4, replay_calls calls' w3 [] = Some (w4, o4) →
          Forall (λ call, subscribes c id call = false) calls' →
          received c id o4 = [].
Proof.
  intros Htr Hc Hex. destruct (trace_inv w tr Htr) as (Hinv & _).
  destruct (subscribe_starts w c s id mode Hinv Hc Hex) as (w1 & o1 & E1 & Hinv1 & Hs1).
  exists w1, o1. split; [done|]. intros calls w2 o2 Ecalls Hends.
  destruct (subscribed_run calls w1 [] w2 o2 c s id Hinv1 Hs1 Hends Ecalls)
    as (Hinv2 & Hs2 & Hr).
  split; [exact Hr|].
  destruct (unsubscribe_ends w2 c s id Hinv2 Hs2) as (w3 & o3 & E3 & Hinv3 & Hs3).
  exists w3, o3. split; [done|]. intros calls' w4 o4 Ecalls' Hno.
  exact (unsubscribed_run calls' w3 [] w4 o4 c id Hinv3 Hs3 Hno Ecalls').
Qed.

(** Two updates of the event, one of another event and a second client of the service that
    cannot be made; after unsubscribing, a third update. *)
Definition sample_updates : list Socom_call :=
  [Update_event 2 0 5; Update_event 2 1 6; Make_client true (cc_interface sample_client) "x";
   Update_event 2 0 7].

(** The states of the sample run. *)
Definition state_after {A} (m : SoM A) (w : Socom) : Socom :=
  match m w with Done (_, w', _) => w' | Fault _ => w end.
Definition sample_subscribed : Socom := state_after (subscribe_event 1 0 mode_update) sample.1.
Definition sample_updated : Socom * list Socom_action :=
  default (so_init, []) (replay_calls sample_updates sample_subscribed []).
Definition sample_unsubscribed : Socom := state_after (unsubscribe_event 1 0) sample_updated.1.
Definition sample_late : Socom * list Socom_action :=
  default (so_init, []) (replay_calls [Update_event 2 0 8] sample_unsubscribed []).

Lemma state_after_Done {A} (m : SoM A) w r w' o : m w = Done (r, w', o) → w' = state_after m w.
Proof. intros E. unfold state_after. by rewrite E. Qed.

Lemma subscription_means_updates_witness :
  replay_calls sample_updates sample_subscribed [] = Some sample_updated ∧
  received 1 0 sample_updated.2 = [5; 7]%N ∧
  replay_calls [Update_event 2 0 8] sample_unsubscribed [] = Some sample_late ∧
  received 1 0 sample_late.2 = [].
Proof.
  assert (replay_calls sample_updates sample_subscribed [] = Some sample_updated) as Eu
    by (vm_compute; reflexivity).
  assert (replay_calls [Update_event 2 0 8] sample_unsubscribed [] = Some sample_late) as El
    by (vm_compute; reflexivity).
  destruct (subscription_means_updates sample.1 sample.2 1 2 0 mode_update) as (w1 & o1 & E1 & H1);
    [apply sample_trace|by vm_compute..|].
  apply state_after_Done in E1. fold sample_subscribed in E1. subst w1.
  rewrite (surjective_pairing sample_updated) in Eu.
  destruct (H1 sample_updates _ _ Eu) as [Hr (w3 & o3 & E3 & H3)]; [by repeat constructor|].
  apply state_after_Done in E3. fold sample_unsubscribed in E3. subst w3.
  rewrite <-(surjective_pairing sample_updated) in Eu. rewrite (surjective_pairing sample_late) in El.
  pose proof (H3 _ _ _ El ltac:(by repeat constructor)) as Hl.
  rewrite <-(surjective_pairing sample_late) in El. by split_and!.
Defined.
