(* ===== verification/ServiceDatabase.v ===== *)
(** * The service database

    [Service_database] of [src/score/socom/impl/runtime_impl.hpp] and [runtime_impl.cpp]: a
    hash table from interfaces to hash tables from instances to records, whose hash and
    equality ignore the minor version, and the queries on it. [Socom] keeps the records in
    one map under a key without the minor version; here the nested tables are shown to be
    that map. *)

From stdpp Require Import base numbers list gmap strings.
From S2P Require Import Prelude.
From S2P Require Import IpcTypes.
From S2P Require Import Socom.

(** ** Hash tables

    What [std::unordered_map] does with a hash and an equality: an entry is found in the
    bucket of its hash, by the equality. Entries are kept in some order, which only
    iteration shows. *)

Section table.
Context {K V : Type} (hash : K → N) (eqb : K → K → bool).

Definition same_entry (k : K) (e : K * V) : bool := (hash k =? hash e.1)%N && eqb k e.1.
Fixpoint table_find (k : K) (l : list (K * V)) : option (K * V) :=
  match l with
  | [] => None
  | e :: l => if same_entry k e then Some e else table_find k l
  end.
(** [find] and [emplace]: the value of the key, made when it is missing. *)
Definition table_emplace (k : K) (v : V) (l : list (K * V)) : list (K * V) :=
  match table_find k l with Some _ => l | None => l ++ [(k, v)] end.
(** A write through the iterator that [find] returns. *)
Fixpoint table_alter (k : K) (f : V → V) (l : list (K * V)) : list (K * V) :=
  match l with
  | [] => []
  | e :: l => if same_entry k e then (e.1, f e.2) :: l else e :: table_alter k f l
  end.

(** The requirement of the standard on a hash and an equality. *)
Record hash_ok : Prop := {
  eqb_refl : ∀ k, eqb k k = true;
  eqb_sym : ∀ k k', eqb k k' = true → eqb k' k = true;
  eqb_trans : ∀ k1 k2 k3, eqb k1 k2 = true → eqb k2 k3 = true → eqb k1 k3 = true;
  hash_agrees : ∀ k k', eqb k k' = true → hash k = hash k';
}.
Context (Hok : hash_ok).
#[local] Set Default Proof Using "Hok".

Lemma same_entry_eqb k e : same_entry k e = eqb k e.1.
Proof.
  unfold same_entry. destruct (eqb k e.1) eqn:E; [|by rewrite andb_false_r].
  rewrite (hash_agrees Hok _ _ E). by rewrite N.eqb_refl.
Qed.

(** Equal keys find the same entry. *)
Lemma table_find_eq k k' l : eqb k k' = true → table_find k l = table_find k' l.
Proof.
  intros E. induction l as [|e l IH]; simpl; [done|]. rewrite !same_entry_eqb, IH.
  destruct (eqb k e.1) eqn:E1, (eqb k' e.1) eqn:E2; try done; exfalso.
  - apply (eqb_sym Hok) in E. by rewrite (eqb_trans Hok _ _ _ E E1) in E2.
  - by rewrite (eqb_trans Hok _ _ _ E E2) in E1.
Qed.

Lemma table_find_app k l1 l2 :
  table_find k (l1 ++ l2) = match table_find k l1 with Some e => Some e | None => table_find k l2
    end.
Proof. induction l1 as [|e l1 IH]; simpl; [done|]. by destruct (same_entry k e). Qed.

Lemma table_find_emplace k v l k' :
  table_find k' (table_emplace k v l) =
    match table_find k' l with
    | Some e => Some e
    | None => if eqb k' k then Some (k, v) else None
    end.
Proof.
  unfold table_emplace. destruct (table_find k l) as [e|] eqn:E.
  - destruct (table_find k' l) eqn:E'; [done|]. destruct (eqb k' k) eqn:Ek; [|done].
    by rewrite (table_find_eq k' k l Ek), E in E'.
  - rewrite table_find_app. simpl. by rewrite same_entry_eqb.
Qed.

Lemma table_find_alter k f l k' :
  table_find k' (table_alter k f l) =
    if eqb k' k then prod_map id f <$> table_find k' l else table_find k' l.
Proof.
  induction l as [|e l IH]; simpl; [by destruct (eqb k' k)|]. rewrite same_entry_eqb.
  destruct (eqb k e.1) eqn:E; simpl; rewrite !same_entry_eqb; simpl.
  - destruct (eqb k' e.1) eqn:E'; [|].
    + assert (eqb k' k = true) as ->. { eapply (eqb_trans Hok); [done|]. by apply (eqb_sym Hok). }
      by destruct e.
    + destruct (eqb k' k) eqn:Ek; [|done]. by rewrite (eqb_trans Hok _ _ _ Ek E) in E'.
  - rewrite IH. destruct (eqb k' e.1) eqn:E'; [|done].
    destruct (eqb k' k) eqn:Ek; [|done].
    apply (eqb_sym Hok) in Ek. by rewrite (eqb_trans Hok _ _ _ Ek E') in E.
Qed.

Lemma table_find_Some k l e : table_find k l = Some e → e ∈ l ∧ eqb k e.1 = true.
Proof.
  induction l as [|e' l IH]; simpl; [done|]. rewrite same_entry_eqb.
  destruct (eqb k e'.1) eqn:E; [intros [= <-]; split; [by left|done]|].
  intros [? ?]%IH. split; [by right|done].
Qed.

(** No two entries have equal keys. *)
Fixpoint distinct_keys (l : list (K * V)) : Prop :=
  match l with [] => True | e :: l => table_find e.1 l = None ∧ distinct_keys l end.

Lemma distinct_found l e : distinct_keys l → e ∈ l → table_find e.1 l = Some e.
Proof.
  induction l as [|x l IH]; intros Hl He; [by apply elem_of_nil in He|].
  destruct Hl as [Hx Hl]. simpl. rewrite same_entry_eqb.
  apply elem_of_cons in He as [->|He]; [by rewrite (eqb_refl Hok)|].
  destruct (eqb e.1 x.1) eqn:E; [|by apply IH].
  apply (eqb_sym Hok), (table_find_eq _ _ l) in E. by rewrite Hx, (IH Hl He) in E.
Qed.

Lemma distinct_emplace k v l : distinct_keys l → distinct_keys (table_emplace k v l).
Proof.
  intros Hl. unfold table_emplace. destruct (table_find k l) as [e'|] eqn:E; [done|].
  induction l as [|x l IH]; simpl; [done|]. destruct Hl as [Hx Hl]. simpl in E.
  rewrite same_entry_eqb in E. destruct (eqb k x.1) eqn:Ek; [done|]. split; [|by apply IH].
  rewrite table_find_app, Hx. simpl. rewrite same_entry_eqb. simpl.
  destruct (eqb x.1 k) eqn:E'; [|done]. apply (eqb_sym Hok) in E'. congruence.
Qed.

Lemma distinct_alter k f l : distinct_keys l → distinct_keys (table_alter k f l).
Proof.
  induction l as [|x l IH]; intros Hl; simpl; [done|]. destruct Hl as [Hx Hl].
  destruct (same_entry k x); [done|]. split; [|by apply IH].
  rewrite table_find_alter, Hx. by destruct (eqb _ _).
Qed.
End table.

(** ** The database *)

(** [Minor_version_ignoring_key_equal]. *)
Definition key_equal (lhs rhs : Service_interface_identifier) : bool :=
  bool_decide (sii_id lhs = sii_id rhs) &&
  (major (sii_version lhs) =? major (sii_version rhs))%N.

Section database.
(** [std::hash] of an interned string and of a 16-bit number. *)
Context (hash_id : string → N) (hash_u16 : N → N).

(** [Minor_version_ignoring_hash]. *)
Definition key_hash (sii : Service_interface_identifier) : N :=
  N.lxor (hash_id (sii_id sii)) (wrap64 (N.shiftl (hash_u16 (major (sii_version sii))) 1)).
(** [std::hash<Service_instance>], and [operator==]. *)
Definition instance_hash (n : Service_instance) : N := hash_id n.
Definition instance_equal (lhs rhs : Service_instance) : bool := bool_decide (lhs = rhs).

Lemma key_hash_ok : hash_ok key_hash key_equal.
Proof.
  assert (∀ k k', key_equal k k' = true ↔ sii_id k = sii_id k' ∧
    major (sii_version k) = major (sii_version k')) as He.
  { intros k k'. unfold key_equal. by rewrite andb_true_iff, bool_decide_eq_true, N.eqb_eq. }
  split; intros *; rewrite ?He; try naive_solver congruence.
  intros [E1 E2]. unfold key_hash. by rewrite E1, E2.
Qed.
Lemma instance_hash_ok : hash_ok instance_hash instance_equal.
Proof.
  unfold instance_equal, instance_hash.
  split; intros *; rewrite ?bool_decide_eq_true; naive_solver congruence.
Qed.

Abbreviation Service_instances := (list (Service_instance * Service_record)).
Abbreviation Service_database := (list (Service_interface_identifier * Service_instances)).

Definition db_find (interface : Service_interface_identifier) (db : Service_database) :
    option Service_instances := snd <$> table_find key_hash key_equal interface db.
Definition find_instance (instance : Service_instance) (l : Service_instances) :
    option Service_record := snd <$> table_find instance_hash instance_equal instance l.

(** [Service_database::get_record]: the record and the database, in which both the interface
    and the instance have been made if they were missing. *)
Definition db_get_record (interface : Service_interface_identifier) (instance : Service_instance)
    (db : Service_database) : Service_record * Service_database :=
  let db := table_emplace key_hash key_equal interface [] db in
  let db := table_alter key_hash key_equal interface
    (table_emplace instance_hash instance_equal instance empty_record) db in
  (default empty_record (db_find interface db ≫= find_instance instance), db).

(** A write through the reference that [get_record] returns. *)
Definition db_set_record (interface : Service_interface_identifier) (instance : Service_instance)
    (r : Service_record) (db : Service_database) : Service_database :=
  table_alter key_hash key_equal interface
    (table_alter instance_hash instance_equal instance (λ _, r)) db.

(** [Service_record::is_available]. *)
Definition is_available (r : Service_record) : bool := bool_decide (is_Some (sr_server r)).

Definition is_matching_instance (filter : option Service_instance) (instance : Service_instance) :
    bool :=
  match filter with None => true | Some f => bool_decide (f = instance) end.

(** [get_keys]. *)
Definition get_keys {A B} (map : list (A * B)) : list A := map.*1.

(** [get_instances] of an interface: the available instances that the filter admits. *)
Definition get_instances_of (interface : Service_interface_identifier)
    (filter_ : option Service_instance) (db : Service_database) :
    list (Service_interface_identifier * list Service_instance) :=
  match db_find interface db with
  | None => []
  | Some instances =>
    let matches e := is_available e.2 && is_matching_instance filter_ e.1 in
    [(interface, get_keys (filter (λ e, matches e = true) instances))]
  end.

(** [get_instances]: without an interface, the instances of all interfaces. The result is a
    table under [std::hash] and [operator==] of the whole identifier; the keys of the
    database differ in that order, too. *)
Definition get_instances (interface : option Service_interface_identifier)
    (filter_ : option Service_instance) (db : Service_database) :
    list (Service_interface_identifier * list Service_instance) :=
  match interface with
  | Some interface => get_instances_of interface filter_ db
  | None => (λ e, (e.1, get_keys e.2)) <$> db
  end.

(** [get_bridge_reported_instances]: each bridge's reported instances are a table, too. *)
Definition get_bridge_reported_instances
    (bridges : list (list (Service_interface_identifier * list Service_instance)))
    (interface : Service_interface_identifier) (instance : option Service_instance) :
    list (Service_interface_identifier * list Service_instance) :=
  let reported services :=
    match list_find (λ e, e.1 = interface) services with
    | Some (_, e) => filter (λ inst, is_matching_instance instance inst = true) e.2
    | None => []
    end in
  [(interface, bridges ≫= reported)].

(** ** The database is a map *)

Definition db_lookup (i : Service_interface_identifier) (n : Service_instance)
    (db : Service_database) : option Service_record := db_find i db ≫= find_instance n.

(** The database holds the records of the map that [Socom] keeps. *)
Definition represents (db : Service_database) (m : gmap Record_key Service_record) : Prop :=
  ∀ i n, db_lookup i n db = m !! record_key i n.
Definition db_ok (db : Service_database) : Prop :=
  distinct_keys key_hash key_equal db ∧
  Forall (λ e, distinct_keys instance_hash instance_equal e.2) db.

Lemma key_equal_record i i' n n' :
  key_equal i i' && instance_equal n n' = true ↔ record_key i n = record_key i' n'.
Proof.
  unfold key_equal, instance_equal, record_key.
  rewrite !andb_true_iff, !bool_decide_eq_true, N.eqb_eq.
  split; [by intros [[-> ->] ->]|by intros [= -> -> ->]].
Qed.

Lemma db_find_emplace i db i' :
  db_find i' (table_emplace key_hash key_equal i [] db) =
    match db_find i' db with Some l => Some l | None => if key_equal i' i then Some [] else None
      end.
Proof.
  unfold db_find. rewrite (table_find_emplace _ _ key_hash_ok).
  destruct (table_find _ _ i' db); [done|]. by destruct (key_equal i' i).
Qed.

Lemma db_find_alter i f db i' :
  db_find i' (table_alter key_hash key_equal i f db) =
    if key_equal i' i then f <$> db_find i' db else db_find i' db.
Proof.
  unfold db_find. rewrite (table_find_alter _ _ key_hash_ok).
  destruct (key_equal i' i); [|done]. by destruct (table_find _ _ i' db).
Qed.

Lemma find_instance_emplace n r l n' :
  find_instance n' (table_emplace instance_hash instance_equal n r l) =
    match find_instance n' l with Some x => Some x | None => if instance_equal n' n then Some r else
      None end.
Proof.
  unfold find_instance. rewrite (table_find_emplace _ _ instance_hash_ok).
  destruct (table_find _ _ n' l); [done|]. by destruct (instance_equal n' n).
Qed.

Lemma find_instance_alter n r l n' :
  find_instance n' (table_alter instance_hash instance_equal n (λ _, r) l) =
    if instance_equal n' n then const r <$> find_instance n' l else find_instance n' l.
Proof.
  unfold find_instance. rewrite (table_find_alter _ _ instance_hash_ok).
  destruct (instance_equal n' n); [|done]. by destruct (table_find _ _ n' l).
Qed.

(** The database after [get_record]. *)
Lemma lookup_get_record i n db i' n' :
  db_lookup i' n' (db_get_record i n db).2 =
    match db_lookup i' n' db with
    | Some r => Some r
    | None => if key_equal i' i && instance_equal n' n then Some empty_record else None
    end.
Proof.
  unfold db_lookup, db_get_record. simpl. rewrite db_find_alter, db_find_emplace.
  destruct (key_equal i' i) eqn:Ei; [|by destruct (db_find i' db) as [l|]; simpl;
    [destruct (find_instance n' l)|]].
  destruct (db_find i' db) as [l|]; simpl; rewrite find_instance_emplace; [done|].
  by destruct (instance_equal n' n).
Qed.

Lemma lookup_set_record i n r db i' n' :
  db_lookup i' n' (db_set_record i n r db) =
    if key_equal i' i && instance_equal n' n then const r <$> db_lookup i' n' db
    else db_lookup i' n' db.
Proof.
  unfold db_lookup, db_set_record. rewrite db_find_alter.
  destruct (key_equal i' i); [|done]. destruct (db_find i' db) as [l|]; simpl;
    [|by destruct (instance_equal n' n)].
  rewrite find_instance_alter. by destruct (instance_equal n' n).
Qed.

(** [get_record] finds the record of the map or makes an empty one. *)
Lemma get_record_represents db m i n :
  represents db m →
  (db_get_record i n db).1 = default empty_record (m !! record_key i n) ∧
  represents (db_get_record i n db).2
    (<[record_key i n := default empty_record (m !! record_key i n)]> m).
Proof.
  intros Hm. split.
  - change ((db_get_record i n db).1) with
      (default empty_record (db_lookup i n (db_get_record i n db).2)).
    rewrite lookup_get_record, Hm. destruct (m !! record_key i n); [done|].
    by rewrite (proj2 (key_equal_record i i n n)).
  - intros i' n'. rewrite lookup_get_record, Hm.
    destruct (decide (record_key i' n' = record_key i n)) as [E|E].
    + rewrite E, lookup_insert_eq, (proj2 (key_equal_record i' i n' n) E).
      by destruct (m !! record_key i n).
    + rewrite lookup_insert_ne by congruence. destruct (m !! record_key i' n'); [done|].
      destruct (_ && _) eqn:Eb; [|done]. by apply key_equal_record in Eb.
Qed.

Lemma set_record_represents db m i n r :
  represents db m → is_Some (m !! record_key i n) →
  represents (db_set_record i n r db) (<[record_key i n := r]> m).
Proof.
  intros Hm [r' Hr] i' n'. rewrite lookup_set_record, Hm.
  destruct (decide (record_key i' n' = record_key i n)) as [E|E].
  - by rewrite E, lookup_insert_eq, Hr, (proj2 (key_equal_record i' i n' n) E).
  - rewrite lookup_insert_ne by congruence.
    destruct (_ && _) eqn:Eb; [|done]. by apply key_equal_record in Eb.
Qed.

(** The tables stay tables. *)
Lemma Forall_alter (Q : Service_instances → Prop) i f db :
  (∀ l, Q l → Q (f l)) → Forall (λ e, Q e.2) db →
  Forall (λ e, Q e.2) (table_alter key_hash key_equal i f db).
Proof.
  intros Hf. induction 1 as [|e db He Hdb IH]; simpl; [done|].
  destruct (same_entry _ _ _ _); apply Forall_cons; simpl; auto.
Qed.

Lemma get_record_ok i n db : db_ok db → db_ok (db_get_record i n db).2.
Proof.
  intros [Hd Hi]. split; simpl.
  - by apply (distinct_alter _ _ key_hash_ok), (distinct_emplace _ _ key_hash_ok).
  - apply Forall_alter; [intros l; apply (distinct_emplace _ _ instance_hash_ok)|].
    unfold table_emplace. destruct (table_find _ _ i db); [done|].
    apply Forall_app. split; [done|]. by constructor.
Qed.
Lemma set_record_ok i n r db : db_ok db → db_ok (db_set_record i n r db).
Proof.
  intros [Hd Hi]. split; simpl.
  - by apply (distinct_alter _ _ key_hash_ok).
  - apply Forall_alter; [|done]. intros l. apply (distinct_alter _ _ instance_hash_ok).
Qed.

(** What a query for an interface lists. *)
Lemma get_instances_lists i f db m n :
  db_ok db → represents db m →
  (∃ l, (i, l) ∈ get_instances_of i f db ∧ n ∈ l) ↔
  ∃ r, m !! record_key i n = Some r ∧ is_Some (sr_server r) ∧ is_matching_instance f n = true.
Proof.
  intros [Hd Hi] Hm. rewrite <-(Hm i n). unfold get_instances_of, db_lookup, db_find.
  destruct (table_find _ _ i db) as [[i' l]|] eqn:E; simpl.
  2:{ split; [by intros (l & ?%elem_of_nil & _)|by intros (r & ? & _)]. }
  apply (table_find_Some _ _ key_hash_ok) in E as [E _].
  pose proof (proj1 (Forall_forall _ _) Hi _ E) as Hl. simpl in Hl. unfold get_keys. split.
  - intros (l' & [= ->]%list_elem_of_singleton & ([n' r] & -> & Hx)%list_elem_of_fmap).
    apply list_elem_of_filter in Hx as [[Ha Hf]%andb_true_iff Hx]. simpl in *.
    exists r. split_and!; [|by apply bool_decide_eq_true in Ha|done].
    unfold find_instance.
    pose proof (distinct_found _ _ instance_hash_ok l (n', r) Hl Hx) as Hf'. simpl in Hf'.
    by rewrite Hf'.
  - intros (r & Hr & Ha & Hf). eexists. split; [by left|]. unfold find_instance in Hr.
    destruct (table_find _ _ n l) as [[n' r']|] eqn:En; [|done]. injection Hr as <-.
    apply (table_find_Some _ _ instance_hash_ok) in En as [En Hn]. simpl in Hn.
    apply bool_decide_eq_true in Hn. subst n'.
    apply list_elem_of_fmap. exists (n, r'). split; [done|]. apply list_elem_of_filter.
    split; [|done].
    simpl. rewrite Hf. unfold is_available. by rewrite bool_decide_eq_true_2.
Qed.

(** Changes of records, each through the reference that [get_record] returns. *)
Abbreviation Record_change := (Service_interface_identifier * Service_instance *
  (Service_record → Service_record))%type.
Definition change_db (db : Service_database) (x : Record_change) : Service_database :=
  let '(i, n, f) := x in
  let '(r, db) := db_get_record i n db in db_set_record i n (f r) db.
Definition change_map (m : gmap Record_key Service_record) (x : Record_change) :
    gmap Record_key Service_record :=
  let '(i, n, f) := x in
  <[record_key i n := f (default empty_record (m !! record_key i n))]> m.

Lemma change_represents db m x :
  db_ok db → represents db m → db_ok (change_db db x) ∧ represents (change_db db x) (change_map m
    x).
Proof.
  destruct x as [[i n] f]. intros Hok Hm. unfold change_db, change_map.
  destruct (db_get_record i n db) as [r db'] eqn:E.
  destruct (get_record_represents db m i n Hm) as [Hr Hm']. rewrite E in Hr, Hm'. simpl in *.
  subst r.
  pose proof (get_record_ok i n db Hok) as Hok'. rewrite E in Hok'. simpl in Hok'.
  split; [by apply set_record_ok|].
  rewrite <-(insert_insert_eq m (record_key i n) (f _) (default empty_record (m !! record_key i
    n))).
  apply set_record_represents; [done|]. rewrite lookup_insert_eq. by eexists.
Qed.

(** C25: the service database is a map of the services without their minor versions. After
    any changes of records the nested hash tables, with the hash and the equality that
    ignore the minor version, hold what one map from interface, major version and instance
    holds, whatever the hash functions are; and a query for an interface lists exactly the
    instances that the filter admits and whose record has a server. *)
Theorem service_database_is_a_map changes i f n :
  let db := foldl change_db [] changes in
  let m := foldl change_map ∅ changes in
  represents db m ∧
  ((∃ l, (i, l) ∈ get_instances (Some i) f db ∧ n ∈ l) ↔
    ∃ r, m !! record_key i n = Some r ∧ is_Some (sr_server r) ∧ is_matching_instance f n = true).
Proof.
  simpl. assert (∀ db m, db_ok db → represents db m →
    db_ok (foldl change_db db changes) ∧
    represents (foldl change_db db changes) (foldl change_map m changes)) as Hrun.
  { induction changes as [|x changes IH]; intros db m Hok Hm; simpl; [done|].
    destruct (change_represents db m x Hok Hm). by apply IH. }
  destruct (Hrun [] ∅) as [Hok Hm]; [done|done|]. split; [done|]. by apply get_instances_lists.
Qed.

(** Without an interface [get_instances] ignores the filter, and lists instances that nobody
    provides. *)
Lemma get_instances_ignores_filter f db : get_instances None f db = get_instances None None db.
Proof. done. Qed.
Lemma get_instances_lists_unavailable i n :
  get_instances None None (db_get_record i n []).2 = [(i, [n])] ∧
  get_instances (Some i) None (db_get_record i n []).2 = [(i, [])].
Proof.
  assert (key_equal i i = true) as Hi by apply (eqb_refl _ _ key_hash_ok).
  assert (∀ (l : Service_instances), same_entry key_hash key_equal i (i, l) = true) as He.
  { intros l. unfold same_entry. simpl. by rewrite N.eqb_refl, Hi. }
  unfold get_instances, get_instances_of, db_find, db_get_record, table_emplace. simpl.
  rewrite He. simpl. by rewrite He.
Qed.

(** Bridges that have reported nothing contribute nothing: [register_service_bridge] stores an
    empty table and nothing fills it. *)
Lemma no_bridge_reports (bridges : list N) i n :
  get_bridge_reported_instances ((λ _, []) <$> bridges) i n = [(i, [])].
Proof. unfold get_bridge_reported_instances. f_equal. f_equal. by induction bridges. Qed.
End database.
