(* ===== verification/SocomMethods.v ===== *)
(** * Method calls with replies, and credentials

    [src/score/socom/method.hpp], [impl/method.cpp] and the parts of the connectors and
    of the runtime that pass replies and credentials on
    ([impl/client_connector_impl.cpp], [impl/server_connector_impl.cpp],
    [impl/runtime_impl.cpp], [posix_credentials.hpp]): a layer over [Socom]. A call may
    carry reply data, which the server's user keeps and answers as often as it likes; the
    answer is passed on while the client that called still exists. *)

From stdpp Require Import base numbers list gmap strings.
From S2P Require Import Prelude.
From S2P Require Import IpcTypes.
From S2P Require Import Socom.
From S2P Require Import SocomInvariant.
From S2P Require Import SocomCalls.
From S2P Require Import SocomProperties.

(** ** State *)

Record Posix_credentials : Type := { uid : N; gid : N }.

(** [Method_result]; payloads are named by numbers as in [Socom]. *)
Inductive Method_result : Type :=
  | Application_return (payload : N)
  | Application_error (code : Z) (payload : N)
  | Method_error (e : Socom_error).

(** [Method_call_reply_data]: the client whose weak token it has, once it is set. *)
Record Method_call_reply_data : Type := { weak_stop_block_token : option N }.

(** The runtime's objects, the credentials of the connectors and the reply data that the
    users of servers hold. *)
Record Methods : Type := mkMethods {
  mw_socom : Socom;
  mw_credentials : gmap N Posix_credentials;
  mw_replies : gmap N Method_call_reply_data;
  mw_next : N;
}.

Definition mw_init : Methods := mkMethods so_init ∅ ∅ 0.

Definition set_socom (w : Methods) x :=
  mkMethods x (mw_credentials w) (mw_replies w) (mw_next w).
Definition set_credentials (w : Methods) x :=
  mkMethods (mw_socom w) x (mw_replies w) (mw_next w).
Definition set_replies (w : Methods) x :=
  mkMethods (mw_socom w) (mw_credentials w) x (mw_next w).
Definition set_mw_next (w : Methods) x :=
  mkMethods (mw_socom w) (mw_credentials w) (mw_replies w) x.

(** Actions: those of [Socom], a method call as the server's user sees it, and an
    answer that reaches the client's user. *)
Inductive Method_action : Type :=
  | Socom_action_of (a : Socom_action)
  | Method_called (client server method_id payload : N) (reply_data : option N)
      (credentials : Posix_credentials)
  | Replied (client reply_data : N) (result : Method_result).

Abbreviation MM := (M Methods Method_action).

(** ** Operations *)

(** A call of the runtime below; [f] says how its actions appear. *)
Definition lift {A} (f : Socom_action → Method_action) (m : SoM A) : MM A := λ w,
  match m (mw_socom w) with
  | Done (a, s, o) => Done (a, set_socom w s, f <$> o)
  | Fault e => Fault e
  end.

(** [make_client_connector] and [make_server_connector] with credentials; the variants
    without take those of the process. *)
Definition make_client_connector_as (credentials : Posix_credentials) (callbacks_ok : bool)
    (interface : Service_interface_identifier) (instance : Service_instance) :
    MM (Result Construction_error N) :=
  result ← lift Socom_action_of (make_client_connector callbacks_ok interface instance);
  match result with
  | Ok c => modify (λ w, set_credentials w (<[c := credentials]> (mw_credentials w)));; mret result
  | Err _ => mret result
  end.

Definition make_server_connector_as (credentials : Posix_credentials) (callbacks_ok : bool)
    (interface : Service_interface_identifier) (num_methods : N) (num_events : nat)
    (instance : Service_instance) : MM (Result Construction_error N) :=
  result ← lift Socom_action_of
    (make_server_connector callbacks_ok interface num_methods num_events instance);
  match result with
  | Ok s => modify (λ w, set_credentials w (<[s := credentials]> (mw_credentials w)));; mret result
  | Err _ => mret result
  end.

(** [set_block_token(create_weak_block_token())]. *)
Definition set_block_token (c : N) (reply_data : Method_call_reply_data) : Method_call_reply_data :=
  {| weak_stop_block_token := Some c |}.

(** How the server's user sees the call. *)
Definition as_called (c : N) (reply_data : option N) (credentials : Posix_credentials)
    (a : Socom_action) : Method_action :=
  match a with
  | Cb_method_call s id p => Method_called c s id p reply_data credentials
  | a => Socom_action_of a
  end.

(** [call_method] with the optional reply data; it goes to the server's user with the
    call, or is destroyed when the call fails. *)
Definition call_method_with (c id payload : N) (with_reply : bool) : MM (Result Socom_error unit) :=
  o ← reads (λ w, mw_credentials w !! c);
  credentials ← the Null_dereference o;
  r ← reads mw_next;
  let reply_data := if with_reply then Some r else None in
  modify (λ w, set_mw_next w (r + 1)%N);;
  result ← lift (as_called c reply_data credentials) (call_method c id payload);
  whenM (with_reply && has_value result)
    (modify (λ w, set_replies w
      (<[r := set_block_token c {| weak_stop_block_token := None |}]> (mw_replies w))));;
  mret result.

(** The weak token can be locked: the client exists and is not being destroyed. *)
Definition token_alive (w : Methods) (c : N) : bool :=
  match so_clients (mw_socom w) !! c with Some C => cc_stop_token C | None => false end.

(** [Method_call_reply_data::reply]. *)
Definition reply (r : N) (result : Method_result) : MM unit :=
  o ← reads (λ w, mw_replies w !! r);
  data ← the Null_dereference o;
  w ← get_state;
  match weak_stop_block_token data with
  | Some c => whenM (token_alive w c) (emit (Replied c r result))
  | None => mret tt
  end.

(** The server's user destroys reply data. *)
Definition drop_reply (r : N) : MM unit :=
  modify (λ w, set_replies w (delete r (mw_replies w))).

(** [get_peer_credentials] and [receive(Posix_credentials)]. *)
Definition get_peer_credentials (c : N) : MM (Result Socom_error Posix_credentials) :=
  server ← lift Socom_action_of (lock_server c (λ s, get_server s;; mret (Ok s)));
  match server with
  | Ok s => o ← reads (λ w, mw_credentials w !! s);
            credentials ← the Null_dereference o; mret (Ok credentials)
  | Err e => mret (Err e)
  end.

(** ** Runs *)

Inductive Method_step : Type :=
  | Make_client_as (credentials : Posix_credentials) (callbacks_ok : bool)
      (interface : Service_interface_identifier) (instance : Service_instance)
  | Make_server_as (credentials : Posix_credentials) (callbacks_ok : bool)
      (interface : Service_interface_identifier) (num_methods : N) (num_events : nat)
      (instance : Service_instance)
  | Call_with (c id payload : N) (with_reply : bool)
  | Reply (r : N) (result : Method_result)
  | Drop_reply (r : N)
  | Get_peer_credentials (c : N)
  | Other (call : Socom_call).

(** A step whose result is not looked at. *)
Definition run_method {A} (m : MM A) : MM unit := m ≫= λ _, mret tt.

Definition method_step (e : Method_step) : MM unit :=
  match e with
  | Make_client_as cr ok i inst => run_method (make_client_connector_as cr ok i inst)
  | Make_server_as cr ok i m n inst => run_method (make_server_connector_as cr ok i m n inst)
  | Call_with c id p b => run_method (call_method_with c id p b)
  | Reply r result => reply r result
  | Drop_reply r => drop_reply r
  | Get_peer_credentials c => run_method (get_peer_credentials c)
  | Other call => lift Socom_action_of (socom_step call)
  end.

(** Connectors are made with credentials, methods called with the call above, and users
    use what they own. *)
Definition method_admissible (w : Methods) (e : Method_step) : Prop :=
  match e with
  | Make_client_as _ _ _ _ | Make_server_as _ _ _ _ _ _ => True
  | Call_with c _ _ _ | Get_peer_credentials c => is_Some (so_clients (mw_socom w) !! c)
  | Reply r _ | Drop_reply r => is_Some (mw_replies w !! r)
  | Other (Make_client _ _ _) | Other (Make_server _ _ _ _ _) | Other (Call_method _ _ _) => False
  | Other call => socom_admissible (mw_socom w) call
  end.

Inductive method_trace : Methods → list Method_action → Prop :=
  | mt_start : method_trace mw_init []
  | mt_step w tr e w' o :
      method_trace w tr → method_admissible w e → method_step e w = Done (tt, w', o) →
      method_trace w' (tr ++ o).

(** ** No call but the makers adds an object *)

Section objects.
Context (clients servers : gset N).

Definition objects_in (w : Socom) : Prop :=
  dom (so_clients w) ⊆ clients ∧ dom (so_servers w) ⊆ servers.

(** [m] may fault, but adds no object. *)
Definition keeps {A} (m : SoM A) : Prop := hoare (λ _, False) objects_in m (λ _, objects_in).

Lemma keeps_bind {A B} (m : SoM A) (k : A → SoM B) : keeps m → (∀ a, keeps (k a)) → keeps (m ≫= k).
Proof. intros Hm Hk. by eapply hoare_bind. Qed.
Lemma keeps_ret {A} (a : A) : keeps (mret a).
Proof. by apply hoare_ret. Qed.
Lemma keeps_reads {A} (f : Socom → A) : keeps (reads f).
Proof. intros w Hw. done. Qed.
Lemma keeps_get : keeps get_state.
Proof. intros w Hw. done. Qed.
Lemma keeps_emit a : keeps (emit a).
Proof. apply hoare_emit. Qed.
Lemma keeps_raise {A} f : keeps (raise f : SoM A).
Proof. apply hoare_raise. tauto. Qed.
Lemma keeps_the {A} f (o : option A) : keeps (the f o).
Proof. destruct o; [apply keeps_ret|apply keeps_raise]. Qed.
Lemma keeps_assert b : keeps (assertM b).
Proof. destruct b; [apply keeps_ret|apply keeps_raise]. Qed.
Lemma keeps_when b m : keeps m → keeps (whenM b m).
Proof. destruct b; [done|]. intros _. apply keeps_ret. Qed.
Lemma keeps_forM {A} (l : list A) body : (∀ x, keeps (body x)) → keeps (forM l body).
Proof. intros Hb. apply hoare_forM. intros x _. apply Hb. Qed.
Lemma keeps_modify f :
  (∀ w, dom (so_clients (f w)) ⊆ dom (so_clients w) ∧ dom (so_servers (f w)) ⊆ dom (so_servers w)) →
  keeps (modify f).
Proof. intros Hf. apply hoare_modify. intros w []. destruct (Hf w). split; set_solver. Qed.
Lemma keeps_update_server s f : keeps (update_server s f).
Proof. apply keeps_modify. intros w. simpl. by rewrite dom_alter_L. Qed.
Lemma keeps_update_client c f : keeps (update_client c f).
Proof. apply keeps_modify. intros w. simpl. by rewrite dom_alter_L. Qed.

End objects.

Create HintDb keeps.
#[local] Hint Resolve keeps_ret keeps_reads keeps_get keeps_emit keeps_raise keeps_the
  keeps_assert keeps_update_server keeps_update_client : keeps.

(** Walk through a computation. *)
Ltac keep :=
  repeat first
    [ solve [auto with keeps]
    | apply keeps_bind; [|intros ?]
    | apply keeps_when
    | apply keeps_forM; intros ?
    | apply keeps_modify; intros ?; simpl; solve [rewrite ?dom_delete_L; set_solver]
    | case_decide
    | case_match ].

Section keeping.
Context (clients servers : gset N).
Local Abbreviation keeps := (keeps clients servers).

Lemma keeps_get_server s : keeps (get_server s).
Proof. unfold get_server. keep. Qed.
Lemma keeps_get_client c : keeps (get_client c).
Proof. unfold get_client. keep. Qed.
Lemma keeps_update_record k r : keeps (update_record k r).
Proof. unfold update_record. keep. Qed.
#[local] Hint Resolve keeps_get_server keeps_get_client keeps_update_record : keeps.

Lemma keeps_unsubscribe_event_id s id : keeps (unsubscribe_event_id s id).
Proof. unfold unsubscribe_event_id. keep. Qed.
#[local] Hint Resolve keeps_unsubscribe_event_id : keeps.

Lemma keeps_remove_connected_client s : keeps (remove_connected_client s).
Proof. unfold remove_connected_client, unsubscribe_events. keep. Qed.
#[local] Hint Resolve keeps_remove_connected_client : keeps.

Lemma keeps_reset_server c : keeps (reset_server c).
Proof. unfold reset_server. keep. Qed.
#[local] Hint Resolve keeps_reset_server : keeps.

Lemma keeps_receive_service_state c b s : keeps (receive_service_state c b s).
Proof. unfold receive_service_state. keep. Qed.
#[local] Hint Resolve keeps_receive_service_state : keeps.

Lemma keeps_bind_client i s j c : keeps (bind_client i s j c).
Proof. unfold bind_client, on_server_update, receive_connect. keep. Qed.
#[local] Hint Resolve keeps_bind_client : keeps.

Lemma keeps_register_connector_client i inst c : keeps (register_connector_client i inst c).
Proof.
  unfold register_connector_client, register_client_connector, get_service_requests. keep.
Qed.

Lemma keeps_disable_server s : keeps (disable_server s).
Proof. unfold disable_server. keep. Qed.
#[local] Hint Resolve keeps_disable_server : keeps.

Definition makes (call : Socom_call) : bool :=
  match call with Make_client _ _ _ | Make_server _ _ _ _ _ => true | _ => false end.

Lemma keeps_step call : makes call = false → keeps (socom_step call).
Proof.
  destruct call; try done; intros _; simpl; unfold run, destroy_client_connector,
    remove_service_requests, enable_server, register_connector_server, register_server_connector,
    destroy_server_connector, register_service_bridge, register_bridge, stop_registration,
    cleanup_bridge, update_event, update_requested_event, allocate_event_payload, get_event_mode,
    subscribe_event, receive_subscribe_event, unsubscribe_event, receive_unsubscribe_event,
      request_event_update, receive_request_event_update, call_method, receive_call_method,
    allocate_method_call_payload, receive_allocate_method_call_payload, lock_server; keep.
Qed.
End keeping.

(** ** What holds in every run *)

(** The actions as the runtime below performs them. *)
Definition forget_action (a : Method_action) : option Socom_action :=
  match a with
  | Socom_action_of a => Some a
  | Method_called _ s id p _ _ => Some (Cb_method_call s id p)
  | Replied _ _ _ => None
  end.
Definition forget (tr : list Method_action) : list Socom_action := omap forget_action tr.

Lemma forget_app tr o : forget (tr ++ o) = forget tr ++ forget o.
Proof. apply omap_app. Qed.

Lemma forget_fmap (f : Socom_action → Method_action) o :
  (∀ a, forget_action (f a) = Some a) → forget (f <$> o) = o.
Proof.
  intros Hf. induction o as [|a o IH]; [done|]. unfold forget in *. csimpl. by rewrite Hf, IH.
Qed.

Lemma forget_as_called c r cr a : forget_action (as_called c r cr a) = Some a.
Proof. by destruct a. Qed.

Record method_inv (w : Methods) (tr : list Method_action) : Prop := {
  mi_trace : socom_trace (mw_socom w) (forget tr);
  mi_credentials : objects_in (dom (mw_credentials w)) (dom (mw_credentials w)) (mw_socom w);
  mi_replies : ∀ r d, mw_replies w !! r = Some d → (r < mw_next w)%N ∧
    ∃ c s id p cr, weak_stop_block_token d = Some c ∧ Method_called c s id p (Some r) cr ∈ tr;
  mi_called : ∀ c s id p r cr, Method_called c s id p (Some r) cr ∈ tr → (r < mw_next w)%N;
}.

Lemma lift_run {A} f (m : SoM A) w a s o :
  m (mw_socom w) = Done (a, s, o) → lift f m w = Done (a, set_socom w s, f <$> o).
Proof. intros E. unfold lift. by rewrite E. Qed.

Lemma lift_Done {A} f (m : SoM A) w a w' o' :
  lift f m w = Done (a, w', o') →
  ∃ s o, m (mw_socom w) = Done (a, s, o) ∧ w' = set_socom w s ∧ o' = f <$> o.
Proof.
  unfold lift. destruct (m (mw_socom w)) as [[[a' s] o]|]; [|done]. intros [= <- <- <-]. eauto.
Qed.

Lemma run_trace w tr call {A} (m : SoM A) a w' o :
  socom_step call = run m → socom_trace w tr → socom_admissible w call →
  m w = Done (a, w', o) → socom_trace w' (tr ++ o).
Proof.
  intros Hc Htr Ha E. eapply so_call; [done..|]. rewrite Hc. unfold run.
  rewrite (bind_run _ _ _ _ _ _ E). unfold mret, M_ret. by rewrite app_nil_r.
Qed.

(** Nothing but the runtime below changes. *)
Lemma method_inv_lift w tr s o f :
  method_inv w tr → (∀ a, forget_action (f a) = Some a) →
  (∀ a c s id p r cr, f a = Method_called c s id p (Some r) cr → (r < mw_next w)%N) →
  socom_trace s (forget tr ++ o) →
  objects_in (dom (mw_credentials w)) (dom (mw_credentials w)) s →
  method_inv (set_socom w s) (tr ++ (f <$> o)).
Proof.
  intros [H1 H2 H3 H4] Hf Hr Htr Ho. split; simpl; auto.
  - by rewrite forget_app, forget_fmap.
  - intros r d Hd. destruct (H3 r d Hd) as (? & c & s' & id & p & cr & ? & ?).
    split; [done|]. exists c, s', id, p, cr. set_solver.
  - intros c s' id p r cr [?|Hin]%elem_of_app; [eauto|].
    apply list_elem_of_fmap in Hin as (a & Ha & _). by eapply Hr.
Qed.

Lemma keeps_objects {A} clients servers (m : SoM A) w a w' o :
  keeps clients servers m → objects_in clients servers w → m w = Done (a, w', o) →
  objects_in clients servers w'.
Proof. intros Hk Hw E. specialize (Hk w Hw). by rewrite E in Hk. Qed.

(** The makers add the object they return. *)
Lemma make_client_objects clients servers ok i inst w r w' o :
  make_client_connector ok i inst w = Done (r, w', o) → objects_in clients servers w →
  objects_in (match r with Ok c => {[c]} ∪ clients | Err _ => clients end) servers w'.
Proof.
  unfold make_client_connector. destruct ok; [|by intros [= <- <- <-]].
  rewrite reads_run, modify_run. set (w1 := set_next _ _). intros E Hw.
  assert (objects_in ({[so_next w]} ∪ clients) servers w1) as Hw1.
  { destruct Hw. split; simpl; [|done]. rewrite dom_insert_L. set_solver. }
  apply bind_Done in E as (r1 & w2 & o1 & o2 & E1 & E2 & _).
  pose proof (keeps_objects _ _ _ _ _ _ _ (keeps_register_connector_client _ _ i inst _) Hw1 E1)
    as Hw2.
  destruct r1 as [b|e].
  - apply bind_Done in E2 as (? & w3 & o3 & o4 & E3 & E4 & _).
    pose proof (keeps_objects _ _ _ _ _ _ _ (keeps_update_client _ _ _ _) Hw2 E3).
    by injection E4 as <- <- <-.
  - apply bind_Done in E2 as (? & w3 & o3 & o4 & E3 & E4 & _).
    injection E4 as <- <- <-. injection E3 as _ <- _. destruct Hw2. split; simpl; [|done].
    rewrite dom_delete_L. set_solver.
Qed.

Lemma make_server_objects clients servers ok i m n inst w r w' o :
  make_server_connector ok i m n inst w = Done (r, w', o) → objects_in clients servers w →
  objects_in clients (match r with Ok s => {[s]} ∪ servers | Err _ => servers end) w'.
Proof.
  unfold make_server_connector. destruct ok; [|by intros [= <- <- <-]].
  rewrite (bind_silent get_state _ w w w) by done. case_decide; [by intros [= <- <- <-]|].
  rewrite !modify_run. intros [= <- <- _] [? ?]. split; simpl; [done|].
  rewrite dom_insert_L. set_solver.
Qed.

Lemma objects_in_mono c1 s1 c2 s2 w : objects_in c1 s1 w → c1 ⊆ c2 → s1 ⊆ s2 → objects_in c2 s2 w.
Proof. intros [] ??. split; set_solver. Qed.

(** A new connector with its credentials. *)
Lemma method_inv_made w tr s o x cr :
  method_inv w tr → socom_trace s (forget tr ++ o) →
  objects_in ({[x]} ∪ dom (mw_credentials w)) ({[x]} ∪ dom (mw_credentials w)) s →
  method_inv (set_credentials (set_socom w s) (<[x := cr]> (mw_credentials w)))
    (tr ++ (Socom_action_of <$> o)).
Proof.
  intros Hinv Htr Ho.
  set (w1 := set_credentials w (<[x := cr]> (mw_credentials w))).
  assert (method_inv w1 tr) as Hw1.
  { destruct Hinv as [H1 H2 H3 H4]. split; auto. simpl. rewrite dom_insert_L.
    eapply objects_in_mono; [exact H2|set_solver..]. }
  apply (method_inv_lift w1); auto; try done. simpl. by rewrite dom_insert_L.
Qed.

Lemma call_method_state c id p w r w' o : call_method c id p w = Done (r, w', o) →
  w' = w ∧ (∀ a, a ∈ o → ∃ s, a = Cb_method_call s id p) ∧
  (has_value r = true → ∃ s, o = [Cb_method_call s id p]).
Proof.
  unfold call_method, receive_call_method, lock_server, get_client, get_server.
  rewrite bind_assoc, reads_run.
  destruct (so_clients w !! c) as [C|]; [|done]. rewrite (the_run _ _ C) by done.
  destruct (cc_server C) as [s|]; [|intros [= <- <- <-]; split_and!; [done|set_solver|done]].
  rewrite bind_assoc, reads_run. destruct (so_servers w !! s) as [S|]; [|done].
  rewrite (the_run _ _ S) by done. destruct (_ <=? _)%N.
  - intros [= <- <- <-]. split_and!; [done|set_solver|done].
  - intros [= <- <- <-]. split_and!; [done| |eauto]. intros a ->%list_elem_of_singleton. eauto.
Qed.

(** What a call does beside the runtime's part. *)
Lemma call_with_Done c id p b w r w' o :
  call_method_with c id p b w = Done (r, w', o) →
  ∃ cr os, mw_credentials w !! c = Some cr ∧
    call_method c id p (mw_socom w) = Done (r, mw_socom w, os) ∧
    o = as_called c (if b then Some (mw_next w) else None) cr <$> os ∧
    w' = mkMethods (mw_socom w) (mw_credentials w)
      (if b && has_value r then <[mw_next w := {| weak_stop_block_token := Some c |}]> (mw_replies
        w)
       else mw_replies w) (mw_next w + 1)%N.
Proof.
  unfold call_method_with. rewrite reads_run. destruct (mw_credentials w !! c) as [cr|]; [|done].
  rewrite (the_run _ _ cr), reads_run, modify_run by done.
  intros (res & w1 & o1 & o2 & E1 & E2 & ->)%bind_Done.
  apply lift_Done in E1 as (s & os & E1 & -> & ->).
  destruct (call_method_state _ _ _ _ _ _ _ E1) as (-> & _).
  assert (o2 = [] ∧ res = r ∧ w' = mkMethods (mw_socom w) (mw_credentials w)
      (if b && has_value r then <[mw_next w := {| weak_stop_block_token := Some c |}]> (mw_replies
        w)
       else mw_replies w) (mw_next w + 1)%N) as (-> & -> & ->).
  { unfold whenM in E2. destruct (b && has_value res) eqn:Hb; [rewrite modify_run in E2|];
      injection E2 as <- <- <-; by rewrite Hb. }
  exists cr, os. by rewrite app_nil_r.
Qed.

Lemma call_with_inv w tr c id p b r w' o :
  method_inv w tr → is_Some (so_clients (mw_socom w) !! c) →
  call_method_with c id p b w = Done (r, w', o) → method_inv w' (tr ++ o).
Proof.
  intros Hinv Hc (cr & os & Hcr & E & -> & ->)%call_with_Done.
  destruct (call_method_state _ _ _ _ _ _ _ E) as (_ & _ & Hok).
  set (w1 := set_mw_next w (mw_next w + 1)%N).
  assert (method_inv w1 tr) as Hw1.
  { destruct Hinv as [H1 H2 H3 H4]. split; auto; simpl.
    - intros r' d Hd. destruct (H3 r' d Hd). split; [lia|done].
    - intros. assert (r0 < mw_next w)%N by eauto. lia. }
  assert (method_inv (set_socom w1 (mw_socom w1))
    (tr ++ (as_called c (if b then Some (mw_next w) else None) cr <$> os))) as [H1 H2 H3 H4].
  { apply method_inv_lift; auto.
    - intros a. apply forget_as_called.
    - intros [] ??????; simpl; intros; simplify_eq. destruct b; simplify_eq. lia.
    - eapply (run_trace _ _ (Call_method c id p)); [done|apply Hw1|done|exact E].
    - apply Hw1. }
  split; auto. intros r' d. simpl. destruct (b && has_value r) eqn:Hb; [|apply H3].
  apply andb_true_iff in Hb as [-> Hv]. destruct (Hok Hv) as [s' ->].
  destruct (decide (r' = mw_next w)) as [->|Hne].
  - rewrite lookup_insert_eq. intros [= <-]. split; [lia|].
    exists c, s', id, p, cr. split; [done|]. apply elem_of_app. right. left.
  - rewrite lookup_insert_ne by done. apply H3.
Qed.

Lemma reply_run w tr r d :
  method_inv w tr → mw_replies w !! r = Some d →
  ∃ c, weak_stop_block_token d = Some c ∧
    (∃ s id p cr, Method_called c s id p (Some r) cr ∈ tr) ∧
    ∀ result, reply r result w = Done (tt, w,
      if so_clients (mw_socom w) !! c is Some _ then [Replied c r result] else []).
Proof.
  intros Hinv Hd. destruct (mi_replies _ _ Hinv r d Hd) as (_ & c & s & id & p & cr & Hc & Hin).
  exists c. split_and!; [done|by eauto|]. intros result. unfold reply.
  rewrite reads_run, Hd, (the_run _ _ d) by done.
  rewrite (bind_silent get_state _ w w w) by done. rewrite Hc. unfold token_alive.
  destruct (trace_inv _ _ (mi_trace _ _ Hinv)) as ([Hconn _ _] & _).
  destruct (so_clients (mw_socom w) !! c) as [C|] eqn:EC.
  - by destruct (v_clients _ Hconn c C EC) as (_ & -> & _).
  - done.
Qed.

Lemma get_peer_credentials_run w tr c C :
  method_inv w tr → so_clients (mw_socom w) !! c = Some C →
  match cc_server C with
  | Some s => ∃ cr, mw_credentials w !! s = Some cr ∧
      get_peer_credentials c w = Done (Ok cr, w, [])
  | None => get_peer_credentials c w = Done (Err runtime_error_service_not_available, w, [])
  end.
Proof.
  intros Hinv EC. destruct (trace_inv _ _ (mi_trace _ _ Hinv)) as ([Hconn _ _] & _).
  assert (set_socom w (mw_socom w) = w) as Ew by by destruct w.
  unfold get_peer_credentials. destruct (cc_server C) as [s|] eqn:Es.
  - destruct (connected_server _ c C s Hconn EC Es) as (S & ES & _).
    destruct (mi_credentials _ _ Hinv) as [_ Hs].
    assert (is_Some (mw_credentials w !! s)) as [cr Hcr]
      by (apply elem_of_dom, Hs, elem_of_dom; eauto).
    exists cr. split; [done|].
    rewrite (bind_silent _ _ w (Ok s) w).
    + by rewrite reads_run, Hcr.
    + rewrite (lift_run _ _ _ (Ok s) (mw_socom w) []); [by rewrite Ew|].
      rewrite (lock_server_run _ _ _ _ _ EC Es). by rewrite (get_server_run _ _ _ _ ES).
  - rewrite (bind_silent _ _ w (Err runtime_error_service_not_available) w); [done|].
    rewrite (lift_run _ _ _ (Err runtime_error_service_not_available) (mw_socom w) []);
      [by rewrite Ew|]. by apply (lock_server_none c C).
Qed.

(** Answers follow calls. *)
Definition answered (tr o : list Method_action) : Prop :=
  ∀ c r result, Replied c r result ∈ o →
    ∃ s id p cr, Method_called c s id p (Some r) cr ∈ tr.

Lemma answered_fmap tr f (o : list Socom_action) :
  (∀ a, forget_action (f a) = Some a) → answered tr (f <$> o).
Proof.
  intros Hf c r result (a & Ha & _)%list_elem_of_fmap. specialize (Hf a). by rewrite <-Ha in Hf.
Qed.

Lemma run_method_Done {A} (m : MM A) w w' o :
  run_method m w = Done (tt, w', o) → ∃ a, m w = Done (a, w', o).
Proof.
  intros (a & w1 & o1 & o2 & E & [= <- <-] & ->)%bind_Done. rewrite app_nil_r. eauto.
Qed.

(** An answer changes nothing. *)
Lemma method_inv_answer w tr c r result :
  method_inv w tr → method_inv w (tr ++ [Replied c r result]).
Proof.
  intros [H1 H2 H3 H4]. split; auto.
  - by rewrite forget_app, app_nil_r.
  - intros r' d' Hd'. destruct (H3 r' d' Hd') as (? & c' & s & id & p & cr & ? & ?).
    split; [done|]. exists c', s, id, p, cr. set_solver.
  - intros c' s id p r' cr [?|Hin%list_elem_of_singleton]%elem_of_app; [eauto|done].
Qed.

Lemma reply_inv w tr r d result w' o :
  method_inv w tr → mw_replies w !! r = Some d → reply r result w = Done (tt, w', o) →
  method_inv w' (tr ++ o) ∧ answered tr o.
Proof.
  intros Hinv Hd E. destruct (reply_run w tr r d Hinv Hd) as (c & Hc & Hcalled & Hrun).
  rewrite Hrun in E. injection E as <- <-. destruct (so_clients _ !! _).
  - split; [by apply method_inv_answer|].
    intros c' r' result' [= -> -> ->]%list_elem_of_singleton. done.
  - rewrite app_nil_r. split; [done|intros ???; set_solver].
Qed.

Lemma method_step_inv w tr e w' o :
  method_inv w tr → method_admissible w e → method_step e w = Done (tt, w', o) →
  method_inv w' (tr ++ o) ∧ answered tr o.
Proof.
  intros Hinv Ha E. pose proof (mi_trace _ _ Hinv) as Htr.
  pose proof (mi_credentials _ _ Hinv) as Ho.
  destruct e as [cr ok i inst|cr ok i m n inst|c id p b|r result|r|c|call]; simpl in *.
  - apply run_method_Done in E as [r E]. unfold make_client_connector_as in E.
    apply bind_Done in E as (r1 & w1 & o1 & o2 & E1 & E2 & ->).
    apply lift_Done in E1 as (s & os & E1 & -> & ->).
    pose proof (make_client_objects _ _ _ _ _ _ _ _ _ E1 Ho) as Hs.
    assert (socom_trace s (forget tr ++ os)) as Hst
      by (by eapply (run_trace _ _ (Make_client ok i inst))).
    destruct r1 as [c|e]; [rewrite modify_run in E2|]; injection E2 as _ <- <-; rewrite app_nil_r;
      (split; [|by apply answered_fmap]).
    + apply method_inv_made; auto. eapply objects_in_mono; [exact Hs|set_solver..].
    + by apply method_inv_lift.
  - apply run_method_Done in E as [r E]. unfold make_server_connector_as in E.
    apply bind_Done in E as (r1 & w1 & o1 & o2 & E1 & E2 & ->).
    apply lift_Done in E1 as (s & os & E1 & -> & ->).
    pose proof (make_server_objects _ _ _ _ _ _ _ _ _ _ _ E1 Ho) as Hs.
    assert (socom_trace s (forget tr ++ os)) as Hst
      by (by eapply (run_trace _ _ (Make_server ok i m n inst))).
    destruct r1 as [c|e]; [rewrite modify_run in E2|]; injection E2 as _ <- <-; rewrite app_nil_r;
      (split; [|by apply answered_fmap]).
    + apply method_inv_made; auto. eapply objects_in_mono; [exact Hs|set_solver..].
    + by apply method_inv_lift.
  - apply run_method_Done in E as [r E]. split; [by eapply call_with_inv|].
    apply call_with_Done in E as (cr & os & _ & _ & -> & _).
    apply answered_fmap, forget_as_called.
  - destruct Ha as [d Hd]. by eapply reply_inv.
  - injection E as <- <-. rewrite app_nil_r. split; [|intros ???; set_solver].
    destruct Hinv as [H1 H2 H3 H4]. split; auto. simpl.
    intros r' d [_ Hd]%lookup_delete_Some. by apply H3.
  - apply run_method_Done in E as [res E]. destruct Ha as [C EC].
    pose proof (get_peer_credentials_run w tr c C Hinv EC) as Hrun.
    assert (w' = w ∧ o = []) as [-> ->].
    { destruct (cc_server C); [destruct Hrun as (cr & _ & Hrun)|]; rewrite Hrun in E;
        by injection E as _ <- <-. }
    rewrite app_nil_r. split; [done|intros ???; set_solver].
  - apply lift_Done in E as (s & os & E1 & -> & ->). split; [|by apply answered_fmap].
    assert (makes call = false ∧ socom_admissible (mw_socom w) call) as [Hm Hadm]
      by (destruct call; simpl in *; done).
    apply method_inv_lift; auto; try done.
    + by eapply so_call.
    + by eapply keeps_objects; [apply keeps_step| |].
Qed.

Lemma method_trace_inv w tr : method_trace w tr → method_inv w tr.
Proof.
  induction 1 as [|w tr e w' o _ IH Ha E].
  - split; simpl; [exact so_start|split; set_solver|done|set_solver].
  - by eapply method_step_inv.
Qed.

(** Every run is, without the answers, a run of the runtime: what [SocomProperties] shows
    holds here too. *)
Theorem methods_refine_socom w tr : method_trace w tr → socom_trace (mw_socom w) (forget tr).
Proof. intros Htr. apply mi_trace, method_trace_inv, Htr. Qed.

Lemma answers_follow_calls w tr :
  method_trace w tr → ∀ tr1 tr2 c r result, tr = tr1 ++ Replied c r result :: tr2 →
  ∃ s id p cr, Method_called c s id p (Some r) cr ∈ tr1.
Proof.
  induction 1 as [|w tr e w' o Htr IH Ha E]; intros tr1 tr2 c r result Eq; [by destruct tr1|].
  destruct (method_step_inv w tr e w' o (method_trace_inv w tr Htr) Ha E) as [_ Hans].
  apply app_eq_inv in Eq as [(k & Etr & Eo)|(k & -> & Eo)].
  - destruct k as [|x k]; simplify_eq/=; [|by eapply IH].
    rewrite app_nil_r in *. apply (Hans c r result). left.
  - destruct (Hans c r result) as (s & id & p & cr & Hin); [rewrite Eo; set_solver|].
    exists s, id, p, cr. set_solver.
Qed.

(** C23: A method call of a connected client with reply data reaches the user of its
    server, with the method, the payload, the client's credentials and fresh reply data;
    what the server's user answers there reaches the client, and nobody else. *)
Theorem method_round_trip w tr c C s S id p :
  method_trace w tr → so_clients (mw_socom w) !! c = Some C → cc_server C = Some s →
  so_servers (mw_socom w) !! s = Some S → (id < sc_num_methods S)%N →
  ∃ cr r w', mw_credentials w !! c = Some cr ∧ mw_replies w !! r = None ∧
    call_method_with c id p true w =
      Done (Ok tt, w', [Method_called c s id p (Some r) cr]) ∧
    ∀ result, reply r result w' = Done (tt, w', [Replied c r result]).
Proof.
  intros Hinv%method_trace_inv EC Es ES Hid.
  destruct (mi_credentials _ _ Hinv) as [Hcl _].
  assert (is_Some (mw_credentials w !! c)) as [cr Hcr] by (apply elem_of_dom, Hcl, elem_of_dom;
    eauto).
  assert (call_method c id p (mw_socom w) = Done (Ok tt, mw_socom w, [Cb_method_call s id p])) as E.
  { unfold call_method, receive_call_method. rewrite (lock_server_run _ _ _ _ _ EC Es),
      (get_server_run _ _ _ _ ES).
    by rewrite (proj2 (N.leb_gt _ _) Hid). }
  set (w' := mkMethods (mw_socom w) (mw_credentials w)
    (<[mw_next w := {| weak_stop_block_token := Some c |}]> (mw_replies w)) (mw_next w + 1)%N).
  assert (call_method_with c id p true w =
    Done (Ok tt, w', [Method_called c s id p (Some (mw_next w)) cr])) as Ecall.
  { unfold call_method_with.
    rewrite reads_run, (the_run _ _ cr), reads_run, modify_run by done.
    rewrite (bind_run _ _ _ _ _ _ (lift_run _ _ (set_mw_next w (mw_next w + 1)%N) _ _ _ E)).
    reflexivity. }
  exists cr, (mw_next w), w'. split_and!; [done| |done|].
  - destruct (mw_replies w !! mw_next w) as [d|] eqn:Hd; [|done].
    destruct (mi_replies _ _ Hinv _ _ Hd). lia.
  - intros result.
    assert (method_inv w' (tr ++ [Method_called c s id p (Some (mw_next w)) cr])) as Hinv'
      by (eapply call_with_inv; eauto).
    destruct (reply_run w' _ (mw_next w) {| weak_stop_block_token := Some c |} Hinv')
      as (c' & [= <-] & _ & Hrun); [apply lookup_insert_eq|].
    rewrite Hrun. simpl. by rewrite EC.
Qed.

(** C22: Answers are safe and go to the caller: after any calls, an answer with reply data
    that a server's user still has reaches the client whose call brought it if that
    client exists, and is dropped without effect if it has been destroyed; and every
    answer a client has got follows a call of its own. *)
Theorem replies_reach_their_caller w tr r d :
  method_trace w tr → mw_replies w !! r = Some d →
  (∃ c, (∃ s id p cr, Method_called c s id p (Some r) cr ∈ tr) ∧
    ∀ result, reply r result w = Done (tt, w,
      if so_clients (mw_socom w) !! c is Some _ then [Replied c r result] else [])) ∧
  (∀ tr1 tr2 c r result, tr = tr1 ++ Replied c r result :: tr2 →
    ∃ s id p cr, Method_called c s id p (Some r) cr ∈ tr1).
Proof.
  intros Htr Hd. split; [|by eapply answers_follow_calls].
  destruct (reply_run w tr r d (method_trace_inv w tr Htr) Hd) as (c & _ & ? & ?). eauto.
Qed.

(** A connected client gets the credentials with which its server was made, an
    unconnected one the error that there is no service. *)
Theorem peer_credentials_are_the_servers w tr c C :
  method_trace w tr → so_clients (mw_socom w) !! c = Some C →
  match cc_server C with
  | Some s => ∃ cr, mw_credentials w !! s = Some cr ∧
      get_peer_credentials c w = Done (Ok cr, w, [])
  | None => get_peer_credentials c w = Done (Err runtime_error_service_not_available, w, [])
  end.
Proof. intros Htr%method_trace_inv. by apply (get_peer_credentials_run w tr). Qed.

(** ** Examples *)

#[local] Instance method_admissible_dec w e : Decision (method_admissible w e).
Proof.
  destruct e as [| | | | | |call]; simpl; try apply _.
  destruct call; try apply (socom_admissible_dec (mw_socom w)); apply _.
Defined.

Fixpoint replay (es : list Method_step) (w : Methods) (tr : list Method_action) :
    option (Methods * list Method_action) :=
  match es with
  | [] => Some (w, tr)
  | e :: es =>
    if decide (method_admissible w e) then
      match method_step e w with
      | Done (_, w', o) => replay es w' (tr ++ o)
      | Fault _ => None
      end
    else None
  end.

Lemma replay_trace es w tr w' tr' :
  method_trace w tr → replay es w tr = Some (w', tr') → method_trace w' tr'.
Proof.
  revert w tr. induction es as [|e es IH]; intros w tr Htr E; simpl in E; [by simplify_eq|].
  case_decide as Ha; [|done]. destruct (method_step e w) as [[[[] w1] o]|f] eqn:Es; [|done].
  eapply IH; [|done]. by eapply mt_step.
Qed.

Definition some_service : Service_interface_identifier :=
  {| sii_id := "service"; sii_version := {| major := 1; minor := 0 |} |}.
Definition user : Posix_credentials := {| uid := 100; gid := 100 |}.
Definition root : Posix_credentials := {| uid := 0; gid := 0 |}.

(** Server 0 and client 1 are connected; the client has called method 1. *)
Definition called : Methods * list Method_action :=
  default (mw_init, []) (replay
    [Make_server_as root true some_service 2 1 "instance"; Other (Enable 0);
     Make_client_as user true some_service "instance"; Call_with 1 1 5 true] mw_init []).

Lemma called_trace : method_trace called.1 called.2.
Proof.
  apply (replay_trace [Make_server_as root true some_service 2 1 "instance"; Other (Enable 0);
     Make_client_as user true some_service "instance"; Call_with 1 1 5 true] mw_init []);
    [constructor|]. by vm_compute.
Qed.

Definition called_client : Client_connector :=
  mkClientConnector some_service "instance" true (Some 0%N) false.
Definition called_server : Server_connector :=
  mkServerConnector some_service 2 1 "instance" true true [None] [None] [mode_update] (Some 1%N).

Lemma method_round_trip_witness :
  ∃ cr r w', mw_credentials called.1 !! 1%N = Some cr ∧
    call_method_with 1 0 7 true called.1 =
      Done (Ok tt, w', [Method_called 1 0 0 7 (Some r) cr]) ∧
    ∀ result, reply r result w' = Done (tt, w', [Replied 1 r result]).
Proof.
  destruct (method_round_trip called.1 called.2 1 called_client 0 called_server 0 7 called_trace)
    as (cr & r & w' & H1 & _ & H2 & H3); try (vm_compute; reflexivity).
  exists cr, r, w'. split; [exact H1|split; [exact H2|exact H3]].
Defined.

Lemma replies_reach_their_caller_witness :
  ∃ c, ∀ result, reply 0 result called.1 = Done (tt, called.1,
    if so_clients (mw_socom called.1) !! c is Some _ then [Replied c 0 result] else []).
Proof.
  destruct (replies_reach_their_caller called.1 called.2 0 {| weak_stop_block_token := Some 1%N |}
    called_trace) as [(c & _ & Hc) _]; [vm_compute; reflexivity|]. exists c. exact Hc.
Defined.

Lemma peer_credentials_are_the_servers_witness :
  ∃ cr, get_peer_credentials 1 called.1 = Done (Ok cr, called.1, []).
Proof.
  pose proof (peer_credentials_are_the_servers called.1 called.2 1 called_client called_trace) as H.
  destruct H as (cr & _ & E); [vm_compute; reflexivity|]. exists cr. exact E.
Defined.
