(* ===== verification/SocomConcurrency.v ===== *)
(** * Connectors of one service on several threads

    The calls of [Socom] are one step each. Here the calls that connect and disconnect
    one service are split at every point where a thread holds no mutex: making and
    destroying clients, enabling and disabling the server, the client's calls and the
    server's messages ([src/score/socom/impl/runtime_impl.cpp],
    [impl/client_connector_impl.cpp], [impl/server_connector_impl.cpp],
    [impl/endpoint.hpp]). Shared tokens are modelled by who holds a copy: a copy of
    a client's token blocks the client's destructor, a copy of the server's endpoint
    blocks [disable()], and the last copy removes the client from the server. *)

From stdpp Require Import base numbers list gmap strings.
From S2P Require Import Prelude.
From S2P Require Import IpcTypes.
From S2P Require Import Socom.

(** ** State *)

(** How far a thread is in the callback of [make_on_server_update_callback()]: it has a
    copy of the callback; it has locked the client's token; it has the server's
    endpoint; it has stored it and calls [on_service_state_change]. *)
Inductive Indication : Type :=
  | Ind_none | Ind_copied | Ind_locked | Ind_connected | Ind_notifying.

#[export] Instance Indication_eq_dec : EqDecision Indication.
Proof. solve_decision. Defined.

(** The life of a client: [make_client_connector] has registered it and connects it; its
    user has it; the destructor has dropped token and server; it has left the record and
    waits for the token; it is gone. *)
Inductive Client_phase : Type :=
  | Making | Alive | Unregistering | Waiting_for_token | Gone.

#[export] Instance Client_phase_eq_dec : EqDecision Client_phase.
Proof. solve_decision. Defined.

Record Client : Type := mkClient {
  cl_interface : Service_interface_identifier;
  cl_phase : Client_phase;
  cl_server : bool;          (* [m_server.has_value()] *)
  cl_ind : Indication;
  cl_calls : nat;            (* calls that have copied [m_server] *)
  cl_messages : nat;         (* messages that have copied the client's endpoint *)
}.

(** The life of the server; the phases after [Enabled] are those of [disable()]: it has
    left the record; it has dropped its tokens and waits for the stop token; it sends
    [not_available]; the client has got it; it waits for its clients. *)
Inductive Server_phase : Type :=
  | Disabled | Enabled | Unregistered | Stopping
  | Sending (c : option N) | Sent (c : option N) | Waiting_for_clients.

#[export] Instance Server_phase_eq_dec : EqDecision Server_phase.
Proof. solve_decision. Defined.

Record World : Type := mkWorld {
  w_server : bool;             (* of the record: [m_server.has_value()] *)
  w_client : option N;         (* of the record: [m_client] *)
  w_phase : Server_phase;
  w_connection : option N;     (* of the server connector: [m_client] *)
  w_enabler : option N;        (* the client [enable()] is connecting *)
  w_clients : gmap N Client;
}.

(** [m_stop_block_token != nullptr] of a client and of the server. *)
Definition client_token (C : Client) : bool :=
  match cl_phase C with Making | Alive => true | _ => false end.
Definition server_token (p : Server_phase) : bool :=
  match p with Enabled | Unregistered => true | _ => false end.

(** Somebody holds the server's endpoint for this client. *)
Definition holds_endpoint (C : Client) : bool :=
  cl_server C || (match cl_ind C with Ind_connected | Ind_notifying => true | _ => false end)
  || negb (cl_calls C =? 0).

(** Somebody holds a copy of the client's token: the client itself, the callback, a
    message, the server's connection or [send_all]. *)
Definition sends_to (p : Server_phase) : option N :=
  match p with Sending c | Sent c => c | _ => None end.
Definition holds_token (w : World) (c : N) (C : Client) : bool :=
  client_token C || (match cl_ind C with Ind_none | Ind_copied => false | _ => true end)
  || negb (cl_messages C =? 0) || bool_decide (w_connection w = Some c)
  || bool_decide (sends_to (w_phase w) = Some c).

Definition set_phase (C : Client) p :=
  mkClient (cl_interface C) p (cl_server C) (cl_ind C) (cl_calls C) (cl_messages C).
Definition set_cl_server (C : Client) s :=
  mkClient (cl_interface C) (cl_phase C) s (cl_ind C) (cl_calls C) (cl_messages C).
Definition set_ind (C : Client) i :=
  mkClient (cl_interface C) (cl_phase C) (cl_server C) i (cl_calls C) (cl_messages C).
Definition set_calls (C : Client) n :=
  mkClient (cl_interface C) (cl_phase C) (cl_server C) (cl_ind C) n (cl_messages C).
Definition set_messages (C : Client) n :=
  mkClient (cl_interface C) (cl_phase C) (cl_server C) (cl_ind C) (cl_calls C) n.

(** Store client [C]; if nobody holds the endpoint any more, the server's
    [remove_client()] has run. *)
Definition put_client (w : World) (c : N) (C : Client) : World :=
  mkWorld (w_server w) (w_client w) (w_phase w)
    (if bool_decide (w_connection w = Some c) && negb (holds_endpoint C) then None
     else w_connection w)
    (w_enabler w) (<[c := C]> (w_clients w)).

Definition set_w_phase (w : World) p : World :=
  mkWorld (w_server w) (w_client w) p (w_connection w) (w_enabler w) (w_clients w).
Definition set_record (w : World) s c : World :=
  mkWorld s c (w_phase w) (w_connection w) (w_enabler w) (w_clients w).
Definition set_connection (w : World) x : World :=
  mkWorld (w_server w) (w_client w) (w_phase w) x (w_enabler w) (w_clients w).
Definition set_enabler (w : World) x : World :=
  mkWorld (w_server w) (w_client w) (w_phase w) (w_connection w) x (w_clients w).

(** The callback returns: [enable()] or [make_client_connector] goes on. *)
Definition end_indication (w : World) (c : N) (C : Client) : World :=
  let C := set_ind C Ind_none in
  let C := match cl_phase C with Making => set_phase C Alive | _ => C end in
  let w := put_client w c C in
  if decide (w_enabler w = Some c) then set_enabler w None else w.

(** ** Steps *)

Inductive Step : Type :=
  | Make (c : N) (interface : Service_interface_identifier)
  | Lock_token (c : N) | Connect (c : N) | Set_server (c : N) | Notified (c : N)
  | Call (c : N) | Return (c : N)
  | Copy_endpoint (c : N) | Message_done (c : N)
  | Destroy_client (c : N) | Unregister (c : N) | Client_gone (c : N)
  | Enable | Disable | Reset_tokens | Send_all | Receive_not_available | Send_done
  | All_disconnected.

Section steps.
Context (server_interface : Service_interface_identifier).

(** [register_connector] for a client: the record takes it, or there is one already. *)
Definition make (w : World) (c : N) (interface : Service_interface_identifier) : World :=
  match w_client w with
  | Some _ => w
  | None =>
    let connects := w_server w && is_minor_version_compatible server_interface interface in
    let C := mkClient interface (if connects then Making else Alive) false
      (if connects then Ind_copied else Ind_none) 0 0 in
    mkWorld (w_server w) (Some c) (w_phase w) (w_connection w) (w_enabler w)
      (<[c := C]> (w_clients w))
  end.

(** [register_connector] for the server: it is put into the record and takes a copy of the
    client's callback. *)
Definition enable (w : World) : outcome World :=
  if w_server w then Fault Assertion_failed else
  let w := set_w_phase (set_record w true (w_client w)) Enabled in
  match w_client w with
  | Some c =>
    match w_clients w !! c with
    | Some C =>
      if is_minor_version_compatible server_interface (cl_interface C) then
        Done (set_enabler (put_client w c (set_ind C Ind_copied)) (Some c))
      else Done w
    | None => Fault Null_dereference
    end
  | None => Done w
  end.

(** [receive(message::Connect)]. *)
Definition connect (w : World) (c : N) (C : Client) : outcome World :=
  if server_token (w_phase w) then
    match w_connection w with
    | Some _ => Fault Assertion_failed
    | None => Done (put_client (set_connection w (Some c)) c (set_ind C Ind_connected))
    end
  else Done (end_indication w c C).

(** [set_id_mappings_and_server()]: without a token the returned endpoint is dropped. *)
Definition set_server (w : World) (c : N) (C : Client) : World :=
  if client_token C then put_client w c (set_ind (set_cl_server C true) Ind_notifying)
  else end_indication w c C.

(** The first part of the client's destructor. *)
Definition drop_token (w : World) (c : N) (C : Client) : World :=
  put_client w c (set_phase (set_cl_server C false) Unregistering).

(** [m_registration.reset()] of a client. *)
Definition unregister (w : World) (c : N) (C : Client) : World :=
  set_record (put_client w c (set_phase C Waiting_for_token)) (w_server w) None.

(** A connecting client holds the listen endpoint, and with it the stop token. *)
Definition nobody_connects (w : World) : bool :=
  bool_decide (map_Forall (λ _ C, cl_phase C ≠ Making) (w_clients w)).

(** One step, [None] where it cannot happen. *)
Definition step (e : Step) (w : World) : option (outcome World) :=
  let with_client c (f : Client → option (outcome World)) := w_clients w !! c ≫= f in
  match e with
  | Make c interface =>
    match w_clients w !! c with None => Some (Done (make w c interface)) | Some _ => None end
  | Lock_token c => with_client c (λ C,
      match cl_ind C with
      | Ind_copied =>
        Some (Done (if holds_token w c C then
                      put_client w c (set_ind C Ind_locked)
                    else end_indication w c C))
      | _ => None
      end)
  | Connect c => with_client c (λ C,
      match cl_ind C with Ind_locked => Some (connect w c C) | _ => None end)
  | Set_server c => with_client c (λ C,
      match cl_ind C with Ind_connected => Some (Done (set_server w c C)) | _ => None end)
  | Notified c => with_client c (λ C,
      match cl_ind C with Ind_notifying => Some (Done (end_indication w c C)) | _ => None end)
  | Call c => with_client c (λ C,
      if cl_server C then Some (Done (put_client w c (set_calls C (S (cl_calls C))))) else None)
  | Return c => with_client c (λ C,
      match cl_calls C with
      | S n => Some (Done (put_client w c (set_calls C n)))
      | O => None
      end)
  | Copy_endpoint c => with_client c (λ C,
      if decide (w_connection w = Some c) then
        Some (Done (put_client w c (set_messages C (S (cl_messages C)))))
      else None)
  | Message_done c => with_client c (λ C,
      match cl_messages C with
      | S n => Some (Done (put_client w c (set_messages C n)))
      | O => None
      end)
  | Destroy_client c => with_client c (λ C,
      match cl_phase C, cl_calls C with
      | Alive, O => Some (Done (drop_token w c C))
      | _, _ => None
      end)
  | Unregister c => with_client c (λ C,
      match cl_phase C with Unregistering => Some (Done (unregister w c C)) | _ => None end)
  | Client_gone c => with_client c (λ C,
      match cl_phase C with
      | Waiting_for_token =>
        if holds_token w c C then None
        else Some (Done (put_client w c (set_phase C Gone)))
      | _ => None
      end)
  | Enable => match w_phase w with Disabled => Some (enable w) | _ => None end
  | Disable =>
    match w_phase w, w_enabler w with
    | Enabled, None => Some (Done (set_w_phase (set_record w false (w_client w)) Unregistered))
    | _, _ => None
    end
  | Reset_tokens =>
    match w_phase w with Unregistered => Some (Done (set_w_phase w Stopping)) | _ => None end
  | Send_all =>
    match w_phase w with
    | Stopping =>
      if nobody_connects w then Some (Done (set_w_phase w (Sending (w_connection w))))
      else None
    | _ => None
    end
  | Receive_not_available =>
    match w_phase w with
    | Sending None => Some (Done (set_w_phase w (Sent None)))
    | Sending (Some c) => with_client c (λ C,
        Some (Done (set_w_phase (put_client w c (set_cl_server C false)) (Sent (Some c)))))
    | _ => None
    end
  | Send_done =>
    match w_phase w with
    | Sent _ => Some (Done (set_w_phase w Waiting_for_clients))
    | _ => None
    end
  | All_disconnected =>
    match w_phase w, w_connection w with
    | Waiting_for_clients, None => Some (Done (set_w_phase w Disabled))
    | _, _ => None
    end
  end.

Definition initial : World := mkWorld false None Disabled None None ∅.

Fixpoint steps (es : list Step) (w : World) : option (outcome World) :=
  match es with
  | [] => Some (Done w)
  | e :: es => match step e w with Some (Done w) => steps es w | r => r end
  end.

(** A client is made only when no other client of the service is still being destroyed. *)
Definition disciplined (e : Step) (w : World) : Prop :=
  match e with
  | Make _ _ => w_client w = None → map_Forall (λ _ C, cl_phase C ≠ Waiting_for_token) (w_clients w)
  | _ => True
  end.

Inductive reachable : World → Prop :=
  | reachable_initial : reachable initial
  | reachable_step w e w' :
      reachable w → disciplined e w → step e w = Some (Done w') → reachable w'.

(** ** The invariant *)

(** The callback has not reached the server yet. *)
Definition is_early (i : Indication) : bool :=
  match i with Ind_copied | Ind_locked => true | _ => false end.
(** The client is in the record. *)
Definition is_registered (p : Client_phase) : bool :=
  match p with Making | Alive | Unregistering => true | _ => false end.
(** The phases in which a client can be connecting, and those in which the client has
    been told. *)
Definition accepts (p : Server_phase) : bool :=
  match p with Enabled | Unregistered | Stopping => true | _ => false end.
Definition has_told (p : Server_phase) : bool :=
  match p with Sent _ | Waiting_for_clients | Disabled => true | _ => false end.

Record client_ok (w : World) (c : N) (C : Client) : Prop := {
  ok_gone : cl_phase C = Gone →
    w_connection w ≠ Some c ∧ sends_to (w_phase w) ≠ Some c ∧ cl_messages C = 0 ∧
    (cl_ind C = Ind_none ∨ cl_ind C = Ind_copied);
  ok_dropped : client_token C = false → cl_server C = false ∧ cl_calls C = 0;
  ok_connection : w_connection w = Some c ↔ holds_endpoint C = true;
  ok_record : w_client w = Some c ↔ is_registered (cl_phase C) = true;
  ok_early : is_early (cl_ind C) = true → cl_server C = false ∧ cl_calls C = 0;
  ok_connecting : cl_ind C = Ind_connected → cl_server C = false;
  ok_enabler : w_enabler w = Some c ↔ cl_ind C ≠ Ind_none ∧ cl_phase C ≠ Making;
  ok_making : cl_phase C = Making → cl_ind C ≠ Ind_none ∧ accepts (w_phase w) = true;
  ok_connected : w_phase w = Enabled → client_token C = true →
    is_minor_version_compatible server_interface (cl_interface C) = true →
    cl_ind C = Ind_none ∨ cl_ind C = Ind_notifying → cl_server C = true;
  ok_told : has_told (w_phase w) = true → cl_server C = false;
  ok_compatible : cl_server C = true ∨ cl_ind C ≠ Ind_none →
    is_minor_version_compatible server_interface (cl_interface C) = true;
}.

Record world_ok (w : World) : Prop := {
  ok_clients : ∀ c C, w_clients w !! c = Some C → client_ok w c C;
  ok_exists : ∀ c, w_connection w = Some c ∨ w_client w = Some c ∨ w_enabler w = Some c ∨
    sends_to (w_phase w) = Some c → is_Some (w_clients w !! c);
  ok_alone : ∀ c C c' C', w_clients w !! c = Some C → w_clients w !! c' = Some C' →
    cl_phase C = Waiting_for_token → c ≠ c' → cl_phase C' = Gone;
  ok_server : w_server w = bool_decide (w_phase w = Enabled);
  ok_enabling : ∀ c, w_enabler w = Some c → w_phase w = Enabled;
  ok_disabled : w_phase w = Disabled → w_connection w = None;
  ok_sending : ∀ x, w_phase w = Sending x → w_connection w = None ∨ w_connection w = x;
}.

Lemma initial_ok : world_ok initial.
Proof.
  split; try done. intros c. simpl. intuition congruence.
Qed.

(** What a client's part of the invariant depends on. *)
Lemma client_ok_transfer w w' c C :
  (w_connection w' = Some c ↔ w_connection w = Some c) →
  (w_client w' = Some c ↔ w_client w = Some c) →
  (w_enabler w' = Some c ↔ w_enabler w = Some c) →
  (cl_phase C = Gone → sends_to (w_phase w') = Some c → sends_to (w_phase w) = Some c) →
  (cl_phase C = Making → accepts (w_phase w) = true → accepts (w_phase w') = true) →
  (w_phase w' = Enabled → w_phase w = Enabled) →
  (has_told (w_phase w') = true → cl_server C = true → has_told (w_phase w) = true) →
  client_ok w c C → client_ok w' c C.
Proof.
  intros Hco Hcl Hen Hse Hac Hph Hto [H1 H2 H3 H4 H5 H6 H7 H8 H9 H10 H11]. split; auto.
  - intros Hg. destruct (H1 Hg) as (?&?&?&?). split_and!; auto; rewrite ?Hco; auto.
  - by rewrite Hco.
  - by rewrite Hcl.
  - by rewrite Hen.
  - intros Hm. destruct (H8 Hm). auto.
  - intros Ht. destruct (cl_server C) eqn:E; auto.
Qed.

Lemma put_connection_other w c C c' :
  c' ≠ c → w_connection (put_client w c C) = Some c' ↔ w_connection w = Some c'.
Proof.
  intros Hne. simpl. case_bool_decide as E; simpl; [|done]. rewrite E.
  destruct (holds_endpoint C); simpl; split; congruence.
Qed.

Lemma put_connection_same w c C :
  (holds_endpoint C = true → w_connection w = Some c) →
  w_connection (put_client w c C) = Some c ↔ holds_endpoint C = true.
Proof.
  intros Hh. simpl. destruct (holds_endpoint C); simpl.
  - rewrite andb_false_r. split; auto.
  - case_bool_decide; simpl; split; congruence.
Qed.

Lemma put_connection_mono w c C x :
  w_connection (put_client w c C) = Some x → w_connection w = Some x.
Proof. simpl. by destruct (_ && _). Qed.

(** Changing one client, and whether [enable()] is connecting it. *)
Lemma put_client_enabler_ok w c C C' x :
  world_ok w → w_clients w !! c = Some C →
  client_ok (set_enabler (put_client w c C') x) c C' →
  (cl_phase C' = Waiting_for_token → cl_phase C = Waiting_for_token) →
  (cl_phase C = Gone → cl_phase C' = Gone) →
  (∀ c', c' ≠ c → x = Some c' ↔ w_enabler w = Some c') →
  (x = Some c → w_phase w = Enabled) →
  world_ok (set_enabler (put_client w c C') x).
Proof.
  intros [H1 H2 H3 H4 H5 H6 H7] HC HC' Hw Hg Hx Hxc. split; simpl; auto.
  - intros c' D. destruct (decide (c' = c)) as [->|Hne].
    + rewrite lookup_insert_eq. intros [= <-]. done.
    + rewrite lookup_insert_ne by done. intros HD.
      eapply client_ok_transfer;
        [by apply put_connection_other| |simpl; by apply Hx|..|by apply H1]; done.
  - intros c' Hc'. destruct (decide (c' = c)) as [->|Hne]; [rewrite lookup_insert_eq; eauto|].
    rewrite lookup_insert_ne by done. apply H2. rewrite <-(Hx c' Hne).
    destruct Hc' as [Hc'|?]; [left|by right]. by apply put_connection_mono in Hc'.
  - intros c1 C1 c2 C2. destruct (decide (c1 = c)) as [->|], (decide (c2 = c)) as [->|];
      rewrite ?lookup_insert_eq, ?lookup_insert_ne by done; intros; simplify_eq; eauto.
  - intros c' Hc'. destruct (decide (c' = c)) as [->|Hne]; [auto|]. by apply (H5 c'), Hx.
  - intros Hp. destruct (_ && _); auto.
  - intros y Hp. destruct (_ && _); auto.
Qed.

Lemma put_client_ok w c C C' :
  world_ok w → w_clients w !! c = Some C → client_ok (put_client w c C') c C' →
  (cl_phase C' = Waiting_for_token → cl_phase C = Waiting_for_token) →
  (cl_phase C = Gone → cl_phase C' = Gone) →
  world_ok (put_client w c C').
Proof.
  intros Hw HC HC' Hp Hg. apply (put_client_enabler_ok w c C C' (w_enabler w)); auto.
  intros Hen. by apply (ok_enabling _ Hw c).
Qed.

(** While a callback runs the server has not told its client to go. *)
Lemma indication_accepts w c C :
  world_ok w → w_clients w !! c = Some C → cl_ind C ≠ Ind_none → accepts (w_phase w) = true.
Proof.
  intros Hw HC Hi. pose proof (ok_clients _ Hw c C HC) as Hc.
  destruct (decide (cl_phase C = Making)) as [Hm|Hm]; [by apply (ok_making _ _ _ Hc)|].
  by rewrite (ok_enabling _ Hw c) by (by apply (ok_enabler _ _ _ Hc)).
Qed.

Lemma accepts_not_told p : accepts p = true → has_told p = false.
Proof. by destruct p. Qed.

(** Case analysis on the parts of a client, where its invariant is known. *)
Ltac client_solve :=
  repeat match goal with H : client_ok _ _ _ |- _ => destruct H end;
  split; rewrite ?put_connection_same;
  unfold client_token, holds_endpoint, holds_token in *; simpl in *;
  try done; try (intuition congruence);
  repeat case_match; simplify_eq/=; rewrite ?orb_true_r, ?orb_false_r in *; simpl in *;
  try solve [intuition (congruence || eauto)].

(** One client changes in a step, the rest of the state stays. *)
Ltac one_client :=
  let Hw := fresh "Hw" in let HC := fresh "HC" in
  intros Hw HC; intros;
  match type of HC with w_clients _ !! ?c = Some ?C =>
    pose proof (ok_clients _ Hw c C HC); eapply put_client_ok; eauto;
    destruct C as [? ? ? ? ? ?]; simpl in *; subst
  end; try done; try client_solve.

(** Nobody holds the token of a client. *)
Lemma holds_token_false w c C :
  holds_token w c C = false ↔
    client_token C = false ∧ (cl_ind C = Ind_none ∨ cl_ind C = Ind_copied) ∧
    cl_messages C = 0 ∧ w_connection w ≠ Some c ∧ sends_to (w_phase w) ≠ Some c.
Proof.
  unfold holds_token. rewrite !orb_false_iff, !bool_decide_eq_false, negb_false_iff, Nat.eqb_eq.
  destruct (cl_ind C); intuition congruence.
Qed.

Lemma gone_unheld w c C : client_ok w c C → cl_phase C = Gone → holds_token w c C = false.
Proof.
  intros Hc Hg. apply holds_token_false. destruct (ok_gone _ _ _ Hc Hg) as (?&?&?&?).
  split_and!; auto. unfold client_token. by rewrite Hg.
Qed.

Section client_steps.
Context (w : World) (c : N) (C : Client).

Lemma call_ok :
  world_ok w → w_clients w !! c = Some C → cl_server C = true →
  world_ok (put_client w c (set_calls C (S (cl_calls C)))).
Proof. one_client. Qed.

Lemma return_ok n :
  world_ok w → w_clients w !! c = Some C → cl_calls C = S n →
  world_ok (put_client w c (set_calls C n)).
Proof. one_client. Qed.

Lemma copy_endpoint_ok n :
  world_ok w → w_clients w !! c = Some C → w_connection w = Some c →
  world_ok (put_client w c (set_messages C n)).
Proof. one_client. Qed.

Lemma message_done_ok n :
  world_ok w → w_clients w !! c = Some C → cl_messages C = S n →
  world_ok (put_client w c (set_messages C n)).
Proof. one_client. Qed.

Lemma lock_ok :
  world_ok w → w_clients w !! c = Some C → cl_ind C = Ind_copied → holds_token w c C = true →
  world_ok (put_client w c (set_ind C Ind_locked)).
Proof.
  intros Hw HC Hi Hh.
  assert (cl_phase C ≠ Gone) as Hg.
  { intros Hg. by rewrite (gone_unheld w c C) in Hh by eauto using ok_clients. }
  clear Hh. revert Hw HC. one_client.
Qed.

Lemma set_server_ok :
  world_ok w → w_clients w !! c = Some C → cl_ind C = Ind_connected → client_token C = true →
  world_ok (put_client w c (set_ind (set_cl_server C true) Ind_notifying)).
Proof.
  intros Hw HC Hi Ht.
  assert (has_told (w_phase w) = false) as Hto
    by (eapply accepts_not_told, indication_accepts; [done..|congruence]).
  revert Hw HC. one_client.
Qed.

Lemma drop_token_ok :
  world_ok w → w_clients w !! c = Some C → cl_phase C = Alive → cl_calls C = 0 →
  world_ok (drop_token w c C).
Proof. one_client. Qed.

Lemma client_gone_ok :
  world_ok w → w_clients w !! c = Some C → cl_phase C = Waiting_for_token →
  holds_token w c C = false → world_ok (put_client w c (set_phase C Gone)).
Proof.
  intros Hw HC Hp (Ht & Hi & Hm & Hco & Hs)%holds_token_false. revert Hw HC. one_client.
Qed.
Lemma end_indication_ok :
  world_ok w → w_clients w !! c = Some C → cl_ind C ≠ Ind_none →
  (w_phase w = Enabled → client_token C = true →
    is_minor_version_compatible server_interface (cl_interface C) = true → cl_server C = true) →
  world_ok (end_indication w c C).
Proof.
  intros Hw HC Hi Hs. unfold end_indication.
  assert (∀ C', (if decide (w_enabler (put_client w c C') = Some c) then
      set_enabler (put_client w c C') None else put_client w c C') =
      set_enabler (put_client w c C') (if decide (w_enabler w = Some c) then None else w_enabler w))
    as ->.
  { intros C'. simpl. by case_decide. }
  pose proof (ok_clients _ Hw c C HC) as Hc.
  eapply put_client_enabler_ok; eauto.
  - destruct C as [i p s ind n m], Hc. simpl in *.
    split; simpl; unfold client_token, holds_endpoint in *; simpl in *;
      try solve [by destruct p|destruct p; simpl in *; intuition (congruence || eauto)].
    + intros Hg. destruct p; try done. destruct (ok_gone0 eq_refl) as (?&?&?&?).
      split_and!; auto. by destruct (_ && _).
    + apply put_connection_same. unfold holds_endpoint.
      intros Hh. apply ok_connection0. by destruct p, s, ind, n.
    + destruct p, ind; simpl in *; case_decide; intuition congruence.
  - simpl. destruct (cl_phase C) eqn:E; simpl; congruence.
  - simpl. intros Hg. by rewrite Hg.
  - intros c' Hne. case_decide; split; congruence.
  - case_decide; congruence.
Qed.
End client_steps.
(** Two clients that are not gone are the same. *)
Lemma only_one w c C c' C' :
  world_ok w → w_clients w !! c = Some C → w_clients w !! c' = Some C' →
  cl_phase C ≠ Gone → cl_phase C' ≠ Gone → c = c'.
Proof.
  intros Hw HC HC' Hg Hg'. destruct (decide (c = c')) as [|Hne]; [done|].
  pose proof (ok_record _ _ _ (ok_clients _ Hw c C HC)) as Hr.
  pose proof (ok_record _ _ _ (ok_clients _ Hw c' C' HC')) as Hr'.
  pose proof (ok_alone _ Hw c C c' C' HC HC') as Ha.
  pose proof (ok_alone _ Hw c' C' c C HC' HC) as Ha'.
  destruct (cl_phase C) eqn:E, (cl_phase C') eqn:E'; simpl in *; try done;
    try (by destruct Hg; auto); try (by destruct Hg'; auto);
    (enough (Some c = Some c') by congruence; transitivity (w_client w); [symmetry|]; tauto).
Qed.

(** A client that is about to connect finds the server without a client. *)
Lemma connect_free w c C :
  world_ok w → w_clients w !! c = Some C → cl_ind C = Ind_locked → w_connection w = None.
Proof.
  intros Hw HC Hi. destruct (w_connection w) as [c'|] eqn:Hc'; [|done].
  pose proof (ok_clients _ Hw c C HC) as Hc.
  destruct (ok_exists _ Hw c') as [C' HC']; [auto|].
  pose proof (ok_clients _ Hw c' C' HC') as Hcc.
  assert (c = c') as <-.
  { eapply only_one; eauto.
    - intros Hg. destruct (ok_gone _ _ _ Hc Hg) as (_&_&_&[?|?]); congruence.
    - intros Hg. by destruct (ok_gone _ _ _ Hcc Hg) as [? _]. }
  apply (ok_connection _ _ _ Hc) in Hc'. destruct (ok_early _ _ _ Hc) as [Hs Hn]; [by rewrite Hi|].
  revert Hc'. unfold holds_endpoint. by rewrite Hs, Hn, Hi.
Qed.

Lemma connect_ok w c C :
  world_ok w → w_clients w !! c = Some C → cl_ind C = Ind_locked →
  ∃ w', connect w c C = Done w' ∧ world_ok w'.
Proof.
  intros Hw HC Hi. pose proof (ok_clients _ Hw c C HC) as Hc. unfold connect.
  destruct (server_token (w_phase w)) eqn:Ht.
  2: { eexists. split; [done|]. apply end_indication_ok; [done..|congruence|].
       intros Hp. by rewrite Hp in Ht. }
  rewrite (connect_free w c C Hw HC Hi). eexists. split; [done|].
  assert (cl_phase C ≠ Gone) as Hng.
  { intros Hg. destruct (ok_gone _ _ _ Hc Hg) as (_&_&_&[?|?]); congruence. }
  pose proof (connect_free w c C Hw HC Hi) as Hf.
  assert (put_client (set_connection w (Some c)) c (set_ind C Ind_connected) =
    mkWorld (w_server w) (w_client w) (w_phase w) (Some c) (w_enabler w)
      (<[c := set_ind C Ind_connected]> (w_clients w))) as ->.
  { unfold put_client, holds_endpoint. simpl. by rewrite bool_decide_true, orb_true_r by done. }
  destruct Hw as [H1 H2 H3 H4 H5 H6 H7]. split; simpl; auto.
  - intros c' D. destruct (decide (c' = c)) as [->|Hne].
    + rewrite lookup_insert_eq. intros [= <-]. destruct C as [i p s ind n m], Hc.
      simpl in *. subst ind. split; unfold client_token, holds_endpoint in *; simpl in *; try done;
        rewrite ?orb_true_r; try intuition congruence.
    + rewrite lookup_insert_ne by done. intros HD.
      eapply client_ok_transfer; [..|by apply H1]; simpl; auto; try done. rewrite Hf.
      split; congruence.
  - intros c' Hc'. destruct (decide (c' = c)) as [->|Hne]; [rewrite lookup_insert_eq; eauto|].
    rewrite lookup_insert_ne by done. apply H2. destruct Hc' as [?|?]; [congruence|by right].
  - intros c1 C1 c2 C2. destruct (decide (c1 = c)) as [->|], (decide (c2 = c)) as [->|];
      rewrite ?lookup_insert_eq, ?lookup_insert_ne by done; intros; simplify_eq/=; eauto.
  - intros Hp. by rewrite Hp in Ht.
  - intros x Hp. by rewrite Hp in Ht.
Qed.
Lemma unregister_ok w c C :
  world_ok w → w_clients w !! c = Some C → cl_phase C = Unregistering →
  world_ok (unregister w c C).
Proof.
  intros Hw HC Hp. pose proof (ok_clients _ Hw c C HC) as Hc.
  assert (w_client w = Some c) as Hr by (apply (ok_record _ _ _ Hc); by rewrite Hp).
  assert (put_client w c (set_phase C Waiting_for_token) =
    mkWorld (w_server w) (w_client w) (w_phase w) (w_connection w) (w_enabler w)
      (<[c := set_phase C Waiting_for_token]> (w_clients w))) as E.
  { unfold put_client. case_bool_decide as Hb; [|done]. apply (ok_connection _ _ _ Hc) in Hb.
    by rewrite (Hb : holds_endpoint (set_phase C Waiting_for_token) = true). }
  unfold unregister. rewrite E. clear E. pose proof (λ c' C', only_one w c' C' c C Hw) as Ho.
  destruct Hw as [H1 H2 H3 H4 H5 H6 H7]. split; simpl; auto.
  - intros c' D. destruct (decide (c' = c)) as [->|Hne].
    + rewrite lookup_insert_eq. intros [= <-]. destruct C as [i p s ind n m], Hc.
      simpl in *. subst p. split; unfold client_token, holds_endpoint in *; simpl in *; try done;
        intuition congruence.
    + rewrite lookup_insert_ne by done. intros HD.
      eapply client_ok_transfer; [..|by apply H1]; simpl; auto; try done.
      rewrite Hr. split; congruence.
  - intros c' Hc'. destruct (decide (c' = c)) as [->|Hne]; [rewrite lookup_insert_eq; eauto|].
    rewrite lookup_insert_ne by done. apply H2. destruct Hc' as [?|[?|?]]; [auto|done|auto].
  - intros c1 C1 c2 C2. destruct (decide (c1 = c)) as [->|], (decide (c2 = c)) as [->|];
      rewrite ?lookup_insert_eq, ?lookup_insert_ne by done; intros; simplify_eq/=; eauto.
    + destruct (decide (cl_phase C2 = Gone)) as [|Hg]; [done|]. destruct (Ho c2 C2); congruence.
    + rewrite (H3 c1 C1 c C) in Hp by done. done.
Qed.

Lemma make_ok w c i :
  world_ok w → w_clients w !! c = None → disciplined (Make c i) w → world_ok (make w c i).
Proof.
  intros Hw HC Hd. unfold make. destruct (w_client w) as [c'|] eqn:Hr; [done|].
  specialize (Hd Hr). set (b := _ && _). set (C := mkClient _ _ _ _ _ _).
  assert (∀ c' D, w_clients w !! c' = Some D → cl_phase D = Gone) as Hgone.
  { intros c' D HD. specialize (Hd c' D HD). simpl in Hd.
    pose proof (ok_record _ _ _ (ok_clients _ Hw c' D HD)) as Hr'. rewrite Hr in Hr'.
    destruct (cl_phase D); simpl in *; intuition congruence. }
  assert (b = true → w_phase w = Enabled) as Hb.
  { intros [Hs _]%andb_true_iff. rewrite (ok_server _ Hw) in Hs. by apply bool_decide_eq_true in Hs.
    }
  assert (∀ x, (w_connection w = Some x ∨ w_client w = Some x ∨ w_enabler w = Some x ∨
    sends_to (w_phase w) = Some x) → x ≠ c) as Hne.
  { intros x Hx ->. destruct (ok_exists _ Hw c Hx). congruence. }
  pose proof (ok_server _ Hw) as Hserver.
  destruct Hw as [H1 H2 H3 H4 H5 H6 H7]. split; simpl; auto.
  - intros c' D. destruct (decide (c' = c)) as [->|Hc].
    + rewrite lookup_insert_eq. intros [= <-]. subst C. split; simpl; try (by destruct b).
      * unfold holds_endpoint. simpl. split; [|by destruct b].
        intros Hx. by destruct (Hne c); auto.
      * split; [intros Hx; by destruct (Hne c); auto|destruct b; simpl; intuition congruence].
      * destruct b; [|done]. by rewrite Hb.
      * intros Hp Ht Hm. subst b. rewrite Hserver, Hp, Hm. rewrite bool_decide_true by done.
        simpl. intros [?|?]; congruence.
      * destruct b eqn:Eb; [|intros [?|?]; done]. intros _.
        by apply andb_true_iff in Eb as [_ ?].
    + rewrite lookup_insert_ne by done. intros HD.
      eapply client_ok_transfer; [..|by apply H1]; simpl; auto; try done.
      rewrite Hr. split; congruence.
  - intros c' Hc'. destruct (decide (c' = c)) as [->|Hc]; [rewrite lookup_insert_eq; eauto|].
    rewrite lookup_insert_ne by done. apply H2. destruct Hc' as [?|[?|?]]; [auto|congruence|auto].
  - intros c1 C1 c2 C2. destruct (decide (c1 = c)) as [->|], (decide (c2 = c)) as [->|];
      rewrite ?lookup_insert_eq, ?lookup_insert_ne by done; intros; simplify_eq/=; eauto.
    by rewrite (Hgone c1 C1) in * by done.
Qed.
(** The server moves on in [disable()]. *)
Lemma set_phase_ok w s p :
  world_ok w → s = bool_decide (p = Enabled) → p ≠ Enabled → w_enabler w = None →
  (accepts p = false → accepts (w_phase w) = true → nobody_connects w = true) →
  (accepts p = true → accepts (w_phase w) = true) →
  (∀ c, sends_to p = Some c → sends_to (w_phase w) = Some c ∨ w_connection w = Some c) →
  (has_told p = true → ∀ c C, w_clients w !! c = Some C → cl_server C = true →
    has_told (w_phase w) = true) →
  (p = Disabled → w_connection w = None) →
  (∀ x, p = Sending x → w_connection w = None ∨ w_connection w = x) →
  world_ok (set_w_phase (set_record w s (w_client w)) p).
Proof.
  intros [H1 H2 H3 H4 H5 H6 H7] Hs Hne Hen Hnc Hac Hse Hto Hdi Hsd. split; simpl; auto.
  - intros c C HC. specialize (H1 c C HC). eapply client_ok_transfer; [..|exact H1]; simpl; auto;
      try done.
    + intros Hg Hx. destruct (Hse c Hx) as [?|Hx']; [done|]. by destruct (ok_gone _ _ _ H1 Hg).
    + intros Hm Ha. destruct (accepts p) eqn:Hp; [done|]. specialize (Hnc eq_refl Ha).
      apply bool_decide_eq_true in Hnc. by destruct (Hnc c C HC).
    + intros Ht Hcs. by apply (Hto Ht c C).
  - intros c [?|[?|[?|Hx]]]; auto. destruct (Hse c Hx); auto.
  - intros c. rewrite Hen. done.
Qed.

Lemma not_enabled_no_enabler w : world_ok w → w_phase w ≠ Enabled → w_enabler w = None.
Proof.
  intros Hw Hne. destruct (w_enabler w) as [c|] eqn:E; [|done].
  by destruct Hne, (ok_enabling _ Hw c).
Qed.

(** A disabled server knows no client, and nobody is connecting. *)
Lemma disabled_client w c C :
  world_ok w → w_phase w = Disabled → w_clients w !! c = Some C →
  cl_ind C = Ind_none ∧ cl_server C = false ∧ cl_calls C = 0 ∧ cl_phase C ≠ Making.
Proof.
  intros Hw Hp HC. pose proof (ok_clients _ Hw c C HC) as Hc.
  assert (cl_phase C ≠ Making) as Hm.
  { intros Hm. destruct (ok_making _ _ _ Hc Hm) as [_ Ha]. by rewrite Hp in Ha. }
  assert (w_enabler w = None) as Hen by (apply not_enabled_no_enabler; [done|congruence]).
  assert (cl_ind C = Ind_none) as Hi.
  { destruct (cl_ind C) eqn:E; [done|..]; assert (w_enabler w = Some c);
      try congruence; apply (ok_enabler _ _ _ Hc); split; congruence. }
  assert (holds_endpoint C = false) as Hh.
  { apply not_true_iff_false. intros Hh%(ok_connection _ _ _ Hc).
    by rewrite (ok_disabled _ Hw Hp) in Hh. }
  unfold holds_endpoint in Hh. destruct (cl_server C), (cl_calls C); try done; by rewrite Hi in Hh.
Qed.

(** Enabling the server, with the client [x] to be connected. *)
Definition enabled_with (w : World) (x : option N) (m : gmap N Client) : World :=
  mkWorld true (w_client w) Enabled (w_connection w) x m.

Lemma enabled_client_ok w x m c C i :
  world_ok w → w_phase w = Disabled → w_clients w !! c = Some C →
  (i = Ind_none ∧ x ≠ Some c ∧
     (client_token C = true → is_minor_version_compatible server_interface (cl_interface C) =
       false))
  ∨ (i = Ind_copied ∧ x = Some c ∧
     is_minor_version_compatible server_interface (cl_interface C) = true) →
  client_ok (enabled_with w x m) c (set_ind C i).
Proof.
  intros Hw Hp HC Hi. destruct (disabled_client w c C Hw Hp HC) as (E1 & E2 & E3 & E4).
  pose proof (ok_clients _ Hw c C HC) as Hc. pose proof (ok_disabled _ Hw Hp) as Hd.
  destruct C as [k p s ind n m'], Hc. simpl in *. subst. rewrite Hd in *.
  split; unfold client_token, holds_endpoint in *; simpl in *; try done; try tauto.
  - intros Hg. destruct (ok_gone0 Hg) as (?&?&?&?). rewrite Hd. tauto.
  - rewrite Hd. destruct Hi as [[-> _]|[-> _]]; done.
  - destruct Hi as [(->&?&_)|(->&->&_)]; [|done]. split; [done|intros []; done].
  - destruct Hi as [(->&_&Hi)|[-> _]]; [|intros ????; intuition congruence].
    intros _ Ht Hm. rewrite Hi in Hm by done. done.
Qed.

Lemma enabled_ok w x m :
  world_ok w → w_phase w = Disabled →
  (∀ c C, m !! c = Some C → client_ok (enabled_with w x m) c C) →
  (∀ c, is_Some (w_clients w !! c) → is_Some (m !! c)) →
  (∀ c C, m !! c = Some C → ∃ D, w_clients w !! c = Some D ∧ cl_phase D = cl_phase C) →
  (∀ c, x = Some c → w_client w = Some c) → world_ok (enabled_with w x m).
Proof.
  intros Hw Hp Hcl Hdom Hph Hx. split; simpl; auto; try done.
  - intros c Hc. apply Hdom, (ok_exists _ Hw). destruct Hc as [?|[?|[?|?]]]; auto; done.
  - intros c C c' C' HC HC' Hwt Hne. destruct (Hph c C HC) as (D & HD & ED).
    destruct (Hph c' C' HC') as (D' & HD' & <-).
    eapply (ok_alone _ Hw c D c' D'); auto. congruence.
Qed.

Lemma disabled_ind w c C :
  world_ok w → w_phase w = Disabled → w_clients w !! c = Some C → set_ind C Ind_none = C.
Proof.
  intros Hw Hp HC. destruct (disabled_client w c C Hw Hp HC) as [E _].
  destruct C. simpl in *. by subst.
Qed.

Lemma enabled_idle w :
  world_ok w → w_phase w = Disabled →
  (∀ c C, w_clients w !! c = Some C → client_token C = true →
    is_minor_version_compatible server_interface (cl_interface C) = false) →
  world_ok (enabled_with w None (w_clients w)).
Proof.
  intros Hw Hp Hinc. apply enabled_ok; eauto; try done.
  intros c C HC. rewrite <-(disabled_ind w c C) by done.
  apply enabled_client_ok; auto. left. split_and!; eauto.
Qed.

Lemma enabled_connecting w c C :
  world_ok w → w_phase w = Disabled → w_clients w !! c = Some C → w_client w = Some c →
  is_minor_version_compatible server_interface (cl_interface C) = true →
  world_ok (enabled_with w (Some c) (<[c := set_ind C Ind_copied]> (w_clients w))).
Proof.
  intros Hw Hp HC Hr Hm. apply enabled_ok; auto; try congruence.
  - intros c' D. destruct (decide (c' = c)) as [->|Hne].
    + rewrite lookup_insert_eq. intros [= <-]. apply enabled_client_ok; auto.
    + rewrite lookup_insert_ne by done. intros HD. rewrite <-(disabled_ind w c' D) by done.
      apply enabled_client_ok; auto. left. split_and!; [done|congruence|].
      intros Ht. destruct Hne. enough (w_client w = Some c') by congruence.
      apply (ok_record _ _ _ (ok_clients _ Hw c' D HD)).
      unfold client_token in Ht. by destruct (cl_phase D).
  - intros c' Hc'. destruct (decide (c' = c)) as [->|Hne]; [rewrite lookup_insert_eq; eauto|].
    by rewrite lookup_insert_ne.
  - intros c' D. destruct (decide (c' = c)) as [->|Hne].
    + rewrite lookup_insert_eq. intros [= <-]. eauto.
    + rewrite lookup_insert_ne by done. eauto.
Qed.

Lemma enable_ok w :
  world_ok w → w_phase w = Disabled → ∃ w', enable w = Done w' ∧ world_ok w'.
Proof.
  intros Hw Hp. unfold enable. rewrite (ok_server _ Hw), Hp. simpl.
  assert (w_enabler w = None) as Hen by (apply not_enabled_no_enabler; [done|congruence]).
  assert (set_w_phase (set_record w true (w_client w)) Enabled =
    enabled_with w None (w_clients w)) as -> by (unfold set_w_phase; simpl; by rewrite Hen).
  assert (∀ c C, w_clients w !! c = Some C → client_token C = true → w_client w = Some c) as Htok.
  { intros c C HC Ht. apply (ok_record _ _ _ (ok_clients _ Hw c C HC)).
    unfold client_token in Ht. by destruct (cl_phase C). }
  destruct (w_client w) as [c|] eqn:Hr.
  - destruct (ok_exists _ Hw c) as [C HC]; [auto|]. rewrite HC.
    destruct (is_minor_version_compatible _ _) eqn:Hm; (eexists; split; [done|]).
    + assert (set_enabler (put_client (enabled_with w None (w_clients w)) c (set_ind C Ind_copied))
        (Some c) = enabled_with w (Some c) (<[c := set_ind C Ind_copied]> (w_clients w))) as ->.
      { unfold set_enabler, put_client, enabled_with. simpl. by rewrite (ok_disabled _ Hw Hp). }
      by apply enabled_connecting.
    + apply enabled_idle; [done..|]. intros c' D HD Ht. specialize (Htok c' D HD Ht). congruence.
  - eexists. split; [done|]. apply enabled_idle; [done..|].
    intros c' D HD Ht. specialize (Htok c' D HD Ht). congruence.
Qed.
Lemma told_server w c C :
  world_ok w → w_clients w !! c = Some C → cl_server C = true → w_connection w = Some c.
Proof.
  intros Hw HC Hs. apply (ok_connection _ _ _ (ok_clients _ Hw c C HC)).
  unfold holds_endpoint. by rewrite Hs.
Qed.

Lemma forget_server_ok w c C x :
  world_ok w → w_clients w !! c = Some C → w_phase w = Sending x →
  world_ok (put_client w c (set_cl_server C false)).
Proof.
  intros Hw HC Hp.
  assert (cl_ind C = Ind_none) as Hi.
  { destruct (decide (cl_ind C = Ind_none)) as [|Hi]; [done|].
    assert (accepts (w_phase w) = true) as Ha by (by apply (indication_accepts w c C)).
    by rewrite Hp in Ha. }
  destruct (cl_calls C) eqn:Hn, (cl_server C) eqn:Hs; revert Hw HC; one_client.
Qed.

(** A phase of [disable()] after the server has left the record. *)
Lemma leave_phase_ok w q p :
  world_ok w → w_phase w = q → q ≠ Enabled → p ≠ Enabled →
  (accepts p = false → accepts q = true → nobody_connects w = true) →
  (accepts p = true → accepts q = true) →
  (∀ c, sends_to p = Some c → sends_to q = Some c ∨ w_connection w = Some c) →
  (has_told p = true → ∀ c C, w_clients w !! c = Some C → cl_server C = true →
    has_told q = true) →
  (p = Disabled → w_connection w = None) →
  (∀ x, p = Sending x → w_connection w = None ∨ w_connection w = x) →
  world_ok (set_w_phase w p).
Proof.
  intros Hw <- Hq Hp. intros. apply (set_phase_ok w (w_server w)); auto.
  - rewrite (ok_server _ Hw). by rewrite !bool_decide_false.
  - by apply not_enabled_no_enabler.
Qed.

(** The server's steps. *)
Lemma server_step_ok w e w' :
  world_ok w →
  e = Disable ∨ e = Reset_tokens ∨ e = Send_all ∨ e = Receive_not_available ∨ e = Send_done
    ∨ e = All_disconnected →
  step e w = Some (Done w') → world_ok w'.
Proof.
  intros Hw He Hstep.
  destruct He as [->|[->|[->|[->|[->| ->]]]]]; simpl in Hstep.
  - destruct (w_phase w) eqn:Hp, (w_enabler w) eqn:Hen; simplify_eq.
    apply set_phase_ok; auto; by rewrite ?Hp.
  - destruct (w_phase w) eqn:Hp; simplify_eq. by apply (leave_phase_ok w Unregistered); rewrite ?Hp.
  - destruct (w_phase w) eqn:Hp, (nobody_connects w) eqn:Hn; simplify_eq.
    by apply (leave_phase_ok w Stopping); rewrite ?Hp; auto; intros; simplify_eq; auto.
  - destruct (w_phase w) as [| | | |[c|]| |] eqn:Hp; simplify_eq.
    + destruct (w_clients w !! c) as [C|] eqn:HC; simplify_eq/=.
      assert (world_ok (put_client w c (set_cl_server C false))) as Hw1
        by (by eapply forget_server_ok).
      apply (leave_phase_ok _ (Sending (Some c))); auto; try done.
      intros _ c' D HD Hs. exfalso. pose proof (told_server _ _ _ Hw1 HD Hs) as Hx.
      apply put_connection_mono in Hx. assert (c' = c) as -> by (destruct (ok_sending _ Hw _ Hp);
        congruence). simpl in HD. rewrite lookup_insert_eq in HD.
      by simplify_eq.
    + apply (leave_phase_ok w (Sending None)); rewrite ?Hp; auto; try done.
      intros _ c C HC Hs. destruct (ok_sending _ Hw None Hp) as [Hx|Hx];
        rewrite (told_server w c C) in Hx; done.
  - destruct (w_phase w) eqn:Hp; simplify_eq. by apply (leave_phase_ok w (Sent c)); rewrite ?Hp.
  - destruct (w_phase w) eqn:Hp, (w_connection w) eqn:Hc; simplify_eq.
    by apply (leave_phase_ok w Waiting_for_clients); rewrite ?Hp.
Qed.

(** ** What holds in every state *)

Lemma step_ok w e r :
  world_ok w → disciplined e w → step e w = Some r → ∃ w', r = Done w' ∧ world_ok w'.
Proof.
  intros Hw Hd Hstep.
  assert (e = Disable ∨ e = Reset_tokens ∨ e = Send_all ∨ e = Receive_not_available ∨ e = Send_done
    ∨ e = All_disconnected → ∃ w', r = Done w' ∧ world_ok w') as Hserver.
  { intros He. destruct r as [w'|f]; [exists w'; split; [done|by eapply server_step_ok]|].
    destruct He as [->|[->|[->|[->|[->| ->]]]]]; simpl in Hstep; repeat case_match; try done.
    by destruct (_ !! _). }
  destruct e as [c i|c|c|c|c|c|c|c|c|c|c|c| | | | | | |]; try (by apply Hserver; auto 10);
    clear Hserver; simpl in Hstep;
    try (destruct (w_clients w !! c) as [C|] eqn:HC; simplify_eq/=).
  - eexists. split; [done|]. by apply make_ok.
  - destruct (cl_ind C) eqn:Hi; simplify_eq. eexists. split; [done|].
    destruct (holds_token w c C) eqn:Hh; [by apply lock_ok|].
    apply end_indication_ok; [done..|congruence|].
    apply holds_token_false in Hh as [-> _]. done.
  - destruct (cl_ind C) eqn:Hi; simplify_eq. by apply connect_ok.
  - destruct (cl_ind C) eqn:Hi; simplify_eq. eexists. split; [done|]. unfold set_server.
    destruct (client_token C) eqn:Ht; [by apply set_server_ok|].
    apply end_indication_ok; [done..|congruence|]. by rewrite Ht.
  - destruct (cl_ind C) eqn:Hi; simplify_eq. eexists. split; [done|].
    apply end_indication_ok; [done..|congruence|].
    intros ???. apply (ok_connected _ _ _ (ok_clients _ Hw c C HC)); auto.
  - destruct (cl_server C) eqn:Hs; simplify_eq. eexists. split; [done|]. by apply call_ok.
  - destruct (cl_calls C) eqn:Hs; simplify_eq. eexists. split; [done|]. by apply return_ok.
  - case_decide; simplify_eq. eexists. split; [done|]. by apply copy_endpoint_ok.
  - destruct (cl_messages C) eqn:Hs; simplify_eq. eexists. split; [done|]. by apply message_done_ok.
  - destruct (cl_phase C) eqn:Hp, (cl_calls C) eqn:Hn; simplify_eq.
    eexists. split; [done|]. by apply drop_token_ok.
  - destruct (cl_phase C) eqn:Hp; simplify_eq. eexists. split; [done|]. by apply unregister_ok.
  - destruct (cl_phase C) eqn:Hp, (holds_token w c C) eqn:Hh; simplify_eq.
    eexists. split; [done|]. by apply client_gone_ok.
  - destruct (w_phase w) eqn:Hp; simplify_eq. by apply enable_ok.
Qed.

Lemma reachable_ok w : reachable w → world_ok w.
Proof.
  induction 1 as [|w e w' _ IH Hd Hs]; [apply initial_ok|].
  destruct (step_ok w e _ IH Hd Hs) as (? & [= <-] & ?). done.
Qed.

(** C11: On any number of threads, whatever they do in whatever order, no assertion of the
    service's connectors fails, as long as no client is made for the service while
    another one's destructor is still waiting: a client that connects finds the server
    free, and a server that is enabled finds the record empty. *)
Theorem connect_never_asserts w e r :
  reachable w → disciplined e w → step e w = Some r → ∃ w', r = Done w'.
Proof.
  intros Hw Hd Hs. destruct (step_ok w e r (reachable_ok w Hw) Hd Hs) as (w' & -> & _). eauto.
Qed.

(** No callback, call or [disable()] is under way. *)
Definition quiet (w : World) : Prop :=
  map_Forall (λ _ C, cl_ind C = Ind_none ∧ cl_calls C = 0) (w_clients w) ∧
  (w_phase w = Enabled ∨ w_phase w = Disabled).

(** C12: No connection is lost or left over: when no thread is in the middle of something,
    a client that its user has is connected exactly if the server is enabled and their
    versions fit, both sides agree on it, and the server has no other client. The
    interleaved steps thus end where the undivided calls do. *)
Theorem quiet_threads_agree w c C :
  reachable w → quiet w → w_clients w !! c = Some C →
  (w_connection w = Some c ↔ cl_server C = true) ∧
  (cl_server C = true ↔ client_token C = true ∧ w_phase w = Enabled ∧
     is_minor_version_compatible server_interface (cl_interface C) = true) ∧
  (client_token C = true → w_client w = Some c).
Proof.
  intros Hw%reachable_ok [Hq Hp] HC. destruct (Hq c C HC) as [Hi Hn].
  pose proof (ok_clients _ Hw c C HC) as Hc. split_and!.
  - rewrite (ok_connection _ _ _ Hc). unfold holds_endpoint. rewrite Hi, Hn. simpl.
    by rewrite !orb_false_r.
  - split; [|intros (?&?&?); apply (ok_connected _ _ _ Hc); auto].
    intros Hs. split_and!.
    + destruct (client_token C) eqn:Ht; [done|].
      destruct (ok_dropped _ _ _ Hc Ht). congruence.
    + destruct Hp as [|Hp]; [done|]. rewrite (ok_told _ _ _ Hc) in Hs by (by rewrite Hp). done.
    + apply (ok_compatible _ _ _ Hc). auto.
  - intros Ht. apply (ok_record _ _ _ Hc). unfold client_token in Ht. by destruct (cl_phase C).
Qed.
(** ** Without the discipline *)

(** C39: A client whose [on_service_state_change] is being called by the thread that enables
    the server may be destroyed by its user, the destructor waits for the callback. It
    has left the record by then, but not the server: a second client that is made now
    registers, connects, and runs into the assertion that the server has no client. *)
Theorem connect_race w c C c2 i :
  reachable w → w_clients w !! c = Some C → cl_phase C = Alive → cl_ind C = Ind_notifying →
  cl_calls C = 0 → w_clients w !! c2 = None →
  is_minor_version_compatible server_interface i = true →
  steps [Destroy_client c; Unregister c; Make c2 i; Lock_token c2; Connect c2] w =
    Some (Fault Assertion_failed).
Proof.
  intros Hw%reachable_ok HC Hp Hi Hn HC2 Hm.
  pose proof (ok_clients _ Hw c C HC) as Hc.
  assert (c2 ≠ c) as Hne by congruence.
  assert (w_enabler w = Some c) as Hen
    by (apply (ok_enabler _ _ _ Hc); split; congruence).
  pose proof (ok_enabling _ Hw c Hen) as Hph.
  assert (w_server w = true) as Hs by (by rewrite (ok_server _ Hw), Hph).
  assert (w_connection w = Some c) as Hco.
  { apply (ok_connection _ _ _ Hc). unfold holds_endpoint. by rewrite Hi, orb_true_r. }
  destruct C as [j p s ind n m], w as [ws wc wp wco wen wcl]. simpl in *. subst.
  rewrite HC. unfold drop_token, put_client, holds_endpoint. simpl.
  rewrite lookup_insert_eq. simpl.
  unfold unregister, put_client, set_record, holds_endpoint. simpl.
  rewrite !andb_false_r. simpl. rewrite !lookup_insert_ne by done. rewrite HC2. simpl.
  unfold make. simpl. rewrite Hm. simpl. rewrite lookup_insert_eq. simpl.
  rewrite lookup_insert_eq. simpl. by rewrite bool_decide_false by congruence.
Qed.

(** ** Destructors and [disable()] return *)

(** Steps that only complete what has been started. *)
Definition completing (e : Step) : bool :=
  match e with
  | Make _ _ | Call _ | Copy_endpoint _ | Destroy_client _ | Enable | Disable => false
  | _ => true
  end.

Definition completes (w w' : World) : Prop :=
  ∃ es, Forall (λ e, completing e = true) es ∧ steps es w = Some (Done w').

Lemma completes_refl w : completes w w.
Proof. by exists []. Qed.

Lemma completes_step e w w1 w2 :
  completing e = true → step e w = Some (Done w1) → completes w1 w2 → completes w w2.
Proof.
  intros He Hs (es & Hf & Hss). exists (e :: es). split; [by constructor|]. simpl. by rewrite Hs.
Qed.

Lemma completes_one e w w1 :
  completing e = true → step e w = Some (Done w1) → completes w w1.
Proof. intros He Hs. by eapply completes_step; [| |apply completes_refl]. Qed.

Lemma completes_trans w w1 w2 : completes w w1 → completes w1 w2 → completes w w2.
Proof.
  intros (es & Hf & Hs) H2. revert w Hf Hs. induction es as [|e es IH]; simpl; intros w Hf Hs.
  { by simplify_eq. }
  apply Forall_cons in Hf as [He Hf]. destruct (step e w) as [[w'|]|] eqn:E; simplify_eq.
  by eapply completes_step; eauto.
Qed.

Lemma completing_ok e w w' :
  completing e = true → world_ok w → step e w = Some (Done w') → world_ok w'.
Proof.
  intros He Hw Hs. destruct (step_ok w e _ Hw ltac:(by destruct e) Hs) as (? & [= <-] & ?). done.
Qed.

(** What a client still has under way. *)
Definition work (C : Client) : nat :=
  match cl_ind C with
  | Ind_none => 0 | Ind_copied => 4 | Ind_locked => 3 | Ind_connected => 2 | Ind_notifying => 1
  end + cl_calls C + cl_messages C.

(** A client has come closer to its end. *)
Definition advanced (w : World) (C : Client) (w' : World) (C' : Client) : Prop :=
  work C' < work C ∧ w_phase w' = w_phase w ∧
  (cl_phase C' = cl_phase C ∨ (cl_phase C = Making ∧ cl_phase C' = Alive)).

Lemma end_indication_client w c C :
  cl_ind C ≠ Ind_none →
  ∃ C', w_clients (end_indication w c C) !! c = Some C' ∧ advanced w C (end_indication w c C) C'.
Proof.
  intros Hi. unfold end_indication.
  eexists (match cl_phase C with Making => set_phase (set_ind C Ind_none) Alive
                               | _ => set_ind C Ind_none end).
  split.
  - simpl. case_decide; simpl; by rewrite lookup_insert_eq.
  - unfold advanced, work. split_and!.
    + simpl. destruct (cl_phase C), (cl_ind C); simpl; done || lia.
    + by case_decide.
    + destruct (cl_phase C) eqn:E; simpl; auto.
Qed.

(** The step [e] of a client, which takes the branch the hypotheses say. *)
Ltac client_step e :=
  eexists e, _, _; split_and!;
  [done
  |simpl; match goal with H : w_clients _ !! _ = Some _ |- _ => rewrite H end;
   simpl; unfold connect, set_server;
   repeat match goal with
   | H : ?x = _ |- context [match ?x with _ => _ end] => rewrite H
   end; reflexivity
  |first [apply lookup_insert_eq|eassumption]
  |first [eassumption|unfold advanced, work; simpl;
     repeat match goal with H : _ = ?x |- context [match ?x with _ => _ end] => rewrite <-H end;
     repeat match goal with H : ?f ?C = _ |- context [?f ?C] => rewrite H end;
     split_and!; auto; lia]].

Lemma client_work w c C :
  world_ok w → w_clients w !! c = Some C → 0 < work C →
  ∃ e w' C', completing e = true ∧ step e w = Some (Done w') ∧
    w_clients w' !! c = Some C' ∧ advanced w C w' C'.
Proof.
  intros Hw HC Hwork. pose proof (end_indication_client w c C) as Hend.
  destruct (cl_ind C) eqn:Hi; try (destruct Hend as (C' & HC' & Ha); [done|]).
  - destruct (cl_calls C) as [|n] eqn:Hn; [destruct (cl_messages C) as [|n] eqn:Hm|].
    + unfold work in Hwork. rewrite Hi, Hn, Hm in Hwork. simpl in Hwork. lia.
    + client_step (Message_done c).
    + client_step (Return c).
  - destruct (holds_token w c C) eqn:Hh; client_step (Lock_token c).
  - pose proof (connect_free w c C Hw HC Hi) as Hf.
    destruct (server_token (w_phase w)) eqn:Ht; client_step (Connect c).
  - destruct (client_token C) eqn:Ht; client_step (Set_server c).
  - client_step (Notified c).
Qed.

(** Everything a client has under way completes. *)
Lemma drain_client w c C :
  world_ok w → w_clients w !! c = Some C →
  ∃ w' C', completes w w' ∧ world_ok w' ∧ w_clients w' !! c = Some C' ∧ work C' = 0 ∧
    w_phase w' = w_phase w ∧
    (cl_phase C' = cl_phase C ∨ (cl_phase C = Making ∧ cl_phase C' = Alive)).
Proof.
  remember (work C) as n eqn:Hn. revert w C Hn.
  induction n as [n IH] using lt_wf_ind. intros w C -> Hw HC.
  destruct (decide (0 < work C)) as [Hlt|Hge].
  2: { exists w, C. split_and!; auto using completes_refl. lia. }
  destruct (client_work w c C Hw HC Hlt) as (e & w1 & C1 & He & Hs & HC1 & Hl & Hp & Hph).
  destruct (IH (work C1) Hl w1 C1 eq_refl) as (w2 & C2 & H2 & Hw2 & HC2 & Hd & Hp2 & Hph2);
    [by eapply completing_ok|done|].
  exists w2, C2. split_and!; auto; [by eapply completes_step|congruence|].
  destruct Hph as [Hph|[Hph1 Hph]], Hph2 as [Hph2|[Hph2 Hph3]]; rewrite ?Hph in *; auto.
Qed.
(** The server's message [not_available] is delivered. *)
Lemma finish_sending w :
  world_ok w → (∃ x, w_phase w = Sending x ∨ w_phase w = Sent x) →
  ∃ w', completes w w' ∧ world_ok w' ∧ w_phase w' = Waiting_for_clients ∧
    ∀ c C, w_clients w !! c = Some C → ∃ C', w_clients w' !! c = Some C' ∧ cl_phase C' = cl_phase C.
Proof.
  intros Hw [x Hx].
  assert (∀ w1 y, world_ok w1 → w_phase w1 = Sent y → ∃ w', completes w1 w' ∧ world_ok w' ∧
    w_phase w' = Waiting_for_clients ∧ w_clients w' = w_clients w1) as Hsent.
  { intros w1 y Hw1 Hp. assert (step Send_done w1 = Some (Done (set_w_phase w1
      Waiting_for_clients)))
      as Hs by (simpl; by rewrite Hp).
    exists (set_w_phase w1 Waiting_for_clients).
    split_and!; [by apply (completes_one Send_done)|by eapply (completing_ok Send_done)|done|done].
    }
  destruct Hx as [Hp|Hp].
  2: { destruct (Hsent w x Hw Hp) as (w' & ? & ? & ? & E).
       exists w'. rewrite E. split_and!; eauto. }
  assert (∃ w1, step Receive_not_available w = Some (Done w1) ∧ w_phase w1 = Sent x ∧
    ∀ c C, w_clients w !! c = Some C → ∃ C', w_clients w1 !! c = Some C' ∧ cl_phase C' = cl_phase C)
    as (w1 & Hs1 & Hp1 & Hcl).
  { destruct x as [c|]; simpl; rewrite Hp; [|by eexists; split_and!; eauto].
    destruct (ok_exists _ Hw c) as [C HC]; [rewrite Hp; auto|]. rewrite HC. simpl.
    eexists. split_and!; [done|done|]. intros c' C' HC'. simpl.
    destruct (decide (c' = c)) as [->|Hne]; [rewrite lookup_insert_eq|rewrite lookup_insert_ne by
      done];
      simplify_eq; eauto. }
  destruct (Hsent w1 x) as (w' & Hw' & Hok & Hp' & E);
    [by eapply (completing_ok Receive_not_available)|done|].
  exists w'. rewrite E. split_and!; auto. by eapply (completes_step Receive_not_available).
Qed.

(** Nobody sends to clients any more. *)
Lemma stop_sending w c C :
  world_ok w → w_clients w !! c = Some C →
  ∃ w' C', completes w w' ∧ world_ok w' ∧ w_clients w' !! c = Some C' ∧
    cl_phase C' = cl_phase C ∧ sends_to (w_phase w') = None.
Proof.
  intros Hw HC.
  destruct (w_phase w) as [| | | |x|x|] eqn:Hp;
    try (exists w, C; split_and!; [apply completes_refl|done..|by rewrite Hp]).
  all: destruct (finish_sending w Hw) as (w' & ? & ? & Hp' & Hcl); [eauto|].
  all: destruct (Hcl c C HC) as (C' & HC' & ?); exists w', C'; split_and!; auto; by rewrite Hp'.
Qed.

Lemma idle_unheld w c C :
  world_ok w → w_clients w !! c = Some C → work C = 0 → sends_to (w_phase w) = None →
  client_token C = false → holds_token w c C = false.
Proof.
  intros Hw HC Hd Hs Ht. pose proof (ok_clients _ Hw c C HC) as Hc. unfold work in Hd.
  destruct (ok_dropped _ _ _ Hc Ht) as [Hcs Hn].
  apply holds_token_false. split_and!; auto; try lia; try congruence.
  - destruct (cl_ind C); auto; lia.
  - rewrite (ok_connection _ _ _ Hc). unfold holds_endpoint. rewrite Hcs, Hn.
    by destruct (cl_ind C); simpl in *; lia || done.
Qed.

(** A client's destructor returns: from every state in which it has started, letting
    the started callbacks, calls and messages complete, and nothing else, ends its wait. *)
Theorem client_destructor_returns w c C :
  reachable w → w_clients w !! c = Some C →
  cl_phase C = Unregistering ∨ cl_phase C = Waiting_for_token →
  ∃ es w' C', Forall (λ e, completing e = true) es ∧ steps es w = Some (Done w') ∧
    w_clients w' !! c = Some C' ∧ cl_phase C' = Gone.
Proof.
  intros Hw%reachable_ok HC Hp.
  enough (∃ w' C', completes w w' ∧ w_clients w' !! c = Some C' ∧ cl_phase C' = Gone)
    as (w' & C' & (es & Hf & Hs) & ? & ?) by (by exists es, w', C').
  assert (∃ w1 C1, completes w w1 ∧ world_ok w1 ∧ w_clients w1 !! c = Some C1 ∧
    cl_phase C1 = Waiting_for_token) as (w1 & C1 & H1 & Hw1 & HC1 & Hp1).
  { destruct Hp as [Hp|Hp]; [|exists w, C; split_and!; auto using completes_refl].
    assert (step (Unregister c) w = Some (Done (unregister w c C))) as Hs
      by (simpl; rewrite HC; simpl; by rewrite Hp).
    exists (unregister w c C), (set_phase C Waiting_for_token). split_and!;
      [by apply (completes_one (Unregister c))|by eapply (completing_ok (Unregister c))|
       apply lookup_insert_eq|done]. }
  destruct (stop_sending w1 c C1) as (w2 & C2 & H2 & Hw2 & HC2 & Hp2 & Hs2); [done..|].
  destruct (drain_client w2 c C2) as (w3 & C3 & H3 & Hw3 & HC3 & Hd3 & Hph3 & Hp3); [done..|].
  assert (cl_phase C3 = Waiting_for_token) as E by (destruct Hp3 as [?|[? ?]]; congruence).
  exists (put_client w3 c (set_phase C3 Gone)), (set_phase C3 Gone).
  split_and!; [|apply lookup_insert_eq|done].
  eapply completes_trans; [done|]. eapply completes_trans; [done|]. eapply completes_trans; [done|].
  apply (completes_one (Client_gone c)); [done|].
  simpl. rewrite HC3. simpl. rewrite E, idle_unheld; auto; [by rewrite Hph3|].
  unfold client_token. by rewrite E.
Qed.
(** The server's own steps of [disable()]. *)
Lemma stop_connecting w :
  world_ok w → w_phase w = Stopping →
  ∃ w', completes w w' ∧ world_ok w' ∧ w_phase w' = Stopping ∧ nobody_connects w' = true.
Proof.
  intros Hw Hp. destruct (nobody_connects w) eqn:Hn.
  { exists w. split_and!; auto using completes_refl. }
  apply bool_decide_eq_false in Hn. apply map_not_Forall in Hn as (c & C & HC & Hm);
    [|solve_decision].
  apply dec_stable in Hm.
  destruct (drain_client w c C Hw HC) as (w' & C' & H1 & Hw' & HC' & Hd & Hp' & Hph).
  exists w'. split_and!; auto; [congruence|]. apply bool_decide_eq_true. intros c' D HD HmD.
  destruct (ok_making _ _ _ (ok_clients _ Hw' c' D HD) HmD) as [Hi _].
  assert (c' = c) as ->.
  { eapply only_one; eauto; [congruence|]. destruct Hph as [E|[_ E]]; congruence. }
  assert (D = C') as -> by congruence.
  unfold work in Hd. destruct (cl_ind C'); simpl in *; lia || done.
Qed.

(** After the message, only calls keep a client connected. *)
Lemma told_connection w c :
  world_ok w → has_told (w_phase w) = true → w_connection w = Some c →
  ∃ C, w_clients w !! c = Some C ∧ cl_calls C ≠ 0 ∧ cl_phase C ≠ Gone.
Proof.
  intros Hw Ht Hco. destruct (ok_exists _ Hw c) as [C HC]; [auto|]. exists C.
  pose proof (ok_clients _ Hw c C HC) as Hc. pose proof (ok_told _ _ _ Hc Ht) as Hs.
  assert (cl_ind C = Ind_none) as Hi.
  { destruct (decide (cl_ind C = Ind_none)) as [|Hi]; [done|].
    pose proof (indication_accepts w c C Hw HC Hi) as Ha%accepts_not_told. congruence. }
  split_and!; [done| |].
  - intros Hn. apply (ok_connection _ _ _ Hc) in Hco. unfold holds_endpoint in Hco.
    by rewrite Hs, Hi, Hn in Hco.
  - intros Hg. by destruct (ok_gone _ _ _ Hc Hg).
Qed.

Lemma wait_for_clients w :
  world_ok w → w_phase w = Waiting_for_clients → ∃ w', completes w w' ∧ w_phase w' = Disabled.
Proof.
  intros Hw Hp.
  assert (∃ w1, completes w w1 ∧ w_phase w1 = Waiting_for_clients ∧ w_connection w1 = None)
    as (w1 & H1 & Hp1 & Hc1).
  { destruct (w_connection w) as [c|] eqn:Hc; [|exists w; auto using completes_refl].
    destruct (told_connection w c Hw) as (C & HC & Hn & Hg); [by rewrite Hp|done|].
    destruct (drain_client w c C Hw HC) as (w' & C' & H1 & Hw' & HC' & Hd & Hp' & Hph).
    exists w'. split_and!; auto; [congruence|].
    destruct (w_connection w') as [x|] eqn:Hx; [|done].
    destruct (told_connection w' x Hw') as (X & HX & HnX & HgX); [by rewrite Hp', Hp|done|].
    assert (x = c) as ->.
    { eapply (only_one w' x X c C'); eauto. destruct Hph as [E|[_ E]]; congruence. }
    assert (X = C') as -> by congruence. unfold work in Hd. lia. }
  exists (set_w_phase w1 Disabled). split; [|done]. eapply completes_trans; [done|].
  apply (completes_one All_disconnected); [done|]. simpl. by rewrite Hp1, Hc1.
Qed.

Lemma stopping_completes w :
  world_ok w → w_phase w = Stopping → ∃ w', completes w w' ∧ w_phase w' = Disabled.
Proof.
  intros Hw Hp. destruct (stop_connecting w Hw Hp) as (w1 & H1 & Hw1 & Hp1 & Hn).
  assert (step Send_all w1 = Some (Done (set_w_phase w1 (Sending (w_connection w1))))) as Hs
    by (simpl; by rewrite Hp1, Hn).
  destruct (finish_sending (set_w_phase w1 (Sending (w_connection w1)))) as (w2 & H2 & Hw2 & Hp2 &
    _);
    [by eapply (completing_ok Send_all)|eauto|].
  destruct (wait_for_clients w2 Hw2 Hp2) as (w3 & H3 & Hp3). exists w3. split; [|done].
  eapply completes_trans; [done|]. eapply (completes_step Send_all); [done..|].
  by eapply completes_trans.
Qed.

(** C13: [disable()] returns: from every state in which it has started, letting the started
    callbacks, calls and messages complete, and nothing else, leads to a disabled server. *)
Theorem disable_returns w :
  reachable w → w_phase w ≠ Enabled →
  ∃ es w', Forall (λ e, completing e = true) es ∧ steps es w = Some (Done w') ∧
    w_phase w' = Disabled.
Proof.
  intros Hw%reachable_ok Hne.
  enough (∃ w', completes w w' ∧ w_phase w' = Disabled) as (w' & (es & Hf & Hs) & ?)
    by (by exists es, w').
  destruct (w_phase w) as [| | | |x|x|] eqn:Hp; [|done|..].
  - exists w. auto using completes_refl.
  - assert (step Reset_tokens w = Some (Done (set_w_phase w Stopping))) as Hs by (simpl;
      by rewrite Hp).
    destruct (stopping_completes (set_w_phase w Stopping)) as (w' & ? & ?);
      [by eapply (completing_ok Reset_tokens)|done|].
    exists w'. split; [|done]. by eapply (completes_step Reset_tokens).
  - by apply stopping_completes.
  - destruct (finish_sending w Hw) as (w1 & H1 & Hw1 & Hp1 & _); [eauto|].
    destruct (wait_for_clients w1 Hw1 Hp1) as (w2 & ? & ?). eauto using completes_trans.
  - destruct (finish_sending w Hw) as (w1 & H1 & Hw1 & Hp1 & _); [eauto|].
    destruct (wait_for_clients w1 Hw1 Hp1) as (w2 & ? & ?). eauto using completes_trans.
  - by apply wait_for_clients.
Qed.

Lemma steps_reachable es w w' :
  reachable w → Forall (λ e, ∀ w, disciplined e w) es → steps es w = Some (Done w') → reachable w'.
Proof.
  revert w. induction es as [|e es IH]; simpl; intros w Hw Hd Hs; [by simplify_eq|].
  apply Forall_cons in Hd as [He Hd]. destruct (step e w) as [[w1|]|] eqn:E; simplify_eq.
  eapply IH; [by eapply reachable_step|done..].
Qed.
End steps.

(** ** Examples *)

Definition some_interface : Service_interface_identifier :=
  {| sii_id := "interface"; sii_version := {| major := 1; minor := 2 |} |}.

(** A client is made, then [es]. *)
Definition after (es : list Step) : World :=
  match steps some_interface (Make 1 some_interface :: es) initial with
  | Some (Done w) => w
  | _ => initial
  end.

Definition not_making (e : Step) : bool := match e with Make _ _ => false | _ => true end.

Lemma after_reachable es : forallb not_making es = true → reachable some_interface (after es).
Proof.
  intros Hes. unfold after.
  destruct (steps _ _ _) as [[w|]|] eqn:E; [|apply reachable_initial..].
  simpl in E. eapply (steps_reachable _ es); [| |exact E].
  - eapply (reachable_step _ initial (Make 1 some_interface));
      [apply reachable_initial| |reflexivity].
    intros _. apply map_Forall_empty.
  - apply Forall_forall. intros e He w'. rewrite forallb_forall in Hes.
    apply list_elem_of_In in He. specialize (Hes e He). by destruct e.
Qed.

(** The client's [on_service_state_change] is being called by [enable()]. *)
Definition notifying : list Step := [Enable; Lock_token 1; Connect 1; Set_server 1].

Lemma connect_never_asserts_witness :
  ∃ r w', step some_interface (Connect 1) (after [Enable; Lock_token 1]) = Some r ∧ r = Done w'.
Proof.
  destruct (connect_never_asserts some_interface (after [Enable; Lock_token 1]) (Connect 1)
    (match step some_interface (Connect 1) (after [Enable; Lock_token 1]) with
     | Some r => r | None => Fault Aborted end)) as [w' Hw'].
  - by apply after_reachable.
  - exact I.
  - vm_compute. reflexivity.
  - eexists _, w'. split; [|exact Hw']. vm_compute. reflexivity.
Defined.

Lemma quiet_threads_agree_witness :
  ∃ C, let w := after (notifying ++ [Notified 1]) in
    w_clients w !! 1%N = Some C ∧ (w_connection w = Some 1%N ↔ cl_server C = true) ∧
    cl_server C = true.
Proof.
  eexists (mkClient some_interface Alive true Ind_none 0 0). intros w. split; [reflexivity|].
  split; [|reflexivity].
  apply (quiet_threads_agree some_interface w 1 _); [by apply after_reachable| |reflexivity].
  split; [|left; reflexivity].
  assert (w_clients w = {[1%N := mkClient some_interface Alive true Ind_none 0 0]}) as ->
    by (vm_compute; reflexivity).
  by apply map_Forall_singleton.
Defined.

Lemma connect_race_witness :
  steps some_interface [Destroy_client 1; Unregister 1; Make 2 some_interface; Lock_token 2;
    Connect 2]
    (after notifying) = Some (Fault Assertion_failed).
Proof.
  apply (connect_race some_interface (after notifying) 1
    (mkClient some_interface Alive true Ind_notifying 0 0)); try reflexivity.
  by apply after_reachable.
Defined.

Lemma client_destructor_returns_witness :
  ∃ es w' C', Forall (λ e, completing e = true) es ∧
    steps some_interface es (after (notifying ++ [Destroy_client 1])) = Some (Done w') ∧
    w_clients w' !! 1%N = Some C' ∧ cl_phase C' = Gone.
Proof.
  apply (client_destructor_returns some_interface (after (notifying ++ [Destroy_client 1])) 1
    (mkClient some_interface Unregistering false Ind_notifying 0 0)); [|reflexivity|by left].
  by apply after_reachable.
Defined.

Lemma disable_returns_witness :
  ∃ es w', Forall (λ e, completing e = true) es ∧
    steps some_interface es (after (notifying ++ [Notified 1; Call 1; Disable])) = Some (Done w') ∧
    w_phase w' = Disabled.
Proof.
  apply (disable_returns some_interface); [by apply after_reachable|].
  vm_compute. discriminate.
Defined.
