(* ===== verification/Tokens.v ===== *)
(** * The tokens between the connectors of socom

    A connector that waits until nobody uses it any more waits for a reference-counted
    token: it keeps one copy, every endpoint that leads to it has another one, and the last
    copy that goes away runs an action that ends the wait ([src/score/socom/impl/endpoint.hpp],
    [client_connector_impl.cpp], [server_connector_impl.cpp], [reference_token.hpp]). [Socom]
    says instead who points to whom and lets a connector wait until nobody points to it. Here
    the calls run with the counts, the weak references, the actions and the promises that the
    code waits for, on top of the same objects; the theorems say that the counts are those of
    the copies and that nothing else happens than in [Socom]. *)

From stdpp Require Import base numbers list gmap strings functions.
From S2P Require Import Prelude.
From S2P Require Import IpcTypes.
From S2P Require Import Socom.
From S2P Require Import SocomInvariant.
From S2P Require Import SocomCalls.

(** ** Data *)

(** The actions of the tokens that a connector hands out copies of: they fulfil its
    promises. *)
Inductive Block_action : Type :=
  | Stop_complete_client (c : N)
  | Stop_complete_server (s : N)
  | All_clients_disconnected (s : N).

(** A [Reference_token] with its use count. *)
Abbreviation Block := (nat * Block_action)%type.
(** The token of a [Server_connector_endpoint]: its action removes the client of the server
    and holds a copy of another token. *)
Abbreviation Endpoint_token := (nat * (N * option N))%type.

(** The members of a [client_connector::Impl] that hold tokens, with the promise: the token of
    the endpoint [m_server] is [ct_server]. *)
Record Client_tokens : Type := mkCT {
  ct_stop_block_token : option N;
  ct_server : option N;
  ct_stop_complete : bool;
}.

(** Those of a [server_connector::Impl]: [st_client] is the token of the endpoint in
    [m_client]. *)
Record Server_tokens : Type := mkST {
  st_stop_block_token : option N;
  st_all_clients_disconnected_block_token : option N;
  st_client : option N;
  st_stop_complete : bool;
  st_all_clients_disconnected : bool;
}.

(** The objects and the tokens. A service record holds the token of the listen endpoint of its
    server and, in the indication of its client, a weak reference to the client's token. *)
Record Tokens : Type := mkTokens {
  t_socom : Socom;
  t_blocks : gmap N Block;
  t_endpoints : gmap N Endpoint_token;
  t_clients : gmap N Client_tokens;
  t_servers : gmap N Server_tokens;
  t_listen : gmap Record_key N;
  t_indications : gmap Record_key N;
  t_next : N;                                  (* the next token *)
}.

Definition t_init : Tokens := mkTokens so_init ∅ ∅ ∅ ∅ ∅ ∅ 0.

Section setters.
Context (t : Tokens).
Definition set_socom x := mkTokens x (t_blocks t) (t_endpoints t) (t_clients t) (t_servers t)
  (t_listen t) (t_indications t) (t_next t).
Definition set_blocks x := mkTokens (t_socom t) x (t_endpoints t) (t_clients t) (t_servers t)
  (t_listen t) (t_indications t) (t_next t).
Definition set_endpoints x := mkTokens (t_socom t) (t_blocks t) x (t_clients t) (t_servers t)
  (t_listen t) (t_indications t) (t_next t).
Definition set_client_tokens x := mkTokens (t_socom t) (t_blocks t) (t_endpoints t) x
  (t_servers t) (t_listen t) (t_indications t) (t_next t).
Definition set_server_tokens x := mkTokens (t_socom t) (t_blocks t) (t_endpoints t) (t_clients t)
  x (t_listen t) (t_indications t) (t_next t).
Definition set_listen x := mkTokens (t_socom t) (t_blocks t) (t_endpoints t) (t_clients t)
  (t_servers t) x (t_indications t) (t_next t).
Definition set_indications x := mkTokens (t_socom t) (t_blocks t) (t_endpoints t) (t_clients t)
  (t_servers t) (t_listen t) x (t_next t).
Definition set_next_token x := mkTokens (t_socom t) (t_blocks t) (t_endpoints t) (t_clients t)
  (t_servers t) (t_listen t) (t_indications t) x.
End setters.

Definition ct_set_stop (C : Client_tokens) x := mkCT x (ct_server C) (ct_stop_complete C).
Definition ct_set_server (C : Client_tokens) x :=
  mkCT (ct_stop_block_token C) x (ct_stop_complete C).
Definition st_set_client (S : Server_tokens) x := mkST (st_stop_block_token S)
  (st_all_clients_disconnected_block_token S) x (st_stop_complete S)
  (st_all_clients_disconnected S).

Abbreviation TM := (M Tokens Socom_action).

(** What is not about tokens happens as in [Socom]. *)
Definition lift {A} (m : SoM A) : TM A := λ t,
  match m (t_socom t) with
  | Done (a, w, o) => Done (a, set_socom t w, o)
  | Fault f => Fault f
  end.

Definition get_client_tokens (c : N) : TM Client_tokens :=
  C ← reads (λ t, t_clients t !! c); the Use_after_free C.
Definition get_server_tokens (s : N) : TM Server_tokens :=
  S ← reads (λ t, t_servers t !! s); the Use_after_free S.
Definition put_client_tokens (c : N) (C : Client_tokens) : TM unit :=
  modify (λ t, set_client_tokens t (<[c := C]> (t_clients t))).
Definition put_server_tokens (s : N) (S : Server_tokens) : TM unit :=
  modify (λ t, set_server_tokens t (<[s := S]> (t_servers t))).

(** ** Tokens *)

(** [std::make_shared<Final_action>]. *)
Definition make_block (a : Block_action) : TM N :=
  k ← reads t_next;
  modify (λ t, set_next_token (set_blocks t (<[k := (1, a)]> (t_blocks t))) (k + 1)%N);;
  mret k.
Definition make_endpoint (s : N) (token : option N) : TM N :=
  e ← reads t_next;
  modify (λ t, set_next_token (set_endpoints t (<[e := (1, (s, token))]> (t_endpoints t)))
    (e + 1)%N);;
  mret e.

(** A copy of a token, and of one that may be missing. *)
Definition copy_block (k : N) : TM unit :=
  b ← reads (λ t, t_blocks t !! k);
  '(n, a) ← the Use_after_free b;
  modify (λ t, set_blocks t (<[k := (S n, a)]> (t_blocks t))).
Definition copy_endpoint (e : N) : TM unit :=
  x ← reads (λ t, t_endpoints t !! e);
  '(n, a) ← the Use_after_free x;
  modify (λ t, set_endpoints t (<[e := (S n, a)]> (t_endpoints t))).
Definition maybe (f : N → TM unit) (k : option N) : TM unit :=
  match k with Some k => f k | None => mret tt end.

(** [Weak_reference_token::lock]. *)
Definition lock_weak (k : N) : TM bool :=
  b ← reads (λ t, t_blocks t !! k);
  match b with
  | Some _ => copy_block k;; mret true
  | None => mret false
  end.

(** [set_value()] of a promise. A second one would throw, which the [Final_action] that calls
    it ignores. *)
Definition fulfil (a : Block_action) : TM unit :=
  match a with
  | Stop_complete_client c =>
    C ← get_client_tokens c;
    put_client_tokens c (mkCT (ct_stop_block_token C) (ct_server C) true)
  | Stop_complete_server s =>
    S ← get_server_tokens s;
    put_server_tokens s (mkST (st_stop_block_token S)
      (st_all_clients_disconnected_block_token S) (st_client S) true
      (st_all_clients_disconnected S))
  | All_clients_disconnected s =>
    S ← get_server_tokens s;
    put_server_tokens s (mkST (st_stop_block_token S)
      (st_all_clients_disconnected_block_token S) (st_client S) (st_stop_complete S) true)
  end.

(** A copy goes away; the last one runs the action. *)
Definition drop_block (k : N) : TM unit :=
  b ← reads (λ t, t_blocks t !! k);
  '(n, a) ← the Use_after_free b;
  if n =? 1 then modify (λ t, set_blocks t (delete k (t_blocks t)));; fulfil a
  else modify (λ t, set_blocks t (<[k := (pred n, a)]> (t_blocks t))).

(** [Impl::remove_client]. *)
Definition remove_client (s : N) : TM unit :=
  lift (remove_connected_client s);;
  S ← get_server_tokens s;
  put_server_tokens s (st_set_client S None);;
  maybe drop_block (st_client S).

(** The action of an endpoint's token ends with the copy that it holds. *)
Definition drop_endpoint (e : N) : TM unit :=
  x ← reads (λ t, t_endpoints t !! e);
  '(n, (s, token)) ← the Use_after_free x;
  if n =? 1 then
    modify (λ t, set_endpoints t (delete e (t_endpoints t)));;
    remove_client s;;
    maybe drop_block token
  else modify (λ t, set_endpoints t (<[e := (pred n, (s, token))]> (t_endpoints t))).

(** A copy that lives as long as a computation. *)
Definition holding {A} (k : option N) (m : TM A) : TM A :=
  maybe copy_block k;;
  a ← m;
  maybe drop_block k;;
  mret a.

(** ** Messages *)

(** The messages of a client connector to its server that are about events and methods. *)
Inductive Server_message : Type :=
  | Msg_call_method (id payload : N)
  | Msg_subscribe_event (id : N) (mode : Event_mode)
  | Msg_unsubscribe_event (id : N)
  | Msg_request_event_update (id : N)
  | Msg_allocate_method_call_payload (id : N).

(** The messages of a server connector to its client. *)
Inductive Client_message : Type :=
  | Msg_service_state_change (available : bool) (server : N)
  | Msg_update_event (id payload : N)
  | Msg_update_requested_event (id payload : N)
  | Msg_allocate_event_payload (id : N).

(** [Client_connection::receive]: the connector gets the message. [allocated] is what the
    server's callback answers to a request for memory. *)
Definition receive_at_server (allocated : Result Socom_error unit) (s : N) (m : Server_message) :
    SoM (Result Socom_error unit) :=
  match m with
  | Msg_call_method id payload => receive_call_method s id payload
  | Msg_subscribe_event id mode => receive_subscribe_event s id mode
  | Msg_unsubscribe_event id => receive_unsubscribe_event s id
  | Msg_request_event_update id => receive_request_event_update s id
  | Msg_allocate_method_call_payload id => receive_allocate_method_call_payload s id allocated
  end.

(** [m_server.reset()]. *)
Definition reset_server_endpoint (c : N) : TM unit :=
  C ← get_client_tokens c;
  match ct_server C with
  | None => mret tt
  | Some e =>
    put_client_tokens c (ct_set_server C None);;
    lift (update_client c (λ o, cc_set_server o None));;
    drop_endpoint e
  end.

(** [Impl::receive] of a client, message by message. *)
Definition receive_at_client (c : N) (m : Client_message) : TM unit :=
  match m with
  | Msg_service_state_change available s =>
    (if available then mret tt else reset_server_endpoint c);;
    lift (emit (Cb_service_state_change c available s))
  | Msg_update_event id payload => lift (emit (Cb_event_update c id payload))
  | Msg_update_requested_event id payload => lift (emit (Cb_event_requested_update c id payload))
  | Msg_allocate_event_payload id => lift (emit (Cb_event_payload_allocate c id))
  end.

(** [Impl::send] of a client: the endpoint is copied while the mutex is held and used
    without it. *)
Definition send_to_server (allocated : Result Socom_error unit) (c : N) (m : Server_message) :
    TM (Result Socom_error unit) :=
  C ← get_client_tokens c;
  match ct_server C with
  | None => mret (Err runtime_error_service_not_available)
  | Some e =>
    copy_endpoint e;;
    x ← reads (λ t, t_endpoints t !! e);
    '(_, (s, _)) ← the Use_after_free x;
    r ← lift (receive_at_server allocated s m);
    drop_endpoint e;;
    mret r
  end.

(** [Event::get_client]: a copy of the endpoint in [m_client], which the event points to. *)
Definition get_event_client (s : N) (client : option N) : TM (option (N * N)) :=
  match client with
  | None => mret None
  | Some c =>
    S ← get_server_tokens s;
    k ← the Use_after_free (st_client S);
    copy_block k;;
    mret (Some (c, k))
  end.

(** [Impl::send] of a server to an endpoint that may be missing. *)
Definition send_to_client (client : option (N * N)) (m : Client_message) : TM unit :=
  match client with
  | None => mret tt
  | Some (c, k) => receive_at_client c m;; drop_block k
  end.

(** [send_all]: copies of [m_client] and of the endpoint in it. *)
Definition send_all (s : N) (m : Client_message) : TM unit :=
  o ← lift (get_server s);
  S ← get_server_tokens s;
  match sc_client o with
  | None => mret tt
  | Some c => holding (st_client S) (holding (st_client S) (receive_at_client c m))
  end.

(** ** Connecting *)

(** [Impl::receive(Connect)] of a server, given the client's endpoint; it returns the token of
    an endpoint of its own. *)
Definition receive_connect_message (s c k : N) : TM (Result Socom_error N) :=
  S ← get_server_tokens s;
  match st_stop_block_token S with
  | None => mret (Err runtime_error_service_not_available)
  | Some _ =>
    o ← lift (get_server s);
    assertM (bool_decide (sc_client o = None));;
    copy_block k;;
    lift (update_server s (λ o, sc_set_client o (Some c)));;
    put_server_tokens s (st_set_client S (Some k));;
    maybe copy_block (st_all_clients_disconnected_block_token S);;
    e ← make_endpoint s (st_all_clients_disconnected_block_token S);
    mret (Ok e)
  end.

(** [set_id_mappings_and_server]: not while the destructor is running. *)
Definition set_server_endpoint (c s e : N) : TM bool :=
  C ← get_client_tokens c;
  match ct_stop_block_token C with
  | None => mret false
  | Some _ =>
    copy_endpoint e;;
    put_client_tokens c (ct_set_server C (Some e));;
    lift (update_client c (λ o, cc_set_server o (Some s)));;
    maybe drop_endpoint (ct_server C);;
    mret true
  end.

(** The function that [make_on_server_update_callback] returns, with the weak reference [k]. *)
Definition server_indication (k c s : N) : TM unit :=
  locked ← lock_weak k;
  if (locked : bool) then
    copy_block k;;
    r ← receive_connect_message s c k;
    match r with
    | Err _ => mret tt
    | Ok e =>
      stored ← set_server_endpoint c s e;
      whenM stored (receive_at_client c (Msg_service_state_change true s));;
      drop_endpoint e
    end;;
    drop_block k;;
    drop_block k
  else mret tt.

(** Bind a client to a server if their minor versions allow it. *)
Definition bind (server_interface : Service_interface_identifier) (s : N)
    (client_interface : Service_interface_identifier) (c k : N) : TM unit :=
  if is_minor_version_compatible server_interface client_interface then
    assertM (is_interface_compatible server_interface client_interface);;
    server_indication k c s
  else mret tt.

(** ** Client connectors *)

(** [register_connector] of a client: the record keeps its indication, and the endpoint of the
    current server is copied out of the record. *)
Definition register_client (interface : Service_interface_identifier)
    (instance : Service_instance) (c k : N) : TM (Result Construction_error bool) :=
  let key := record_key interface instance in
  r ← lift (register_client_connector key interface c);
  match r with
  | Err e => mret (Err e)
  | Ok current_server =>
    modify (λ t, set_indications t (<[key := k]> (t_indications t)));;
    match current_server with
    | Some (server_interface, s) =>
      listen ← reads (λ t, t_listen t !! key);
      holding listen (bind server_interface s interface c k);;
      mret (Ok false)
    | None =>
      lift (get_service_requests interface instance);;
      mret (Ok true)
    end
  end.

(** The start of the destructor of a client: its token and its endpoint are reset. *)
Definition stop_client (c : N) : TM unit :=
  C ← get_client_tokens c;
  put_client_tokens c (ct_set_stop C None);;
  lift (update_client c (λ o, cc_set_stop_token o false));;
  maybe drop_block (ct_stop_block_token C);;
  reset_server_endpoint c.

(** Its end: it waits for the promise. *)
Definition finish_client (c : N) : TM unit :=
  C ← get_client_tokens c;
  if ct_stop_complete C then
    lift (modify (λ w, set_clients w (delete c (so_clients w))));;
    modify (λ t, set_client_tokens t (delete c (t_clients t)))
  else raise Waits_forever.

Definition make_client (callbacks_ok : bool) (interface : Service_interface_identifier)
    (instance : Service_instance) : TM (Result Construction_error N) :=
  if callbacks_ok then
    c ← lift (reads so_next);
    lift (modify (λ w, set_next (set_clients w (<[c := mkClientConnector interface instance true
      None false]> (so_clients w))) (c + 1)%N));;
    k ← make_block (Stop_complete_client c);
    put_client_tokens c (mkCT (Some k) None false);;
    registration ← register_client interface instance c k;
    match registration with
    | Err e => stop_client c;; finish_client c;; mret (Err e)
    | Ok requests =>
      lift (update_client c (λ o, cc_set_requests o requests));;
      mret (Ok c)
    end
  else mret (Err callback_missing).

(** [~Impl]. *)
Definition destroy_client (c : N) : TM unit :=
  stop_client c;;
  o ← lift (get_client c);
  let key := record_key (cc_interface o) (cc_instance o) in
  w ← reads t_socom;
  lift (update_record key {| sr_server := sr_server (get_record w key); sr_client := None |});;
  modify (λ t, set_indications t (delete key (t_indications t)));;
  lift (whenM (cc_requests o) (remove_service_requests (cc_interface o) (cc_instance o)));;
  finish_client c.

(** ** Server connectors *)

Definition make_server (callbacks_ok : bool) (interface : Service_interface_identifier)
    (num_methods : N) (num_events : nat) (instance : Service_instance) :
    TM (Result Construction_error N) :=
  r ← lift (make_server_connector callbacks_ok interface num_methods num_events instance);
  match r with
  | Ok s => put_server_tokens s (mkST None None None false false);; mret (Ok s)
  | Err e => mret (Err e)
  end.

(** [register_connector] of a server, whose endpoint the record copies. *)
Definition register_server (interface : Service_interface_identifier)
    (instance : Service_instance) (s k : N) : TM unit :=
  let key := record_key interface instance in
  current_client ← lift (register_server_connector key interface s);
  copy_block k;;
  modify (λ t, set_listen t (<[key := k]> (t_listen t)));;
  match current_client with
  | Some (client_interface, c) =>
    indication ← reads (λ t, t_indications t !! key);
    k' ← the Null_dereference indication;
    bind interface s client_interface c k'
  | None => mret tt
  end.

(** [Impl::enable]. *)
Definition enable (s : N) : TM unit :=
  o ← lift (get_server s);
  assertM (negb (sc_registered o));;
  S ← get_server_tokens s;
  k ← make_block (Stop_complete_server s);
  all ← make_block (All_clients_disconnected s);
  put_server_tokens s (mkST (Some k) (Some all) (st_client S) false false);;
  lift (update_server s (λ o, sc_set_stop_token o true));;
  maybe drop_block (st_stop_block_token S);;
  maybe drop_block (st_all_clients_disconnected_block_token S);;
  holding (Some k) (register_server (sc_interface o) (sc_instance o) s k);;
  lift (update_server s (λ o, sc_set_registered o true)).

(** [wait()] on the future of a promise. *)
Definition wait (promise : bool) : TM unit := if promise then mret tt else raise Waits_forever.

(** [Impl::disable]. *)
Definition disable (s : N) : TM unit :=
  o ← lift (get_server s);
  if sc_registered o then
    lift (update_server s (λ o, sc_set_registered o false));;
    w ← reads t_socom;
    let key := record_key (sc_interface o) (sc_instance o) in
    lift (update_record key {| sr_server := None; sr_client := sr_client (get_record w key) |});;
    listen ← reads (λ t, t_listen t !! key);
    modify (λ t, set_listen t (delete key (t_listen t)));;
    maybe drop_block listen;;
    S ← get_server_tokens s;
    put_server_tokens s (mkST None None (st_client S) (st_stop_complete S)
      (st_all_clients_disconnected S));;
    lift (update_server s (λ o, clear_events (sc_set_stop_token o false)));;
    maybe drop_block (st_stop_block_token S);;
    maybe drop_block (st_all_clients_disconnected_block_token S);;
    S ← get_server_tokens s;
    wait (st_stop_complete S);;
    send_all s (Msg_service_state_change false s);;
    S ← get_server_tokens s;
    wait (st_all_clients_disconnected S)
  else mret tt.

(** [~Impl], and the action that frees the identifier. *)
Definition destroy_server (s : N) : TM unit :=
  disable s;;
  o ← lift (get_server s);
  lift (modify (λ w, set_identifiers w (so_identifiers w ∖ {[ (sc_interface o,
    sc_instance o) ]})));;
  lift (modify (λ w, set_servers w (delete s (so_servers w))));;
  modify (λ t, set_server_tokens t (delete s (t_servers t))).

(** [update_event] and [update_requested_event]. *)
Definition send_update_event (s id payload : N) : TM (Result Server_connector_error unit) :=
  o ← lift (get_server s);
  if (N.of_nat (sc_num_events o) <=? id)%N then mret (Err server_logic_error_id_out_of_range)
  else
    assertM (N.to_nat id <? length (sc_subscriber o));;
    client ← get_event_client s (event_client (N.to_nat id) (sc_subscriber o));
    send_to_client client (Msg_update_event id payload);;
    mret (Ok tt).

Definition send_update_requested_event (s id payload : N) :
    TM (Result Server_connector_error unit) :=
  o ← lift (get_server s);
  if (N.of_nat (sc_num_events o) <=? id)%N then mret (Err server_logic_error_id_out_of_range)
  else
    assertM (N.to_nat id <? length (sc_update_requester o));;
    client ← get_event_client s (event_client (N.to_nat id) (sc_update_requester o));
    lift (update_server s (λ o, sc_set_update_requester o
      (clear_event (N.to_nat id) (sc_update_requester o))));;
    send_to_client client (Msg_update_requested_event id payload);;
    mret (Ok tt).

(** [allocate_event_payload]; [allocated] is what the subscriber's callback answers. *)
Definition allocate_payload (allocated : Result Server_connector_error unit) (s id : N) :
    TM (Result Server_connector_error unit) :=
  o ← lift (get_server s);
  if (N.of_nat (sc_num_events o) <=? id)%N then mret (Err server_logic_error_id_out_of_range)
  else
    assertM (N.to_nat id <? length (sc_subscriber o));;
    client ← get_event_client s (event_client (N.to_nat id) (sc_subscriber o));
    send_to_client client (Msg_allocate_event_payload id);;
    mret (match client with
          | Some _ => allocated
          | None => Err runtime_error_no_client_subscribed_for_event
          end).

(** ** Calls *)

(** The calls of [socom_step], with tokens. *)
Definition ignore {A} (m : TM A) : TM unit := m ≫= λ _, mret tt.

Definition token_step (call : Socom_call) : TM unit :=
  match call with
  | Make_client ok i inst => ignore (make_client ok i inst)
  | Destroy_client c => destroy_client c
  | Make_server ok i m e inst => ignore (make_server ok i m e inst)
  | Enable s => enable s
  | Disable s => disable s
  | Destroy_server s => destroy_server s
  | Register_bridge _ _ | Unregister_bridge _ | Get_event_mode _ _ => lift (socom_step call)
  | Update_event s id p => ignore (send_update_event s id p)
  | Update_requested_event s id p => ignore (send_update_requested_event s id p)
  | Allocate_event_payload s id => ignore (allocate_payload (Ok tt) s id)
  | Subscribe_event c id mode => ignore (send_to_server (Ok tt) c (Msg_subscribe_event id mode))
  | Unsubscribe_event c id => ignore (send_to_server (Ok tt) c (Msg_unsubscribe_event id))
  | Request_event_update c id => ignore (send_to_server (Ok tt) c (Msg_request_event_update id))
  | Call_method c id p => ignore (send_to_server (Ok tt) c (Msg_call_method id p))
  | Allocate_method_call_payload c id =>
    ignore (send_to_server (Ok tt) c (Msg_allocate_method_call_payload id))
  end.

(** ** The tokens in use

    [own] says which token a promise waits for and [cnt] how many copies of it there are. *)

#[export] Instance Block_action_eq_dec : EqDecision Block_action.
Proof. solve_decision. Defined.

Definition blocks_ok (bl : gmap N Block) (own : Block_action → option N)
    (cnt : Block_action → nat) : Prop :=
  ∀ k n a, bl !! k = Some (n, a) ↔ own a = Some k ∧ n = cnt a.

Lemma blocks_ok_ext bl own cnt own' cnt' :
  blocks_ok bl own cnt → (∀ a, own' a = own a) → (∀ a, is_Some (own a) → cnt' a = cnt a) →
  blocks_ok bl own' cnt'.
Proof.
  intros H Ho Hc k n a. pose proof (H k n a) as Hi. rewrite Hi, Ho.
  split; intros [E ->]; (split; [done|]).
  - symmetry. apply Hc. by rewrite E.
  - apply Hc. by rewrite E.
Qed.

Lemma blocks_ok_at bl own cnt a k :
  blocks_ok bl own cnt → own a = Some k → bl !! k = Some (cnt a, a).
Proof. intros H E. by apply H. Qed.

Lemma blocks_ok_inj bl own cnt a a' k :
  blocks_ok bl own cnt → own a = Some k → own a' = Some k → a = a'.
Proof. intros H E E'. apply (blocks_ok_at _ _ _ _ _ H) in E, E'. congruence. Qed.

Lemma blocks_ok_count bl own cnt a k n :
  blocks_ok bl own cnt → own a = Some k →
  blocks_ok (<[k := (n, a)]> bl) own (<[a := n]> cnt).
Proof.
  intros H E k' n' a'. destruct (decide (a' = a)) as [->|Ha].
  - rewrite fn_lookup_insert. destruct (decide (k' = k)) as [->|Hk].
    + rewrite lookup_insert_eq. naive_solver.
    + rewrite lookup_insert_ne by done. split; [|intros [? _]; congruence].
      intros [? _]%(H k' n' a). congruence.
  - rewrite fn_lookup_insert_ne by done. destruct (decide (k' = k)) as [->|Hk].
    + rewrite lookup_insert_eq. split; [congruence|]. intros [E' _].
      by destruct Ha; eapply blocks_ok_inj.
    + rewrite lookup_insert_ne by done. apply H.
Qed.

Lemma blocks_ok_delete bl own cnt a k :
  blocks_ok bl own cnt → own a = Some k → blocks_ok (delete k bl) (<[a := None]> own) cnt.
Proof.
  intros H E k' n' a'. pose proof (H k' n' a') as Hi. rewrite lookup_delete_Some, Hi.
  destruct (decide (a' = a)) as [->|Ha].
  - rewrite fn_lookup_insert. naive_solver.
  - rewrite fn_lookup_insert_ne by done. split; [naive_solver|]. intros [E' ->].
    split_and!; try done. intros <-. by destruct Ha; eapply blocks_ok_inj.
Qed.

Lemma blocks_ok_new bl own cnt a k n :
  blocks_ok bl own cnt → own a = None → (∀ a', own a' ≠ Some k) →
  blocks_ok (<[k := (n, a)]> bl) (<[a := Some k]> own) (<[a := n]> cnt).
Proof.
  intros H E Hk k' n' a'. destruct (decide (a' = a)) as [->|Ha].
  - rewrite !fn_lookup_insert. destruct (decide (k' = k)) as [->|Hne].
    + rewrite lookup_insert_eq. naive_solver.
    + rewrite lookup_insert_ne by done. split; [|naive_solver]. intros [? _]%(H k' n' a).
      congruence.
  - rewrite !fn_lookup_insert_ne by done. destruct (decide (k' = k)) as [->|Hne].
    + rewrite lookup_insert_eq. split; [congruence|]. intros [E' _]. by destruct (Hk a').
    + rewrite lookup_insert_ne by done. apply H.
Qed.

(** *** Running the operations on tokens *)

Lemma lifted_run {A B} (m : SoM A) (f : A → TM B) t a w :
  m (t_socom t) = Done (a, w, []) → (lift m ≫= f) t = f a (set_socom t w).
Proof. intros E. apply bind_silent. unfold lift. by rewrite E. Qed.

Lemma lift_emits {A B} (m : SoM A) (f : A → TM B) t a w o :
  m (t_socom t) = Done (a, w, o) →
  (lift m ≫= f) t = match f a (set_socom t w) with
                    | Done (x, t', o') => Done (x, t', o ++ o')
                    | Fault e => Fault e
                    end.
Proof. intros E. apply bind_run. unfold lift. by rewrite E. Qed.

Lemma lift_fault {A B} (m : SoM A) (f : A → TM B) t e :
  m (t_socom t) = Fault e → (lift m ≫= f) t = Fault e.
Proof. intros E. unfold lift, mbind, M_bind. by rewrite E. Qed.

Lemma lift_get_server {B} s S (f : Server_connector → TM B) t :
  so_servers (t_socom t) !! s = Some S → (lift (get_server s) ≫= f) t = f S t.
Proof.
  intros E. rewrite (lifted_run _ _ _ S (t_socom t)); [by destruct t|].
  unfold get_server. rewrite reads_run. by rewrite E.
Qed.

Lemma lift_get_client {B} c C (f : Client_connector → TM B) t :
  so_clients (t_socom t) !! c = Some C → (lift (get_client c) ≫= f) t = f C t.
Proof.
  intros E. rewrite (lifted_run _ _ _ C (t_socom t)); [by destruct t|].
  unfold get_client. rewrite reads_run. by rewrite E.
Qed.

Lemma lift_update_server {B} s S g (f : unit → TM B) t :
  so_servers (t_socom t) !! s = Some S →
  (lift (update_server s g) ≫= f) t =
    f tt (set_socom t (set_servers (t_socom t) (<[s := g S]> (so_servers (t_socom t))))).
Proof.
  intros E. apply lifted_run. unfold update_server, modify. by rewrite (alter_as_insert _ _ _ _ E).
Qed.

Lemma lift_update_client {B} c C g (f : unit → TM B) t :
  so_clients (t_socom t) !! c = Some C →
  (lift (update_client c g) ≫= f) t =
    f tt (set_socom t (set_clients (t_socom t) (<[c := g C]> (so_clients (t_socom t))))).
Proof.
  intros E. apply lifted_run. unfold update_client, modify. by rewrite (alter_as_insert _ _ _ _ E).
Qed.

Lemma put_client_run {B} c C (f : unit → TM B) t :
  (put_client_tokens c C ≫= f) t = f tt (set_client_tokens t (<[c := C]> (t_clients t))).
Proof. unfold put_client_tokens. by rewrite modify_run. Qed.

Lemma put_server_run {B} s S (f : unit → TM B) t :
  (put_server_tokens s S ≫= f) t = f tt (set_server_tokens t (<[s := S]> (t_servers t))).
Proof. unfold put_server_tokens. by rewrite modify_run. Qed.

Lemma make_endpoint_run {B} s x (f : N → TM B) t :
  (make_endpoint s x ≫= f) t = f (t_next t) (set_next_token
    (set_endpoints t (<[t_next t := (1, (s, x))]> (t_endpoints t))) (t_next t + 1)).
Proof.
  unfold make_endpoint. rewrite bind_assoc, reads_run, bind_assoc, modify_run.
  by apply bind_silent.
Qed.

Lemma client_tokens_run {B} c C (f : Client_tokens → TM B) t :
  t_clients t !! c = Some C → (get_client_tokens c ≫= f) t = f C t.
Proof. intros E. apply bind_silent. unfold get_client_tokens. rewrite reads_run. by rewrite E. Qed.

Lemma server_tokens_run {B} s S (f : Server_tokens → TM B) t :
  t_servers t !! s = Some S → (get_server_tokens s ≫= f) t = f S t.
Proof. intros E. apply bind_silent. unfold get_server_tokens. rewrite reads_run. by rewrite E. Qed.

Lemma copy_run own cnt a k t :
  blocks_ok (t_blocks t) own cnt → own a = Some k →
  ∃ bl, blocks_ok bl own (<[a := S (cnt a)]> cnt) ∧
    ∀ B (f : unit → TM B), (copy_block k ≫= f) t = f tt (set_blocks t bl).
Proof.
  intros H E. exists (<[k := (S (cnt a), a)]> (t_blocks t)). split; [by apply blocks_ok_count|].
  intros B f. apply bind_silent. unfold copy_block.
  by rewrite reads_run, (the_run _ _ _ _ _ (blocks_ok_at _ _ _ _ _ H E)).
Qed.

Lemma drop_run own cnt a k n t :
  blocks_ok (t_blocks t) own cnt → own a = Some k → cnt a = S (S n) →
  ∃ bl, blocks_ok bl own (<[a := S n]> cnt) ∧
    ∀ B (f : unit → TM B), (drop_block k ≫= f) t = f tt (set_blocks t bl).
Proof.
  intros H E Hn. exists (<[k := (S n, a)]> (t_blocks t)). split; [by apply blocks_ok_count|].
  intros B f. apply bind_silent. unfold drop_block.
  by rewrite reads_run, (the_run _ _ _ _ _ (blocks_ok_at _ _ _ _ _ H E)), Hn.
Qed.

Lemma drop_last own cnt a k t :
  blocks_ok (t_blocks t) own cnt → own a = Some k → cnt a = 1 →
  ∃ bl, blocks_ok bl (<[a := None]> own) cnt ∧
    ∀ B (f : unit → TM B), (drop_block k ≫= f) t = (fulfil a ≫= f) (set_blocks t bl).
Proof.
  intros H E Hn. exists (delete k (t_blocks t)). split; [by apply blocks_ok_delete|].
  intros B f. unfold drop_block. rewrite bind_assoc, reads_run, bind_assoc.
  rewrite (the_run _ _ _ _ _ (blocks_ok_at _ _ _ _ _ H E)), Hn. simpl.
  by rewrite bind_assoc, modify_run.
Qed.

Definition below (own : Block_action → option N) (next : N) : Prop :=
  ∀ a k, own a = Some k → (k < next)%N.

Lemma below_insert own next a k next' :
  below own next → (next ≤ next')%N → (∀ k', k = Some k' → (k' < next')%N) →
  below (<[a := k]> own) next'.
Proof.
  intros H Hn Hk a' k' E. destruct (decide (a' = a)) as [->|].
  - rewrite fn_lookup_insert in E. by apply Hk.
  - rewrite fn_lookup_insert_ne in E by done. specialize (H _ _ E). lia.
Qed.

Lemma make_block_run own cnt a t :
  blocks_ok (t_blocks t) own cnt → below own (t_next t) → own a = None →
  ∃ bl, blocks_ok bl (<[a := Some (t_next t)]> own) (<[a := 1]> cnt) ∧
    below (<[a := Some (t_next t)]> own) (t_next t + 1)%N ∧
    ∀ B (f : N → TM B), (make_block a ≫= f) t =
      f (t_next t) (set_next_token (set_blocks t bl) (t_next t + 1)%N).
Proof.
  intros H Hb E. exists (<[t_next t := (1, a)]> (t_blocks t)). split_and!.
  - apply blocks_ok_new; [done|done|]. intros a' E'. specialize (Hb _ _ E'). lia.
  - eapply below_insert; [done|lia|]. intros k' [= <-]. lia.
  - intros B f. unfold make_block. rewrite bind_assoc, reads_run, bind_assoc, modify_run.
    by apply bind_silent.
Qed.

Lemma copy_endpoint_run {B} e n x (f : unit → TM B) t :
  t_endpoints t !! e = Some (n, x) →
  (copy_endpoint e ≫= f) t = f tt (set_endpoints t (<[e := (S n, x)]> (t_endpoints t))).
Proof.
  intros E. apply bind_silent. unfold copy_endpoint. by rewrite reads_run, (the_run _ _ _ _ _ E).
Qed.

Lemma drop_endpoint_run {B} e n x (f : unit → TM B) t :
  t_endpoints t !! e = Some (S (S n), x) →
  (drop_endpoint e ≫= f) t = f tt (set_endpoints t (<[e := (S n, x)]> (t_endpoints t))).
Proof.
  intros E. apply bind_silent. unfold drop_endpoint. rewrite reads_run, (the_run _ _ _ _ _ E).
  by destruct x.
Qed.

Lemma lock_run own cnt a k t :
  blocks_ok (t_blocks t) own cnt → own a = Some k →
  ∃ bl, blocks_ok bl own (<[a := S (cnt a)]> cnt) ∧
    ∀ B (f : bool → TM B), (lock_weak k ≫= f) t = f true (set_blocks t bl).
Proof.
  intros H E. destruct (copy_run own cnt a k t H E) as (bl & Hbl & Hrun). exists bl. split; [done|].
  intros B f. apply bind_silent. unfold lock_weak.
  by rewrite reads_run, (blocks_ok_at _ _ _ _ _ H E), Hrun.
Qed.

(** A computation at the end of a sequence. *)
Lemma run_end {A} (m : TM A) t : m t = (m ≫= mret) t.
Proof. unfold mbind, M_bind. by destruct (m t) as [[[? ?] ?]|]; simpl; rewrite ?app_nil_r. Qed.

Ltac tsimpl :=
  unfold set_socom, set_blocks, set_endpoints, set_client_tokens, set_server_tokens, set_listen,
    set_indications, set_next_token, ct_set_stop, ct_set_server, st_set_client in *;
  cbn [t_socom t_blocks t_endpoints t_clients t_servers t_listen t_indications t_next
    ct_stop_block_token ct_server ct_stop_complete st_stop_block_token
    st_all_clients_disconnected_block_token st_client st_stop_complete
    st_all_clients_disconnected maybe] in *.

(** Lookups in functions that are given by updates. *)
Ltac fn_simpl := repeat (rewrite fn_lookup_insert || rewrite fn_lookup_insert_ne by done).

Ltac fn_cases :=
  fn_simpl; unfold insert, fn_insert in *; repeat case_decide; simplify_eq; try congruence.

(** Run a copy or a drop of a token on the current state, with its use counts. *)
Tactic Notation "run_with" open_constr(lem) "as" ident(Hb) :=
  let bl := fresh "bl" in let R := fresh "R" in
  destruct lem as (bl & Hb & R); [first [eassumption | fn_simpl; eassumption | fn_simpl;
    reflexivity]..|]; rewrite R; clear R; tsimpl.

(** Two connectors become connected. *)
Section attach.
Context (own : Block_action → option N) (cnt : Block_action → nat) (t : Tokens).
Context (c : N) (C : Client_connector) (s : N) (V : Server_connector) (k ks all : N) (p1 p2 : bool).

Definition attached (bl : gmap N Block) : Tokens :=
  mkTokens (attach (t_socom t) c C s V) bl
    (<[t_next t := (1, (s, Some all))]> (t_endpoints t))
    (<[c := mkCT (Some k) (Some (t_next t)) false]> (t_clients t))
    (<[s := mkST (Some ks) (Some all) (Some k) p1 p2]> (t_servers t))
    (t_listen t) (t_indications t) (t_next t + 1).

Lemma indication_run :
  blocks_ok (t_blocks t) own cnt →
  own (Stop_complete_client c) = Some k → own (All_clients_disconnected s) = Some all →
  t_clients t !! c = Some (mkCT (Some k) None false) →
  t_servers t !! s = Some (mkST (Some ks) (Some all) None p1 p2) →
  so_clients (t_socom t) !! c = Some C → so_servers (t_socom t) !! s = Some V →
  sc_client V = None →
  ∃ bl, blocks_ok bl own (<[Stop_complete_client c := S (cnt (Stop_complete_client c))]>
      (<[All_clients_disconnected s := S (cnt (All_clients_disconnected s))]> cnt)) ∧
    server_indication k c s t = Done (tt, attached bl, [Cb_service_state_change c true s]).
Proof.
  intros Hb Hk Hall EC ES HC HS Hn. unfold server_indication, attached.
  destruct t as [w bl0 en cl sv li ind nx]. tsimpl.
  run_with (lock_run own cnt (Stop_complete_client c) k (mkTokens _ _ _ _ _ _ _ _)) as H1.
  run_with (copy_run own _ (Stop_complete_client c) k (mkTokens _ _ _ _ _ _ _ _)) as H2.
  unfold receive_connect_message. rewrite bind_assoc.
  rewrite (server_tokens_run s (mkST (Some ks) (Some all) None p1 p2)) by done. tsimpl.
  rewrite bind_assoc, (lift_get_server s V) by done.
  rewrite bind_assoc, assert_run by by rewrite Hn.
  rewrite bind_assoc.
  run_with (copy_run own _ (Stop_complete_client c) k (mkTokens _ _ _ _ _ _ _ _)) as H3.
  rewrite bind_assoc, (lift_update_server s V) by done. tsimpl.
  rewrite bind_assoc, put_server_run, bind_assoc. tsimpl.
  run_with (copy_run own _ (All_clients_disconnected s) all (mkTokens _ _ _ _ _ _ _ _)) as H4.
  rewrite bind_assoc, make_endpoint_run, (bind_silent (mret _) _ _ _ _ eq_refl). tsimpl.
  unfold set_server_endpoint. rewrite bind_assoc.
  rewrite bind_assoc, (client_tokens_run c (mkCT (Some k) None false)) by done. tsimpl.
  rewrite bind_assoc, (copy_endpoint_run _ 1 (s, Some all)) by apply lookup_insert_eq. tsimpl.
  rewrite bind_assoc, put_client_run, bind_assoc, (lift_update_client c C) by done. tsimpl.
  rewrite bind_assoc, (bind_silent (mret tt) _ _ _ _ eq_refl),
    (bind_silent (mret true) _ _ _ _ eq_refl).
  cbn [whenM receive_at_client]. rewrite !bind_assoc, (bind_silent (mret tt) _ _ _ _ eq_refl).
  erewrite lift_emits by reflexivity. tsimpl.
  rewrite (drop_endpoint_run _ 0 (s, Some all)) by apply lookup_insert_eq.
  tsimpl. rewrite !insert_insert_eq.
  run_with (drop_run own _ (Stop_complete_client c) k _
    (mkTokens _ _ _ _ _ _ _ _)) as H5.
  rewrite run_end. run_with (drop_run own _ (Stop_complete_client c) k _ (mkTokens _ _ _ _ _ _ _ _))
    as H6.
  eexists. split; [|reflexivity]. eapply blocks_ok_ext; [exact H6|done|].
  intros a _. by fn_cases.
Qed.
End attach.

(** A client lets go of its server. *)
Section detach.
Context (own : Block_action → option N) (cnt : Block_action → nat) (t : Tokens).
Context (c : N) (C : Client_connector) (s : N) (V : Server_connector).
Context (stop : option N) (stopped : bool) (k e all : N) (ks ka : option N) (p1 p2 : bool).

Definition detaching : Tokens :=
  mkTokens (detach (t_socom t) c C s V) (t_blocks t) (delete e (t_endpoints t))
    (<[c := mkCT stop None stopped]> (t_clients t)) (<[s := mkST ks ka None p1 p2]> (t_servers t))
    (t_listen t) (t_indications t) (t_next t).

Definition connected_tokens (o : list Socom_action) : Prop :=
  own (Stop_complete_client c) = Some k ∧ own (All_clients_disconnected s) = Some all ∧
  t_clients t !! c = Some (mkCT stop (Some e) stopped) ∧
  t_servers t !! s = Some (mkST ks ka (Some k) p1 p2) ∧
  t_endpoints t !! e = Some (1, (s, Some all)) ∧
  so_clients (t_socom t) !! c = Some C ∧ cc_server C = Some s ∧
  reset_server c (t_socom t) = Done (tt, detach (t_socom t) c C s V, o).

(** Two copies of tokens go away. *)
Lemma detach_start o :
  connected_tokens o →
  reset_server_endpoint c t =
    match (drop_block k ≫= λ _, drop_block all) detaching with
    | Done (x, t', o') => Done (x, t', o ++ o')
    | Fault f => Fault f
    end.
Proof.
  intros (Hk & Hall & EC & ES & Ee & HC & Hcs & Hr). unfold reset_server_endpoint, detaching.
  destruct t as [w bl0 en cl sv li ind nx]. tsimpl.
  rewrite (client_tokens_run c (mkCT stop (Some e) stopped)) by done. tsimpl.
  rewrite put_client_run. tsimpl. rewrite (lift_update_client c C) by done. tsimpl.
  unfold drop_endpoint. rewrite reads_run. tsimpl. rewrite (the_run _ _ _ _ _ Ee). simpl.
  rewrite modify_run. tsimpl. unfold remove_client. rewrite bind_assoc.
  unfold reset_server in Hr. rewrite (get_client_run _ _ _ _ HC), Hcs in Hr.
  rewrite (update_client_run _ _ _ _ _ HC) in Hr. erewrite lift_emits by exact Hr. tsimpl.
  rewrite bind_assoc, (server_tokens_run s (mkST ks ka (Some k) p1 p2)) by done. tsimpl.
  rewrite bind_assoc, put_server_run. by tsimpl.
Qed.

(** The server remains, and this was the last copy of the client's token. *)
Lemma detach_from_server n o :
  blocks_ok (t_blocks t) own cnt → connected_tokens o →
  cnt (Stop_complete_client c) = 1 → cnt (All_clients_disconnected s) = S (S n) →
  ∃ bl, blocks_ok bl (<[Stop_complete_client c := None]> own)
      (<[All_clients_disconnected s := S n]> cnt) ∧
    reset_server_endpoint c t = Done (tt, set_blocks (set_client_tokens detaching
      (<[c := mkCT stop None true]> (t_clients t))) bl, o).
Proof.
  intros Hb Hc N1 N2. pose proof Hc as (Hk & Hall & _). rewrite (detach_start o Hc).
  unfold detaching.
  run_with (drop_last own cnt (Stop_complete_client c) k (mkTokens _ _ _ _ _ _ _ _)) as H1.
  unfold fulfil. rewrite bind_assoc, (client_tokens_run c (mkCT stop None stopped))
    by apply lookup_insert_eq. rewrite put_client_run. tsimpl. rewrite run_end.
  run_with (drop_run _ _ (All_clients_disconnected s) all _ (mkTokens _ _ _ _ _ _ _ _)) as H2.
  eexists. split; [exact H2|]. unfold mret, M_ret. by rewrite app_nil_r, insert_insert_eq.
Qed.

(** The client remains, and this was the last copy of the token of the server's clients. *)
Lemma detach_from_client n o :
  blocks_ok (t_blocks t) own cnt → connected_tokens o →
  cnt (Stop_complete_client c) = S (S n) → cnt (All_clients_disconnected s) = 1 →
  ∃ bl, blocks_ok bl (<[All_clients_disconnected s := None]> own)
      (<[Stop_complete_client c := S n]> cnt) ∧
    reset_server_endpoint c t = Done (tt, set_blocks (set_server_tokens detaching
      (<[s := mkST ks ka None p1 true]> (t_servers t))) bl, o).
Proof.
  intros Hb Hc N1 N2. pose proof Hc as (Hk & Hall & _). rewrite (detach_start o Hc).
  unfold detaching.
  run_with (drop_run own cnt (Stop_complete_client c) k _ (mkTokens _ _ _ _ _ _ _ _)) as H1.
  rewrite run_end.
  run_with (drop_last _ _ (All_clients_disconnected s) all (mkTokens _ _ _ _ _ _ _ _)) as H2.
  unfold fulfil. rewrite bind_assoc, (server_tokens_run s (mkST ks ka None p1 p2))
    by apply lookup_insert_eq. rewrite put_server_run. tsimpl.
  eexists. split; [exact H2|]. unfold mret, M_ret. by rewrite app_nil_r, insert_insert_eq.
Qed.
End detach.
