(* ===== verification/TokenInvariant.v ===== *)
(** * The tokens between two calls

    Which connector holds a copy of which token
    ([src/score/socom/impl/client_connector_impl.cpp], [server_connector_impl.cpp]), that there
    are no other copies, and that no promise is fulfilled before its time. The calls that
    connect and disconnect nobody: the messages between connectors with the copies of endpoints
    that they are sent through. *)

From stdpp Require Import base numbers list gmap strings functions.
From S2P Require Import Prelude.
From S2P Require Import IpcTypes.
From S2P Require Import Socom.
From S2P Require Import SocomInvariant.
From S2P Require Import SocomCalls.
From S2P Require Import Tokens.

(** ** Between two calls *)

(** The token that a promise waits for. *)
Definition owner (t : Tokens) (a : Block_action) : option N :=
  match a with
  | Stop_complete_client c => t_clients t !! c ≫= ct_stop_block_token
  | Stop_complete_server s => t_servers t !! s ≫= st_stop_block_token
  | All_clients_disconnected s => t_servers t !! s ≫= st_all_clients_disconnected_block_token
  end.

(** How many copies of it there are: the connector's own one; for a client one in the endpoint
    that its server has; for a server one in the listen endpoint of its record; and for the
    clients of a server one in the action of the endpoint that its client has. *)
Definition copies (w : Socom) (a : Block_action) : nat :=
  match a with
  | Stop_complete_client c => match so_clients w !! c ≫= cc_server with Some _ => 2 | None => 1 end
  | Stop_complete_server s => 2
  | All_clients_disconnected s => match so_servers w !! s ≫= sc_client with Some _ => 2 | None => 1
    end
  end.

Definition client_tokens_ok (t : Tokens) (c : N) (C : Client_connector) : Prop :=
  ∃ k e, t_clients t !! c = Some (mkCT (Some k) e false) ∧ t_indications t !! ckey C = Some k ∧
    match cc_server C with
    | None => e = None
    | Some s => ∃ e' all, e = Some e' ∧ owner t (All_clients_disconnected s) = Some all ∧
        t_endpoints t !! e' = Some (1, (s, Some all))
    end.

Definition server_tokens_ok (t : Tokens) (s : N) (V : Server_connector) : Prop :=
  if sc_registered V then
    ∃ k all, t_servers t !! s = Some (mkST (Some k) (Some all)
        (sc_client V ≫= λ c, owner t (Stop_complete_client c)) false false) ∧
      t_listen t !! skey V = Some k
  else ∃ b1 b2, t_servers t !! s = Some (mkST None None None b1 b2).

Record tok_inv (t : Tokens) : Prop := {
  k_blocks : blocks_ok (t_blocks t) (owner t) (copies (t_socom t));
  k_next : below (owner t) (t_next t);
  k_client : ∀ c, match so_clients (t_socom t) !! c with
    | Some C => client_tokens_ok t c C
    | None => t_clients t !! c = None
    end;
  k_server : ∀ s, match so_servers (t_socom t) !! s with
    | Some V => server_tokens_ok t s V
    | None => t_servers t !! s = None
    end;
  k_endpoint : ∀ e x, t_endpoints t !! e = Some x →
    (e < t_next t)%N ∧ ∃ c C, t_clients t !! c = Some C ∧ ct_server C = Some e;
  k_listen : ∀ key k, t_listen t !! key = Some k →
    ∃ s V, so_servers (t_socom t) !! s = Some V ∧ sc_registered V = true ∧ skey V = key;
}.

Lemma tok_client t c C : tok_inv t → so_clients (t_socom t) !! c = Some C → client_tokens_ok t c C.
Proof. intros Hi E. pose proof (k_client _ Hi c) as H. by rewrite E in H. Qed.

Lemma tok_server t s V : tok_inv t → so_servers (t_socom t) !! s = Some V → server_tokens_ok t s V.
Proof. intros Hi E. pose proof (k_server _ Hi s) as H. by rewrite E in H. Qed.

Lemma tok_init : tok_inv t_init.
Proof.
  split; simpl; try by intros *; rewrite lookup_empty.
  - intros k n a. rewrite lookup_empty. split; [done|]. intros [E _].
    by destruct a; simpl in E; rewrite lookup_empty in E.
  - intros a k E. by destruct a; simpl in E; rewrite lookup_empty in E.
Qed.

(** ** Calls that connect and disconnect nobody *)

(** What the tokens depend on. *)
Definition server_view (V : Server_connector) : bool * option N * Record_key :=
  (sc_registered V, sc_client V, skey V).
Definition client_view (C : Client_connector) : option N * Record_key := (cc_server C, ckey C).
Definition links (w : Socom) : gmap N (option N * Record_key) * gmap N (bool * option N *
  Record_key) :=
  (client_view <$> so_clients w, server_view <$> so_servers w).

Lemma links_client w w' c :
  links w' = links w → client_view <$> so_clients w' !! c = client_view <$> so_clients w !! c.
Proof. intros [= H _]. by rewrite <-!lookup_fmap, H. Qed.
Lemma links_server w w' s :
  links w' = links w → server_view <$> so_servers w' !! s = server_view <$> so_servers w !! s.
Proof. intros [= _ H]. by rewrite <-!lookup_fmap, H. Qed.

Lemma copies_links w w' a : links w' = links w → copies w' a = copies w a.
Proof.
  intros H. destruct a as [c|s|s]; simpl; [| done |].
  - pose proof (links_client _ _ c H) as E.
    destruct (so_clients w' !! c), (so_clients w !! c); try done. injection E as E _.
    simpl. by rewrite E.
  - pose proof (links_server _ _ s H) as E.
    destruct (so_servers w' !! s), (so_servers w !! s); try done. injection E as _ E _.
    simpl. by rewrite E.
Qed.

Lemma client_tokens_view t c C C' :
  client_view C' = client_view C → client_tokens_ok t c C → client_tokens_ok t c C'.
Proof.
  intros E. unfold client_tokens_ok. pose proof (f_equal fst E) as E1. simpl in E1.
  pose proof (f_equal snd E : ckey C' = ckey C) as E2. by rewrite E1, E2.
Qed.

Lemma server_tokens_view t s V V' :
  server_view V' = server_view V → server_tokens_ok t s V → server_tokens_ok t s V'.
Proof.
  intros E. unfold server_tokens_ok. pose proof (f_equal (fst ∘ fst) E) as E1.
  pose proof (f_equal (snd ∘ fst) E) as E2. pose proof (f_equal snd E : skey V' = skey V) as E3.
  simpl in E1, E2. by rewrite E1, E2, E3.
Qed.

Lemma tok_inv_links t w bl :
  tok_inv t → links w = links (t_socom t) → blocks_ok bl (owner t) (copies (t_socom t)) →
  tok_inv (set_blocks (set_socom t w) bl).
Proof.
  intros [H1 H2 H3 H4 H5 H6] Hl Hb. split; simpl; try done.
  - eapply blocks_ok_ext; [exact Hb|done|]. intros a _. by apply copies_links.
  - intros c. specialize (H3 c). pose proof (links_client _ _ c Hl) as E.
    destruct (so_clients w !! c) as [C'|], (so_clients (t_socom t) !! c) as [C|];
      try done. apply (client_tokens_view t c C); [by apply (inj Some) in E|done].
  - intros s. specialize (H4 s). pose proof (links_server _ _ s Hl) as E.
    destruct (so_servers w !! s) as [V'|], (so_servers (t_socom t) !! s) as [V|];
      try done. apply (server_tokens_view t s V); [by apply (inj Some) in E|done].
  - intros key k E. destruct (H6 key k E) as (s & V & EV & Hr & Hk).
    pose proof (links_server _ _ s Hl) as Es. rewrite EV in Es.
    destruct (so_servers w !! s) as [V'|] eqn:EV'; [|done]. exists s, V'.
    apply (inj Some) in Es. pose proof (f_equal (fst ∘ fst) Es) as E1.
    split_and!; [done|by simpl in E1; rewrite E1|]. rewrite <-Hk. apply (f_equal snd Es).
Qed.

(** [keeps_links m]: [m] connects and disconnects nobody. *)
Definition keeps_links {A} (m : SoM A) : Prop :=
  ∀ v, hoare (λ _, False) (λ w, links w = v) m (λ _ w, links w = v).

Create HintDb linked.

Lemma kl_ret {A} (a : A) : keeps_links (mret a).
Proof. intros v. by apply hoare_ret. Qed.
Lemma kl_reads {A} (f : Socom → A) : keeps_links (reads f).
Proof. intros v w Hw. done. Qed.
Lemma kl_raise {A} f : keeps_links (raise (A := A) f).
Proof. intros v. apply hoare_raise. tauto. Qed.
Lemma kl_the {A} f (x : option A) : keeps_links (the f x).
Proof. destruct x; [apply kl_ret|apply kl_raise]. Qed.
Lemma kl_assert b : keeps_links (assertM b).
Proof. destruct b; [apply kl_ret|apply kl_raise]. Qed.
Lemma kl_emit a : keeps_links (emit a).
Proof. intros v w Hw. done. Qed.
Lemma kl_state : keeps_links get_state.
Proof. intros v w Hw. done. Qed.
Lemma kl_bind {A B} (m : SoM A) (k : A → SoM B) :
  keeps_links m → (∀ a, keeps_links (k a)) → keeps_links (m ≫= k).
Proof. intros Hm Hk v. eapply hoare_bind; [apply Hm|]. intros a. apply Hk. Qed.
Lemma kl_when b m : keeps_links m → keeps_links (whenM b m).
Proof. intros H. destruct b; [done|apply kl_ret]. Qed.
Lemma kl_forM {A} (l : list A) body : (∀ x, keeps_links (body x)) → keeps_links (forM l body).
Proof. intros H v. apply hoare_forM. intros x _. apply H. Qed.
Lemma kl_modify f : (∀ w, links (f w) = links w) → keeps_links (modify f).
Proof. intros H v w Hw. simpl. by rewrite H. Qed.
Lemma kl_update_server s f :
  (∀ V, server_view (f V) = server_view V) → keeps_links (update_server s f).
Proof.
  intros H. apply kl_modify. intros w. unfold links. simpl. f_equal. apply map_eq. intros i.
  rewrite !lookup_fmap. destruct (decide (i = s)) as [->|].
  - rewrite lookup_alter_eq. destruct (so_servers w !! s); simpl; [by rewrite H|done].
  - by rewrite lookup_alter_ne.
Qed.
Lemma kl_get_server s : keeps_links (get_server s).
Proof. apply kl_bind; [apply kl_reads|]. intros x. apply kl_the. Qed.
#[export] Hint Resolve kl_ret kl_reads kl_raise kl_the kl_assert kl_emit kl_state kl_get_server :
  linked.

Ltac klinks := repeat first
  [ solve [auto with linked]
  | apply kl_bind; [|intros ?]
  | apply kl_when
  | apply kl_forM; intros ?
  | by apply kl_update_server
  | by apply kl_modify
  | case_decide
  | case_match ].

Lemma kl_unsubscribe_id s id : keeps_links (unsubscribe_event_id s id).
Proof. unfold unsubscribe_event_id. klinks. Qed.
#[export] Hint Resolve kl_unsubscribe_id : linked.

Lemma kl_receive a s m : keeps_links (receive_at_server a s m).
Proof.
  destruct m; simpl; unfold receive_call_method, receive_subscribe_event,
    receive_unsubscribe_event, receive_request_event_update,
    receive_allocate_method_call_payload; klinks.
Qed.
Lemma kl_get_requests i inst : keeps_links (get_service_requests i inst).
Proof. unfold get_service_requests. klinks. Qed.
Lemma kl_remove_requests i inst : keeps_links (remove_service_requests i inst).
Proof. unfold remove_service_requests. klinks. Qed.

Lemma kl_quiet_call call :
  match call with Register_bridge _ _ | Unregister_bridge _ | Get_event_mode _ _ => True | _ =>
    False end →
  keeps_links (socom_step call).
Proof.
  destruct call; intros Hc; try done; simpl.
  - unfold run, register_service_bridge, register_bridge. klinks.
  - unfold stop_registration, cleanup_bridge. klinks.
  - unfold run, get_event_mode. klinks.
Qed.

Lemma keeps_links_run {A} (m : SoM A) w a w' o :
  keeps_links m → m w = Done (a, w', o) → links w' = links w.
Proof. intros Hm E. specialize (Hm (links w) w eq_refl). by rewrite E in Hm. Qed.

(** ** Simulation *)

(** [m] does what [n] does, and leaves the tokens in order. *)
Definition simulates {A} (m : TM A) (n : SoM A) (t : Tokens) : Prop :=
  match n (t_socom t) with
  | Done (a, w', o) => ∃ t', m t = Done (a, t', o) ∧ t_socom t' = w' ∧ tok_inv t'
  | Fault f => m t = Fault f
  end.

Lemma simulates_ignore {A} (m : TM A) n t : simulates m n t → simulates (ignore m) (run n) t.
Proof.
  unfold simulates, ignore, run, mbind, M_bind.
  destruct (n (t_socom t)) as [[[a w'] o]|f]; [|by intros ->].
  intros (t' & -> & ? & ?). simpl. by exists t'.
Qed.

Lemma sim_lift {A} (m : SoM A) t : tok_inv t → keeps_links m → simulates (lift m) m t.
Proof.
  intros Hi Hm. unfold simulates, lift. destruct (m (t_socom t)) as [[[a w'] o]|f] eqn:E; [|done].
  eexists. split; [done|]. split; [done|].
  apply (tok_inv_links t w' (t_blocks t) Hi); [by eapply keeps_links_run|apply Hi].
Qed.

Lemma sim_send a c C m t :
  tok_inv t → so_clients (t_socom t) !! c = Some C →
  simulates (send_to_server a c m) (lock_server c (λ s, receive_at_server a s m)) t.
Proof.
  intros Hi EC. destruct (tok_client t c C Hi EC) as (k & e & Et & _ & Hs).
  unfold simulates, send_to_server. rewrite (client_tokens_run c _ _ _ Et). simpl.
  destruct (cc_server C) as [s|] eqn:Es.
  2:{ subst e. rewrite (lock_server_none _ _ _ _ EC Es). by exists t. }
  destruct Hs as (e' & all & -> & _ & Ee). rewrite (lock_server_run _ _ _ _ _ EC Es).
  rewrite (copy_endpoint_run _ _ _ _ _ Ee), reads_run.
  rewrite (the_run _ _ (2, (s, Some all))) by apply lookup_insert_eq.
  destruct (receive_at_server a s m (t_socom t)) as [[[r w'] o]|f] eqn:E; [|by apply lift_fault].
  erewrite lift_emits by exact E.
  rewrite (drop_endpoint_run e' 0 (s, Some all)) by apply lookup_insert_eq.
  tsimpl. rewrite insert_insert_eq, insert_id by done. unfold mret, M_ret.
  eexists. split; [by rewrite app_nil_r|]. split; [done|].
  apply (tok_inv_links t w' (t_blocks t) Hi); [|apply Hi].
  by eapply (keeps_links_run (receive_at_server a s m)), E; apply kl_receive.
Qed.

(** *** Messages of a server *)

Section events.
Context (t : Tokens) (s : N) (V : Server_connector).
Context (Hi : tok_inv t) (Hinv : so_inv (t_socom t)) (EV : so_servers (t_socom t) !! s = Some V).

(** The token of the client that a server has. *)
Lemma connected_client_token c :
  sc_client V = Some c →
  ∃ k ks all C, owner t (Stop_complete_client c) = Some k ∧
    t_servers t !! s = Some (mkST (Some ks) (Some all) (Some k) false false) ∧
    so_clients (t_socom t) !! c = Some C ∧ cc_server C = Some s.
Proof.
  intros Hc. pose proof (tok_server t s V Hi EV) as Hs. unfold server_tokens_ok in Hs.
  destruct (connected_client _ _ _ _ (v_conn _ Hinv) EV Hc) as (C & EC & HC & _).
  destruct (v_servers _ (v_conn _ Hinv) _ _ EV) as (_ & _ & _ & Hr).
  destruct (sc_registered V); [|congruence]. destruct Hs as (ks & all & Es & _).
  destruct (tok_client t c C Hi EC) as (k & e & Et & _).
  assert (owner t (Stop_complete_client c) = Some k) as Hk by (simpl; by rewrite Et).
  assert ((sc_client V ≫= λ c, owner t (Stop_complete_client c)) = Some k) as E'
    by (rewrite Hc; exact Hk).
  rewrite E' in Es. by exists k, ks, all, C.
Qed.

Lemma event_client_run c :
  sc_client V = Some c →
  ∃ k bl, owner t (Stop_complete_client c) = Some k ∧
    blocks_ok bl (owner t) (<[Stop_complete_client c := 3]> (copies (t_socom t))) ∧
    ∀ B (f : option (N * N) → TM B),
      (get_event_client s (Some c) ≫= f) t = f (Some (c, k)) (set_blocks t bl).
Proof.
  intros Hc. destruct (connected_client_token c Hc) as (k & ks & all & C & Hk & Es & EC & HC).
  destruct (copy_run _ _ _ k t (k_blocks _ Hi) Hk) as (bl & Hb & R). exists k, bl.
  split; [done|]. simpl in Hb. rewrite EC in Hb. simpl in Hb. rewrite HC in Hb. split; [done|].
  intros B f. unfold get_event_client. rewrite bind_assoc, (server_tokens_run s _ _ _ Es).
  rewrite bind_assoc, (the_run _ _ k) by done. rewrite bind_assoc, R. by apply bind_silent.
Qed.
End events.

Lemma send_to_client_run own cnt c k n m a t :
  blocks_ok (t_blocks t) own (<[Stop_complete_client c := S (S n)]> cnt) →
  own (Stop_complete_client c) = Some k → cnt (Stop_complete_client c) = S n →
  receive_at_client c m = lift (emit a) →
  ∃ bl, blocks_ok bl own cnt ∧
    ∀ B (f : unit → TM B), (send_to_client (Some (c, k)) m ≫= f) t =
      match f tt (set_blocks t bl) with
      | Done (x, t', o) => Done (x, t', a :: o)
      | Fault e => Fault e
      end.
Proof.
  intros Hb Hk Hn Hm.
  destruct (drop_run own _ (Stop_complete_client c) k n t Hb Hk) as (bl & Hbl & R);
    [by fn_simpl|]. exists bl. split.
  - eapply blocks_ok_ext; [exact Hbl|done|]. intros x _. by fn_cases.
  - intros B f. unfold send_to_client. rewrite bind_assoc, Hm. erewrite lift_emits by reflexivity.
    replace (set_socom t (t_socom t)) with t by by destruct t. by rewrite R.
Qed.

Section server_calls.
Context (t : Tokens) (s : N) (V : Server_connector) (id : N).
Context (Hi : tok_inv t) (Hinv : so_inv (t_socom t)) (EV : so_servers (t_socom t) !! s = Some V).

(** A message that is sent to the client of an event, after the server has changed. *)
Lemma event_message_run m a x g :
  (∀ c, x = Some c → sc_client V = Some c) →
  (∀ c, receive_at_client c m = lift (emit (a c))) → keeps_links (modify g) →
  ∃ bl, tok_inv (set_blocks (set_socom t (g (t_socom t))) bl) ∧
    ∀ B (f : option (N * N) → TM B), ∃ client, (is_Some client ↔ is_Some x) ∧
      (client ← get_event_client s x; lift (modify g);; send_to_client client m;; f client) t =
        match f client (set_blocks (set_socom t (g (t_socom t))) bl) with
        | Done (r, t', o) => Done (r, t', match x with Some c => [a c] | None => [] end ++ o)
        | Fault e => Fault e
        end.
Proof.
  intros Hx Hm Hg. assert (links (g (t_socom t)) = links (t_socom t)) as Hl
    by by apply (keeps_links_run (modify g) _ tt _ []).
  destruct x as [c|].
  - destruct (event_client_run t s V Hi Hinv EV c (Hx c eq_refl)) as (k & bl & Hk & Hb & R).
    destruct (connected_client_token t s V Hi Hinv EV c (Hx c eq_refl))
      as (_ & _ & _ & C & _ & _ & EC & HC).
    destruct (send_to_client_run (owner t) (copies (t_socom t)) c k 1 m (a c)
      (set_socom (set_blocks t bl) (g (t_socom t)))) as (bl' & Hb' & R'); try done.
    { simpl. rewrite EC. simpl. by rewrite HC. }
    exists bl'. split; [by apply tok_inv_links|]. intros B f. exists (Some (c, k)).
    split; [by split|]. rewrite R. erewrite lifted_run by reflexivity. by rewrite R'.
  - exists (t_blocks t). split; [by apply tok_inv_links; [|done|apply Hi]|]. intros B f.
    exists None.
    split; [done|]. rewrite (bind_silent (get_event_client s None) _ _ _ _ eq_refl).
    erewrite lifted_run by reflexivity. rewrite (bind_silent (send_to_client None m) _ _ _ _
      eq_refl).
    destruct t. simpl. by destruct (f None _) as [[[? ?] ?]|].
Qed.

Lemma event_message_run' m a x :
  (∀ c, x = Some c → sc_client V = Some c) →
  (∀ c, receive_at_client c m = lift (emit (a c))) →
  ∃ bl, tok_inv (set_blocks t bl) ∧
    ∀ B (f : option (N * N) → TM B), ∃ client, (is_Some client ↔ is_Some x) ∧
      (client ← get_event_client s x; send_to_client client m;; f client) t =
        match f client (set_blocks t bl) with
        | Done (r, t', o) => Done (r, t', match x with Some c => [a c] | None => [] end ++ o)
        | Fault e => Fault e
        end.
Proof.
  intros Hx Hm. destruct (event_message_run m a x (λ w, w) Hx Hm) as (bl & Hbl & R).
  { by apply kl_modify. }
  exists bl. replace (set_socom t (t_socom t)) with t in * by by destruct t.
  split; [done|]. intros B f. destruct (R B f) as (client & Hc & E). exists client.
  split; [done|]. rewrite <-E. apply bind_ext. intros x' t'. erewrite lifted_run by reflexivity.
  by destruct t'.
Qed.

Lemma in_range : (N.of_nat (sc_num_events V) <=? id)%N = false →
  (N.to_nat id <? length (sc_subscriber V)) = true ∧
  (N.to_nat id <? length (sc_update_requester V)) = true.
Proof.
  intros Hid%N.leb_gt. destruct (v_servers _ (v_conn _ Hinv) _ _ EV) as (_ & (H1 & H2 & _) & _).
  split; apply Nat.ltb_lt; lia.
Qed.

Lemma sim_update_event p : simulates (send_update_event s id p) (update_event s id p) t.
Proof.
  unfold simulates, send_update_event, update_event.
  rewrite (get_server_run _ _ _ _ EV), (lift_get_server _ _ _ _ EV).
  destruct (N.of_nat (sc_num_events V) <=? id)%N eqn:Hid; [by exists t|].
  rewrite !assert_run by by apply in_range.
  destruct (event_message_run' (Msg_update_event id p) (λ c, Cb_event_update c id p)
    (event_client (N.to_nat id) (sc_subscriber V))) as (bl & Hbl & R); [|done|].
  { destruct (v_servers _ (v_conn _ Hinv) _ _ EV) as (_ & Hok & _). apply Hok. }
  destruct (R _ (λ _, mret (Ok (E := Server_connector_error) tt))) as (client & _ & ->).
  destruct (event_client _ _); by eexists.
Qed.

Lemma sim_allocate_payload r :
  simulates (allocate_payload r s id) (allocate_event_payload s id r) t.
Proof.
  unfold simulates, allocate_payload, allocate_event_payload.
  rewrite (get_server_run _ _ _ _ EV), (lift_get_server _ _ _ _ EV).
  destruct (N.of_nat (sc_num_events V) <=? id)%N eqn:Hid; [by exists t|].
  rewrite !assert_run by by apply in_range.
  destruct (event_message_run' (Msg_allocate_event_payload id)
    (λ c, Cb_event_payload_allocate c id)
    (event_client (N.to_nat id) (sc_subscriber V))) as (bl & Hbl & R); [|done|].
  { destruct (v_servers _ (v_conn _ Hinv) _ _ EV) as (_ & Hok & _). apply Hok. }
  destruct (R _ (λ client, mret match client with Some _ => r
    | None => Err runtime_error_no_client_subscribed_for_event end)) as (client & Hc & ->).
  destruct (event_client _ _), client; try (by destruct Hc as [H1 H2]; (destruct H1 + destruct H2));
    by eexists.
Qed.

Lemma sim_update_requested p :
  simulates (send_update_requested_event s id p) (update_requested_event s id p) t.
Proof.
  unfold simulates, send_update_requested_event, update_requested_event.
  rewrite (get_server_run _ _ _ _ EV), (lift_get_server _ _ _ _ EV).
  destruct (N.of_nat (sc_num_events V) <=? id)%N eqn:Hid; [by exists t|].
  rewrite !assert_run by by apply in_range. unfold update_server.
  destruct (event_message_run (Msg_update_requested_event id p)
    (λ c, Cb_event_requested_update c id p)
    (event_client (N.to_nat id) (sc_update_requester V))
    (λ w, set_servers w (alter (λ o, sc_set_update_requester o
      (clear_event (N.to_nat id) (sc_update_requester o))) s (so_servers w))))
    as (bl & Hbl & R); [|done|by apply (kl_update_server s)|].
  { destruct (v_servers _ (v_conn _ Hinv) _ _ EV) as (_ & Hok & _). apply Hok. }
  destruct (R _ (λ _, mret (Ok (E := Server_connector_error) tt))) as (client & _ & ->).
  rewrite modify_run.
  destruct (event_client _ _); by eexists.
Qed.
End server_calls.

(** ** Calls that change who is connected *)

(** A call that touches at most one client and one server. *)
Record change (t t' : Tokens) (tc ts : option N) : Prop := {
  ch_clients : ∀ c, tc ≠ Some c → so_clients (t_socom t') !! c = so_clients (t_socom t) !! c ∧
    t_clients t' !! c = t_clients t !! c;
  ch_servers : ∀ s, ts ≠ Some s → so_servers (t_socom t') !! s = so_servers (t_socom t) !! s ∧
    t_servers t' !! s = t_servers t !! s;
  ch_indications : ∀ c C, tc ≠ Some c → so_clients (t_socom t) !! c = Some C →
    t_indications t' !! ckey C = t_indications t !! ckey C;
  ch_listen : ∀ s V, ts ≠ Some s → so_servers (t_socom t) !! s = Some V →
    sc_registered V = true → t_listen t' !! skey V = t_listen t !! skey V;
  ch_client_linked : ∀ c C s, tc ≠ Some c → so_clients (t_socom t) !! c = Some C →
    cc_server C = Some s → ts ≠ Some s;
  ch_server_linked : ∀ s V c, ts ≠ Some s → so_servers (t_socom t) !! s = Some V →
    sc_client V = Some c → tc ≠ Some c;
  ch_endpoints : ∀ c T e x, tc ≠ Some c → t_clients t !! c = Some T → ct_server T = Some e →
    t_endpoints t !! e = Some x → t_endpoints t' !! e = Some x;
}.

Lemma change_owner t t' tc ts a :
  change t t' tc ts →
  match a with
  | Stop_complete_client c => tc ≠ Some c
  | Stop_complete_server s | All_clients_disconnected s => ts ≠ Some s
  end → owner t' a = owner t a.
Proof.
  intros Hch Ha. destruct a; simpl; [destruct (ch_clients _ _ _ _ Hch _ Ha) as [_ ->]|..];
    try destruct (ch_servers _ _ _ _ Hch _ Ha) as [_ ->]; done.
Qed.

Lemma tok_inv_change t t' tc ts :
  tok_inv t → change t t' tc ts →
  blocks_ok (t_blocks t') (owner t') (copies (t_socom t')) → below (owner t') (t_next t') →
  (∀ c, tc = Some c → match so_clients (t_socom t') !! c with
    | Some C => client_tokens_ok t' c C | None => t_clients t' !! c = None end) →
  (∀ s, ts = Some s → match so_servers (t_socom t') !! s with
    | Some V => server_tokens_ok t' s V | None => t_servers t' !! s = None end) →
  (∀ e x, t_endpoints t' !! e = Some x →
    (e < t_next t')%N ∧ ∃ c C, t_clients t' !! c = Some C ∧ ct_server C = Some e) →
  (∀ key k, t_listen t' !! key = Some k →
    ∃ s V, so_servers (t_socom t') !! s = Some V ∧ sc_registered V = true ∧ skey V = key) →
  tok_inv t'.
Proof.
  intros Hi Hch Hb Hn Hc Hs He Hl. split; try done.
  - intros c. destruct (decide (tc = Some c)) as [E|E]; [by apply Hc|].
    destruct (ch_clients _ _ _ _ Hch c E) as [E1 E2]. pose proof (k_client _ Hi c) as H.
    rewrite E1. destruct (so_clients (t_socom t) !! c) as [C|] eqn:EC; [|by rewrite E2].
    destruct H as (k & e & Et & Hk & H). exists k, e.
    rewrite E2, (ch_indications _ _ _ _ Hch c C E EC). split_and!; try done.
    destruct (cc_server C) as [s|] eqn:Es; [|done]. destruct H as (e' & all & -> & Ho & Ee).
    exists e', all. split_and!; [done| |].
    + rewrite <-Ho. apply (change_owner _ _ _ _ _ Hch). by eapply (ch_client_linked _ _ _ _ Hch).
    + by eapply (ch_endpoints _ _ _ _ Hch).
  - intros s. destruct (decide (ts = Some s)) as [E|E]; [by apply Hs|].
    destruct (ch_servers _ _ _ _ Hch s E) as [E1 E2]. pose proof (k_server _ Hi s) as H.
    rewrite E1. destruct (so_servers (t_socom t) !! s) as [V|] eqn:EV; [|by rewrite E2].
    unfold server_tokens_ok in *. rewrite E2. destruct (sc_registered V) eqn:Hr; [|done].
    destruct H as (k & all & -> & Hk). exists k, all.
    split; [|by rewrite (ch_listen _ _ _ _ Hch s V E EV)]. do 2 f_equal.
    destruct (sc_client V) as [c|] eqn:Ec; [|done]. symmetry.
    apply (change_owner t t' tc ts (Stop_complete_client c) Hch).
    by eapply (ch_server_linked _ _ _ _ Hch).
Qed.

(** Look at the objects that a call has changed. *)
Ltac at_changed :=
  simpl;
  repeat match goal with
  | |- context [<[?j := _]> _ !! ?i] => destruct (decide (i = j)) as [->|]; simplify_map_eq
  | |- context [delete ?j _ !! ?i] => destruct (decide (i = j)) as [->|]; simplify_map_eq
  | |- context [alter _ ?j _ !! ?i] => destruct (decide (i = j)) as [->|]; simplify_map_eq
  end.
Ltac owner_cases := intros [?c|?s|?s]; at_changed; fn_cases; simpl; by simplify_map_eq.

(** A server has one client, and an endpoint one holder. *)
Lemma linked_unique w c C c' C' s :
  conn_inv w → so_clients w !! c = Some C → cc_server C = Some s →
  so_clients w !! c' = Some C' → cc_server C' = Some s → c' = c.
Proof.
  intros Hw E Es E' Es'. destruct (connected_server _ _ _ _ Hw E Es) as (V & EV & _ & Hc & _).
  destruct (connected_server _ _ _ _ Hw E' Es') as (V' & EV' & _ & Hc' & _). congruence.
Qed.

Lemma linked_pair w c C s :
  conn_inv w → so_clients w !! c = Some C → cc_server C = Some s →
  (∀ c' C' s', Some c ≠ Some c' → so_clients w !! c' = Some C' → cc_server C' = Some s' →
    Some s ≠ Some s') ∧
  (∀ s' V c', Some s ≠ Some s' → so_servers w !! s' = Some V → sc_client V = Some c' →
    Some c ≠ Some c').
Proof.
  intros Hw E Es. split.
  - intros c' C' s' Hne E' Es' [= ->]. apply Hne. f_equal. symmetry. by eapply linked_unique.
  - intros s' V c' Hne EV Ec [= ->].
    destruct (connected_client _ _ _ _ Hw EV Ec) as (C' & E' & Es' & _). congruence.
Qed.

Lemma unlinked_server w s V :
  conn_inv w → so_servers w !! s = Some V → sc_client V = None →
  ∀ c C s', so_clients w !! c = Some C → cc_server C = Some s' → Some s ≠ Some s'.
Proof.
  intros Hw EV Hc c C s' E Es [= <-]. destruct (connected_server _ _ _ _ Hw E Es)
    as (V' & EV' & _ & Hc' & _). congruence.
Qed.

Lemma unlinked_client w c C :
  conn_inv w → so_clients w !! c = Some C → cc_server C = None →
  ∀ s V c', so_servers w !! s = Some V → sc_client V = Some c' → Some c ≠ Some c'.
Proof.
  intros Hw EC Hs s V c' EV Hc [= <-]. destruct (connected_client _ _ _ _ Hw EV Hc)
    as (C' & EC' & Hs' & _). congruence.
Qed.

Lemma endpoint_holder t c T e :
  tok_inv t → t_clients t !! c = Some T → ct_server T = Some e →
  ∃ C s all, so_clients (t_socom t) !! c = Some C ∧ cc_server C = Some s ∧
    t_endpoints t !! e = Some (1, (s, Some all)).
Proof.
  intros Hi ET He. pose proof (k_client _ Hi c) as H.
  destruct (so_clients (t_socom t) !! c) as [C|]; [|congruence].
  destruct H as (k & e' & Et & _ & H). rewrite ET in Et. injection Et as ->. simpl in He. subst e'.
  destruct (cc_server C) as [s|] eqn:Es; [|done]. destruct H as (? & all & [= <-] & _ & Ee).
  by exists C, s, all.
Qed.

Lemma endpoint_unique t c T c' T' e :
  tok_inv t → conn_inv (t_socom t) → t_clients t !! c = Some T → ct_server T = Some e →
  t_clients t !! c' = Some T' → ct_server T' = Some e → c' = c.
Proof.
  intros Hi Hw ET He ET' He'.
  destruct (endpoint_holder t c T e Hi ET He) as (C & s & all & EC & Es & Ee).
  destruct (endpoint_holder t c' T' e Hi ET' He') as (C' & s' & all' & EC' & Es' & Ee').
  simplify_eq. by eapply linked_unique.
Qed.

(** The tokens after two connectors are connected. *)
Lemma tok_attached t c C s V k ks all bl :
  tok_inv t → so_clients (t_socom t) !! c = Some C → so_servers (t_socom t) !! s = Some V →
  sc_registered V = true →
  (∀ c' C', so_clients (t_socom t) !! c' = Some C' → cc_server C' ≠ Some s) →
  (∀ s' V', so_servers (t_socom t) !! s' = Some V' → sc_client V' ≠ Some c) →
  t_clients t !! c = Some (mkCT (Some k) None false) →
  t_servers t !! s = Some (mkST (Some ks) (Some all) None false false) →
  blocks_ok bl (owner t) (<[Stop_complete_client c := 2]>
    (<[All_clients_disconnected s := 2]> (copies (t_socom t)))) →
  tok_inv (attached t c C s V k ks all false false bl).
Proof.
  intros Hi EC EV Hreg Hs Hc Et Es Hb. set (t' := attached _ _ _ _ _ _ _ _ _ _ _).
  assert (∀ a, owner t' a = owner t a) as Ho.
  { owner_cases. }
  destruct (tok_client t c C Hi EC) as (k0 & e0 & Et' & Hind & _). rewrite Et in Et'.
  injection Et' as <- <-.
  pose proof (tok_server t s V Hi EV) as Hl. unfold server_tokens_ok in Hl. rewrite Hreg in Hl.
  destruct Hl as (k1 & all1 & Es' & Hl). rewrite Es in Es'. injection Es' as <- <- _.
  apply (tok_inv_change t t' (Some c) (Some s)); simpl; try done.
  - split; simpl; try done.
    + intros c' Hne. by rewrite !lookup_insert_ne by congruence.
    + intros s' Hne. by rewrite !lookup_insert_ne by congruence.
    + intros c' C' s' _ EC' Hs' [= <-]. by eapply Hs.
    + intros s' V' c' _ EV' Hc' [= <-]. by eapply Hc.
    + intros c' T e x _ _ _ Ee. rewrite lookup_insert_ne; [done|].
      destruct (k_endpoint _ Hi _ _ Ee) as [? _]. lia.
  - eapply blocks_ok_ext; [exact Hb|done|]. intros [c'|s'|s'] _; simpl; fn_simpl; [| by fn_cases |].
    + destruct (decide (c' = c)) as [->|]; [by rewrite fn_lookup_insert, lookup_insert_eq|].
      rewrite lookup_insert_ne, fn_lookup_insert_ne by congruence. by fn_cases.
    + destruct (decide (s' = s)) as [->|]; [by rewrite fn_lookup_insert, lookup_insert_eq|].
      by rewrite lookup_insert_ne, fn_lookup_insert_ne by congruence.
  - intros a k' E. rewrite Ho in E. pose proof (k_next _ Hi a k' E). lia.
  - intros ? [= <-]. rewrite lookup_insert_eq. exists k, (Some (t_next t)).
    simpl. rewrite !lookup_insert_eq. split_and!; try done.
    exists (t_next t), all. by rewrite ?lookup_insert_eq.
  - intros ? [= <-]. rewrite lookup_insert_eq. unfold server_tokens_ok. simpl. rewrite Hreg.
    exists ks, all. by rewrite !lookup_insert_eq.
  - intros e x E. destruct (decide (e = t_next t)) as [->|Hne].
    + split; [lia|]. exists c, (mkCT (Some k) (Some (t_next t)) false). by rewrite lookup_insert_eq.
    + rewrite lookup_insert_ne in E by done.
      destruct (k_endpoint _ Hi _ _ E) as (? & c' & T & ET & He). split; [lia|]. exists c', T.
      rewrite lookup_insert_ne; [done|]. intros <-. rewrite Et in ET. injection ET as <-. done.
  - intros key k' E. destruct (k_listen _ Hi key k' E) as (s' & V' & EV' & Hr' & Hk).
    destruct (decide (s' = s)) as [->|].
    + exists s, (sc_set_client V (Some c)). rewrite lookup_insert_eq. by simplify_eq.
    + exists s', V'. by rewrite lookup_insert_ne.
Qed.
