(* ===== verification/TokenCalls.v ===== *)
(** * Calls that connect and disconnect, with their tokens

    Making and destroying clients, making, enabling, disabling and destroying servers
    ([src/score/socom/impl/client_connector_impl.cpp], [server_connector_impl.cpp],
    [runtime_impl.cpp]) with every copy of a token that they make and drop: each does what the
    call of [Socom] does and leaves the tokens in order. *)

From stdpp Require Import base numbers list gmap strings functions.
From S2P Require Import Prelude.
From S2P Require Import IpcTypes.
From S2P Require Import Socom.
From S2P Require Import SocomInvariant.
From S2P Require Import SocomCalls.
From S2P Require Import Tokens.
From S2P Require Import TokenInvariant.

(** ** Disabling a server *)

Section disable.
Context (t : Tokens) (s : N) (V : Server_connector).
Context (Hi : tok_inv t) (Hinv : so_inv (t_socom t)) (EV : so_servers (t_socom t) !! s = Some V).
Context (Hreg : sc_registered V = true).

Local Abbreviation w := (t_socom t).
(** The server is out of the tables and its events are cleared. *)
Definition out_of_tables : Socom := set_servers (set_records w (<[skey V := with_server (get_record
  w (skey V)) None]>
  (so_records w))) (<[s := SocomCalls.stopped V]> (so_servers w)).

Lemma registered_tokens :
  ∃ ks all kc, t_servers t !! s = Some (mkST (Some ks) (Some all) kc false false) ∧
    t_listen t !! skey V = Some ks ∧ kc = (sc_client V ≫= λ c, owner t (Stop_complete_client c)) ∧
    owner t (Stop_complete_server s) = Some ks ∧ owner t (All_clients_disconnected s) = Some all.
Proof.
  pose proof (tok_server t s V Hi EV) as Hs. unfold server_tokens_ok in Hs. rewrite Hreg in Hs.
  destruct Hs as (ks & all & Es & Hl). do 3 eexists. split; [exact Es|].
  split_and!; try done; simpl; by rewrite Es.
Qed.

(** What is left after the server's own tokens are reset and its record is empty. *)
Definition disable_rest (all : N) : TM unit :=
  drop_block all;;
  S ← get_server_tokens s;
  wait (st_stop_complete S);;
  send_all s (Msg_service_state_change false s);;
  S ← get_server_tokens s;
  wait (st_all_clients_disconnected S).

Lemma disable_start ks all kc :
  t_servers t !! s = Some (mkST (Some ks) (Some all) kc false false) →
  t_listen t !! skey V = Some ks → owner t (Stop_complete_server s) = Some ks →
  ∃ bl, blocks_ok bl (<[Stop_complete_server s := None]> (owner t)) (copies w) ∧
    disable s t = disable_rest all (mkTokens out_of_tables bl (t_endpoints t) (t_clients t)
      (<[s := mkST None None kc true false]> (t_servers t)) (delete (skey V) (t_listen t))
      (t_indications t) (t_next t)).
Proof.
  intros Es Hl Hks. pose proof (k_blocks _ Hi) as Hb. set (own := owner t) in *.
  set (cnt := copies w) in *. assert (cnt (Stop_complete_server s) = 2) as Hc by done.
  unfold disable. rewrite (lift_get_server _ _ _ _ EV), Hreg.
  rewrite (lift_update_server _ _ _ _ _ EV), reads_run. erewrite lifted_run by reflexivity.
  rewrite reads_run, modify_run. change (record_key (sc_interface V) (sc_instance V)) with (skey V).
  clearbody own cnt. unfold out_of_tables. clear Hi Hinv.
  destruct t as [w0 bl0 en cl sv li ind nx]. tsimpl. rewrite Hl. tsimpl.
  run_with (drop_run own cnt (Stop_complete_server s) ks _ (mkTokens _ _ _ _ _ _ _ _)) as H1.
  rewrite (server_tokens_run s (mkST (Some ks) (Some all) kc false false)) by done. tsimpl.
  rewrite put_server_run. tsimpl.
  rewrite (lift_update_server s (sc_set_registered V false)) by apply lookup_insert_eq. tsimpl.
  run_with (drop_last own _ (Stop_complete_server s) ks (mkTokens _ _ _ _ _ _ _ _)) as H2.
  unfold fulfil. rewrite bind_assoc, (server_tokens_run s (mkST None None kc false false))
    by apply lookup_insert_eq. rewrite put_server_run. tsimpl.
  eexists. split.
  { eapply blocks_ok_ext; [exact H2|done|]. intros a [? Ha]. by fn_cases. }
  unfold disable_rest. rewrite !insert_insert_eq. unfold set_servers at 1 2. simpl so_servers.
  by rewrite insert_insert_eq.
Qed.

(** The server has no client. *)
Lemma disable_idle ks all :
  t_servers t !! s = Some (mkST (Some ks) (Some all) None false false) →
  t_listen t !! skey V = Some ks → owner t (Stop_complete_server s) = Some ks →
  owner t (All_clients_disconnected s) = Some all → sc_client V = None →
  ∃ bl, blocks_ok bl (<[All_clients_disconnected s := None]>
      (<[Stop_complete_server s := None]> (owner t))) (copies w) ∧
    disable s t = Done (tt, mkTokens out_of_tables bl (t_endpoints t) (t_clients t)
      (<[s := mkST None None None true true]> (t_servers t)) (delete (skey V) (t_listen t))
      (t_indications t) (t_next t), []).
Proof.
  intros Es Hl Hks Hall Hcl.
  destruct (disable_start ks all None Es Hl Hks) as (bl & Hb & ->). unfold disable_rest.
  assert (copies w (All_clients_disconnected s) = 1) as Hn
    by (simpl; rewrite EV; simpl; by rewrite Hcl).
  run_with (drop_last _ _ (All_clients_disconnected s) all (mkTokens _ _ _ _ _ _ _ _)) as H1.
  unfold fulfil. rewrite bind_assoc, (server_tokens_run s (mkST None None None true false))
    by apply lookup_insert_eq. rewrite put_server_run. tsimpl.
  rewrite (server_tokens_run s (mkST None None None true true)) by apply lookup_insert_eq.
  cbn [wait st_stop_complete]. rewrite (bind_silent (mret tt) _ _ _ _ eq_refl).
  unfold send_all. rewrite bind_assoc, (lift_get_server s (SocomCalls.stopped V))
    by apply lookup_insert_eq.
  rewrite bind_assoc, (server_tokens_run s (mkST None None None true true))
    by apply lookup_insert_eq.
  change (sc_client (SocomCalls.stopped V)) with (sc_client V). rewrite Hcl.
  rewrite (bind_silent (mret tt) _ _ _ _ eq_refl).
  rewrite (server_tokens_run s (mkST None None None true true)) by apply lookup_insert_eq.
  eexists. split; [exact H1|]. tsimpl. by rewrite insert_insert_eq.
Qed.

(** The server has a client, which is told. *)
Lemma disable_connected ks all c C k e o :
  t_servers t !! s = Some (mkST (Some ks) (Some all) (Some k) false false) →
  t_listen t !! skey V = Some ks → owner t (Stop_complete_server s) = Some ks →
  owner t (All_clients_disconnected s) = Some all → sc_client V = Some c →
  owner t (Stop_complete_client c) = Some k →
  so_clients w !! c = Some C → cc_server C = Some s →
  t_clients t !! c = Some (mkCT (Some k) (Some e) false) →
  t_endpoints t !! e = Some (1, (s, Some all)) →
  reset_server c out_of_tables =
    Done (tt, detach out_of_tables c C s (SocomCalls.stopped V), o) →
  ∃ bl, blocks_ok bl (<[All_clients_disconnected s := None]>
      (<[Stop_complete_server s := None]> (owner t)))
      (<[Stop_complete_client c := 1]> (copies w)) ∧
    disable s t = Done (tt, mkTokens (detach out_of_tables c C s (SocomCalls.stopped V)) bl
      (delete e (t_endpoints t)) (<[c := mkCT (Some k) None false]> (t_clients t))
      (<[s := mkST None None None true true]> (t_servers t)) (delete (skey V) (t_listen t))
      (t_indications t) (t_next t), o ++ [Cb_service_state_change c false s]).
Proof.
  intros Es Hl Hks Hall Hcl Hk EC Hcs Ec Ee Hr.
  destruct (disable_start ks all (Some k) Es Hl Hks) as (bl & Hb & ->). unfold disable_rest.
  assert (copies w (All_clients_disconnected s) = 2) as Hn
    by (simpl; rewrite EV; simpl; by rewrite Hcl).
  assert (copies w (Stop_complete_client c) = 2) as Hn2
    by (simpl; rewrite EC; simpl; by rewrite Hcs).
  set (cnt := copies w) in *. set (own := owner t) in *. clearbody own cnt.
  set (w2 := out_of_tables) in *.
  assert (so_servers w2 !! s = Some (SocomCalls.stopped V)) as EV2 by apply lookup_insert_eq.
  assert (so_clients w2 !! c = Some C) as EC2 by done. clearbody w2.
  run_with (drop_run _ _ (All_clients_disconnected s) all _ (mkTokens _ _ _ _ _ _ _ _)) as H1.
  rewrite (server_tokens_run s (mkST None None (Some k) true false)) by apply lookup_insert_eq.
  cbn [wait st_stop_complete]. rewrite (bind_silent (mret tt) _ _ _ _ eq_refl).
  unfold send_all. rewrite bind_assoc, (lift_get_server s (SocomCalls.stopped V)) by done.
  rewrite bind_assoc, (server_tokens_run s (mkST None None (Some k) true false))
    by apply lookup_insert_eq.
  change (sc_client (SocomCalls.stopped V)) with (sc_client V). rewrite Hcl. tsimpl.
  unfold holding. rewrite !bind_assoc. tsimpl.
  run_with (copy_run _ _ (Stop_complete_client c) k (mkTokens _ _ _ _ _ _ _ _)) as H2.
  rewrite !bind_assoc.
  run_with (copy_run _ _ (Stop_complete_client c) k (mkTokens _ _ _ _ _ _ _ _)) as H3.
  cbn [receive_at_client]. rewrite !bind_assoc.
  destruct (detach_from_client _ _ (mkTokens w2 bl2 (t_endpoints t) (t_clients t)
    (<[s := mkST None None (Some k) true false]> (t_servers t)) (delete (skey V) (t_listen t))
    (t_indications t) (t_next t)) c C s (SocomCalls.stopped V) (Some k) false k e all None None
    true false 2 o H3) as (bl3 & H4 & R4).
  { split_and!; try done; [by fn_simpl..|apply lookup_insert_eq]. }
  { by fn_simpl; rewrite Hn2. }
  { by fn_simpl. }
  rewrite (bind_run _ _ _ _ _ _ R4). unfold detaching. tsimpl.
  erewrite lift_emits by reflexivity. tsimpl.
  rewrite !bind_assoc.
  run_with (drop_run _ _ (Stop_complete_client c) k 1 (mkTokens _ _ _ _ _ _ _ _)) as H5.
  rewrite (bind_silent (mret tt) _ _ _ _ eq_refl), !bind_assoc.
  run_with (drop_run _ _ (Stop_complete_client c) k 0 (mkTokens _ _ _ _ _ _ _ _)) as H6.
  rewrite (bind_silent (mret tt) _ _ _ _ eq_refl).
  rewrite (server_tokens_run s (mkST None None None true true)) by apply lookup_insert_eq.
  eexists. split; [|by rewrite insert_insert_eq].
  eapply blocks_ok_ext; [exact H6|done|]. intros a [? Ha]. by fn_cases.
Qed.
End disable.

(** The tokens after a server is disabled. *)
Lemma tok_disabled t s V bl :
  tok_inv t → conn_inv (t_socom t) → so_servers (t_socom t) !! s = Some V →
  sc_registered V = true → sc_client V = None →
  blocks_ok bl (<[All_clients_disconnected s := None]>
    (<[Stop_complete_server s := None]> (owner t))) (copies (t_socom t)) →
  tok_inv (mkTokens (out_of_tables t s V) bl (t_endpoints t) (t_clients t)
    (<[s := mkST None None None true true]> (t_servers t)) (delete (skey V) (t_listen t))
    (t_indications t) (t_next t)).
Proof.
  intros Hi Hw EV Hreg Hcl Hb.
  assert (∀ a, owner (mkTokens (out_of_tables t s V) bl (t_endpoints t) (t_clients t)
    (<[s := mkST None None None true true]> (t_servers t)) (delete (skey V) (t_listen t))
    (t_indications t) (t_next t)) a = (<[All_clients_disconnected s := None]>
    (<[Stop_complete_server s := None]> (owner t))) a) as Ho.
  { owner_cases. }
  apply (tok_inv_change t _ None (Some s)); simpl; try done.
  - split; simpl; try done.
    + intros s' Hs. by rewrite !lookup_insert_ne by congruence.
    + intros s' V' Hs EV' Hr'. rewrite lookup_delete_ne; [done|]. intros Hk.
      destruct (server_unique _ _ _ _ _ Hw EV EV' Hk Hreg Hr') as [-> _]. done.
    + intros c C s' _. by apply (unlinked_server _ _ _ Hw EV Hcl).
  - eapply blocks_ok_ext; [exact Hb|done|]. intros [c|s'|s'] [? Ha]; simpl; try done.
    destruct (decide (s' = s)) as [->|]; [by rewrite fn_lookup_insert in Ha|].
    by rewrite lookup_insert_ne.
  - intros a k E. rewrite Ho in E. revert E. fn_cases; try done. apply (k_next _ Hi).
  - intros ? [= <-]. rewrite lookup_insert_eq. unfold server_tokens_ok. simpl.
    rewrite lookup_insert_eq. by exists true, true.
  - intros e x E. apply (k_endpoint _ Hi _ _ E).
  - intros key k [Hne E]%lookup_delete_Some. destruct (k_listen _ Hi key k E) as (s' & V' & EV' &
      Hr' & Hk).
    exists s', V'. split; [|done]. rewrite lookup_insert_ne; [done|]. intros <-. congruence.
Qed.

Lemma tok_disabled_connected t s V c C k e bl :
  tok_inv t → conn_inv (t_socom t) → so_servers (t_socom t) !! s = Some V →
  sc_registered V = true → so_clients (t_socom t) !! c = Some C → cc_server C = Some s →
  t_clients t !! c = Some (mkCT (Some k) (Some e) false) → t_indications t !! ckey C = Some k →
  blocks_ok bl (<[All_clients_disconnected s := None]>
    (<[Stop_complete_server s := None]> (owner t)))
    (<[Stop_complete_client c := 1]> (copies (t_socom t))) →
  tok_inv (mkTokens (detach (out_of_tables t s V) c C s (SocomCalls.stopped V)) bl
    (delete e (t_endpoints t)) (<[c := mkCT (Some k) None false]> (t_clients t))
    (<[s := mkST None None None true true]> (t_servers t)) (delete (skey V) (t_listen t))
    (t_indications t) (t_next t)).
Proof.
  intros Hi Hw EV Hreg EC Hcs Et Hind Hb. set (t' := mkTokens _ _ _ _ _ _ _ _).
  assert (∀ a, owner t' a = (<[All_clients_disconnected s := None]>
    (<[Stop_complete_server s := None]> (owner t))) a) as Ho.
  { owner_cases. }
  apply (tok_inv_change t _ (Some c) (Some s)); simpl; try done.
  - split; simpl; try done.
    + intros c' Hc. by rewrite !lookup_insert_ne by congruence.
    + intros s' Hs. by rewrite !lookup_insert_ne by congruence.
    + intros s' V' Hs EV' Hr'. rewrite lookup_delete_ne; [done|]. intros Hk.
      destruct (server_unique _ _ _ _ _ Hw EV EV' Hk Hreg Hr') as [-> _]. done.
    + by apply (linked_pair _ c C s).
    + by apply (linked_pair _ c C s).
    + intros c' T e' x Hc ET He Ee. rewrite lookup_delete_ne; [done|]. intros <-.
      destruct Hc. f_equal. symmetry. eapply endpoint_unique; [done|done|exact Et|done..].
  - eapply blocks_ok_ext; [exact Hb|done|]. intros [c'|s'|s'] [? Ha]; simpl; try done.
    + destruct (decide (c' = c)) as [->|];
        [by rewrite fn_lookup_insert, lookup_insert_eq|].
      by rewrite lookup_insert_ne, fn_lookup_insert_ne by congruence.
    + destruct (decide (s' = s)) as [->|]; [by rewrite fn_lookup_insert in Ha|].
      by rewrite !lookup_insert_ne.
  - intros a k' E. rewrite Ho in E. revert E. fn_cases; try done. apply (k_next _ Hi).
  - intros ? [= <-]. rewrite lookup_insert_eq. exists k, None. simpl.
    by rewrite lookup_insert_eq.
  - intros ? [= <-]. rewrite lookup_insert_eq. unfold server_tokens_ok. simpl.
    rewrite lookup_insert_eq. by exists true, true.
  - intros e' x [Hne E]%lookup_delete_Some. destruct (k_endpoint _ Hi _ _ E) as (Hl & c' & T & ET &
      He).
    split; [done|]. exists c', T. rewrite lookup_insert_ne; [done|]. intros <-.
    rewrite Et in ET. injection ET as <-. by simplify_eq/=.
  - intros key k' [Hne E]%lookup_delete_Some.
    destruct (k_listen _ Hi key k' E) as (s' & V' & EV' & Hr' & Hk).
    exists s', V'. split; [|done]. rewrite !lookup_insert_ne; [done|..]; intros <-; congruence.
Qed.

Lemma sim_disable t s V :
  tok_inv t → so_inv (t_socom t) → so_servers (t_socom t) !! s = Some V →
  simulates (disable s) (disable_server s) t.
Proof.
  intros Hi Hinv EV. pose proof (v_conn _ Hinv) as Hw. destruct (sc_registered V) eqn:Hreg.
  2:{ unfold simulates, disable, disable_server.
      rewrite (get_server_run _ _ _ _ EV), (lift_get_server _ _ _ _ EV), Hreg. by exists t. }
  destruct (registered_tokens t s V Hi EV Hreg) as (ks & all & kc & Es & Hl & Hkc & Hks & Hall).
  unfold simulates, disable_server. rewrite (get_server_run _ _ _ _ EV), Hreg.
  rewrite (update_server_run _ _ _ _ _ EV), (bind_silent get_state _ _ _ _ eq_refl).
  rewrite update_record_run, (update_server_run _ (sc_set_registered V false))
    by apply lookup_insert_eq.
  set (w2 := set_servers (set_records _ _) _).
  assert (w2 = out_of_tables t s V) as ->.
  { unfold w2, out_of_tables, set_servers. simpl. by rewrite insert_insert_eq. }
  assert (so_servers (out_of_tables t s V) !! s = Some (SocomCalls.stopped V)) as E2
    by apply lookup_insert_eq.
  rewrite (get_server_run _ _ _ _ E2). change (sc_client (SocomCalls.stopped V)) with (sc_client V).
  destruct (sc_client V) as [c|] eqn:Hc.
  - destruct (connected_client _ s V c Hw EV Hc) as (C & EC & Hs & _ & Hk).
    destruct (v_servers _ Hw _ _ EV) as (_ & Hok & _).
    destruct (reset_server_run c C s (SocomCalls.stopped V) (out_of_tables t s V)) as (o & Eo & Ho);
      try done; [by apply events_ok_stopped|].
    destruct (tok_client t c C Hi EC) as (k & e & Et & Hind & He). rewrite Hs in He.
    destruct He as (e' & all' & -> & Hall' & Ee). assert (all' = all) as -> by congruence.
    assert (owner t (Stop_complete_client c) = Some k) as Hk' by (simpl; by rewrite Et).
    assert (kc = Some k) as -> by (rewrite Hkc; exact Hk').
    destruct (disable_connected t s V Hi EV Hreg ks all c C k e' o) as (bl & Hb & R); try done.
    erewrite bind_run; last first.
    { unfold receive_service_state. rewrite (bind_run _ _ _ _ _ _ Eo). reflexivity. }
    rewrite (get_server_run _ (disconnected (SocomCalls.stopped V))) by apply lookup_insert_eq.
    simpl. rewrite app_nil_r. eexists. split; [exact R|]. split; [done|].
    by apply (tok_disabled_connected t s V c C k e' bl).
  - rewrite (bind_silent (mret tt) _ _ tt _) by done. rewrite (get_server_run _ _ _ _ E2).
    change (sc_client (SocomCalls.stopped V)) with (sc_client V). rewrite Hc.
    rewrite bool_decide_eq_true_2 by done. subst kc.
    destruct (disable_idle t s V Hi EV Hreg ks all) as (bl & Hb & R); try done.
    eexists. split; [exact R|]. split; [done|]. by apply tok_disabled.
Qed.

(** ** Making and destroying a server *)

Lemma tok_delete_server t s V ids :
  tok_inv t → conn_inv (t_socom t) → so_servers (t_socom t) !! s = Some V →
  sc_registered V = false →
  tok_inv (set_server_tokens (set_socom t (set_servers (set_identifiers (t_socom t) ids)
    (delete s (so_servers (t_socom t))))) (delete s (t_servers t))).
Proof.
  intros Hi Hw EV Hreg. set (t' := set_server_tokens _ _).
  destruct (v_servers _ Hw _ _ EV) as (_ & _ & _ & Hcl). rewrite Hreg in Hcl.
  pose proof (tok_server t s V Hi EV) as Hs. unfold server_tokens_ok in Hs. rewrite Hreg in Hs.
  destruct Hs as (b1 & b2 & Es).
  assert (∀ a, owner t' a = owner t a) as Ho.
  { owner_cases. }
  apply (tok_inv_change t _ None (Some s)); simpl; try done.
  - split; simpl; try done.
    + intros s' Hs. by rewrite !lookup_delete_ne by congruence.
    + intros c C s' _. by apply (unlinked_server _ _ _ Hw EV Hcl).
  - eapply blocks_ok_ext; [apply (k_blocks _ Hi)|done|]. intros [c|s'|s'] [? Ha]; simpl; try done.
    destruct (decide (s' = s)) as [->|]; [simpl in Ha; by rewrite Es in Ha|].
    by rewrite lookup_delete_ne.
  - intros a k E. rewrite Ho in E. by apply (k_next _ Hi a).
  - intros ? [= <-]. by rewrite !lookup_delete_eq.
  - intros e x E. apply (k_endpoint _ Hi _ _ E).
  - intros key k E. destruct (k_listen _ Hi key k E) as (s' & V' & EV' & Hr' & Hk).
    exists s', V'. split; [|done]. rewrite lookup_delete_ne; [done|]. intros <-. congruence.
Qed.

Lemma sim_destroy_server t s V :
  tok_inv t → so_inv (t_socom t) → so_servers (t_socom t) !! s = Some V →
  simulates (destroy_server s) (destroy_server_connector s) t.
Proof.
  intros Hi Hinv EV. pose proof (sim_disable t s V Hi Hinv EV) as Hs.
  destruct (disable_good _ s V Hinv EV) as (w' & o & V' & E & Hg & EV' & _ & Hr).
  unfold simulates in Hs |- *. rewrite E in Hs. destruct Hs as (t1 & R & Hw & Hi1).
  unfold destroy_server, destroy_server_connector. rewrite (bind_run _ _ _ _ _ _ E).
  rewrite (get_server_run _ _ _ _ EV'), modify_run. simpl. rewrite app_nil_r.
  rewrite (bind_run _ _ _ _ _ _ R), (lift_get_server s V') by by rewrite Hw.
  do 2 erewrite lifted_run by reflexivity. simpl. rewrite app_nil_r. eexists. split; [done|].
  split; [by simpl; rewrite Hw|]. apply (tok_delete_server t1 s V'); try done; rewrite Hw; [|done].
  apply Hg.
Qed.

Lemma sim_make_server t ok i m e inst :
  tok_inv t → so_inv (t_socom t) →
  simulates (make_server ok i m e inst) (make_server_connector ok i m e inst) t.
Proof.
  intros Hi Hinv. unfold simulates, make_server. destruct ok; last first.
  { simpl. erewrite lifted_run by reflexivity. simpl. exists t. by destruct t. }
  destruct (decide ((i, inst) ∈ so_identifiers (t_socom t))) as [Hd|Hd].
  { assert (make_server_connector true i m e inst (t_socom t) =
      Done (Err duplicate_service, t_socom t, [])) as E.
    { unfold make_server_connector. rewrite (bind_silent get_state _ _ _ _ eq_refl).
      by rewrite decide_True. }
    rewrite E. rewrite (lifted_run _ _ _ _ _ E). exists t. by destruct t. }
  pose proof (make_server_run i m e inst _ Hd) as E.
  rewrite E, (lifted_run _ _ _ _ _ E), put_server_run.
  eexists. split; [done|]. split; [done|].
  pose proof (conn_fresh_server _ (v_conn _ Hinv)) as Hf.
  pose proof (k_server _ Hi (so_next (t_socom t))) as Hs. rewrite Hf in Hs.
  set (t' := set_server_tokens _ _).
  assert (∀ a, owner t' a = owner t a) as Ho.
  { owner_cases. }
  apply (tok_inv_change t _ None (Some (so_next (t_socom t)))); simpl; try done.
  - split; simpl; try done.
    + intros s' Hne. by rewrite !lookup_insert_ne by congruence.
    + intros c C s' _ EC Es' [= <-].
      destruct (connected_server _ _ _ _ (v_conn _ Hinv) EC Es') as (V & EV & _). congruence.
  - eapply blocks_ok_ext; [apply (k_blocks _ Hi)|done|]. intros [c|s'|s'] [? Ha]; simpl; try done.
    destruct (decide (s' = so_next (t_socom t))) as [->|]; [simpl in Ha; by rewrite Hs in Ha|].
    by rewrite lookup_insert_ne.
  - intros a k Ek. rewrite Ho in Ek. by apply (k_next _ Hi a).
  - intros ? [= <-]. rewrite lookup_insert_eq. unfold server_tokens_ok. simpl.
    rewrite lookup_insert_eq. by exists false, false.
  - intros e' x Ex. apply (k_endpoint _ Hi _ _ Ex).
  - intros key k Ek. destruct (k_listen _ Hi key k Ek) as (s' & V' & EV' & Hr' & Hk).
    exists s', V'. split; [|done]. rewrite lookup_insert_ne; [done|]. intros <-. congruence.
Qed.

(** ** Enabling a server *)

Section enable.
Context (t : Tokens) (s : N) (V : Server_connector).
Context (Hi : tok_inv t) (Hinv : so_inv (t_socom t)) (EV : so_servers (t_socom t) !! s = Some V).
Context (Hreg : sc_registered V = false).
Local Abbreviation w := (t_socom t).
Local Abbreviation k := (t_next t).

Definition in_tables : Socom :=
  set_records (set_servers w (<[s := enabling V]> (so_servers w)))
    (<[skey V := with_server (get_record w (skey V)) (Some (sc_interface V, s))]> (so_records w)).

(** The owners and the counts while the server is registered. *)
Definition own_enabled : Block_action → option N :=
  <[All_clients_disconnected s := Some (k + 1)%N]> (<[Stop_complete_server s := Some k]> (owner t)).
Definition cnt_enabled : Block_action → nat :=
  <[All_clients_disconnected s := 1]> (<[Stop_complete_server s := 2]> (copies w)).

Definition enabling_tokens (bl : gmap N Block) : Tokens :=
  mkTokens in_tables bl (t_endpoints t) (t_clients t)
    (<[s := mkST (Some k) (Some (k + 1)%N) None false false]> (t_servers t))
    (<[skey V := k]> (t_listen t)) (t_indications t) (k + 1 + 1)%N.

Lemma unregistered_tokens : ∃ b1 b2, t_servers t !! s = Some (mkST None None None b1 b2).
Proof.
  pose proof (tok_server t s V Hi EV) as Hs. unfold server_tokens_ok in Hs. by rewrite Hreg in Hs.
Qed.

(** Up to the point at which the current client is told. *)
Lemma enable_start :
  ∃ bl, blocks_ok bl own_enabled (<[Stop_complete_server s := 3]> cnt_enabled) ∧
    below own_enabled (k + 1 + 1)%N ∧
    match sr_server (get_record w (skey V)) with
    | Some _ => enable s t = Fault Assertion_failed
    | None => enable s t =
        (match sr_client (get_record w (skey V)) with
         | Some (client_interface, c) =>
           indication ← reads (λ t, t_indications t !! skey V);
           k' ← the Null_dereference indication;
           bind (sc_interface V) s client_interface c k'
         | None => mret tt
         end;;
         drop_block k;;
         lift (update_server s (λ o, sc_set_registered o true))) (enabling_tokens bl)
    end.
Proof.
  destruct unregistered_tokens as (b1 & b2 & Es).
  assert (owner t (Stop_complete_server s) = None) as Ho1 by (simpl; by rewrite Es).
  assert (owner t (All_clients_disconnected s) = None) as Ho2 by (simpl; by rewrite Es).
  pose proof (k_blocks _ Hi) as Hb. pose proof (k_next _ Hi) as Hn.
  unfold own_enabled, cnt_enabled. set (own := owner t) in *. set (cnt := copies w) in *.
  unfold enable. rewrite (lift_get_server _ _ _ _ EV), assert_run by by rewrite Hreg.
  rewrite (server_tokens_run _ _ _ _ Es).
  unfold enabling_tokens, in_tables. clearbody own cnt. clear Hi Hinv Es.
  destruct t as [w0 bl0 en cl sv li ind nx]. tsimpl.
  destruct (make_block_run own cnt (Stop_complete_server s) (mkTokens w0 bl0 en cl sv li ind nx))
    as (bl1 & H1 & N1 & R1); try done. rewrite R1. tsimpl.
  destruct (make_block_run _ _ (All_clients_disconnected s)
    (mkTokens w0 bl1 en cl sv li ind (nx + 1)) H1 N1) as (bl2 & H2 & N2 & R2); [by fn_simpl|].
  rewrite R2. tsimpl. rewrite put_server_run. tsimpl.
  rewrite (lift_update_server s V) by done. tsimpl.
  rewrite !(bind_silent (mret tt) _ _ _ _ eq_refl). unfold holding. rewrite !bind_assoc.
  run_with (copy_run _ _ (Stop_complete_server s) nx (mkTokens _ _ _ _ _ _ _ _)) as H3.
  unfold register_server. change (record_key (sc_interface V) (sc_instance V)) with (skey V).
  pose proof (register_server_run (set_servers w0 (<[s := sc_set_stop_token V true]> (so_servers
    w0)))
    (skey V) (sc_interface V) s) as Hrun.
  change (get_record (set_servers w0 _) (skey V)) with (get_record w0 (skey V)) in Hrun.
  match type of H3 with blocks_ok ?bl3 ?own3 _ =>
    destruct (copy_run _ _ (Stop_complete_server s) nx (mkTokens
      (set_records (set_servers w0 (<[s := sc_set_stop_token V true]> (so_servers w0)))
        (<[skey V := with_server (get_record w0 (skey V)) (Some (sc_interface V, s))]>
          (so_records w0))) bl3 en cl
      (<[s := mkST (Some nx) (Some (nx + 1)%N) None false false]> sv) li ind (nx + 1 + 1))
      H3) as (bl4 & H4 & R4); [by fn_simpl|]
  end.
  exists bl4. split; [|split; [done|]].
  { eapply blocks_ok_ext; [exact H4|done|]. intros a _. by fn_cases. }
  destruct (sr_server (get_record w0 (skey V))) as [x|].
  - rewrite !bind_assoc. apply lift_fault. exact Hrun.
  - rewrite !bind_assoc. erewrite lifted_run by exact Hrun. tsimpl. rewrite !bind_assoc, R4. tsimpl.
    rewrite bind_assoc, modify_run. tsimpl.
    apply bind_ext. intros [] t'. by rewrite bind_assoc.
Qed.

Context (Hnone : sr_server (get_record w (skey V)) = None).

Lemma no_client_yet : sc_client V = None.
Proof.
  destruct (v_servers _ (v_conn _ Hinv) _ _ EV) as (_ & _ & _ & H). by rewrite Hreg in H.
Qed.

(** No other server is registered for the service. *)
Lemma only_server s' V' :
  so_servers w !! s' = Some V' → sc_registered V' = true → skey V ≠ skey V'.
Proof.
  intros EV' Hr' Hk. destruct (v_servers _ (v_conn _ Hinv) _ _ EV') as (_ & _ & _ & H).
  rewrite Hr', <-Hk, Hnone in H. by destruct H.
Qed.

Lemma own_enabled_ok t' kc :
  t_clients t' = t_clients t →
  t_servers t' = <[s := mkST (Some k) (Some (k + 1)%N) kc false false]> (t_servers t) →
  ∀ a, owner t' a = own_enabled a.
Proof.
  intros Ec Es [c|s'|s']; unfold own_enabled; fn_simpl; simpl; rewrite ?Ec, ?Es; [done|..];
    (destruct (decide (s' = s)) as [->|]; [by rewrite lookup_insert_eq; fn_cases|]);
    rewrite lookup_insert_ne by done; by fn_cases.
Qed.

(** Nobody waits for the server, or only a client that it does not suit. *)
Lemma tok_enabled bl :
  blocks_ok bl own_enabled cnt_enabled → below own_enabled (k + 1 + 1)%N →
  tok_inv (set_socom (enabling_tokens bl)
    (set_servers in_tables (<[s := enabled V]> (so_servers in_tables)))).
Proof.
  intros Hb Hn. set (t' := set_socom _ _).
  pose proof (own_enabled_ok t' None eq_refl eq_refl) as Ho.
  apply (tok_inv_change t t' None (Some s)); simpl; try done.
  - split; simpl; try done.
    + intros s' Hs. by rewrite !lookup_insert_ne by congruence.
    + intros s' V' Hs EV' Hr'. by rewrite lookup_insert_ne by by eapply only_server.
    + intros c C s' _. by apply (unlinked_server _ _ _ (v_conn _ Hinv) EV no_client_yet).
  - eapply blocks_ok_ext; [exact Hb|done|]. unfold cnt_enabled.
    intros [c|s'|s'] _; simpl; fn_simpl; [done| |].
    + by fn_cases.
    + destruct (decide (s' = s)) as [->|].
      * rewrite lookup_insert_eq. simpl. rewrite no_client_yet. by fn_simpl.
      * rewrite !lookup_insert_ne by done. fn_simpl. by rewrite fn_lookup_insert_ne by congruence.
  - intros a k' E. rewrite Ho in E. by eapply Hn.
  - intros ? [= <-]. rewrite lookup_insert_eq. unfold server_tokens_ok. simpl.
    rewrite no_client_yet, !lookup_insert_eq. by exists k, (k + 1)%N.
  - intros e x E. destruct (k_endpoint _ Hi _ _ E) as [? ?]. split; [lia|done].
  - intros key k' E. destruct (decide (key = skey V)) as [->|Hne].
    + exists s, (enabled V). by rewrite lookup_insert_eq.
    + rewrite lookup_insert_ne in E by done.
      destruct (k_listen _ Hi key k' E) as (s' & V' & EV' & Hr' & Hk).
      exists s', V'. split; [|done]. rewrite !lookup_insert_ne; [done|..]; intros <-; congruence.
Qed.

(** The end of [enable]. *)
Lemma enable_end own cnt V' t1 :
  blocks_ok (t_blocks t1) own (<[Stop_complete_server s := 3]> cnt) →
  own (Stop_complete_server s) = Some k → cnt (Stop_complete_server s) = 2 →
  so_servers (t_socom t1) !! s = Some V' →
  ∃ bl, blocks_ok bl own cnt ∧
    (drop_block k;; lift (update_server s (λ o, sc_set_registered o true))) t1 =
      Done (tt, set_blocks (set_socom t1 (set_servers (t_socom t1)
        (<[s := sc_set_registered V' true]> (so_servers (t_socom t1))))) bl, []).
Proof.
  intros Hb Hk Hc EV'.
  destruct (drop_run own _ (Stop_complete_server s) k 1 t1 Hb Hk) as (bl & Hb' & R); [by fn_simpl|].
  exists bl. split.
  - eapply blocks_ok_ext; [exact Hb'|done|]. intros a _. by fn_cases.
  - rewrite R, run_end. by rewrite (lift_update_server s V').
Qed.

Lemma sim_enable_quiet :
  match sr_client (get_record w (skey V)) with
  | Some (j, _) => is_minor_version_compatible (sc_interface V) j = false
  | None => True
  end → simulates (enable s) (enable_server s) t.
Proof.
  intros Hq. destruct enable_start as (bl & Hb & Hn & Hrun). rewrite Hnone in Hrun.
  unfold simulates. rewrite (enable_run _ s V (v_conn _ Hinv) EV Hreg Hnone).
  destruct (enable_end own_enabled cnt_enabled (enabling V) (enabling_tokens bl))
    as (bl' & Hb' & R); [done|by unfold own_enabled; fn_simpl|by unfold cnt_enabled; fn_simpl|
      apply lookup_insert_eq|].
  exists (set_socom (enabling_tokens bl') (set_servers in_tables (<[s := enabled V]>
    (so_servers in_tables)))).
  rewrite Hrun. unfold with_server_enabled, enable_reports.
  assert (set_servers in_tables (<[s:=enabled V]> (so_servers in_tables)) =
    set_servers (set_records w (<[skey V := with_server (get_record w (skey V))
      (Some (sc_interface V, s))]> (so_records w))) (<[s:=enabled V]> (so_servers w))) as Ew.
  { unfold in_tables, set_servers. simpl. by rewrite insert_insert_eq. }
  destruct (sr_client (get_record w (skey V))) as [[j c]|] eqn:Hc.
  - destruct (v_record_client _ (v_conn _ Hinv) _ _ _ Hc) as (C & EC & <- & Hk).
    destruct (tok_client t c C Hi EC) as (k' & e & _ & Hind & _). rewrite Hk in Hind.
    rewrite bind_assoc, reads_run. simpl t_indications.
    rewrite bind_assoc, (the_run _ _ _ _ _ Hind). unfold bind. rewrite Hq.
    rewrite (bind_silent (mret tt) _ _ _ _ eq_refl), R.
    split_and!; [done|exact Ew|by apply tok_enabled].
  - rewrite (bind_silent (mret tt) _ _ _ _ eq_refl), R.
    split_and!; [done|exact Ew|by apply tok_enabled].
Qed.

(** The state after a client was bound to the server. *)
Local Abbreviation alone bl := (set_socom (enabling_tokens bl)
  (set_servers in_tables (<[s := enabled V]> (so_servers in_tables)))).

Lemma tok_enabled_connected c C k' bl0 bl2 :
  so_clients w !! c = Some C → cc_server C = None →
  t_clients t !! c = Some (mkCT (Some k') None false) → tok_inv (alone bl0) →
  blocks_ok bl2 own_enabled (<[Stop_complete_client c := 2]>
    (<[All_clients_disconnected s := 2]> cnt_enabled)) →
  tok_inv (attached (alone bl0) c C s (enabled V) k' k (k + 1)%N false false bl2).
Proof.
  intros EC Hcs Et Hi1 Hb2. pose proof (v_conn _ Hinv) as Hw.
  apply tok_attached; try done; simpl.
  - apply lookup_insert_eq.
  - intros c' C' EC' Hs'. by destruct (unlinked_server _ _ _ Hw EV no_client_yet _ _ _ EC' Hs').
  - intros s' V' EV' Hc'. destruct (decide (s' = s)) as [->|].
    + rewrite lookup_insert_eq in EV'. injection EV' as <-. simpl in Hc'.
      by rewrite no_client_yet in Hc'.
    + rewrite !lookup_insert_ne in EV' by done.
      by destruct (unlinked_client _ _ _ Hw EC Hcs _ _ _ EV' Hc').
  - apply lookup_insert_eq.
  - eapply blocks_ok_ext; [exact Hb2|by apply (own_enabled_ok (alone bl0) None)|].
    intros [c'|s'|s'] _; unfold cnt_enabled; simpl.
    + unfold insert, fn_insert. by repeat case_decide.
    + unfold insert, fn_insert. by repeat case_decide.
    + destruct (decide (s' = s)) as [->|].
      * by fn_cases.
      * fn_simpl. rewrite !fn_lookup_insert_ne by congruence. simpl.
        by rewrite !lookup_insert_ne by done.
Qed.

(** A client waits for the server. *)
Lemma sim_enable_connects c C :
  sr_client (get_record w (skey V)) = Some (cc_interface C, c) →
  so_clients w !! c = Some C → ckey C = skey V →
  is_minor_version_compatible (sc_interface V) (cc_interface C) = true →
  simulates (enable s) (enable_server s) t.
Proof.
  intros Hc EC Hk Hcomp. pose proof (v_conn _ Hinv) as Hw.
  destruct enable_start as (bl & Hb & Hn & Hrun). rewrite Hnone, Hc in Hrun.
  unfold simulates. rewrite (enable_run _ s V Hw EV Hreg Hnone), Hrun.
  destruct (tok_client t c C Hi EC) as (k' & e & Et & Hind & He). rewrite Hk in Hind.
  assert (cc_server C = None) as Hcs.
  { destruct (v_clients _ Hw _ _ EC) as (_ & _ & _ & ->). unfold server_of, matching.
    by rewrite Hk, Hnone. }
  rewrite Hcs in He. subst e.
  assert (own_enabled (Stop_complete_client c) = Some k') as Hown
    by (unfold own_enabled; fn_simpl; simpl; by rewrite Et).
  rewrite bind_assoc, reads_run. simpl t_indications.
  rewrite bind_assoc, (the_run _ _ _ _ _ Hind). unfold bind. rewrite Hcomp.
  unfold is_interface_compatible. unfold skey, ckey, record_key in Hk. injection Hk as K1 K2 K3.
  rewrite Hcomp, K1, K2, N.eqb_refl, bool_decide_eq_true_2 by done.
  rewrite bind_assoc, assert_run by done.
  destruct (indication_run own_enabled (<[Stop_complete_server s := 3]> cnt_enabled)
    (enabling_tokens bl) c C s (enabling V) k' k (k + 1)%N false false) as (bl1 & Hb1 & R1);
    try done; [by unfold own_enabled; fn_simpl|apply lookup_insert_eq|apply lookup_insert_eq|
      apply no_client_yet|].
  rewrite (bind_run _ _ _ _ _ _ R1).
  assert (cnt_enabled (Stop_complete_client c) = 1) as N1
    by (unfold cnt_enabled; fn_simpl; simpl; rewrite EC; simpl; by rewrite Hcs).
  assert (cnt_enabled (All_clients_disconnected s) = 1) as N2 by (unfold cnt_enabled; by fn_simpl).
  destruct (enable_end own_enabled (<[Stop_complete_client c := 2]>
    (<[All_clients_disconnected s := 2]> cnt_enabled)) (sc_set_client (enabling V) (Some c))
    (attached (enabling_tokens bl) c C s (enabling V) k' k (k + 1)%N false false bl1))
    as (bl2 & Hb2 & R2).
  { eapply blocks_ok_ext; [exact Hb1|done|]. intros a _. by fn_cases. }
  { by unfold own_enabled; fn_simpl. }
  { by unfold cnt_enabled; fn_simpl. }
  { apply lookup_insert_eq. }
  rewrite R2. destruct (drop_run own_enabled _ (Stop_complete_server s) k 1 (enabling_tokens bl) Hb)
    as (bl0 & Hb0 & _); [by unfold own_enabled; fn_simpl|by fn_simpl|].
  assert (tok_inv (alone bl0)) as Hi1.
  { apply tok_enabled; [|done]. eapply blocks_ok_ext; [exact Hb0|done|]. intros a _.
    unfold cnt_enabled. by fn_cases. }
  unfold with_server_enabled, enable_reports. rewrite Hc, Hcomp. eexists. split; [done|]. split.
  { simpl. unfold set_servers. simpl. by rewrite (alter_as_insert _ _ _ _ EC), !insert_insert_eq. }
  match goal with |- tok_inv ?t2 =>
    replace t2 with (attached (alone bl0) c C s (enabled V) k' k (k + 1)%N false false bl2) end.
  2:{ unfold attached, enabling_tokens, attach, set_socom, set_blocks, set_servers, set_clients.
      simpl. by rewrite !insert_insert_eq. }
  by apply tok_enabled_connected.
Qed.

Lemma sim_enable_free : simulates (enable s) (enable_server s) t.
Proof.
  destruct (sr_client (get_record w (skey V))) as [[j c]|] eqn:Hc;
    [|by apply sim_enable_quiet; rewrite Hc].
  destruct (v_record_client _ (v_conn _ Hinv) _ _ _ Hc) as (C & EC & <- & Hk).
  destruct (is_minor_version_compatible (sc_interface V) (cc_interface C)) eqn:Hcomp.
  - by apply (sim_enable_connects c C).
  - apply sim_enable_quiet. by rewrite Hc.
Qed.
End enable.

Lemma sim_enable t s V :
  tok_inv t → so_inv (t_socom t) → so_servers (t_socom t) !! s = Some V →
  sc_registered V = false → simulates (enable s) (enable_server s) t.
Proof.
  intros Hi Hinv EV Hreg.
  destruct (sr_server (get_record (t_socom t) (skey V))) as [x|] eqn:Hs;
    [|by apply (sim_enable_free t s V)].
  unfold simulates. rewrite (enable_occupied _ s V) by by rewrite ?Hs.
  destruct (enable_start t s V Hi EV Hreg) as (bl & _ & _ & Hrun). by rewrite Hs in Hrun.
Qed.

(** ** Destroying a client *)

(** A client without a server stops. *)
Lemma stop_unconnected own cnt t c C k :
  blocks_ok (t_blocks t) own cnt → own (Stop_complete_client c) = Some k →
  cnt (Stop_complete_client c) = 1 → t_clients t !! c = Some (mkCT (Some k) None false) →
  so_clients (t_socom t) !! c = Some C →
  ∃ bl, blocks_ok bl (<[Stop_complete_client c := None]> own) cnt ∧
    stop_client c t = Done (tt, mkTokens (set_clients (t_socom t)
      (<[c := cc_set_stop_token C false]> (so_clients (t_socom t)))) bl (t_endpoints t)
      (<[c := mkCT None None true]> (t_clients t)) (t_servers t) (t_listen t) (t_indications t)
      (t_next t), []).
Proof.
  intros Hb Hk Hn Et EC. unfold stop_client. destruct t as [w bl0 en cl sv li ind nx]. tsimpl.
  rewrite (client_tokens_run c (mkCT (Some k) None false)) by done. tsimpl.
  rewrite put_client_run. tsimpl. rewrite (lift_update_client c C) by done. tsimpl.
  run_with (drop_last own cnt (Stop_complete_client c) k (mkTokens _ _ _ _ _ _ _ _)) as H1.
  unfold fulfil. rewrite bind_assoc, (client_tokens_run c (mkCT None None false))
    by apply lookup_insert_eq. rewrite put_client_run. tsimpl.
  unfold reset_server_endpoint. rewrite (client_tokens_run c (mkCT None None true))
    by apply lookup_insert_eq. tsimpl.
  eexists. split; [exact H1|]. unfold mret, M_ret. by rewrite insert_insert_eq.
Qed.

(** A client with a server stops. *)
Lemma stop_connected own cnt t c C s V k e all ks ka p1 p2 o :
  blocks_ok (t_blocks t) own cnt → own (Stop_complete_client c) = Some k →
  cnt (Stop_complete_client c) = 2 → own (All_clients_disconnected s) = Some all →
  cnt (All_clients_disconnected s) = 2 → t_clients t !! c = Some (mkCT (Some k) (Some e) false) →
  t_servers t !! s = Some (mkST ks ka (Some k) p1 p2) →
  t_endpoints t !! e = Some (1, (s, Some all)) →
  so_clients (t_socom t) !! c = Some C → cc_server C = Some s →
  let w1 := set_clients (t_socom t) (<[c := cc_set_stop_token C false]> (so_clients (t_socom t))) in
  reset_server c w1 = Done (tt, detach w1 c (cc_set_stop_token C false) s V, o) →
  ∃ bl, blocks_ok bl (<[Stop_complete_client c := None]> own)
      (<[All_clients_disconnected s := 1]> cnt) ∧
    stop_client c t = Done (tt, mkTokens (detach w1 c (cc_set_stop_token C false) s V) bl
      (delete e (t_endpoints t)) (<[c := mkCT None None true]> (t_clients t))
      (<[s := mkST ks ka None p1 p2]> (t_servers t)) (t_listen t) (t_indications t) (t_next t), o).
Proof.
  intros Hb Hk Hn Hall Hn' Et Es Ee EC Hcs w1 Hr. unfold stop_client. subst w1.
  destruct t as [w bl0 en cl sv li ind nx]. tsimpl.
  rewrite (client_tokens_run c (mkCT (Some k) (Some e) false)) by done. tsimpl.
  rewrite put_client_run. tsimpl. rewrite (lift_update_client c C) by done. tsimpl.
  run_with (drop_run own cnt (Stop_complete_client c) k _ (mkTokens _ _ _ _ _ _ _ _)) as H1.
  destruct (detach_from_server _ _ (mkTokens (set_clients w (<[c := cc_set_stop_token C false]>
    (so_clients w))) bl en (<[c := mkCT None (Some e) false]> cl) sv li ind nx) c
    (cc_set_stop_token C false) s V None false k e all ks ka p1 p2 0 o H1) as (bl1 & H2 & R).
  { split_and!; try done; apply lookup_insert_eq. }
  { by fn_simpl. }
  { by fn_simpl. }
  rewrite R. unfold detaching. tsimpl. eexists. split.
  - eapply blocks_ok_ext; [exact H2|done|]. intros a [? Ha]. by fn_cases.
  - by rewrite insert_insert_eq.
Qed.

Lemma Done_inj {W O : Type} (w w' : W) (o o' : O) :
  Done (tt, w, o) = Done (tt, w', o') → w = w' ∧ o = o'.
Proof. intros [= -> ->]. done. Qed.

Section destroy.
Context (t : Tokens) (c : N) (C : Client_connector).
Context (Hi : tok_inv t) (Hinv : so_inv (t_socom t)) (EC : so_clients (t_socom t) !! c = Some C).
Local Abbreviation w := (t_socom t).

(** The end of the destructor. *)
Lemma destroy_end bl en sv o :
  stop_client c t = Done (tt, mkTokens (released w c C) bl en
    (<[c := mkCT None None true]> (t_clients t)) sv (t_listen t) (t_indications t) (t_next t), o) →
  destroy_client c t = Done (tt, mkTokens (without_client_connector w c C) bl en
    (delete c (t_clients t)) sv (t_listen t) (delete (ckey C) (t_indications t)) (t_next t),
    o ++ drops w C).
Proof.
  intros E. unfold destroy_client. rewrite (bind_run _ _ _ _ _ _ E).
  rewrite (lift_get_client c (gone C)) by apply lookup_insert_eq. rewrite reads_run.
  erewrite lifted_run by (unfold update_record, modify; reflexivity). tsimpl. rewrite modify_run.
  tsimpl.
  erewrite lift_emits by (apply (drop_requests_run w _ C);
    apply (v_waiting _ (v_req _ Hinv) c C EC)).
  tsimpl. unfold finish_client.
  rewrite (client_tokens_run c (mkCT None None true)) by apply lookup_insert_eq. tsimpl.
  erewrite lifted_run by (unfold modify; reflexivity). tsimpl.
  unfold modify, without_client_connector, released, set_clients.
  tsimpl. simpl. rewrite app_nil_r. by rewrite !delete_insert_eq.
Qed.

Lemma tok_destroyed bl :
  cc_server C = None →
  blocks_ok bl (<[Stop_complete_client c := None]> (owner t)) (copies w) →
  tok_inv (mkTokens (without_client_connector w c C) bl (t_endpoints t) (delete c (t_clients t))
    (t_servers t) (t_listen t) (delete (ckey C) (t_indications t)) (t_next t)).
Proof.
  intros Hcs Hb. pose proof (v_conn _ Hinv) as Hw. set (t' := mkTokens _ _ _ _ _ _ _ _).
  destruct (tok_client t c C Hi EC) as (k & e & Et & _ & He). rewrite Hcs in He. subst e.
  assert (∀ a, owner t' a = (<[Stop_complete_client c := None]> (owner t)) a) as Ho.
  { owner_cases. }
  apply (tok_inv_change t t' (Some c) None); simpl; rewrite ?Hcs; try done.
  - split; simpl; rewrite ?Hcs; try done.
    + intros c' Hne. by rewrite !lookup_delete_ne by congruence.
    + intros c' C' Hne EC'. rewrite lookup_delete_ne; [done|]. intros Hk.
      destruct (client_unique _ _ _ _ _ Hw EC EC' Hk) as [-> _]. done.
    + intros s V c' _. by apply (unlinked_client _ _ _ Hw EC Hcs).
  - eapply blocks_ok_ext; [exact Hb|done|]. intros [c'|s'|s'] [? Ha]; simpl; rewrite ?Hcs; try done.
    destruct (decide (c' = c)) as [->|]; [by rewrite fn_lookup_insert in Ha|].
    by rewrite lookup_delete_ne.
  - intros a k' E. rewrite Ho in E. revert E. fn_cases; try done. apply (k_next _ Hi).
  - intros ? [= <-]. by rewrite !lookup_delete_eq.
  - intros e x E. destruct (k_endpoint _ Hi _ _ E) as (? & c' & T & ET & HT). split; [done|].
    exists c', T. rewrite lookup_delete_ne; [done|]. intros <-. rewrite Et in ET.
    injection ET as <-. done.
  - apply (k_listen _ Hi).
Qed.

Lemma tok_destroyed_connected s V k e ks all bl :
  cc_server C = Some s → so_servers w !! s = Some V → sc_registered V = true →
  t_clients t !! c = Some (mkCT (Some k) (Some e) false) →
  t_servers t !! s = Some (mkST (Some ks) (Some all) (Some k) false false) →
  blocks_ok bl (<[Stop_complete_client c := None]> (owner t))
    (<[All_clients_disconnected s := 1]> (copies w)) →
  tok_inv (mkTokens (without_client_connector w c C) bl (delete e (t_endpoints t))
    (delete c (t_clients t)) (<[s := mkST (Some ks) (Some all) None false false]> (t_servers t))
    (t_listen t) (delete (ckey C) (t_indications t)) (t_next t)).
Proof.
  intros Hcs EV Hreg Et Es Hb. pose proof (v_conn _ Hinv) as Hw.
  set (t' := mkTokens _ _ _ _ _ _ _ _).
  assert (∀ a, owner t' a = (<[Stop_complete_client c := None]> (owner t)) a) as Ho.
  { owner_cases. }
  pose proof (tok_server t s V Hi EV) as Hl. unfold server_tokens_ok in Hl. rewrite Hreg in Hl.
  destruct Hl as (k1 & all1 & Es' & Hl). rewrite Es in Es'. injection Es' as <- <- _.
  apply (tok_inv_change t t' (Some c) (Some s)); simpl; rewrite ?Hcs; try done.
  - destruct (linked_pair _ c C s Hw EC Hcs) as [L1 L2].
    split; simpl; rewrite ?Hcs; try done.
    + intros c' Hne. by rewrite !lookup_delete_ne by congruence.
    + intros s' Hne. by rewrite lookup_alter_ne, lookup_insert_ne by congruence.
    + intros c' C' Hne EC'. rewrite lookup_delete_ne; [done|]. intros Hk.
      destruct (client_unique _ _ _ _ _ Hw EC EC' Hk) as [-> _]. done.
    + intros c' T e' x Hne ET He Ee. rewrite lookup_delete_ne; [done|]. intros <-.
      destruct Hne. f_equal. symmetry. eapply endpoint_unique; [done|done|exact Et|done..].
  - eapply blocks_ok_ext; [exact Hb|done|]. intros [c'|s'|s'] [? Ha]; simpl; rewrite ?Hcs.
    + destruct (decide (c' = c)) as [->|]; [by rewrite fn_lookup_insert in Ha|].
      by rewrite lookup_delete_ne, fn_lookup_insert_ne.
    + by fn_simpl.
    + destruct (decide (s' = s)) as [->|].
      * by rewrite lookup_alter_eq, EV, fn_lookup_insert.
      * by rewrite lookup_alter_ne, fn_lookup_insert_ne by congruence.
  - intros a k' E. rewrite Ho in E. revert E. fn_cases; try done. apply (k_next _ Hi).
  - intros ? [= <-]. by rewrite !lookup_delete_eq.
  - intros ? [= <-]. rewrite lookup_alter_eq, EV. simpl. unfold server_tokens_ok. simpl.
    rewrite Hreg. exists ks, all. by rewrite lookup_insert_eq.
  - intros e' x [Hne E]%lookup_delete_Some. destruct (k_endpoint _ Hi _ _ E) as (? & c' & T & ET &
      HT).
    split; [done|]. exists c', T. rewrite lookup_delete_ne; [done|]. intros <-.
    rewrite Et in ET. injection ET as <-. by simplify_eq/=.
  - intros key k' E. destruct (k_listen _ Hi key k' E) as (s' & V' & EV' & Hr' & Hk).
    destruct (decide (s' = s)) as [->|].
    + exists s, (disconnected V). rewrite lookup_alter_eq, EV. by simplify_eq.
    + exists s', V'. by rewrite lookup_alter_ne.
Qed.

Lemma sim_destroy_client : simulates (destroy_client c) (destroy_client_connector c) t.
Proof.
  pose proof (v_conn _ Hinv) as Hw. unfold simulates.
  destruct (release_run w c C Hw EC) as (s0 & o & Eo & _).
  rewrite (destroy_client_released c C w o Hinv EC Eo).
  destruct (tok_client t c C Hi EC) as (k & e & Et & _ & He).
  assert (owner t (Stop_complete_client c) = Some k) as Hk by (simpl; by rewrite Et).
  destruct (cc_server C) as [s|] eqn:Hcs.
  - destruct He as (e' & all & -> & Hall & Ee).
    destruct (connected_server _ _ _ _ Hw EC Hcs) as (V & EV & Hreg & Hc & _).
    destruct (v_servers _ Hw _ _ EV) as (_ & Hok & _).
    destruct (connected_client_token t s V Hi Hinv EV c Hc) as (k' & ks & all' & _ & Hk' & Es & _).
    assert (k' = k) as -> by congruence.
    assert (all' = all) as -> by (simpl in Hall; rewrite Es in Hall; by injection Hall).
    destruct (reset_server_run c (cc_set_stop_token C false) s V
      (set_clients w (<[c := cc_set_stop_token C false]> (so_clients w)))) as (o' & Eo' & _);
      try done; [apply lookup_insert_eq|].
    rewrite Eo' in Eo. apply Done_inj in Eo as [Ew <-].
    destruct (stop_connected (owner t) (copies w) t c C s V k e' all (Some ks) (Some all) false
      false o') as (bl & Hb & R); try done; [apply Hi| | |].
    { simpl. rewrite EC. simpl. by rewrite Hcs. }
    { simpl. rewrite EV. simpl. by rewrite Hc. }
    rewrite Ew in R. eexists. split; [by apply (destroy_end _ _ _ _ R)|]. split; [done|].
    by apply (tok_destroyed_connected s V k e' ks all).
  - subst e. destruct (stop_unconnected (owner t) (copies w) t c C k) as (bl & Hb & R);
      try done; [apply Hi| |].
    { simpl. rewrite EC. simpl. by rewrite Hcs. }
    rewrite (reset_server_none c (cc_set_stop_token C false)) in Eo;
      [|apply lookup_insert_eq|done].
    apply Done_inj in Eo as [Ew <-]. rewrite Ew in R. eexists.
    split; [by apply (destroy_end _ _ _ _ R)|].
    split; [done|]. by apply tok_destroyed.
Qed.
End destroy.

(** ** Making a client *)

Lemma tok_inv_next t n : tok_inv t → (t_next t ≤ n)%N → tok_inv (set_next_token t n).
Proof.
  intros [H1 H2 H3 H4 H5 H6] Hn. split; simpl; try done.
  - intros a k E. pose proof (H2 a k E). lia.
  - intros e x E. destruct (H5 e x E). split; [lia|done].
Qed.

Section make.
Context (t : Tokens) (i : Service_interface_identifier) (inst : Service_instance).
Context (Hi : tok_inv t) (Hinv : so_inv (t_socom t)).
Local Abbreviation w := (t_socom t).
Local Abbreviation c := (so_next (t_socom t)).
Local Abbreviation k := (t_next t).
Local Abbreviation key := (record_key i inst).

Lemma fresh_client : so_clients w !! c = None ∧ t_clients t !! c = None.
Proof.
  pose proof (conn_fresh_client _ (v_conn _ Hinv)) as Hf. split; [done|].
  pose proof (k_client _ Hi c) as H. by rewrite Hf in H.
Qed.

Definition own_made : Block_action → option N :=
  <[Stop_complete_client c := Some k]> (owner t).
Definition cnt_made : Block_action → nat := <[Stop_complete_client c := 1]> (copies w).

(** The connector with its token. *)
Definition made (w' : Socom) (bl : gmap N Block) (ind : gmap Record_key N) : Tokens :=
  mkTokens w' bl (t_endpoints t) (<[c := mkCT (Some k) None false]> (t_clients t)) (t_servers t)
    (t_listen t) ind (k + 1)%N.

Lemma make_client_start :
  ∃ bl, blocks_ok bl own_made cnt_made ∧ below own_made (k + 1)%N ∧
    make_client true i inst t =
      (registration ← register_client i inst c k;
       match registration with
       | Err e => stop_client c;; finish_client c;; mret (Err e)
       | Ok requests =>
         lift (update_client c (λ o, cc_set_requests o requests));; mret (Ok c)
       end) (made (with_client_object w i inst) bl (t_indications t)).
Proof.
  destruct fresh_client as [_ Hf].
  assert (owner t (Stop_complete_client c) = None) as Ho by (simpl; by rewrite Hf).
  destruct (make_block_run (owner t) (copies w) (Stop_complete_client c)
    (set_socom t (with_client_object w i inst))) as (bl & Hb & Hn & R);
    [apply Hi|apply (k_next _ Hi)|done|].
  exists bl. split; [done|]. split; [done|]. unfold make_client. erewrite lifted_run by reflexivity.
  erewrite lifted_run by reflexivity. tsimpl.
  change (set_next (set_clients w _) _) with (with_client_object w i inst).
  rewrite R, put_client_run. by tsimpl.
Qed.

Lemma own_made_ok w' bl ind a : owner (made w' bl ind) a = own_made a.
Proof.
  destruct a as [c'|s'|s']; unfold own_made; fn_simpl; simpl; [|by fn_cases..].
  destruct (decide (c' = c)) as [->|]; [by rewrite lookup_insert_eq, fn_lookup_insert|].
  by rewrite lookup_insert_ne, fn_lookup_insert_ne by congruence.
Qed.

Lemma cnt_made_ok w' C a :
  so_clients w' = <[c := C]> (so_clients w) → so_servers w' = so_servers w → cc_server C = None →
  copies w' a = cnt_made a.
Proof.
  intros Ec Es Hs. unfold cnt_made. destruct a as [c'|s'|s']; simpl; rewrite ?Ec, ?Es; fn_simpl;
    try done. destruct (decide (c' = c)) as [->|].
  - rewrite lookup_insert_eq, fn_lookup_insert. simpl. by rewrite Hs.
  - by rewrite lookup_insert_ne, fn_lookup_insert_ne by congruence.
Qed.

(** A client that is not connected yet. *)
Lemma tok_made w' bl C :
  so_clients w' = <[c := C]> (so_clients w) → so_servers w' = so_servers w →
  cc_server C = None → ckey C = key → sr_client (get_record w key) = None →
  blocks_ok bl own_made cnt_made → below own_made (k + 1)%N →
  tok_inv (made w' bl (<[key := k]> (t_indications t))).
Proof.
  intros Ec Es Hs Hk Hr Hb Hn. destruct fresh_client as [Hf Hf'].
  pose proof (v_conn _ Hinv) as Hw. set (t' := made _ _ _).
  pose proof (own_made_ok w' bl (<[key := k]> (t_indications t))) as Ho. fold t' in Ho.
  apply (tok_inv_change t t' (Some c) None); simpl; rewrite ?Ec, ?Es; try done.
  - split; simpl; rewrite ?Ec, ?Es; try done.
    + intros c' Hne. by rewrite !lookup_insert_ne by congruence.
    + intros c' C' Hne EC'. rewrite lookup_insert_ne; [done|]. intros Hk'.
      destruct (v_clients _ Hw _ _ EC') as (_ & _ & Hr' & _). rewrite <-Hk', Hr in Hr'. done.
    + intros s V c' _ EV Hc [= <-]. destruct (connected_client _ _ _ _ Hw EV Hc) as (? & ? & _).
      congruence.
  - eapply blocks_ok_ext; [exact Hb|done|]. intros a _. by apply (cnt_made_ok w' C).
  - intros a k' E. rewrite Ho in E. by eapply Hn.
  - intros ? [= <-]. rewrite lookup_insert_eq. exists k, None. simpl.
    by rewrite lookup_insert_eq, Hk, lookup_insert_eq, Hs.
  - intros e x E. destruct (k_endpoint _ Hi _ _ E) as (? & c' & T & ET & HT). split; [lia|].
    exists c', T. rewrite lookup_insert_ne; [done|]. intros <-. congruence.
  - apply (k_listen _ Hi).
Qed.

(** The record has a client already. *)
Lemma sim_make_duplicate x :
  sr_client (get_record w key) = Some x →
  simulates (make_client true i inst) (make_client_connector true i inst) t.
Proof.
  intros Hc. destruct fresh_client as [Hf Hf'].
  set (w2 := set_records (with_client_object w i inst)
    (<[key := get_record w key]> (so_records w))).
  assert (make_client_connector true i inst w = Done (Err duplicate_client,
    set_clients w2 (delete c (so_clients w2)), [])) as E.
  { unfold make_client_connector. rewrite reads_run, modify_run.
    change (set_next (set_clients w _) _) with (with_client_object w i inst).
    by rewrite (bind_silent _ _ _ _ _ (register_duplicate_run w i inst x Hc)), modify_run. }
  unfold simulates. rewrite E. destruct make_client_start as (bl & Hb & Hn & ->).
  pose proof (register_client_run w i inst) as Hrun. cbv zeta in Hrun. rewrite Hc in Hrun.
  unfold register_client. rewrite bind_assoc. erewrite lifted_run by exact Hrun.
  cbv beta iota. rewrite (bind_silent (mret _) _ _ _ _ eq_refl). fold w2.
  destruct (stop_unconnected own_made cnt_made (made w2 bl (t_indications t)) c (new_client i inst)
    k)
    as (bl' & Hb' & R); [done|by unfold own_made; fn_simpl|by unfold cnt_made; fn_simpl|
      apply lookup_insert_eq|apply lookup_insert_eq|].
  change (set_socom (made (with_client_object w i inst) bl (t_indications t)) w2)
    with (made w2 bl (t_indications t)).
  rewrite (bind_silent _ _ _ _ _ R). unfold finish_client. rewrite !bind_assoc.
  rewrite (client_tokens_run c (mkCT None None true)) by apply lookup_insert_eq. tsimpl.
  rewrite bind_assoc. erewrite lifted_run by (unfold modify; reflexivity). tsimpl.
  rewrite modify_run. tsimpl.
  eexists. split; [done|]. split.
  { unfold set_clients. simpl. by rewrite !delete_insert_eq. }
  unfold made. simpl. set (w3 := set_clients _ _). rewrite !delete_insert_eq, delete_id by done.
  apply (tok_inv_next (set_blocks (set_socom t w3) bl')); [|simpl; lia].
  apply tok_inv_links; [done| |].
  - unfold w3, links. simpl. by rewrite !delete_insert_eq, delete_id.
  - eapply blocks_ok_ext; [exact Hb'|..]; unfold own_made, cnt_made.
    + intros a. destruct (decide (a = Stop_complete_client c)) as [->|].
      * fn_simpl. simpl. by rewrite Hf'.
      * by rewrite !fn_lookup_insert_ne by congruence.
    + intros a [? Ha]. by fn_cases.
Qed.

Context (Hfree : sr_client (get_record w key) = None).

(** Up to the current server. *)
Lemma make_client_registered :
  ∃ bl, blocks_ok bl own_made cnt_made ∧ below own_made (k + 1)%N ∧
    make_client true i inst t =
      (registration ← match sr_server (get_record w key) with
         | Some (server_interface, s) =>
           listen ← reads (λ t, t_listen t !! key);
           holding listen (bind server_interface s i c k);;
           mret (Ok false)
         | None =>
           lift (get_service_requests i inst);;
           mret (Ok true)
         end;
       match registration with
       | Err e => stop_client c;; finish_client c;; mret (Err e)
       | Ok requests =>
         lift (update_client c (λ o, cc_set_requests o requests));; mret (Ok c)
       end) (made (registered_client w c (new_client i inst)) bl (<[key := k]> (t_indications t))).
Proof.
  destruct make_client_start as (bl & Hb & Hn & ->). exists bl. split; [done|]. split; [done|].
  pose proof (register_client_run w i inst) as Hrun. cbv zeta in Hrun. rewrite Hfree in Hrun.
  unfold register_client. rewrite bind_assoc. erewrite lifted_run by exact Hrun. cbv beta iota.
  by rewrite bind_assoc, modify_run.
Qed.

(** Nobody provides the service: the client waits. *)
Lemma sim_make_waiting :
  sr_server (get_record w key) = None →
  simulates (make_client true i inst) (make_client_connector true i inst) t.
Proof.
  intros Hs. unfold simulates. rewrite (make_client_waits w i inst Hinv Hfree Hs).
  destruct make_client_registered as (bl & Hb & Hn & ->). rewrite Hs, bind_assoc.
  erewrite lift_emits by exact (get_service_requests_run i inst
    (registered_client w c (new_client i inst)) (no_client_no_request w i inst Hinv Hfree)).
  rewrite (bind_silent (mret _) _ _ _ _ eq_refl).
  rewrite (lift_update_client c (new_client i inst)) by apply lookup_insert_eq.
  eexists. split; [unfold mret, M_ret; by rewrite app_nil_r|]. split.
  { simpl. unfold waiting, set_clients. simpl. by rewrite insert_insert_eq. }
  apply (tok_made _ bl (cc_set_requests (new_client i inst) true)); try done.
  simpl. by rewrite insert_insert_eq.
Qed.

(** Somebody provides the service. *)
Section joined.
Context (s : N) (V : Server_connector).
Context (Hs : sr_server (get_record w key) = Some (sc_interface V, s)).
Context (EV : so_servers w !! s = Some V) (Hreg : sc_registered V = true) (Hk : skey V = key).
Local Abbreviation C := (new_client i inst).
Local Abbreviation held bl :=
  (made (registered_client w c C) bl (<[key := k]> (t_indications t))).

Lemma make_client_joins :
  make_client_connector true i inst w = Done (Ok c, joined w i inst s V,
    if is_minor_version_compatible (sc_interface V) i
    then [Cb_service_state_change c true s] else []).
Proof.
  unfold make_client_connector. rewrite reads_run, modify_run.
  change (set_next (set_clients w _) _) with (with_client_object w i inst).
  rewrite (bind_run _ _ _ _ _ _
    (register_joined_run w i inst s V (v_conn _ Hinv) Hfree Hs EV Hreg Hk)).
  destruct (joined_client w i inst s V) as (D & ED & HD).
  rewrite (update_client_run _ D) by done. rewrite HD, insert_id by done. unfold mret, M_ret.
  rewrite app_nil_r. by destruct (joined w i inst s V).
Qed.

Lemma nobody_joined : sc_client V = None.
Proof.
  destruct (v_servers _ (v_conn _ Hinv) _ _ EV) as (_ & _ & _ & H). rewrite Hreg in H.
  destruct H as [_ ->]. unfold client_of, matching. rewrite Hk, Hfree.
  by destruct (sr_server _) as [[]|].
Qed.

(** Up to the server's endpoint, which the caller holds a copy of. *)
Lemma make_client_held :
  ∃ ks all bl bl1,
    t_servers t !! s = Some (mkST (Some ks) (Some all) None false false) ∧
    own_made (Stop_complete_server s) = Some ks ∧
    own_made (All_clients_disconnected s) = Some all ∧
    below own_made (k + 1)%N ∧ tok_inv (held bl) ∧
    blocks_ok bl1 own_made (<[Stop_complete_server s := 3]> cnt_made) ∧
    make_client true i inst t =
      (bind (sc_interface V) s i c k;;
       drop_block ks;;
       lift (update_client c (λ o, cc_set_requests o false));;
       mret (Ok c)) (set_blocks (held bl) bl1).
Proof.
  destruct (registered_tokens t s V Hi EV Hreg) as (ks & all & kc & Es & Hl & Hkc & Hks & Hall).
  rewrite nobody_joined in Hkc. simpl in Hkc. subst kc. rewrite Hk in Hl.
  destruct make_client_registered as (bl & Hb & Hn & ->).
  assert (cnt_made (Stop_complete_server s) = 2) as N1 by (unfold cnt_made; by fn_simpl).
  assert (own_made (Stop_complete_server s) = Some ks) as O1 by (unfold own_made; by fn_simpl).
  destruct (copy_run own_made cnt_made (Stop_complete_server s) ks (held bl) Hb O1)
    as (bl1 & Hb1 & R1). rewrite N1 in Hb1.
  exists ks, all, bl, bl1. split_and!; try done.
  { by apply (tok_made _ bl C). }
  rewrite Hs, bind_assoc, reads_run. simpl t_listen. rewrite Hl. unfold holding.
  rewrite !bind_assoc. cbn [maybe]. rewrite R1, bind_assoc. apply bind_ext. intros [] t1.
  rewrite bind_assoc. apply bind_ext. intros [] t2.
  by rewrite !(bind_silent (mret _) _ _ _ _ eq_refl).
Qed.

(** The versions do not fit. *)
Lemma sim_make_unbound :
  is_minor_version_compatible (sc_interface V) i = false →
  simulates (make_client true i inst) (make_client_connector true i inst) t.
Proof.
  intros Hcomp. destruct make_client_held as (ks & all & bl & bl1 & _ & O1 & _ & Hn & _ & Hb1 & E).
  unfold simulates. rewrite make_client_joins, E. unfold joined, bind. rewrite Hcomp.
  rewrite (bind_silent (mret tt) _ _ _ _ eq_refl).
  destruct (drop_run own_made _ (Stop_complete_server s) ks 1 (set_blocks (held bl) bl1) Hb1 O1)
    as (bl3 & Hb3 & R3); [by fn_simpl|].
  rewrite R3, (lift_update_client c C) by apply lookup_insert_eq.
  eexists. split; [done|]. replace (cc_set_requests C false) with C by done.
  rewrite (insert_id _ c C) by apply lookup_insert_eq. split; [done|].
  apply (tok_made _ bl3 C); try done.
  eapply blocks_ok_ext; [exact Hb3|done|]. intros a _. by fn_cases.
Qed.

Lemma sim_make_bound :
  is_minor_version_compatible (sc_interface V) i = true →
  simulates (make_client true i inst) (make_client_connector true i inst) t.
Proof.
  intros Hcomp. pose proof (v_conn _ Hinv) as Hw.
  destruct make_client_held as (ks & all & bl & bl1 & Es & O1 & O2 & Hn & HiA & Hb1 & E).
  unfold simulates. rewrite make_client_joins, E. unfold joined, bind, is_interface_compatible.
  pose proof Hk as Hk'. unfold skey, record_key in Hk'. injection Hk' as K1 K2 K3.
  rewrite Hcomp, K1, K2, N.eqb_refl, bool_decide_eq_true_2, bind_assoc, assert_run by done.
  destruct (indication_run own_made (<[Stop_complete_server s := 3]> cnt_made)
    (set_blocks (held bl) bl1) c C s V k ks all false false) as (bl2 & Hb2 & R2); try done;
    [by unfold own_made; fn_simpl|apply lookup_insert_eq|apply lookup_insert_eq|
      apply nobody_joined|].
  rewrite (bind_run _ _ _ _ _ _ R2).
  destruct (drop_run own_made _ (Stop_complete_server s) ks 1
    (attached (set_blocks (held bl) bl1) c C s V k ks all false false bl2) Hb2 O1)
    as (bl3 & Hb3 & R3); [by fn_simpl|].
  rewrite R3, (lift_update_client c (cc_set_server C (Some s))) by apply lookup_insert_eq.
  eexists. split; [done|].
  replace (cc_set_requests _ false) with (cc_set_server C (Some s)) by done.
  rewrite (insert_id _ c (cc_set_server C (Some s))) by apply lookup_insert_eq. split; [done|].
  apply (tok_attached (held bl) c C s V k ks all bl3); try done; simpl.
  - apply lookup_insert_eq.
  - intros c' C' EC' Hs'. destruct (decide (c' = c)) as [->|].
    + rewrite lookup_insert_eq in EC'. injection EC' as <-. done.
    + rewrite lookup_insert_ne in EC' by done.
      by destruct (unlinked_server _ _ _ Hw EV nobody_joined _ _ _ EC' Hs').
  - intros s' V' EV' Hc'. destruct (connected_client _ _ _ _ Hw EV' Hc') as (D & ED & _).
    destruct fresh_client as [Hf _]. congruence.
  - apply lookup_insert_eq.
  - assert (∀ a, copies (registered_client w c C) a = cnt_made a) as Hcm
      by (intros a; by apply (cnt_made_ok _ C)).
    eapply blocks_ok_ext; [exact Hb3|by intros a; apply own_made_ok|]. intros a _.
    assert (cnt_made (Stop_complete_client c) = 1) by (unfold cnt_made; by fn_simpl).
    assert (cnt_made (All_clients_disconnected s) = 1)
      by (unfold cnt_made; fn_simpl; simpl; by rewrite EV; simpl; rewrite nobody_joined).
    assert (cnt_made (Stop_complete_server s) = 2) by (unfold cnt_made; by fn_simpl).
    specialize (Hcm a). by fn_cases.
Qed.
End joined.

Lemma sim_make_free : simulates (make_client true i inst) (make_client_connector true i inst) t.
Proof.
  destruct (sr_server (get_record w key)) as [[j s]|] eqn:Hs; [|by apply sim_make_waiting].
  destruct (record_server_live w _ _ _ (v_conn _ Hinv) Hs) as (V & EV & Hreg & <- & Hk & _).
  destruct (is_minor_version_compatible (sc_interface V) i) eqn:Hcomp.
  - by apply (sim_make_bound s V).
  - by apply (sim_make_unbound s V).
Qed.
End make.

Lemma sim_make_client t ok i inst :
  tok_inv t → so_inv (t_socom t) →
  simulates (make_client ok i inst) (make_client_connector ok i inst) t.
Proof.
  intros Hi Hinv. destruct ok; [|by exists t].
  destruct (sr_client (get_record (t_socom t) (record_key i inst))) eqn:Hc.
  - by eapply sim_make_duplicate.
  - by apply sim_make_free.
Qed.

(** ** Every call *)

Lemma sim_step t call :
  tok_inv t → so_inv (t_socom t) → socom_admissible (t_socom t) call →
  simulates (token_step call) (socom_step call) t.
Proof.
  intros Hi Hinv Ha.
  destruct call; simpl token_step; simpl socom_step; simpl in Ha;
    try (match type of Ha with True => fail 1 | _ => destruct Ha as [X EX] end);
    try apply simulates_ignore; try (by eapply sim_lift; [done|apply kl_quiet_call]);
    try (by eapply sim_send).
  - by apply sim_make_client.
  - by eapply sim_destroy_client.
  - by apply sim_make_server.
  - destruct EX as [EV Hr]. by eapply sim_enable.
  - by eapply sim_disable.
  - by eapply sim_destroy_server.
  - apply (sim_lift (socom_step (Register_bridge callback_ok identity))); [done|].
    by apply kl_quiet_call.
  - apply (sim_lift (socom_step (Unregister_bridge b))); [done|]. by apply kl_quiet_call.
  - by eapply sim_update_event.
  - by eapply sim_update_requested.
  - by eapply sim_allocate_payload.
  - apply (sim_lift (socom_step (Get_event_mode s id))); [done|]. by apply kl_quiet_call.
Qed.
