(* ===== verification/TokenProperties.v ===== *)
(** * Use counts and what waits for them

    Over all runs of the socom runtime with its tokens: what the connectors wait for happens,
    and the counts are those of the copies. *)

From stdpp Require Import base numbers list gmap strings functions.
From S2P Require Import Prelude.
From S2P Require Import IpcTypes.
From S2P Require Import Socom.
From S2P Require Import SocomInvariant.
From S2P Require Import SocomCalls.
From S2P Require Import SocomProperties.
From S2P Require Import Tokens.
From S2P Require Import TokenInvariant.
From S2P Require Import TokenCalls.

(** ** Runs *)

(** The states and the actions after any admissible calls, in any order. *)
Inductive token_trace : Tokens → list Socom_action → Prop :=
  | tt_start : token_trace t_init []
  | tt_call t tr call t' o :
      token_trace t tr → socom_admissible (t_socom t) call →
      token_step call t = Done (tt, t', o) → token_trace t' (tr ++ o).

Lemma token_trace_inv t tr : token_trace t tr → tok_inv t ∧ socom_trace (t_socom t) tr.
Proof.
  induction 1 as [|t tr call t' o _ [Hi Htr] Ha E]; [split; [apply tok_init|constructor]|].
  destruct (trace_inv _ _ Htr) as (Hinv & _).
  pose proof (sim_step t call Hi Hinv Ha) as Hs. unfold simulates in Hs.
  destruct (socom_step call (t_socom t)) as [[[[] w'] o']|f] eqn:Es; [|congruence].
  destruct Hs as (t1 & E1 & <- & Hi1). rewrite E in E1. apply Done_inj in E1 as [<- <-].
  split; [done|]. by eapply so_call.
Qed.

(** *** Counting copies *)

Section count.
Context {K A : Type} `{Countable K} (P : A → Prop) `{!∀ x, Decision (P x)}.

(** How many entries of a table satisfy [P]. *)
Definition count (m : gmap K A) : nat := size (filter (λ i, P i.2) m).

Lemma count_none m : (∀ i x, m !! i = Some x → ¬ P x) → count m = 0.
Proof.
  intros Hn. unfold count. rewrite map_size_empty_iff. apply map_empty_filter_2.
  intros i x E. simpl. by eapply Hn.
Qed.

Lemma count_one m i x :
  m !! i = Some x → P x → (∀ j y, m !! j = Some y → P y → j = i) → count m = 1.
Proof.
  intros E HP Hu. unfold count. replace (filter _ m) with ({[ i := x ]} : gmap K A);
    [apply map_size_singleton|]. apply map_eq. intros j. destruct (decide (j = i)) as [->|Hne].
  - rewrite lookup_singleton_eq. symmetry. by apply map_lookup_filter_Some.
  - rewrite lookup_singleton_ne by done. symmetry. apply map_lookup_filter_None. right.
    intros y Ey Hy. by apply Hne, (Hu j y).
Qed.
End count.

(** The copies of a token that the members of the connectors, the records and the actions of
    endpoints hold, and those of the token of an endpoint. *)
Definition block_copies (t : Tokens) (k : N) : nat :=
  count (λ T, ct_stop_block_token T = Some k) (t_clients t) +
  count (λ T, st_stop_block_token T = Some k) (t_servers t) +
  count (λ T, st_all_clients_disconnected_block_token T = Some k) (t_servers t) +
  count (λ T, st_client T = Some k) (t_servers t) +
  count (λ k', k' = k) (t_listen t) +
  count (λ x, x.2.2 = Some k) (t_endpoints t).
Definition endpoint_copies (t : Tokens) (e : N) : nat :=
  count (λ T, ct_server T = Some e) (t_clients t).

Section counting.
Context (t : Tokens) (Hi : tok_inv t) (Hw : conn_inv (t_socom t)).

Lemma owner_unique a a' k : owner t a = Some k → owner t a' = Some k → a = a'.
Proof. intros. by eapply (blocks_ok_inj _ _ _ _ _ _ (k_blocks _ Hi)). Qed.

(** Who holds what. *)
Lemma held_by_server s T k :
  t_servers t !! s = Some T → st_client T = Some k →
  ∃ V c, so_servers (t_socom t) !! s = Some V ∧ sc_client V = Some c ∧
    owner t (Stop_complete_client c) = Some k.
Proof.
  intros ET Hk. pose proof (k_server _ Hi s) as Hs.
  destruct (so_servers (t_socom t) !! s) as [V|]; [|congruence]. unfold server_tokens_ok in Hs.
  exists V. destruct (sc_registered V).
  - destruct Hs as (? & ? & Es & _). rewrite ET in Es. injection Es as ->. simpl in Hk.
    destruct (sc_client V) as [c|]; [|done]. by exists c.
  - destruct Hs as (? & ? & Es). rewrite ET in Es. by injection Es as ->.
Qed.

Lemma held_by_record key k :
  t_listen t !! key = Some k →
  ∃ s V, so_servers (t_socom t) !! s = Some V ∧ sc_registered V = true ∧ skey V = key ∧
    owner t (Stop_complete_server s) = Some k.
Proof.
  intros E. destruct (k_listen _ Hi key k E) as (s & V & EV & Hr & Hk). exists s, V.
  split_and!; try done. pose proof (tok_server t s V Hi EV) as Hs. unfold server_tokens_ok in Hs.
  rewrite Hr in Hs. destruct Hs as (k' & all & Es & El). simpl. rewrite Es. simpl.
  rewrite Hk in El. congruence.
Qed.

Lemma held_by_endpoint e n s x k :
  t_endpoints t !! e = Some (n, (s, x)) → x = Some k →
  n = 1 ∧ owner t (All_clients_disconnected s) = Some k ∧ ∃ c C T,
    so_clients (t_socom t) !! c = Some C ∧ cc_server C = Some s ∧ t_clients t !! c = Some T ∧
    ct_server T = Some e.
Proof.
  intros Ee ->. destruct (k_endpoint _ Hi _ _ Ee) as (_ & c & T & ET & HT).
  pose proof (k_client _ Hi c) as Hc. destruct (so_clients (t_socom t) !! c) as [C|] eqn:EC;
    [|congruence].
  destruct Hc as (k' & e' & Et & _ & Hc). rewrite ET in Et. injection Et as ->. simpl in HT.
  subst e'. destruct (cc_server C) as [s'|] eqn:Es; [|done].
  destruct Hc as (e' & all & [= <-] & Ha & Ee'). rewrite Ee in Ee'. injection Ee' as -> -> ->.
  split_and!; try done. by exists c, C, (mkCT (Some k') (Some e) false).
Qed.

Lemma no_client_copies k :
  (∀ c, owner t (Stop_complete_client c) ≠ Some k) →
  count (λ T, ct_stop_block_token T = Some k) (t_clients t) = 0 ∧
  count (λ T, st_client T = Some k) (t_servers t) = 0.
Proof.
  intros Hn. split; apply count_none.
  - intros c T ET HT. apply (Hn c). simpl. by rewrite ET.
  - intros s T ET HT. destruct (held_by_server s T k ET HT) as (V & c & _ & _ & Ho). by eapply Hn.
Qed.

Lemma no_stop_copies k :
  (∀ s, owner t (Stop_complete_server s) ≠ Some k) →
  count (λ T, st_stop_block_token T = Some k) (t_servers t) = 0 ∧
  count (λ k', k' = k) (t_listen t) = 0.
Proof.
  intros Hn. split; apply count_none.
  - intros s T ET HT. apply (Hn s). simpl. by rewrite ET.
  - intros key k' E ->. destruct (held_by_record key k E) as (s & V & _ & _ & _ & Ho). by eapply Hn.
Qed.

Lemma no_all_copies k :
  (∀ s, owner t (All_clients_disconnected s) ≠ Some k) →
  count (λ T, st_all_clients_disconnected_block_token T = Some k) (t_servers t) = 0 ∧
  count (λ x, x.2.2 = Some k) (t_endpoints t) = 0.
Proof.
  intros Hn. split; apply count_none.
  - intros s T ET HT. apply (Hn s). simpl. by rewrite ET.
  - intros e [n [s x]] E Hx. destruct (held_by_endpoint e n s x k E Hx) as (_ & Ho & _).
    by eapply Hn.
Qed.

Lemma client_copies c k :
  owner t (Stop_complete_client c) = Some k →
  count (λ T, ct_stop_block_token T = Some k) (t_clients t) +
  count (λ T, st_client T = Some k) (t_servers t) = copies (t_socom t) (Stop_complete_client c).
Proof.
  intros Ho. pose proof Ho as Ho'. simpl in Ho'.
  destruct (t_clients t !! c) as [T|] eqn:ET; [|done].
  rewrite (count_one _ _ c T); [|done|done|].
  2:{ intros c' T' ET' HT'. assert (owner t (Stop_complete_client c') = Some k) as H
        by (simpl; by rewrite ET'). by injection (owner_unique _ _ _ H Ho). }
  pose proof (k_client _ Hi c) as Hc. simpl.
  destruct (so_clients (t_socom t) !! c) as [C|] eqn:EC; [|congruence]. simpl.
  destruct (cc_server C) as [s|] eqn:Hs.
  - destruct (connected_server _ _ _ _ Hw EC Hs) as (V & EV & Hreg & Hcl & _).
    pose proof (tok_server t s V Hi EV) as Hv. unfold server_tokens_ok in Hv.
    rewrite Hreg, Hcl in Hv. simpl mbind in Hv. destruct Hv as (? & ? & Es & _).
    rewrite (count_one _ _ s _ Es); [done|simpl; by rewrite ET|].
    intros s' T' ET' HT'. destruct (held_by_server s' T' k ET' HT') as (V' & c' & EV' & Hcl' & Ho2).
    injection (owner_unique _ _ _ Ho2 Ho) as ->.
    destruct (connected_client _ _ _ _ Hw EV' Hcl') as (C' & EC' & Hs' & _). congruence.
  - rewrite count_none; [done|]. intros s T' ET' HT'.
    destruct (held_by_server s T' k ET' HT') as (V & c' & EV & Hcl & Ho2).
    injection (owner_unique _ _ _ Ho2 Ho) as ->.
    destruct (connected_client _ _ _ _ Hw EV Hcl) as (C' & EC' & Hs' & _). congruence.
Qed.

Lemma stop_copies s k :
  owner t (Stop_complete_server s) = Some k →
  count (λ T, st_stop_block_token T = Some k) (t_servers t) +
  count (λ k', k' = k) (t_listen t) = 2.
Proof.
  intros Ho. pose proof Ho as Ho'. simpl in Ho'.
  destruct (t_servers t !! s) as [T|] eqn:ET; [|done].
  rewrite (count_one _ _ s T); [|done|done|].
  2:{ intros s' T' ET' HT'. assert (owner t (Stop_complete_server s') = Some k) as H
        by (simpl; by rewrite ET'). by injection (owner_unique _ _ _ H Ho). }
  pose proof (k_server _ Hi s) as Hs.
  destruct (so_servers (t_socom t) !! s) as [V|] eqn:EV; [|congruence].
  unfold server_tokens_ok in Hs. rewrite ET in Hs. destruct (sc_registered V) eqn:Hreg.
  2:{ destruct Hs as (? & ? & [= ->]). done. }
  destruct Hs as (k' & all & [= ->] & El). simpl in Ho'. injection Ho' as ->.
  rewrite (count_one _ _ (skey V) k El); [done|done|]. intros key k' E ->.
  destruct (held_by_record key k E) as (s' & V' & EV' & _ & <- & Ho2).
  injection (owner_unique _ _ _ Ho2 Ho) as ->. congruence.
Qed.

Lemma all_copies s k :
  owner t (All_clients_disconnected s) = Some k →
  count (λ T, st_all_clients_disconnected_block_token T = Some k) (t_servers t) +
  count (λ x, x.2.2 = Some k) (t_endpoints t) = copies (t_socom t) (All_clients_disconnected s).
Proof.
  intros Ho. pose proof Ho as Ho'. simpl in Ho'.
  destruct (t_servers t !! s) as [T|] eqn:ET; [|done].
  rewrite (count_one _ _ s T); [|done|done|].
  2:{ intros s' T' ET' HT'. assert (owner t (All_clients_disconnected s') = Some k) as H
        by (simpl; by rewrite ET'). by injection (owner_unique _ _ _ H Ho). }
  pose proof (k_server _ Hi s) as Hs. simpl.
  destruct (so_servers (t_socom t) !! s) as [V|] eqn:EV; [|congruence]. simpl.
  assert (∀ e n s' x, t_endpoints t !! e = Some (n, (s', x)) → x = Some k →
    ∃ c C T, so_clients (t_socom t) !! c = Some C ∧ cc_server C = Some s ∧
      t_clients t !! c = Some T ∧ ct_server T = Some e) as Hback.
  { intros e n s' x E Hx. destruct (held_by_endpoint e n s' x k E Hx) as (_ & Ho2 & H).
    injection (owner_unique _ _ _ Ho2 Ho) as ->. done. }
  destruct (sc_client V) as [c|] eqn:Hc.
  - destruct (connected_client _ _ _ _ Hw EV Hc) as (C & EC & Hcs & _).
    destruct (tok_client t c C Hi EC) as (k' & e & Et & _ & He). rewrite Hcs in He.
    destruct He as (e' & all & -> & Ha & Ee). rewrite Ho in Ha. injection Ha as <-.
    rewrite (count_one _ _ e' _ Ee); [done|done|]. intros e2 [n [s2 x]] E Hx.
    destruct (Hback _ _ _ _ E Hx) as (c2 & C2 & T2 & EC2 & Hs2 & ET2 & HT2).
    assert (c2 = c) as -> by by eapply linked_unique. rewrite Et in ET2. by simplify_eq/=.
  - rewrite count_none; [done|]. intros e [n [s2 x]] E Hx.
    destruct (Hback _ _ _ _ E Hx) as (c2 & C2 & T2 & EC2 & Hs2 & _).
    by destruct (unlinked_server _ _ _ Hw EV Hc _ _ _ EC2 Hs2).
Qed.

Lemma block_count k :
  block_copies t k = match t_blocks t !! k with Some (n, _) => n | None => 0 end.
Proof.
  unfold block_copies. destruct (t_blocks t !! k) as [[n a]|] eqn:E.
  - apply (k_blocks _ Hi) in E as [Ho ->].
    assert (∀ a', a' ≠ a → owner t a' ≠ Some k) as Hother.
    { intros a' Hne Ho'. by apply Hne, (owner_unique _ _ k). }
    destruct a as [c|s|s].
    + pose proof (client_copies c k Ho). destruct (no_stop_copies k) as [? ?]; [intros ?;
        by apply Hother|].
      destruct (no_all_copies k) as [? ?]; [intros ?; by apply Hother|]. lia.
    + pose proof (stop_copies s k Ho). destruct (no_client_copies k) as [? ?]; [intros ?;
        by apply Hother|].
      destruct (no_all_copies k) as [? ?]; [intros ?; by apply Hother|]. simpl. lia.
    + pose proof (all_copies s k Ho). destruct (no_client_copies k) as [? ?]; [intros ?;
        by apply Hother|].
      destruct (no_stop_copies k) as [? ?]; [intros ?; by apply Hother|]. lia.
  - assert (∀ a, owner t a ≠ Some k) as Hn.
    { intros a Ho. by rewrite (blocks_ok_at _ _ _ _ _ (k_blocks _ Hi) Ho) in E. }
    destruct (no_client_copies k) as [-> ->]; [intros ?; apply Hn|].
    destruct (no_stop_copies k) as [-> ->]; [intros ?; apply Hn|].
    by destruct (no_all_copies k) as [-> ->]; [intros ?; apply Hn|].
Qed.

Lemma endpoint_count e :
  endpoint_copies t e = match t_endpoints t !! e with Some (n, _) => n | None => 0 end.
Proof.
  unfold endpoint_copies. destruct (t_endpoints t !! e) as [[n x]|] eqn:E.
  - destruct (k_endpoint _ Hi _ _ E) as (_ & c & T & ET & HT).
    destruct (endpoint_holder t c T e Hi ET HT) as (C & s & all & _ & _ & E').
    rewrite E in E'. injection E' as -> _. apply (count_one _ _ c T ET HT).
    intros c' T' ET' HT'. by eapply endpoint_unique.
  - apply count_none. intros c T ET HT.
    destruct (endpoint_holder t c T e Hi ET HT) as (C & s & all & _ & _ & E'). congruence.
Qed.
End counting.

(** ** Theorems *)

(** C9: the tokens do what [Socom] says of them. After any calls in any order, every further
    call that the types of the API admit, run with the use counts, the weak references, the
    actions of the last copies and the promises that are waited for, ends as it does when a
    connector waits until nobody points to it: it returns with the same state of the connectors
    and the same callbacks in the same order, or fails at the same assertion. In particular no
    destructor and no [disable()] waits for a promise that is not fulfilled, and no token or
    connector is used after its end. *)
Theorem tokens_implement_connections t tr call :
  token_trace t tr → socom_admissible (t_socom t) call →
  match socom_step call (t_socom t) with
  | Done (_, w', o) => ∃ t', token_step call t = Done (tt, t', o) ∧ t_socom t' = w'
  | Fault f => token_step call t = Fault f ∧ f = Assertion_failed ∧ occupied (t_socom t) call
  end.
Proof.
  intros Htr Ha. destruct (token_trace_inv t tr Htr) as [Hi Htr'].
  destruct (trace_inv _ _ Htr') as (Hinv & _). pose proof (sim_step t call Hi Hinv Ha) as Hs.
  unfold simulates in Hs. destruct (socom_step_good _ call Hinv Ha) as [(w' & o & E & _)|[Ho E]];
    rewrite E in *; [|done].
  destruct Hs as (t' & E' & Ht & _). by exists t'.
Qed.

(** C10: use counts are exact. After any calls in any order the use count of every token is
    the number of members of connectors, service records and actions that hold a copy of it;
    a token that nobody holds is gone, and nobody holds a token that is gone. *)
Theorem use_counts_exact t tr :
  token_trace t tr →
  (∀ k, block_copies t k = match t_blocks t !! k with Some (n, _) => n | None => 0 end) ∧
  (∀ e, endpoint_copies t e = match t_endpoints t !! e with Some (n, _) => n | None => 0 end).
Proof.
  intros Htr. destruct (token_trace_inv t tr Htr) as [Hi Htr'].
  destruct (trace_inv _ _ Htr') as ([Hw _ _] & _). split; intros k.
  - by apply block_count.
  - by apply endpoint_count.
Qed.

(** ** Witnesses *)

(** Calls in a row. *)
Fixpoint replay_tokens (calls : list Socom_call) (t : Tokens) (tr : list Socom_action) :
    option (Tokens * list Socom_action) :=
  match calls with
  | [] => Some (t, tr)
  | call :: calls =>
    if decide (socom_admissible (t_socom t) call) then
      match token_step call t with
      | Done (_, t', o) => replay_tokens calls t' (tr ++ o)
      | Fault _ => None
      end
    else None
  end.

Lemma replay_tokens_trace calls t tr t' tr' :
  token_trace t tr → replay_tokens calls t tr = Some (t', tr') → token_trace t' tr'.
Proof.
  revert t tr. induction calls as [|call calls IH]; intros t tr Htr E; simpl in E;
    [by simplify_eq|].
  case_decide as Ha; [|done]. destruct (token_step call t) as [[[[] t1] o]|f] eqn:Es; [|done].
  eapply IH; [|done]. by eapply tt_call.
Qed.

(** The calls of [sample_calls]. *)
Definition token_sample : Tokens * list Socom_action :=
  default (t_init, []) (replay_tokens sample_calls t_init []).

Lemma token_sample_trace : token_trace token_sample.1 token_sample.2.
Proof. apply (replay_tokens_trace sample_calls t_init []); [constructor|]. by vm_compute. Qed.

Lemma tokens_implement_connections_witness :
  match socom_step (Disable 2) (t_socom token_sample.1) with
  | Done (_, w', o) => ∃ t', token_step (Disable 2) token_sample.1 = Done (tt, t', o) ∧
      t_socom t' = w'
  | Fault f => token_step (Disable 2) token_sample.1 = Fault f ∧ f = Assertion_failed ∧
      occupied (t_socom token_sample.1) (Disable 2)
  end.
Proof.
  apply (tokens_implement_connections token_sample.1 token_sample.2); [apply token_sample_trace|].
  by apply (bool_decide_unpack _); vm_compute.
Defined.

Lemma use_counts_exact_witness :
  (∀ k, block_copies token_sample.1 k =
    match t_blocks token_sample.1 !! k with Some (n, _) => n | None => 0 end) ∧
  (∀ e, endpoint_copies token_sample.1 e =
    match t_endpoints token_sample.1 !! e with Some (n, _) => n | None => 0 end).
Proof. apply (use_counts_exact token_sample.1 token_sample.2), token_sample_trace. Defined.
