(* ===== verification/EventPath.v ===== *)
(** * Events and subscriptions in one daemon

    The socom runtime and the binding of one daemon together, as the callbacks connect
    them: the binding's client connectors hand event updates to the binding, its server
    connectors are what it updates when a message arrives
    ([src/score/gateway_ipc_binding/impl/binding_base.cpp], the callbacks given to
    [make_client_connector] and [make_server_connector]). The lemmas are the single steps
    of an event and of a subscription; [ServicePath] and [EventPipeline] put them together
    for two daemons. *)

From stdpp Require Import base numbers list gmap strings.
From Stdlib Require Import Strings.Ascii.
From S2P Require Import Prelude.
From S2P Require Import IpcTypes.
From S2P Require Import Payload.
From S2P Require Import SlotManager.
From S2P Require Import ConnectionMetadata.
From S2P Require Import SharedMemoryManagers.
From S2P Require Import ServiceState.
From S2P Require Import BindingBase.
From S2P Require Import BindingSafety.
From S2P Require Import BindingProperties.
From S2P Require Import Wire.
From S2P Require Import Socom.
From S2P Require Import SocomInvariant.
From S2P Require Import SocomCalls.

(** ** A daemon *)

(** The runtime, the binding, the payloads that the runtime passes around by their
    numbers, and what the callbacks of the binding's connectors have captured: the key
    of a client connector, the client and its id for a server connector. *)
Record Daemon : Type := mkDaemon {
  dm_socom : Socom;
  dm_binding : Binding;
  dm_payloads : gmap N Event_payload;
  dm_next_payload : N;
  dm_client_keys : gmap N Key_t;
  dm_server_peers : gmap N (Client_id * Remote_handle);
}.

Definition set_dm_socom (d : Daemon) x :=
  mkDaemon x (dm_binding d) (dm_payloads d) (dm_next_payload d) (dm_client_keys d)
    (dm_server_peers d).
Definition set_dm_binding (d : Daemon) x :=
  mkDaemon (dm_socom d) x (dm_payloads d) (dm_next_payload d) (dm_client_keys d)
    (dm_server_peers d).
Definition set_dm_payloads (d : Daemon) x n :=
  mkDaemon (dm_socom d) (dm_binding d) x n (dm_client_keys d) (dm_server_peers d).

(** Bytes for a peer, a callback of a user of the runtime (or one of the binding's
    connectors that has nothing to do with events), or a call of the binding that is not
    followed here. *)
Inductive Daemon_action : Type :=
  | To_peer (client_id : Client_id) (bytes : list N)
  | To_user (a : Socom_action)
  | Asked (a : Action).

Abbreviation DM := (M Daemon Daemon_action).

(** The messages that travel once per event; the others set up connections and
    subscriptions. *)
Definition event_traffic (m : Message) : bool :=
  match m with Msg_Event_update _ | Msg_Payload_consumed _ => true | _ => false end.

(** Run a part, and return what it did. *)
Definition on_socom {A} (m : SoM A) : DM (A * list Socom_action) := λ d,
  match m (dm_socom d) with
  | Done (a, w, o) => Done ((a, o), set_dm_socom d w, [])
  | Fault f => Fault f
  end.
Definition on_binding {A} (m : BM A) : DM (A * list Action) := λ d,
  match m (dm_binding d) with
  | Done (a, b, o) => Done ((a, o), set_dm_binding d b, [])
  | Fault f => Fault f
  end.

(** A payload is moved to its recipient, and one is made. *)
Definition take_payload (p : N) : DM Event_payload :=
  o ← reads (λ d, dm_payloads d !! p);
  payload ← the Null_dereference o;
  modify (λ d, set_dm_payloads d (delete p (dm_payloads d)) (dm_next_payload d));;
  mret payload.
Definition new_payload (payload : Event_payload) : DM N :=
  p ← reads dm_next_payload;
  modify (λ d, set_dm_payloads d (<[p := payload]> (dm_payloads d)) (p + 1)%N);;
  mret p.

(** What the binding sends and the channel accepts leaves the daemon as the bytes of a
    frame. *)
Definition route_send (a : Action) : DM unit :=
  match a with
  | Send c msg true => emit (To_peer c (message_bytes msg))
  | Send _ _ false => mret tt
  | a => emit (Asked a)
  end.

Section daemon.
Context `{Shm} (send_ok : N → Client_id → Message → bool).

(** Callbacks of the runtime: those of the binding's connectors run the binding, which
    treats a requested update like any other. *)
Definition route_callback (a : Socom_action) : DM unit :=
  match a with
  | Cb_event_update c e p | Cb_event_requested_update c e p =>
    key ← reads (λ d, dm_client_keys d !! c);
    match key with
    | Some key =>
      payload ← take_payload p;
      '(_, actions) ← on_binding (send_event_update send_ok key e payload);
      forM actions route_send
    | None => emit (To_user a)
    end
  | Cb_event_subscription_change s e subscribed =>
    peer ← reads (λ d, dm_server_peers d !! s);
    match peer with
    | Some (client_id, provided_id) =>
      '(_, actions) ← on_binding
        (on_event_subscription_change send_ok client_id provided_id e subscribed);
      forM actions route_send
    | None => emit (To_user a)
    end
  | a => emit (To_user a)
  end.

(** A user destroys a payload it was given. *)
Definition user_destroy_payload (p : N) : DM unit :=
  payload ← take_payload p;
  '(_, actions) ← on_binding (destroy_payloads send_ok [payload]);
  forM actions route_send.
End daemon.

(** ** Single steps *)

Section steps.
Context `{Shm} (send_ok : N → Client_id → Message → bool).

Lemma on_socom_run {A} (m : SoM A) d a w o :
  m (dm_socom d) = Done (a, w, o) → on_socom m d = Done ((a, o), set_dm_socom d w, []).
Proof. intros E. unfold on_socom. by rewrite E. Qed.

Lemma on_binding_run {A} (m : BM A) d a b o :
  m (dm_binding d) = Done (a, b, o) → on_binding m d = Done ((a, o), set_dm_binding d b, []).
Proof. intros E. unfold on_binding. by rewrite E. Qed.

(** A server's update goes to the client its event points to. *)
Lemma subscribed_update_run s S e c p w :
  so_servers w !! s = Some S → (e < N.of_nat (sc_num_events S))%N →
  event_client (N.to_nat e) (sc_subscriber S) = Some c →
  Socom.update_event s e p w = Done (Ok tt, w, [Cb_event_update c e p]).
Proof.
  intros ES He Hc. unfold Socom.update_event. rewrite (get_server_run _ _ _ _ ES).
  rewrite (proj2 (N.leb_gt _ _)) by done.
  assert (N.to_nat e < length (sc_subscriber S)) as Hl.
  { unfold event_client in Hc. destruct (sc_subscriber S !! N.to_nat e) eqn:E; [|done].
    by eapply lookup_lt_Some. }
  rewrite assert_run by by apply Nat.ltb_lt. by rewrite Hc.
Qed.

(** The binding passes an update on to its only peer: the payload is recorded for it, or
    destroyed if the channel does not accept the message. *)
Lemma send_to_one_peer key e (p : Event_payload) d y ids b :
  let h := {| slot_index := get_slot_handle p; used_bytes := sp_size d |} in
  let msg := update_for e h (y, ids) in
  let sent := set_sent b (b_sent b + 1)%N in
  for_each_client (b_id_mapping b) key = [(y, ids)] → y ∈ b_connections b →
  payload_data p = Done d → (get_slot_handle p < kNoSlotHandle)%N →
  allocation_at (m_shared_memory_allocations (b_slot_managers b)) key (get_slot_handle p)
    = no_allocation →
  if send_ok (b_sent b) y msg then
    ∃ allocs, send_event_update send_ok key e p b = Done (tt,
        set_slot_managers sent (set_m_allocations (b_slot_managers b) allocs),
        [Send y msg true]) ∧
      ∀ key' slot', allocation_at allocs key' slot' =
        if decide ((key, get_slot_handle p) = (key', slot'))
        then {| sma_payload := Some p; sma_pending_consumers := 1 |}
        else allocation_at (m_shared_memory_allocations (b_slot_managers b)) key' slot'
  else ∀ b' o, destroy_payloads send_ok [p] sent = Done (tt, b', o) →
    send_event_update send_ok key e p b = Done (tt, b', Send y msg false :: o).
Proof.
  intros h msg sent Hl Hy Hd Hs Ha. unfold send_event_update. rewrite reads_run, Hl.
  rewrite (liftO_run _ h) by by rewrite Hd.
  assert (send_event_update_loop send_ok e h [(y, ids)] 0 b =
    Done (if send_ok (b_sent b) y msg then 1%N else 0%N, sent,
      [Send y msg (send_ok (b_sent b) y msg)])) as E.
  { rewrite send_event_update_loop_run.
    - simpl. unfold msg, sent. simpl. by destruct (send_ok _ _ _).
    - intros c ids' [= -> ->]%list_elem_of_singleton. done. }
  rewrite (bind_run _ _ _ _ _ _ E). destruct (send_ok (b_sent b) y msg).
  - destruct (insert_allocation_fresh (m_shared_memory_allocations (b_slot_managers b)) key p 1 Ha
      Hs) as (m & Hi & Hm); [done|done|].
    rewrite (on_member_run _ _ _ [] (set_m_allocations (b_slot_managers b) m))
      by (simpl; by rewrite Hi).
    exists m. split; [reflexivity|exact Hm].
  - intros b' o Hdes. rewrite (on_member_run _ _ _ [p] (b_slot_managers sent))
      by (by destruct b as [? ? []]).
    replace (set_slot_managers sent (b_slot_managers sent)) with sent by (by destruct b).
    by rewrite Hdes.
Qed.

(** The peer's handler makes a payload over its view of the slot and updates its
    connector. *)
Lemma event_update_received x msg an b ids sY r ro q :
  get_by_remote_handle (b_id_mapping b) x (eu_required_id msg) = Some ids →
  (b_service_states b !! ids_key ids) ≫= ss_enabled_connector = Some sY →
  get_read_only_shared_memory_slot_manager (b_read_only_slot_managers b) (ids_remote_metadata ids)
    = Done (r, ro) →
  get_payload r (eu_payload msg) (Notify_consumed x (eu_required_id msg) (eu_payload msg)) = Some q
    →
  an_update_event an = true →
  dispatch send_ok x (Msg_Event_update msg) an b =
    Done (tt, set_read_only_slot_managers b ro,
          [BindingBase.Update_event sY (eu_event_id msg) q]).
Proof.
  intros Hi Hs Hr Hq Ha. simpl. unfold handle_event_update_message.
  rewrite reads_run, Hi, reads_run.
  rewrite (the_run _ _ _ _ _ Hs). rewrite (on_member_run _ _ _ r ro) by by rewrite Hr.
  rewrite (the_run _ _ _ _ _ Hq), Ha. reflexivity.
Qed.

(** Destroying the payload of a peer tells the peer. *)
Lemma consumed_payload_reported x rh h (q : Event_payload) b :
  m_payload_destroyed q = Some (Notify_consumed x rh h) → x ∈ b_connections b →
  let msg := Msg_Payload_consumed {| pc_required_id := rh; pc_handle := h |} in
  destroy_payloads send_ok [q] b = Done (tt, set_sent b (b_sent b + 1)%N,
    [Send x msg (send_ok (b_sent b) x msg)]).
Proof.
  intros Hq Hx msg. unfold destroy_payloads. cbn [forM].
  unfold destroy_payload, call_payload_destroyed. rewrite Hq.
  change (option_list (Some ?c)) with [c]. unfold mbind, M_bind. cbn [forM run_destroyed].
  assert (on_payload_destruction send_ok x rh h b = Done (tt, set_sent b (b_sent b + 1)%N,
    [Send x msg (send_ok (b_sent b) x msg)])) as E.
  { unfold on_payload_destruction, get_reply_channel. rewrite reads_run, bool_decide_true by done.
    reflexivity. }
  unfold mbind, M_bind. by rewrite E.
Qed.
End steps.

(** ** From subscriber to server *)

(** In a runtime, client [c] is connected to server [s] and nobody is subscribed to the
    event yet. *)
Record unsubscribed_link (w : Socom) (c s e : N) : Prop := {
  ul_client : ∃ C, so_clients w !! c = Some C ∧ cc_server C = Some s;
  ul_server : ∃ S, so_servers w !! s = Some S ∧ events_ok S ∧ sc_client S = Some c ∧
    (e < N.of_nat (sc_num_events S))%N ∧ event_client (N.to_nat e) (sc_subscriber S) = None;
}.

(** Server [s] has [c] as the subscriber of the event: what an update looks at. *)
Definition subscribed_to (w : Socom) (c s e : N) : Prop :=
  ∃ S, so_servers w !! s = Some S ∧ (e < N.of_nat (sc_num_events S))%N ∧
    event_client (N.to_nat e) (sc_subscriber S) = Some c.

Lemma first_subscription w c s e :
  unsubscribed_link w c s e →
  ∃ w', Socom.subscribe_event c e mode_update w =
      Done (Ok tt, w', [Cb_event_subscription_change s e true]) ∧ subscribed_to w' c s e.
Proof.
  intros [(C & EC & Cs) (S & ES & Hok & Hc & He & Hn)].
  rewrite (subscribe_run c C s S) by done. rewrite (proj2 (N.ltb_lt _ _)) by done.
  eexists. split.
  { unfold subscription_actions. rewrite Hn. reflexivity. }
  eexists. split; [apply lookup_insert_eq|]. split; [done|]. unfold event_client. simpl.
  unfold set_event. rewrite list_lookup_insert_eq; [done|].
  destruct Hok as (Hl & _). lia.
Qed.

Section subscription.
Context `{Shm} (send_ok : N → Client_id → Message → bool).

(** A server's callback for a subscription is the binding's, which sends, or a user's. *)
Lemma binding_subscribes s e subscribed x provided d :
  dm_server_peers d !! s = Some (x, provided) → x ∈ b_connections (dm_binding d) →
  let msg := Msg_Subscribe_event
    {| se_provided_id := provided; se_event_id := e; se_subscribe := subscribed |} in
  route_callback send_ok (Cb_event_subscription_change s e subscribed) d =
    Done (tt, set_dm_binding d (set_sent (dm_binding d) (b_sent (dm_binding d) + 1)%N),
      if send_ok (b_sent (dm_binding d)) x msg then [To_peer x (message_bytes msg)] else []).
Proof.
  intros Hs Hx msg. cbn [route_callback]. rewrite reads_run, Hs.
  assert (on_event_subscription_change send_ok x provided e subscribed (dm_binding d) =
    Done (tt, set_sent (dm_binding d) (b_sent (dm_binding d) + 1)%N,
      [Send x msg (send_ok (b_sent (dm_binding d)) x msg)])) as E.
  { unfold on_event_subscription_change, get_reply_channel.
    rewrite reads_run, bool_decide_true by done. reflexivity. }
  rewrite (bind_silent _ _ _ _ _ (on_binding_run _ d _ _ _ E)). by destruct (send_ok _ x msg).
Qed.

Lemma user_hears_subscription s e subscribed d :
  dm_server_peers d !! s = None →
  route_callback send_ok (Cb_event_subscription_change s e subscribed) d =
    Done (tt, d, [To_user (Cb_event_subscription_change s e subscribed)]).
Proof. intros Hs. cbn [route_callback]. by rewrite reads_run, Hs. Qed.

(** The first subscriber of an event at a peer subscribes the service's connector. *)
Lemma subscription_received y msg an b ids st c :
  get_by_local_handle (b_id_mapping b) y (se_provided_id msg) = Some ids →
  b_service_states b !! ids_key ids = Some st → ss_client_connector st = Some c →
  ss_event_subscriptions st !! se_event_id msg = None → se_subscribe msg = true →
  ∃ m, dispatch send_ok y (Msg_Subscribe_event msg) an b =
      Done (tt, set_service_states b m, [Connector_called (ServiceState.subscribe_event c
        (se_event_id msg))]).
Proof.
  intros Hi Hst Hc He Hsub. cbn [dispatch]. unfold handle_subscribe_event_message.
  rewrite reads_run, Hi. unfold on_states, update_event_subscription, update_subscription.
  unfold on_member, mbind, M_bind. cbv beta. rewrite Hst, Hsub, Hc, He.
  change (default ∅ None) with (∅ : gset Event_subscription_endpoint).
  rewrite bool_decide_true, (right_id_L ∅ (∪)), size_singleton by set_solver.
  eexists. reflexivity.
Qed.
End subscription.
