(* ===== verification/SocomFrame.v ===== *)
(** * What a call of the runtime leaves alone

    Connectors come into being in [make_client_connector] and [make_server_connector] of
    [src/score/socom/impl/runtime_impl.cpp] and go away in their destructors; every other
    call leaves the sets of connectors and of bridges as they are. A report of the state of
    a service names a server that exists, and a request to a bridge ends with the client
    that made it. Users that hold connectors rely on this between
    their calls. *)

From stdpp Require Import base numbers list gmap strings.
From S2P Require Import Prelude.
From S2P Require Import IpcTypes.
From S2P Require Import Socom.
From S2P Require Import SocomInvariant.
From S2P Require Import SocomCalls.

(** The server a report names exists. *)
Definition names_server (servers : gset N) (a : Socom_action) : Prop :=
  match a with Cb_service_state_change _ _ s => s ∈ servers | _ => True end.
(** It is not the end of a request, either. *)
Definition plain (servers : gset N) (a : Socom_action) : Prop :=
  match a with
  | Bridge_request_dropped _ _ _ => False
  | a => names_server servers a
  end.

(** [stays known m]: [m] neither makes nor destroys a connector or a bridge, and its
    actions are plain, if the servers in [known] exist. *)
Definition stays {A} (known : gset N) (m : SoM A) : Prop :=
  ∀ w a w' o, known ⊆ dom (so_servers w) → m w = Done (a, w', o) →
    dom (so_clients w') = dom (so_clients w) ∧ dom (so_servers w') = dom (so_servers w) ∧
    so_bridges w' = so_bridges w ∧ Forall (plain (dom (so_servers w))) o.

Create HintDb frame.

(** ** Rules *)

Section rules.
Context {A B : Type}.
Implicit Types (K : gset N) (m : SoM A).

Lemma stays_ret K (a : A) : stays K (mret a).
Proof. intros w x w' o _ [= <- <- <-]. by repeat constructor. Qed.
Lemma stays_reads K (f : Socom → A) : stays K (reads f).
Proof. intros w x w' o _ [= <- <- <-]. by repeat constructor. Qed.
Lemma stays_raise K f : stays K (raise (A := A) f).
Proof. done. Qed.
Lemma stays_the K f (x : option A) : stays K (the f x).
Proof. destruct x; [apply stays_ret|done]. Qed.

Lemma stays_known K s m (k : A → SoM B) :
  (∀ w a w' o, m w = Done (a, w', o) → s ∈ dom (so_servers w)) →
  stays K m → (∀ a, stays ({[ s ]} ∪ K) (k a)) → stays K (m ≫= k).
Proof.
  intros Hs Hm Hk w x w' o HK Hr. apply bind_Done in Hr as (a & w1 & o1 & o2 & E1 & E2 & ->).
  destruct (Hm _ _ _ _ HK E1) as (Hc1 & Hs1 & Hb1 & Ho1). pose proof (Hs _ _ _ _ E1) as Hin.
  destruct (Hk a w1 x w' o2) as (Hc2 & Hs2 & Hb2 & Ho2); [rewrite Hs1; set_solver|done|].
  rewrite Hc2, Hs2, Hb2, Forall_app. split_and!; try done. by rewrite <-Hs1.
Qed.

Lemma stays_bind K m (k : A → SoM B) :
  stays K m → (∀ a, stays K (k a)) → stays K (m ≫= k).
Proof.
  intros Hm Hk w x w' o HK Hr. apply bind_Done in Hr as (a & w1 & o1 & o2 & E1 & E2 & ->).
  destruct (Hm _ _ _ _ HK E1) as (Hc1 & Hs1 & Hb1 & Ho1).
  destruct (Hk a w1 x w' o2) as (Hc2 & Hs2 & Hb2 & Ho2); [by rewrite Hs1|done|].
  rewrite Hc2, Hs2, Hb2, Forall_app. split_and!; try done. by rewrite <-Hs1.
Qed.

Lemma stays_weaken K K' m : stays K m → K ⊆ K' → stays K' m.
Proof. intros Hm HK w a w' o Hd E. eapply Hm; [|done]. set_solver. Qed.
End rules.

Lemma stays_modify K f :
  (∀ w, dom (so_clients (f w)) = dom (so_clients w) ∧ dom (so_servers (f w)) = dom (so_servers w) ∧
    so_bridges (f w) = so_bridges w) → stays K (modify f).
Proof. intros Hf w x w' o _ [= <- <- <-]. destruct (Hf w) as (? & ? & ?). by repeat constructor.
Qed.
Lemma stays_emit K a : (∀ servers, K ⊆ servers → plain servers a) → stays K (emit a).
Proof. intros Ha w x w' o HK [= <- <- <-]. repeat constructor. auto. Qed.
Lemma stays_when K c m : stays K m → stays K (whenM c m).
Proof. destruct c; [done|]. intros _. apply stays_ret. Qed.
Lemma stays_assert K c : stays K (assertM c).
Proof. destruct c; [apply stays_ret|done]. Qed.
Lemma stays_forM {A} K (l : list A) body : (∀ x, stays K (body x)) → stays K (forM l body).
Proof.
  intros Hb. induction l as [|x l IH]; [apply stays_ret|]. by apply stays_bind.
Qed.
Lemma stays_state K : stays K get_state.
Proof. apply (stays_reads K id). Qed.

Lemma get_server_exists s w S w' o : get_server s w = Done (S, w', o) → s ∈ dom (so_servers w).
Proof.
  unfold get_server. rewrite reads_run. destruct (so_servers w !! s) eqn:E; [|done].
  intros _. by eapply elem_of_dom_2.
Qed.
Lemma stays_get_server {B} K s (k : Server_connector → SoM B) :
  (∀ S, stays ({[ s ]} ∪ K) (k S)) → stays K (get_server s ≫= k).
Proof.
  intros Hk. apply (stays_known K s); [apply get_server_exists| |done].
  unfold get_server. apply stays_bind; [apply stays_reads|]. intros x. apply stays_the.
Qed.
Lemma stays_get_client K c : stays K (get_client c).
Proof. unfold get_client. apply stays_bind; [apply stays_reads|]. intros x. apply stays_the. Qed.
Lemma stays_update_server K s f : stays K (update_server s f).
Proof. apply stays_modify. intros w. simpl. by rewrite dom_alter_L. Qed.
Lemma stays_update_client K c f : stays K (update_client c f).
Proof. apply stays_modify. intros w. simpl. by rewrite dom_alter_L. Qed.
Lemma stays_update_record K k r : stays K (update_record k r).
Proof. by apply stays_modify. Qed.
#[export] Hint Resolve stays_ret stays_reads stays_raise stays_the stays_assert stays_state
  stays_get_client stays_update_server stays_update_client stays_update_record : frame.

Ltac fstep :=
  match goal with
  | |- stays _ (modify _) => by apply stays_modify
  | |- stays _ (emit _) => apply stays_emit; intros ? ?; simpl; try done; try set_solver
  | |- stays _ (whenM _ _) => apply stays_when
  | |- stays _ (forM _ _) => apply stays_forM; intros ?
  | |- stays _ (get_server _ ≫= _) => apply stays_get_server; intros ?
  | |- stays _ (_ ≫= _) => apply stays_bind; [|intros ?]
  | |- stays _ (if ?x then _ else _) => destruct x
  | |- stays _ (match ?x with _ => _ end) => destruct x
  end.
Ltac fsteps := repeat first [solve [eauto with frame] | fstep].

(** ** Calls that make and destroy nothing *)

Lemma stays_unsubscribe_id K s id : stays K (unsubscribe_event_id s id).
Proof. unfold unsubscribe_event_id. fsteps. Qed.
#[export] Hint Resolve stays_unsubscribe_id : frame.
Lemma stays_unsubscribe_events K s : stays K (unsubscribe_events s).
Proof. unfold unsubscribe_events. fsteps. Qed.
#[export] Hint Resolve stays_unsubscribe_events : frame.
Lemma stays_remove_connected K s : stays K (remove_connected_client s).
Proof. unfold remove_connected_client. fsteps. Qed.
#[export] Hint Resolve stays_remove_connected : frame.
Lemma stays_reset_server K c : stays K (reset_server c).
Proof. unfold reset_server. fsteps. Qed.
#[export] Hint Resolve stays_reset_server : frame.
Lemma stays_service_state K c u s : stays ({[ s ]} ∪ K) (receive_service_state c u s).
Proof. unfold receive_service_state. fsteps. Qed.
#[export] Hint Resolve stays_service_state : frame.
Lemma stays_receive_connect K s c : stays K (receive_connect s c).
Proof. unfold receive_connect. fsteps. Qed.
#[export] Hint Resolve stays_receive_connect : frame.

Lemma stays_on_server_update K c s : stays K (on_server_update c s).
Proof.
  unfold on_server_update. fstep; [fsteps|]. fstep; [|fsteps].
  apply (stays_known K s); [|fsteps|intros ?; fsteps]. intros w y w' o Hr.
  unfold receive_connect in Hr. apply bind_Done in Hr as (S & w1 & o1 & o2 & E & _ & _).
  by eapply get_server_exists.
Qed.
#[export] Hint Resolve stays_on_server_update : frame.

Lemma stays_bind_client K i s j c : stays K (bind_client i s j c).
Proof. unfold bind_client. fsteps. Qed.
#[export] Hint Resolve stays_bind_client : frame.
Lemma stays_get_requests K i n : stays K (get_service_requests i n).
Proof. unfold get_service_requests. fsteps. Qed.
#[export] Hint Resolve stays_get_requests : frame.
Lemma stays_register_client K i n c : stays K (register_connector_client i n c).
Proof. unfold register_connector_client, register_client_connector. fsteps. Qed.
Lemma stays_register_server K i n s : stays K (register_connector_server i n s).
Proof. unfold register_connector_server, register_server_connector. fsteps. Qed.
#[export] Hint Resolve stays_register_client stays_register_server : frame.
Lemma stays_enable K s : stays K (enable_server s).
Proof. unfold enable_server. fsteps. Qed.
Lemma stays_disable K s : stays K (disable_server s).
Proof. unfold disable_server. fsteps. Qed.
Lemma stays_update_event K s id p : stays K (update_event s id p).
Proof. unfold update_event. fsteps. Qed.
Lemma stays_update_requested K s id p : stays K (update_requested_event s id p).
Proof. unfold update_requested_event. fsteps. Qed.
Lemma stays_allocate {A} K s id (r : Result _ A) : stays K (allocate_event_payload s id r).
Proof. unfold allocate_event_payload. fsteps. Qed.
Lemma stays_get_event_mode K s id : stays K (get_event_mode s id).
Proof. unfold get_event_mode. fsteps. Qed.
Lemma stays_subscribe K c id mode : stays K (subscribe_event c id mode).
Proof. unfold subscribe_event, receive_subscribe_event, lock_server. fsteps. Qed.
Lemma stays_unsubscribe K c id : stays K (unsubscribe_event c id).
Proof. unfold unsubscribe_event, receive_unsubscribe_event, lock_server. fsteps. Qed.
Lemma stays_request_update K c id : stays K (request_event_update c id).
Proof. unfold request_event_update, receive_request_event_update, lock_server. fsteps. Qed.
Lemma stays_call_method K c id p : stays K (call_method c id p).
Proof. unfold call_method, receive_call_method, lock_server. fsteps. Qed.
Lemma stays_allocate_call {A} K c id (r : Result _ A) :
  stays K (allocate_method_call_payload c id r).
Proof. unfold allocate_method_call_payload, receive_allocate_method_call_payload, lock_server.
fsteps. Qed.
#[export] Hint Resolve stays_enable stays_disable stays_update_event stays_update_requested
  stays_allocate stays_get_event_mode stays_subscribe stays_unsubscribe stays_request_update
  stays_call_method stays_allocate_call : frame.

(** ** Connectors come and go one at a time *)

Lemma make_client_frame ok i n w r w' o :
  make_client_connector ok i n w = Done (r, w', o) → so_inv w →
  dom (so_servers w') = dom (so_servers w) ∧ so_bridges w' = so_bridges w ∧
  Forall (plain (dom (so_servers w))) o ∧
  match r with
  | Ok c => (c ∉ dom (so_clients w)) ∧ dom (so_clients w') = {[ c ]} ∪ dom (so_clients w)
  | Err _ => dom (so_clients w') = dom (so_clients w)
  end.
Proof.
  intros Hr Hinv. unfold make_client_connector in Hr. destruct ok; [|by injection Hr as <- <- <-].
  pose proof (not_elem_of_dom_2 _ _ (conn_fresh_client w (v_conn _ Hinv))) as Hn.
  rewrite reads_run, modify_run in Hr. set (c := so_next w) in *.
  apply bind_Done in Hr as (reg & w1 & o1 & o2 & E1 & Hr & ->).
  destruct (stays_register_client ∅ i n c _ _ _ _ (empty_subseteq _) E1) as (Hc & Hs & Hb & Ho).
  simpl in Hc, Hs, Hb, Ho. rewrite dom_insert_L in Hc.
  destruct reg as [u|e]; unfold update_client in Hr; rewrite modify_run in Hr;
    injection Hr as <- <- <-; simpl; rewrite app_nil_r, ?dom_alter_L, ?dom_delete_L, Hc.
  - by split_and!.
  - split_and!; try done. set_solver.
Qed.

Lemma destroy_client_frame c w u w' o :
  so_inv w → is_Some (so_clients w !! c) → destroy_client_connector c w = Done (u, w', o) →
  dom (so_servers w') = dom (so_servers w) ∧ so_bridges w' = so_bridges w ∧
  Forall (names_server (dom (so_servers w))) o ∧
  dom (so_clients w') = dom (so_clients w) ∖ {[ c ]}.
Proof.
  intros Hinv [C E] Hr. destruct (destroy_client_run c C w Hinv E) as (s & o1 & Er & Ho).
  rewrite Er in Hr. injection Hr as <- <- <-. simpl. rewrite dom_delete_L.
  split_and!; [|done| |done].
  - destruct (cc_server C); [by rewrite dom_alter_L|done].
  - apply Forall_app. split.
    + eapply Forall_impl; [exact Ho|]. by intros ? [id ->].
    + unfold drops. destruct (cc_requests C); [|constructor]. by apply Forall_fmap, Forall_true.
Qed.

Lemma make_server_frame ok i m e n w r w' o :
  make_server_connector ok i m e n w = Done (r, w', o) → so_inv w →
  dom (so_clients w') = dom (so_clients w) ∧ so_bridges w' = so_bridges w ∧ o = [] ∧
  match r with
  | Ok s => (s ∉ dom (so_servers w)) ∧ dom (so_servers w') = {[ s ]} ∪ dom (so_servers w)
  | Err _ => dom (so_servers w') = dom (so_servers w)
  end.
Proof.
  intros Hr Hinv. unfold make_server_connector in Hr. destruct ok; [|by injection Hr as <- <- <-].
  pose proof (not_elem_of_dom_2 _ _ (conn_fresh_server w (v_conn _ Hinv))) as Hn.
  rewrite (bind_silent get_state _ _ _ _ eq_refl) in Hr.
  case_decide; [by injection Hr as <- <- <-|]. rewrite !modify_run in Hr.
  injection Hr as <- <- <-. simpl. by rewrite dom_insert_L.
Qed.

Lemma destroy_server_frame s w u w' o :
  destroy_server_connector s w = Done (u, w', o) →
  dom (so_clients w') = dom (so_clients w) ∧ so_bridges w' = so_bridges w ∧
  Forall (plain (dom (so_servers w))) o ∧
  dom (so_servers w') = dom (so_servers w) ∖ {[ s ]}.
Proof.
  intros Hr. unfold destroy_server_connector in Hr.
  apply bind_Done in Hr as ([] & w1 & o1 & o2 & E1 & Hr & ->).
  destruct (stays_disable ∅ s _ _ _ _ (empty_subseteq _) E1) as (Hc & Hs & Hb & Ho).
  apply bind_Done in Hr as (S & w2 & o3 & o4 & E2 & Hr & ->).
  unfold get_server in E2. rewrite reads_run in E2. destruct (so_servers w1 !! s); [|done].
  injection E2 as <- <- <-. rewrite modify_run in Hr. injection Hr as <- <- <-. simpl.
  by rewrite dom_delete_L, Hs, Hc, !app_nil_r.
Qed.
