(* ===== verification/Ownership.v ===== *)
(** * Who owns the binding's connectors

    A service state owns a client connector and a server connector
    ([std::unique_ptr] members of [Service_state] in
    [src/score/gateway_ipc_binding/impl/service_state.hpp]); what is moved out of a state
    is destroyed at the end of the operation. Here: every operation of the binding
    accounts for the connectors it had or was given. It still holds each of them, or
    destroys it once; and it calls only connectors that it holds, before it destroys
    any. *)

From stdpp Require Import base numbers list gmap strings.
From S2P Require Import Prelude.
From S2P Require Import IpcTypes.
From S2P Require Import Payload.
From S2P Require Import SlotManager.
From S2P Require Import Keys.
From S2P Require Import ConnectionMetadata.
From S2P Require Import SharedMemoryManagers.
From S2P Require Import ServiceState.
From S2P Require Import BindingBase.
From S2P Require Import BindingSafety.
From S2P Require Import BindingProperties.

(** ** Holdings *)

Inductive Bound : Type := Bound_client (c : N) | Bound_server (s : N).

#[export] Instance Bound_eq_dec : EqDecision Bound.
Proof. solve_decision. Defined.

Definition bound_of (s : Service_state) : list Bound :=
  (Bound_client <$> option_list (ss_client_connector s)) ++
  (Bound_server <$> option_list (ss_enabled_connector s)).
Definition holdings (m : Service_states) : list Bound :=
  map_to_list m ≫= λ kv, bound_of kv.2.
Definition held_by (b : Binding) : list Bound := holdings (b_service_states b).

(** What an action destroys, and the connector it calls. *)
Definition destroyed (a : Action) : option Bound :=
  match a with
  | Destroy_client_connector c => Some (Bound_client c)
  | Destroy_server_connector s => Some (Bound_server s)
  | _ => None
  end.
Definition called (a : Action) : option Bound :=
  match a with
  | Connector_called (subscribe_event c _) | Connector_called (unsubscribe_event c _) =>
      Some (Bound_client c)
  | Update_event s _ _ => Some (Bound_server s)
  | _ => None
  end.

Definition calls_held (held : list Bound) (a : Action) : Prop :=
  destroyed a = None ∧ a ≠ Unregister_bridge ∧ ∀ x, called a = Some x → x ∈ held.
Definition no_call (a : Action) : Prop := called a = None ∧ a ≠ Unregister_bridge.

(** [calm given taken m]: [m] destroys nothing, calls only connectors that are held by
    the binding or by the operation, which has [given] before and [taken] after [m]. *)
Definition calm {A} (given : list Bound) (taken : A → list Bound) (m : BM A) : Prop :=
  ∀ b a b' o, m b = Done (a, b', o) →
    held_by b ++ given ≡ₚ held_by b' ++ taken a ∧ Forall (calls_held (held_by b ++ given)) o.

(** [accounts given m]: [m] ends with what [given] and the binding hold either held by
    the binding or destroyed, once, after all calls. *)
Definition accounts {A} (given : list Bound) (m : BM A) : Prop :=
  ∀ b a b' o, m b = Done (a, b', o) →
    ∃ o1 o2, o = o1 ++ o2 ∧ Forall (calls_held (held_by b ++ given)) o1 ∧ Forall no_call o2 ∧
      held_by b ++ given ≡ₚ held_by b' ++ omap destroyed o2.

Abbreviation quiet m := (calm [] (λ _, []) m).

(** ** Rules *)

Lemma calls_held_perm held held' o :
  held ≡ₚ held' → Forall (calls_held held) o → Forall (calls_held held') o.
Proof.
  intros Hp Ho. eapply Forall_impl; [exact Ho|]. intros a (Hd & Hu & Hc). split_and!; [done..|].
  intros x Hx. rewrite <-Hp. auto.
Qed.

Lemma calls_held_frame held more o :
  Forall (calls_held held) o → Forall (calls_held (held ++ more)) o.
Proof.
  intros Ho. eapply Forall_impl; [exact Ho|]. intros a (Hd & Hu & Hc). split_and!; [done..|].
  intros x Hx. apply elem_of_app. auto.
Qed.

Section rules.
Context {A B : Type}.
Implicit Types (m : BM A) (g : list Bound).

Lemma calm_ret g (a : A) t : g ≡ₚ t a → calm g t (mret a).
Proof. intros Hp b a' b' o [= <- <- <-]. split; [by rewrite Hp|constructor]. Qed.

Lemma calm_bind g t t' m (k : A → BM B) :
  calm g t m → (∀ a, calm (t a) t' (k a)) → calm g t' (m ≫= k).
Proof.
  intros Hm Hk b x b' o Hr. apply bind_Done in Hr as (a & b1 & o1 & o2 & E1 & E2 & ->).
  destruct (Hm _ _ _ _ E1) as [Hp1 Ho1]. destruct (Hk _ _ _ _ _ E2) as [Hp2 Ho2].
  split; [by etrans|]. apply Forall_app. split; [done|]. by eapply calls_held_perm.
Qed.

Lemma calm_frame g t m f : calm g t m → calm (g ++ f) (λ a, t a ++ f) m.
Proof.
  intros Hm b a b' o E. destruct (Hm _ _ _ _ E) as [Hp Ho].
  rewrite !(assoc_L (++)). split; [by rewrite Hp|]. by apply calls_held_frame.
Qed.

(** The operation keeps what it has while it does something else. *)
Lemma calm_seq g t' (m : BM A) (k : A → BM B) :
  quiet m → (∀ a, calm g t' (k a)) → calm g t' (m ≫= k).
Proof.
  intros Hm Hk. eapply calm_bind; [apply (calm_frame [] (λ _, []) m g Hm)|]. done.
Qed.

Lemma accounts_calm g m : calm g (λ _, []) m → accounts g m.
Proof.
  intros Hm b a b' o E. destruct (Hm _ _ _ _ E) as [Hp Ho]. exists o, [].
  rewrite app_nil_r. by repeat split.
Qed.

Lemma accounts_bind g t m (k : A → BM B) :
  calm g t m → (∀ a, accounts (t a) (k a)) → accounts g (m ≫= k).
Proof.
  intros Hm Hk b x b' o Hr. apply bind_Done in Hr as (a & b1 & o1 & o2 & E1 & E2 & ->).
  destruct (Hm _ _ _ _ E1) as [Hp1 Ho1].
  destruct (Hk _ _ _ _ _ E2) as (o3 & o4 & -> & Hc & Hn & Hp2). exists (o1 ++ o3), o4.
  rewrite <-(assoc_L (++)). split; [done|]. split; [|split; [done|by etrans]].
  apply Forall_app. split; [done|]. by eapply calls_held_perm.
Qed.

Lemma accounts_seq g (m : BM A) (k : A → BM B) :
  quiet m → (∀ a, accounts g (k a)) → accounts g (m ≫= k).
Proof.
  intros Hm Hk. eapply accounts_bind; [apply (calm_frame [] (λ _, []) m g Hm)|]. done.
Qed.

Lemma quiet_reads (f : Binding → A) : quiet (reads f).
Proof. intros b a b' o [= <- <- <-]. by split; [|constructor]. Qed.
Lemma quiet_the f (x : option A) : quiet (the f x).
Proof. destruct x; [by apply calm_ret|done]. Qed.
Lemma quiet_liftO (x : outcome A) : quiet (liftO x).
Proof. destruct x; [by apply calm_ret|done]. Qed.
Lemma quiet_raise f : quiet (raise (A := A) f).
Proof. done. Qed.
Lemma quiet_on_member {T} get set (f : T → outcome (A * T)) :
  (∀ b a t, f (get b) = Done (a, t) → held_by b ≡ₚ held_by (set b t)) →
  quiet (on_member get set f).
Proof.
  intros Hf b a b' o. unfold on_member. destruct (f (get b)) as [[a' t]|] eqn:E; [|done].
  intros [= <- <- <-]. split; [|constructor]. rewrite !app_nil_r. eauto.
Qed.
End rules.

Lemma quiet_forM {A} (l : list A) (body : A → BM unit) :
  (∀ x, quiet (body x)) → quiet (forM l body).
Proof.
  intros Hb. induction l as [|x l IH]; [by apply calm_ret|]. apply calm_seq; [apply Hb|done].
Qed.
Lemma quiet_modify f : (∀ b, held_by b ≡ₚ held_by (f b)) → quiet (modify f).
Proof. intros Hf b a b' o [= <- <- <-]. split; [by rewrite !app_nil_r|constructor]. Qed.
Lemma quiet_emit a :
  destroyed a = None → called a = None → a ≠ Unregister_bridge → quiet (emit a).
Proof.
  intros Hd Hc Hu b x b' o [= <- <- <-]. split; [done|]. repeat constructor; [done..|].
  intros y Hy. congruence.
Qed.
Lemma quiet_when c m : quiet m → quiet (whenM c m).
Proof. destruct c; [done|]. intros _. by apply calm_ret. Qed.
Lemma quiet_assert c : quiet (assertM c).
Proof. destruct c; [by apply calm_ret|done]. Qed.

Create HintDb owns.
#[export] Hint Resolve quiet_reads quiet_the quiet_liftO quiet_raise quiet_assert : owns.
#[export] Hint Extern 1 (quiet (emit _)) => (apply quiet_emit; [reflexivity..|discriminate]) : owns.

(** ** Service states *)

Section states.
Implicit Types (m : Service_states) (s : Service_state).

Lemma holdings_lookup m k s : m !! k = Some s → holdings m ≡ₚ bound_of s ++ holdings (delete k m).
Proof.
  intros E. unfold holdings. rewrite <-(map_to_list_delete m k s E). reflexivity.
Qed.

Lemma holdings_insert m k s : holdings (<[k := s]> m) ≡ₚ bound_of s ++ holdings (delete k m).
Proof. rewrite (holdings_lookup _ k s) by apply lookup_insert_eq. by rewrite delete_insert_eq. Qed.

(** A state that keeps its connectors. *)
Lemma holdings_update m k s s' :
  m !! k = Some s → bound_of s' = bound_of s → holdings m ≡ₚ holdings (<[k := s']> m).
Proof. intros E Hb. by rewrite holdings_insert, Hb, <-holdings_lookup. Qed.

Lemma holdings_alter f m k :
  (∀ s, bound_of (f s) = bound_of s) → holdings m ≡ₚ holdings (alter f k m).
Proof.
  intros Hf. destruct (m !! k) as [s|] eqn:E.
  - assert (alter f k m = <[k := f s]> m) as ->; [|by eapply holdings_update].
    apply map_eq. intros j. destruct (decide (k = j)) as [<-|].
    + by rewrite lookup_alter_eq, lookup_insert_eq, E.
    + by rewrite lookup_alter_ne, lookup_insert_ne.
  - by rewrite alter_id by congruence.
Qed.

Lemma holdings_fmap f m : (∀ s, bound_of (f s) = bound_of s) → holdings (f <$> m) = holdings m.
Proof.
  intros Hf. unfold holdings. rewrite map_to_list_fmap, list_fmap_bind.
  apply list_bind_ext; [|done]. intros [k s]. apply Hf.
Qed.

Lemma get_or_create_holds m key i n s m' :
  get_or_create m key i n = Done (s, m') → m' !! key = Some s ∧ holdings m ≡ₚ holdings m'.
Proof.
  unfold get_or_create. intros E. apply outcome_bind_Done in E as (sv & _ & E).
  apply outcome_bind_Done in E as (inst & _ & E).
  destruct (m !! key) as [s0|] eqn:E0; injection E as <- <-; [done|].
  split; [apply lookup_insert_eq|]. rewrite holdings_insert. simpl. by rewrite delete_id.
Qed.

(** [get_or_create], and then a state with the same connectors. *)
Lemma get_or_create_update m key i n s m' s' :
  get_or_create m key i n = Done (s, m') → bound_of s' = bound_of s →
  holdings m ≡ₚ holdings (<[key := s']> m').
Proof.
  intros [E Hp]%get_or_create_holds Hs. rewrite Hp. by eapply holdings_update.
Qed.
End states.

(** ** Operations *)

(** One step of an operation that keeps its connectors. *)
Ltac qstep :=
  match goal with
  | |- quiet (mret _) => by apply calm_ret
  | |- quiet (modify _) => apply quiet_modify; intros ?; try reflexivity
  | |- quiet (whenM _ _) => apply quiet_when
  | |- quiet (forM _ _) => apply quiet_forM; intros ?
  | |- quiet (on_member _ _ _) => apply quiet_on_member; intros ? ? ? ?; try reflexivity
  | |- quiet (_ ≫= _) => apply calm_seq; [|intros ?]
  | |- quiet (if ?x then _ else _) => destruct x
  | |- quiet (match ?x with _ => _ end) => destruct x
  end.
Ltac qsteps := repeat first [solve [eauto with owns] | qstep].

Section operations.
Context `{Shm} (send_ok : N → Client_id → Message → bool).

Lemma quiet_send c msg : quiet (send send_ok c msg).
Proof.
  intros b a b' o [= <- <- <-]. split; [done|]. repeat constructor; [discriminate|]. intros x [=].
Qed.
Hint Resolve quiet_send : owns.
Lemma quiet_send_ c msg : quiet (send_ send_ok c msg).
Proof. unfold send_. qsteps. Qed.
Hint Resolve quiet_send_ : owns.
Lemma quiet_reply_channel c : quiet (get_reply_channel c).
Proof. unfold get_reply_channel. qsteps. Qed.
Lemma quiet_assert_conn x : quiet (assert_conn x).
Proof. unfold assert_conn. qsteps. Qed.
Hint Resolve quiet_reply_channel quiet_assert_conn : owns.
Lemma quiet_send_to_all msg : quiet (send_to_all send_ok msg).
Proof. unfold send_to_all. qsteps. Qed.
Lemma quiet_payload_destruction c i h : quiet (on_payload_destruction send_ok c i h).
Proof. unfold on_payload_destruction. qsteps. Qed.
Hint Resolve quiet_send_to_all quiet_payload_destruction : owns.
Lemma quiet_run_destroyed c : quiet (run_destroyed send_ok c).
Proof. unfold run_destroyed. qsteps. Qed.
Hint Resolve quiet_run_destroyed : owns.
Lemma quiet_destroy_payloads ps : quiet (destroy_payloads send_ok ps).
Proof. unfold destroy_payloads. qsteps. Qed.
Lemma quiet_get_key sv i : quiet (get_key sv i).
Proof. unfold get_key. qsteps. Qed.
Lemma quiet_next_local_id : quiet next_local_id.
Proof. unfold next_local_id. qsteps. Qed.
Lemma quiet_slot_metadata key : quiet (slot_metadata key).
Proof. unfold slot_metadata. qsteps. Qed.
Lemma quiet_clear_pending_locked key c : quiet (clear_pending_connects_for_key_locked key c).
Proof. unfold clear_pending_connects_for_key_locked. qsteps. Qed.
Hint Resolve quiet_destroy_payloads quiet_get_key quiet_next_local_id quiet_slot_metadata
  quiet_clear_pending_locked : owns.
Lemma quiet_send_connect key c h msg : quiet (send_connect send_ok key c h msg).
Proof. unfold send_connect. qsteps. Qed.
Lemma quiet_set_offer key c o : quiet (set_offer key c o).
Proof. unfold set_offer. qstep. by apply holdings_alter. Qed.
Hint Resolve quiet_send_connect quiet_set_offer : owns.
Lemma quiet_send_connect_to_offer key sv inst c o :
  quiet (send_connect_to_offer send_ok key sv inst c o).
Proof. unfold send_connect_to_offer. qsteps. Qed.
Hint Resolve quiet_send_connect_to_offer : owns.
Lemma quiet_maybe_send_connect key : quiet (maybe_send_connect_service_locked send_ok key).
Proof. unfold maybe_send_connect_service_locked. qsteps. Qed.
Lemma quiet_request_locked sv i u : quiet (send_request_service_locked send_ok sv i u).
Proof. unfold send_request_service_locked. qsteps. Qed.
Lemma quiet_send_offer c sv i u : quiet (send_offer_service_to_client send_ok c sv i u).
Proof. unfold send_offer_service_to_client. qsteps. Qed.
Hint Resolve quiet_maybe_send_connect quiet_request_locked quiet_send_offer : owns.
Lemma quiet_event_update_loop e h l : ∀ n, quiet (send_event_update_loop send_ok e h l n).
Proof.
  induction l as [|[c ids] l IH]; intros n; simpl; [by apply calm_ret|].
  unfold send_event_update_to. qsteps.
Qed.
Hint Resolve quiet_event_update_loop : owns.
Lemma quiet_send_event_update key e p : quiet (send_event_update send_ok key e p).
Proof. unfold send_event_update. qsteps. Qed.
Lemma quiet_service_state_change key u counts : quiet (service_state_change send_ok key u counts).
Proof.
  unfold service_state_change. qsteps.
  match goal with H : _ = Done _ |- _ => apply outcome_bind_Done in H as (m & Ha & [= _ <-]) end.
  unfold add_service in Ha. apply outcome_bind_Done in Ha as ([st m'] & Hg & [= <-]).
  by eapply get_or_create_update.
Qed.
Lemma quiet_event_payload_allocate key : quiet (event_payload_allocate key).
Proof. unfold event_payload_allocate. qsteps. Qed.
Lemma quiet_subscription_change c i e u : quiet (on_event_subscription_change send_ok c i e u).
Proof. unfold on_event_subscription_change. qsteps. Qed.
Lemma quiet_register configs : quiet (register_shared_memory_configurations configs).
Proof. unfold register_shared_memory_configurations. qsteps. Qed.
Lemma quiet_add_client c : quiet (add_client c).
Proof. unfold add_client. qsteps. Qed.
Hint Resolve quiet_send_event_update quiet_service_state_change quiet_subscription_change : owns.

(** The calls a function on the states asks for are made on connectors it holds. *)
Lemma quiet_on_states f :
  (∀ m, holdings m ≡ₚ holdings (f m).1 ∧
    Forall (λ c, calls_held (holdings m) (Connector_called c)) (f m).2) →
  quiet (on_states f).
Proof.
  intros Hf b [] b' o Hr. unfold on_states in Hr.
  apply bind_Done in Hr as (calls & b1 & o1 & o2 & E1 & E2 & ->).
  unfold on_member in E1. destruct (Hf (b_service_states b)) as [Hp Hc].
  destruct (f (b_service_states b)) as [m' calls'] eqn:E. injection E1 as <- <- <-.
  rewrite emit_all_run in E2. injection E2 as <- <-. rewrite !app_nil_r. simpl.
  split; [done|]. by apply Forall_fmap.
Qed.

Lemma unsubscribe_calls_held held c es :
  (∀ x, c = Some x → Bound_client x ∈ held) →
  Forall (λ call, calls_held held (Connector_called call)) (unsubscribe_calls c es).
Proof.
  intros Hc. destruct c as [c|]; [|constructor]. apply Forall_fmap, Forall_forall.
  intros e _. split_and!; [done..|]. intros x [= <-]. auto.
Qed.

Lemma client_held m k st c :
  m !! k = Some st → ss_client_connector st = Some c → Bound_client c ∈ holdings m.
Proof.
  intros E Hc. rewrite (holdings_lookup m k st E). unfold bound_of. rewrite Hc. left.
Qed.
Lemma server_held m k st s :
  m !! k = Some st → ss_enabled_connector st = Some s → Bound_server s ∈ holdings m.
Proof.
  intros E Hs. rewrite (holdings_lookup m k st E). unfold bound_of. rewrite Hs.
  destruct (ss_client_connector st); set_solver.
Qed.

Lemma quiet_drop_client_subscriptions c :
  quiet (on_states (λ m, remove_event_subscriptions_for_client m c)).
Proof.
  apply quiet_on_states. intros m. split; simpl.
  - by rewrite holdings_fmap.
  - apply Forall_bind, Forall_forall. intros [k st] Hin%elem_of_map_to_list.
    apply unsubscribe_calls_held. intros x Hx. by eapply client_held.
Qed.

Lemma quiet_update_subscription key ep e u :
  quiet (on_states (λ m, update_event_subscription m key ep e u)).
Proof.
  apply quiet_on_states. intros m. unfold update_event_subscription.
  destruct (m !! key) as [st|] eqn:E; [|by split; [|constructor]].
  assert (∀ x, ss_client_connector st = Some x → Bound_client x ∈ holdings m) as Hheld.
  { intros x. by eapply client_held. }
  assert (bound_of (update_subscription st ep e u).1 = bound_of st) as Hb.
  { unfold update_subscription. destruct u; [done|].
    destruct (ss_event_subscriptions st !! e); [|done]. by case_decide. }
  destruct (update_subscription st ep e u) as [st' calls] eqn:Eu. simpl in *.
  split; [by eapply holdings_update|]. unfold update_subscription in Eu. destruct u.
  - injection Eu as _ <-. destruct (ss_client_connector st) as [c|]; [|constructor].
    destruct (_ && _); [|constructor]. repeat constructor; [discriminate|]. intros x [= <-]. auto.
  - destruct (ss_event_subscriptions st !! e); [|injection Eu as _ <-; constructor].
    case_decide; injection Eu as _ <-; [by apply unsubscribe_calls_held|constructor].
Qed.

Lemma quiet_drop_connection key c h :
  quiet (on_states (λ m, remove_event_subscriptions_for_connection m key c h)).
Proof.
  apply quiet_on_states. intros m. unfold remove_event_subscriptions_for_connection.
  destruct (m !! key) as [st|] eqn:E; [|by split; [|constructor]]. simpl.
  split; [by eapply holdings_update|]. apply unsubscribe_calls_held. intros x.
  by eapply client_held.
Qed.
Hint Resolve quiet_drop_client_subscriptions quiet_update_subscription quiet_drop_connection : owns.

(** *** Handlers that keep their connectors *)

Lemma quiet_connect c : quiet (handle_connect_message send_ok c).
Proof. unfold handle_connect_message. qsteps. Qed.
Lemma quiet_connect_reply msg : quiet (handle_connect_reply_message send_ok msg).
Proof. unfold handle_connect_reply_message. qsteps. Qed.
Lemma quiet_subscribe c msg : quiet (handle_subscribe_event_message c msg).
Proof. unfold handle_subscribe_event_message. qsteps. Qed.
Lemma quiet_payload_consumed c msg : quiet (handle_payload_consumed_message send_ok c msg).
Proof. unfold handle_payload_consumed_message. qsteps. Qed.
Lemma quiet_reply_locked c msg : quiet (connect_service_reply_locked c msg).
Proof. unfold connect_service_reply_locked. qsteps. Qed.
Lemma quiet_reply_unlocked c msg key : quiet (connect_service_reply_unlocked c msg key).
Proof. unfold connect_service_reply_unlocked. qsteps. Qed.

Lemma quiet_request_start key c msg : quiet (request_service_start send_ok key c msg).
Proof.
  unfold request_service_start. qsteps.
  match goal with H : _ = Done _ |- _ => apply outcome_bind_Done in H as (m & Ha & [= _ <-]) end.
  unfold mark_client_connector_pending in Ha.
  apply outcome_bind_Done in Ha as ([st m'] & Hg & [= <-]). by eapply get_or_create_update.
Qed.

(** An update goes to the connector of the state. *)
Lemma quiet_event_update c msg r : quiet (handle_event_update_message c msg r).
Proof.
  intros b x b' o Hr. unfold handle_event_update_message in Hr. rewrite reads_run in Hr.
  destruct (get_by_remote_handle _ _ _) as [ids|];
    [|injection Hr as <- <- <-; by split; [|constructor]].
  rewrite reads_run in Hr. destruct (b_service_states b !! ids_key ids) as [st|] eqn:Es; [|done].
  simpl in Hr. destruct (ss_enabled_connector st) as [s|] eqn:Ec; [|done].
  rewrite (the_run _ _ _ _ _ eq_refl) in Hr.
  apply bind_Done in Hr as (r1 & b1 & o1 & o2 & E1 & Hr & ->).
  apply on_member_Done in E1 as (ro & _ & -> & ->).
  destruct (get_payload _ _ _) as [p|]; [|done]. rewrite (the_run _ _ _ _ _ eq_refl) in Hr.
  destruct r; [|done]. injection Hr as <- <- <-. rewrite !app_nil_r.
  split; [done|]. repeat constructor; [discriminate|]. intros y [= <-]. by eapply server_held.
Qed.

(** *** Handlers that give connectors up *)

Lemma calm_on_member {A T} g (t : A → list Bound) get set (f : T → outcome (A * T)) :
  (∀ b a x, f (get b) = Done (a, x) → held_by b ++ g ≡ₚ held_by (set b x) ++ t a) →
  calm g t (on_member get set f).
Proof.
  intros Hf b a b' o Hr. apply on_member_Done in Hr as (x & E & -> & ->).
  split; [by apply Hf|constructor].
Qed.

Lemma accounts_emit_all l :
  Forall no_call l → accounts (omap destroyed l) (emit_all l).
Proof.
  intros Hl b [] b' o Hr. rewrite emit_all_run in Hr. injection Hr as <- <-.
  by exists [], l.
Qed.

Lemma accounts_destroy_server c : accounts (Bound_server <$> option_list c) (destroy_server c).
Proof. destruct c; apply accounts_emit_all; by repeat constructor. Qed.
Lemma accounts_destroy_client c : accounts (Bound_client <$> option_list c) (destroy_client c).
Proof. destruct c; apply accounts_emit_all; by repeat constructor. Qed.

(** A state that gives up its server connector, or its client connector. *)
Lemma bound_no_server st :
  bound_of st ≡ₚ bound_of (set_enabled_connector st None) ++
    (Bound_server <$> option_list (ss_enabled_connector st)).
Proof. unfold bound_of. simpl. by rewrite app_nil_r. Qed.
Lemma bound_no_client st p :
  bound_of st ≡ₚ bound_of (set_client_connector st None p) ++
    (Bound_client <$> option_list (ss_client_connector st)).
Proof. unfold bound_of. simpl. apply Permutation_app_comm. Qed.

(** An entry is replaced by one that holds [x] instead of [y]. *)
Lemma holdings_move m k st st' x y :
  m !! k = Some st → bound_of st ++ x ≡ₚ bound_of st' ++ y →
  holdings m ++ x ≡ₚ holdings (<[k := st']> m) ++ y.
Proof.
  intros E Hp. rewrite (holdings_lookup m k st E), holdings_insert.
  rewrite <-!(assoc_L (++)), !(comm (++) (holdings (delete k m))), !(assoc_L (++)). by rewrite Hp.
Qed.

Lemma accounts_request_finish key result :
  accounts (Bound_client <$> option_list result) (request_service_finish key result).
Proof.
  destruct result as [c|]; simpl.
  - eapply accounts_bind; [|intros old; apply accounts_destroy_client].
    apply calm_on_member. intros b old m Hr.
    apply outcome_bind_Done in Hr as ([m' x] & Ha & [= <- <-]). unfold add_client_connector in Ha.
    destruct (b_service_states b !! key) as [st|] eqn:E; [|done]. injection Ha as <- <-.
    apply (holdings_move _ _ st); [done|]. rewrite (bound_no_client st false).
    unfold bound_of at 2. simpl. unfold bound_of. simpl. solve_Permutation.
  - apply accounts_calm. qsteps. by apply holdings_alter.
Qed.

Lemma accounts_reply_finish key s :
  accounts [Bound_server s] (connect_service_reply_finish key (Some (Some s))).
Proof.
  intros b x b' o Hr. unfold connect_service_reply_finish in Hr.
  rewrite (the_run _ _ _ _ _ eq_refl) in Hr. revert b x b' o Hr.
  eapply accounts_bind; [|intros old; apply accounts_destroy_server].
  apply calm_on_member. intros b old m. unfold add_server_connector, held_by. simpl.
  destruct (b_service_states b !! key) as [st|] eqn:E; intros [= <- <-]; [|done].
  apply (holdings_move _ _ st); [done|]. rewrite (bound_no_server st).
  unfold bound_of. simpl. solve_Permutation.
Qed.

Lemma accounts_offer c msg : accounts [] (handle_offer_service_message send_ok c msg).
Proof.
  unfold handle_offer_service_message. apply accounts_seq; [qsteps|]. intros key.
  apply (accounts_bind _ (λ x, Bound_server <$> option_list x)).
  - apply calm_on_member. intros b x m Hr.
    apply outcome_bind_Done in Hr as ([m' y] & Hp & [= <- <-]). unfold process_offer in Hp.
    apply outcome_bind_Done in Hp as ([st m1] & Hg & Hp).
    destruct (get_or_create_holds _ _ _ _ _ _ Hg) as [E Hh]. unfold held_by. rewrite Hh. simpl.
    destruct (negb (os_offered msg)); injection Hp as <- <-.
    + apply (holdings_move _ _ st); [done|]. rewrite app_nil_r.
      apply (bound_no_server (set_offers st (delete c (ss_offers st)))).
    + rewrite !app_nil_r. by eapply holdings_update.
  - intros x. apply accounts_seq; [|intros _; apply accounts_destroy_server].
    qsteps. by apply holdings_alter.
Qed.

Lemma accounts_connect_service c msg : accounts [] (handle_connect_service_message send_ok c msg).
Proof.
  unfold handle_connect_service_message. apply accounts_seq; [qsteps|]. intros key.
  destruct (negb (cs_in_use msg)); [|apply accounts_calm; qsteps].
  do 4 (apply accounts_seq; [qsteps|]; intros ?).
  apply (accounts_bind _ (λ x, Bound_client <$> option_list x));
    [|intros x; apply accounts_destroy_client].
  apply calm_on_member. intros b x m. unfold remove_client_connector, held_by. simpl.
  destruct (b_service_states b !! key) as [st|] eqn:E; intros [= <- <-]; [|done].
  apply (holdings_move _ _ st); [done|]. rewrite app_nil_r. apply bound_no_client.
Qed.

(** Every state gives up some of its connectors. *)
Lemma holdings_split (f : Service_state → Service_state) (g : Service_state → list Bound) m :
  (∀ st, bound_of st ≡ₚ bound_of (f st) ++ g st) →
  holdings m ≡ₚ holdings (f <$> m) ++ (map_to_list m ≫= λ kv, g kv.2).
Proof.
  intros Hf. unfold holdings. rewrite map_to_list_fmap, list_fmap_bind.
  induction (map_to_list m) as [|[k st] l IH]; [done|]. csimpl. rewrite IH, (Hf st).
  solve_Permutation.
Qed.

Lemma fmap_omap_as_bind {A} (f : A → option N) (h : N → Bound) l :
  h <$> omap f l = l ≫= λ x, h <$> option_list (f x).
Proof. induction l as [|x l IH]; [done|]. csimpl. rewrite <-IH. by destruct (f x). Qed.

Lemma bound_remove_offer c st :
  bound_of st ≡ₚ bound_of (remove_offer c st).1 ++
    (Bound_server <$> option_list (remove_offer c st).2).
Proof.
  unfold remove_offer. destruct (ss_offers st !! c); [|by rewrite app_nil_r].
  case_decide; [|by rewrite app_nil_r]. apply bound_no_server.
Qed.

Lemma accounts_destroys (h : N → Action) (k : N → Bound) l :
  (∀ x, destroyed (h x) = Some (k x)) → (∀ x, no_call (h x)) →
  accounts (k <$> l) (emit_all (h <$> l)).
Proof.
  intros Hd Hc. assert (k <$> l = omap destroyed (h <$> l)) as ->.
  { induction l as [|x l IH]; [done|]. csimpl. by rewrite Hd, IH. }
  apply accounts_emit_all. by apply Forall_fmap, Forall_true.
Qed.

Lemma accounts_remove_client c : accounts [] (remove_client c).
Proof.
  unfold remove_client. apply accounts_seq; [qsteps|]. intros _.
  apply (accounts_bind _ (λ l, Bound_server <$> l)); [|intros l; by apply accounts_destroys].
  unfold remove_client_state_locked. apply calm_seq; [qsteps|]. intros _.
  apply (calm_bind _ (λ l, Bound_server <$> l)).
  - apply calm_on_member. intros b l m [= <- <-]. unfold held_by. simpl. rewrite app_nil_r.
    rewrite (holdings_split _ _ _ (bound_remove_offer c)).
    rewrite (fmap_omap_as_bind (λ '(_, st), (remove_offer c st).2)).
    apply Permutation_app_head, reflexive_eq, list_bind_ext; [|done]. by intros [k st].
  - intros l. do 3 (apply calm_seq; [qsteps|]; intros _). by apply calm_ret.
Qed.

(** The destructor gives up all client connectors, and the bridge at the end. *)
Lemma destroy_binding_holds b x b' o :
  destroy_binding b = Done (x, b', o) →
  ∃ l, o = (Destroy_client_connector <$> l) ++ [Unregister_bridge] ∧
    held_by b ≡ₚ held_by b' ++ (Bound_client <$> l) ∧ ∀ c, Bound_client c ∉ held_by b'.
Proof.
  intros Hr. unfold destroy_binding in Hr.
  apply bind_Done in Hr as (l & b1 & o1 & o2 & E1 & Hr & ->).
  apply on_member_Done in E1 as (m & [= <- <-] & -> & ->).
  rewrite (bind_run _ _ _ _ _ _ (emit_all_run _ _)) in Hr. injection Hr as <- <- <-.
  eexists. split; [reflexivity|]. unfold held_by.
  change (b_service_states (set_service_states b ?m)) with m.
  split.
  - rewrite (holdings_split _ _ _ (λ st, bound_no_client st false)).
    rewrite (fmap_omap_as_bind (λ '(_, st), ss_client_connector st)).
    apply Permutation_app_head, reflexive_eq, list_bind_ext; [|done]. by intros [k st].
  - intros c ([k st] & Hc & Hin)%list_elem_of_bind. apply elem_of_map_to_list in Hin.
    rewrite lookup_fmap in Hin. destruct (b_service_states b !! k); [|done].
    injection Hin as <-. by apply list_elem_of_fmap in Hc as (? & [=] & _).
Qed.

(** With the destruction of the members, every connector that the binding holds is gone. *)
Lemma destruction_releases_all b x b' o :
  (destroy_binding;; destroy_members) b = Done (x, b', o) → omap destroyed o ≡ₚ held_by b.
Proof.
  intros (u & b1 & o1 & o2 & E1 & E2 & ->)%bind_Done.
  destruct (destroy_binding_holds _ _ _ _ E1) as (l & -> & Hp & Hn).
  unfold destroy_members in E2. rewrite reads_run, emit_all_run in E2. injection E2 as _ _ <-.
  rewrite Hp, !omap_app, (Permutation_app_comm (held_by b1)). apply Permutation_app.
  { simpl. rewrite app_nil_r. apply reflexive_eq. clear. induction l as [|c l IH]; [done|].
    rewrite !fmap_cons. cbn [omap list_omap destroyed]. by rewrite IH. }
  apply reflexive_eq. unfold held_by, holdings in *. revert Hn.
  generalize (map_to_list (b_service_states b1)). intros m Hn.
  induction m as [|[k st] m IH]; [done|]. rewrite bind_cons in *.
  assert (ss_client_connector st = None) as Hc.
  { destruct (ss_client_connector st) as [c|] eqn:Ec; [|done]. destruct (Hn c).
    apply elem_of_app. left. unfold bound_of. simpl. rewrite Ec. by left. }
  specialize (IH (λ c Hin, Hn c (proj2 (elem_of_app _ _ _) (or_intror Hin)))).
  rewrite <-IH. unfold bound_of. cbn [omap list_omap snd]. rewrite Hc.
  by destruct (ss_enabled_connector st).
Qed.

(** *** Requests of the runtime *)

Lemma keys_get_again ks sv i key ks' :
  keys_get ks sv i = Done (key, ks') → keys_get ks' sv i = Done (key, ks').
Proof.
  unfold keys_get. destruct (to_socom_identifier sv) as [s|]; [|done]. simpl.
  destruct (fixed_string_to_string i) as [n|]; [|done]. simpl.
  destruct (keys_lookup ks s n) as [k|] eqn:E.
  - intros [= <- <-]. by rewrite E.
  - simpl. intros [= <- <-]. by rewrite keys_lookup_insert, decide_True.
Qed.

(** Every connected client is sent the message. *)
Lemma sends_run msg l b :
  forM l (λ c, send_ send_ok c msg) b =
    Done (tt, set_sent b (b_sent b + N.of_nat (length l))%N,
      imap (λ k c, Send c msg (send_ok (b_sent b + N.of_nat k)%N c msg)) l).
Proof.
  revert b. induction l as [|c l IH]; intros b.
  - simpl. rewrite N.add_0_r. by destruct b.
  - cbn [forM]. rewrite (bind_run _ _ b tt (set_sent b (b_sent b + 1)%N)
      [Send c msg (send_ok (b_sent b) c msg)] eq_refl), IH, imap_cons.
    unfold set_sent. cbn [b_sent length app N.of_nat]. rewrite N.add_0_r.
    assert (∀ k, b_sent b + 1 + N.of_nat k = b_sent b + N.of_nat (S k))%N as Hk by lia.
    rewrite Hk. do 3 f_equal. apply imap_ext. intros k x _. unfold compose. by rewrite Hk.
Qed.
Lemma send_to_all_run msg b :
  send_to_all send_ok msg b =
    Done (tt, set_sent b (b_sent b + N.of_nat (size (b_connections b)))%N,
      imap (λ k c, Send c msg (send_ok (b_sent b + N.of_nat k)%N c msg))
        (elements (b_connections b))).
Proof. unfold send_to_all. rewrite reads_run. apply sends_run. Qed.

(** A service without a client connector is asked for, and its state is as it was. *)
Lemma request_locked_run sv i u b r b' o :
  send_request_service_locked send_ok sv i u b = Done (r, b', o) →
  b_service_states b' = b_service_states b ∧
  ∃ key ks', keys_get (b_keys b) sv i = Done (key, ks') ∧ b_keys b' = ks' ∧
    r = negb (has_client_connector (b_service_states b) key).
Proof.
  intros Hr. unfold send_request_service_locked, get_key in Hr.
  apply bind_Done in Hr as (key & b1 & o1 & o2 & E1 & Hr & ->).
  apply on_member_Done in E1 as (ks' & Hk & -> & ->). rewrite reads_run in Hr. simpl in Hr.
  destruct (has_client_connector _ key) eqn:Eh.
  - injection Hr as <- <- _. split; [done|]. exists key, ks'. by rewrite Eh.
  - rewrite (bind_run _ _ _ _ _ _ (send_to_all_run _ _)) in Hr. injection Hr as <- <- _.
    split; [done|]. exists key, ks'. by rewrite Eh.
Qed.

(** Only server connectors are destroyed. *)
Definition servers_only (a : Action) : Prop := ∀ x, destroyed a = Some x → ∃ s, x = Bound_server s.

Lemma calm_spares {A} g t (m : BM A) b a b' o :
  calm g t m → m b = Done (a, b', o) → omap destroyed o = [] ∧ Forall servers_only o.
Proof.
  intros Hm E. destruct (Hm _ _ _ _ E) as [_ Ho]. clear E. split.
  - induction Ho as [|x o [Hx _] _ IH]; [done|]. csimpl. by rewrite Hx.
  - eapply Forall_impl; [exact Ho|]. intros x [Hx _] y. congruence.
Qed.

Lemma get_or_create_no_client m key i n st m' :
  get_or_create m key i n = Done (st, m') → has_client_connector m key = false →
  ss_client_connector st = None.
Proof.
  unfold get_or_create, has_client_connector. intros E.
  apply outcome_bind_Done in E as (sv & _ & E). apply outcome_bind_Done in E as (inst & _ & E).
  destruct (m !! key) as [s0|]; injection E as <- <-; [|done].
  intros [_ Hn]%orb_false_iff. apply bool_decide_eq_false in Hn. by apply eq_None_not_Some.
Qed.

(** The binding is asked for a service, or it is given up: the state goes, and a server
    connector with it; a client connector it cannot have. *)
Lemma send_request_accounts i counts n u b x b' o :
  send_request_service send_ok i counts n u b = Done (x, b', o) →
  held_by b ≡ₚ held_by b' ++ omap destroyed o ∧ Forall servers_only o ∧
  (u = true → omap destroyed o = []).
Proof.
  intros Hr. unfold send_request_service in Hr.
  destruct (make_service i) as [sv|]; [|done]. rewrite (liftO_run _ sv) in Hr by done.
  destruct (make_instance_id n) as [inst|]; [|done]. rewrite (liftO_run _ inst) in Hr by done.
  apply bind_Done in Hr as (r & b1 & o1 & o2 & E1 & Hr & ->).
  destruct (calm_spares _ _ _ _ _ _ _ (quiet_request_locked sv inst u) E1) as [Hn1 Hs1].
  apply request_locked_run in E1 as (Est & key & ks' & Hk & Hks & ->).
  rewrite omap_app, Hn1. simpl. rewrite Forall_app.
  destruct (has_client_connector (b_service_states b) key) eqn:Eh; simpl in Hr.
  { injection Hr as <- <- <-. unfold held_by. rewrite Est, app_nil_r. by repeat constructor. }
  unfold get_key in Hr. apply bind_Done in Hr as (key' & b2 & o3 & o4 & E2 & Hr & ->).
  apply on_member_Done in E2 as (ks2 & Hk2 & -> & ->).
  rewrite Hks, (keys_get_again _ _ _ _ _ Hk) in Hk2. injection Hk2 as <- <-.
  apply bind_Done in Hr as ([[kept removed] removed_client] & b3 & o5 & o6 & E3 & Hr & ->).
  apply on_member_Done in E3 as (m & Hp & -> & ->). simpl in Hp. rewrite Est in Hp.
  apply outcome_bind_Done in Hp as ([[[m' kept'] removed'] client'] & Hp & [= -> -> -> ->]).
  unfold process_request_service in Hp. apply outcome_bind_Done in Hp as ([st m1] & Hg & Hp).
  pose proof (get_or_create_no_client _ _ _ _ _ _ Hg Eh) as Hc.
  destruct (get_or_create_holds _ _ _ _ _ _ Hg) as [E Hh]. unfold held_by at 1. rewrite Hh.
  destruct u; simpl in Hp; injection Hp as <- <- <- <-.
  - assert (quiet (destroy_client None;; maybe_send_connect_service_locked send_ok key;;
      destroy_server None)) as Hq.
    { apply calm_seq; [by apply calm_ret|]. intros _. apply calm_seq; [qsteps|]. intros _.
      by apply calm_ret. }
    destruct (Hq _ _ _ _ Hr) as [Hp _]. destruct (calm_spares _ _ _ _ _ _ _ Hq Hr) as [Hn Hs].
    rewrite !app_nil_l, Hn. split_and!; [|done..].
    rewrite <-Hp, app_nil_r. by eapply holdings_update.
  - rewrite Hc in Hr. rewrite (bind_silent _ _ _ tt _ eq_refl), modify_run in Hr.
    unfold destroy_server in Hr. rewrite emit_all_run in Hr. injection Hr as <- <- <-.
    rewrite !app_nil_l. unfold held_by. simpl. rewrite (holdings_lookup m1 key st E).
    unfold bound_of. rewrite Hc. split_and!; [|done| |done].
    + rewrite (comm (++) (holdings _)). by destruct (ss_enabled_connector st).
    + destruct (ss_enabled_connector st); repeat constructor. intros y [= <-]. by eexists.
Qed.

(** Everything a message does that is not answered by the runtime. *)
Lemma accounts_dispatch c m an :
  (∀ x, m ≠ Msg_Request_service x) → (∀ x, m ≠ Msg_Connect_service_reply x) →
  accounts [] (dispatch send_ok c m an).
Proof.
  intros Hr Hc. destruct m as [m|m|m|m|m|m|m|m|m]; simpl;
    try (by destruct (Hr m)); try (by destruct (Hc m));
    try solve [apply accounts_offer | apply accounts_connect_service]; apply accounts_calm;
    eauto using quiet_connect, quiet_connect_reply, quiet_subscribe, quiet_event_update,
      quiet_payload_consumed.
Qed.
End operations.
