(* ===== verification/Bridging.v ===== *)
(** * The binding as a bridge of the runtime

    One daemon as a whole: the socom runtime with the connectors of its users, and the
    binding, which is a bridge of that runtime and a user of it. What the binding asks of
    the runtime is a call of the runtime's model, what the runtime calls back is an
    operation of the binding's, and what is left are bytes for the peers and callbacks of
    the other users
    ([src/score/gateway_ipc_binding/impl/binding_base.cpp], [impl/request_service_handle.hpp]).

    Calls nest: destroying a client connector of the binding drops a request that the
    binding holds as a bridge, and that may destroy a server connector of the binding. The
    callbacks are in layers accordingly, each of which uses the ones below it. *)

From stdpp Require Import base numbers list gmap strings.
From Stdlib Require Import Strings.Ascii.
From S2P Require Import Prelude.
From S2P Require Import IpcTypes.
From S2P Require Import Payload.
From S2P Require Import SlotManager.
From S2P Require Import Keys.
From S2P Require Import ConnectionMetadata.
From S2P Require Import SharedMemoryManagers.
From S2P Require Import ServiceState.
From S2P Require Import BindingBase.
From S2P Require Import BindingSafety.
From S2P Require Import Wire.
From S2P Require Import Socom.
From S2P Require Import SocomInvariant.
From S2P Require Import SocomCalls.
From S2P Require Import EventPath.

(** ** Parts *)

Definition set_dm_client_keys (d : Daemon) x :=
  mkDaemon (dm_socom d) (dm_binding d) (dm_payloads d) (dm_next_payload d) x (dm_server_peers d).
Definition set_dm_server_peers (d : Daemon) x :=
  mkDaemon (dm_socom d) (dm_binding d) (dm_payloads d) (dm_next_payload d) (dm_client_keys d) x.

(** The configuration of a server, as its clients get it. *)
Definition server_counts (w : Socom) (s : N) : option Service_counts :=
  (λ S, {| num_methods := sc_num_methods S; num_events := N.of_nat (sc_num_events S) |})
    <$> so_servers w !! s.

(** [Service_interface_definition{identifier}]. *)
Definition no_counts : Service_counts := {| num_methods := 0; num_events := 0 |}.

Section bridging.
Context `{Shm} (send_ok : N → Client_id → Message → bool).
(** The number under which the binding is registered as a bridge. *)
Context (bridge : N).

(** An operation of the binding that only sends. *)
Definition binding_sends (m : BM unit) : DM unit :=
  '(_, actions) ← on_binding m; forM actions route_send.

(** The callbacks that make the binding call the runtime at most to deliver. [w] is the
    runtime before the call that calls back, and [counts] what the client's
    configuration says of the service. *)
Definition call_back (w : Socom) (counts : Service_counts) (a : Socom_action) : DM unit :=
  match a with
  | Cb_service_state_change c available s =>
    key ← reads (λ d, dm_client_keys d !! c);
    match key with
    | Some key =>
      server ← the Use_after_free (server_counts w s);
      binding_sends (service_state_change send_ok key available server)
    | None => emit (To_user a)
    end
  | Bridge_request b i n =>
    if (b =? bridge)%N then binding_sends (send_request_service send_ok i counts n true)
    else emit (To_user a)
  | Cb_event_update_request s _ | Cb_method_call s _ _ | Cb_method_call_payload_allocate s _ =>
    peer ← reads (λ d, dm_server_peers d !! s);
    match peer with Some _ => mret tt | None => emit (To_user a) end
  | a => route_callback send_ok a
  end.

(** A call of the runtime with its callbacks. *)
Definition runtime_call {A} (back : Socom → Socom_action → DM unit) (m : SoM A) : DM A :=
  w ← reads dm_socom;
  '(result, callbacks) ← on_socom m;
  forM callbacks (back w);;
  mret result.

(** The binding destroys one of its server connectors, which calls back no more. *)
Definition destroy_bound_server (s : N) : DM unit :=
  modify (λ d, set_dm_server_peers d (delete s (dm_server_peers d)));;
  runtime_call (λ w, call_back w no_counts) (destroy_server_connector s).

(** The end of a [Request_service_handle]: the binding gives up the service, and with it
    the server connector. *)
Definition drop_request (i : Service_interface_identifier) (n : Service_instance) : DM unit :=
  '(_, actions) ← on_binding (send_request_service send_ok i no_counts n false);
  forM actions (λ a, match a with
    | Destroy_server_connector s => destroy_bound_server s
    | a => route_send a
    end).

(** All callbacks. *)
Definition call_back_all (counts : Service_counts) (w : Socom) (a : Socom_action) : DM unit :=
  match a with
  | Bridge_request_dropped b i n =>
    if (b =? bridge)%N then drop_request i n else emit (To_user a)
  | a => call_back w counts a
  end.

Definition destroy_bound_client (c : N) : DM unit :=
  modify (λ d, set_dm_client_keys d (delete c (dm_client_keys d)));;
  runtime_call (call_back_all no_counts) (destroy_client_connector c).

(** ** What the binding asks *)

Definition node_action (a : Action) : DM unit :=
  match a with
  | BindingBase.Update_event connector e payload =>
    p ← new_payload payload;
    result ← runtime_call (call_back_all no_counts) (Socom.update_event connector e p);
    assertM (has_value result)
  | Connector_called (ServiceState.subscribe_event connector e) =>
    _ ← runtime_call (call_back_all no_counts) (Socom.subscribe_event connector e mode_update);
    mret tt
  | Connector_called (ServiceState.unsubscribe_event connector e) =>
    _ ← runtime_call (call_back_all no_counts) (Socom.unsubscribe_event connector e);
    mret tt
  | Destroy_server_connector s => destroy_bound_server s
  | Destroy_client_connector c => destroy_bound_client c
  | BindingBase.Unregister_bridge =>
    runtime_call (call_back_all no_counts) (stop_registration bridge)
  | a => route_send a
  end.

(** An operation of the binding. *)
Definition binding_call (m : BM unit) : DM unit :=
  '(_, actions) ← on_binding m; forM actions node_action.

(** The call of [make_client_connector] in [handle_request_service_message] and what
    follows it. The callbacks have captured the key. *)
Definition make_bound_client (key : Key_t) (a : Action) : DM unit :=
  match a with
  | BindingBase.Make_client_connector i n =>
    w ← reads dm_socom;
    '(result, callbacks) ← on_socom (Socom.make_client_connector true i n);
    let connector := match result with Ok c => Some c | Err _ => None end in
    modify (λ d, set_dm_client_keys d
      (from_option (λ c, <[c := key]> (dm_client_keys d)) (dm_client_keys d) connector));;
    forM callbacks (call_back_all no_counts w);;
    binding_call (request_service_finish key connector)
  | a => node_action a
  end.

Definition node_request_service (client_id : Client_id) (msg : Request_service) : DM unit :=
  '(key, _) ← on_binding (get_key (rs_service_id msg) (rs_instance_id msg));
  '(_, actions) ← on_binding (request_service_start send_ok key client_id msg);
  forM actions (make_bound_client key).

(** The calls of [make_server_connector] and [enable] in
    [handle_connect_service_reply_message] and what follows them. The subscription
    callback has captured the client and its id. *)
Definition make_bound_server (key : Key_t) (a : Action) : DM unit :=
  match a with
  | BindingBase.Make_server_connector i n counts client_id provided_id =>
    '(result, _) ← on_socom (Socom.make_server_connector true i (num_methods counts)
      (N.to_nat (num_events counts)) n);
    match result with
    | Err _ => binding_call (connect_service_reply_finish key None)
    | Ok s =>
      modify (λ d, set_dm_server_peers d (<[s := (client_id, provided_id)]> (dm_server_peers d)));;
      runtime_call (call_back_all no_counts) (enable_server s);;
      binding_call (connect_service_reply_finish key (Some (Some s)))
    end
  | a => node_action a
  end.

Definition node_connect_service_reply (client_id : Client_id) (msg : Connect_service_reply) :
    DM unit :=
  '(established, _) ← on_binding (connect_service_reply_locked client_id msg);
  match established with
  | None => mret tt
  | Some key =>
    '(_, actions) ← on_binding (connect_service_reply_unlocked client_id msg key);
    forM actions (make_bound_server key)
  end.

(** No answer of the runtime changes what the other handlers do: the one that looks at a
    result asserts it, which [node_action] does. *)
Definition no_answers : Answers :=
  {| an_callbacks := []; an_client_connector := None; an_server_connector := None;
     an_update_event := true |}.

(** [on_receive_message]. *)
Definition node_receive (client_id : Client_id) (addr : N) (bytes : list N) : DM unit :=
  match parse_message addr bytes with
  | Some (Msg_Request_service msg) => node_request_service client_id msg
  | Some (Msg_Connect_service_reply msg) => node_connect_service_reply client_id msg
  | _ => binding_call (on_receive_message send_ok client_id addr bytes no_answers)
  end.

Definition node_add_client (client_id : Client_id) : DM unit := binding_call (add_client client_id).
Definition node_remove_client (client_id : Client_id) : DM unit :=
  binding_call (remove_client client_id).
Definition node_destroy_binding : DM unit := binding_call destroy_binding.

(** ** Users of the runtime *)

Definition user_make_client (i : Service_interface_identifier) (counts : Service_counts)
    (n : Service_instance) : DM (Result Construction_error N) :=
  runtime_call (call_back_all counts) (Socom.make_client_connector true i n).
Definition user_make_server (i : Service_interface_identifier) (counts : Service_counts)
    (n : Service_instance) : DM (Result Construction_error N) :=
  runtime_call (call_back_all no_counts) (Socom.make_server_connector true i (num_methods counts)
    (N.to_nat (num_events counts)) n).
Definition user_call {A} (m : SoM A) : DM A := runtime_call (call_back_all no_counts) m.

(** A payload in memory that the subscriber of the event allocates; here the binding. *)
Definition user_allocate (s e : N) : DM (option Event_payload) :=
  '(result, callbacks) ← on_socom (Socom.allocate_event_payload s e (Ok tt));
  match callbacks with
  | [Cb_event_payload_allocate c _] =>
    key ← reads (λ d, dm_client_keys d !! c);
    match key with
    | Some key =>
      '(payload, _) ← on_binding (event_payload_allocate key);
      mret (match payload with Ok p => Some p | Err _ => None end)
    | None => mret None
    end
  | _ => mret None
  end.

Definition user_update (s e : N) (payload : Event_payload) : DM unit :=
  p ← new_payload payload;
  _ ← user_call (Socom.update_event s e p); mret tt.

(** ** Everything that happens to a daemon *)

Inductive Node_op : Type :=
  | Node_add_client (client_id : Client_id)
  | Node_remove_client (client_id : Client_id)
  | Node_register (configs : Shared_memory_configs)
  | Node_receive (client_id : Client_id) (addr : N) (bytes : list N)
  | Node_user (counts : Service_counts) (call : Socom_call)
  | Node_allocate (s e : N)
  | Node_update (s e : N) (payload : Event_payload)
  | Node_destroy_payload (p : N).

Definition run_node (op : Node_op) : DM unit :=
  match op with
  | Node_add_client c => node_add_client c
  | Node_remove_client c => node_remove_client c
  | Node_register configs => binding_call (register_shared_memory_configurations configs)
  | Node_receive c addr bytes => node_receive c addr bytes
  | Node_user counts call => runtime_call (call_back_all counts) (socom_step call)
  | Node_allocate s e => _ ← user_allocate s e; mret tt
  | Node_update s e payload => user_update s e payload
  | Node_destroy_payload p => user_destroy_payload send_ok p
  end.

End bridging.

(** The runtime with the binding as its first bridge. *)
Definition make_node (configuration : Shared_memory_configuration) (identity : N) :
    outcome (Daemon * N) :=
  match register_service_bridge true identity so_init with
  | Done (Ok b, w, _) => Done (mkDaemon w (make_binding configuration) ∅ 0 ∅ ∅, b)
  | Done (Err _, _, _) => Fault Assertion_failed
  | Fault f => Fault f
  end.
