(* ===== verification/BridgingSafety.v ===== *)
(** * The binding's use of the runtime is safe

    The connectors that the binding has in the runtime are exactly the ones its service
    states hold, in every state that users, peers and connections can bring a daemon to.
    So no operation touches a connector that is gone, none waits for a token that nobody
    gives back, and no connector is leaked. *)

From stdpp Require Import base numbers list gmap strings.
From Stdlib Require Import Strings.Ascii.
From S2P Require Import Prelude.
From S2P Require Import IpcTypes.
From S2P Require Import Payload.
From S2P Require Import SlotManager.
From S2P Require Import Keys.
From S2P Require Import ConnectionMetadata.
From S2P Require Import SharedMemoryManagers.
From S2P Require Import ServiceState.
From S2P Require Import BindingBase.
From S2P Require Import BindingSafety.
From S2P Require Import BindingProperties.
From S2P Require Import Wire.
From S2P Require Import Socom.
From S2P Require Import SocomInvariant.
From S2P Require Import SocomCalls.
From S2P Require Import SocomFrame.
From S2P Require Import EventPath.
From S2P Require Import Ownership.
From S2P Require Import Bridging.

(** ** The invariant *)

Abbreviation Client_keys := (gmap N Key_t).
Abbreviation Server_peers := (gmap N (Client_id * Remote_handle)).

(** The connectors whose callbacks are the binding's. *)
Definition bound_by (ck : Client_keys) (sp : Server_peers) : list Bound :=
  (Bound_client <$> (map_to_list ck).*1) ++ (Bound_server <$> (map_to_list sp).*1).

Lemma bound_by_client ck sp c : Bound_client c ∈ bound_by ck sp ↔ c ∈ dom ck.
Proof.
  unfold bound_by. rewrite elem_of_app, !list_elem_of_fmap, elem_of_dom. split.
  - intros [(x & [= <-] & ([? y] & -> & E%elem_of_map_to_list)%list_elem_of_fmap)|(? & [=] & _)].
    by eexists.
  - intros [key E]. left. exists c. split; [done|]. apply list_elem_of_fmap. exists (c, key).
    by rewrite elem_of_map_to_list.
Qed.
Lemma bound_by_server ck sp s : Bound_server s ∈ bound_by ck sp ↔ s ∈ dom sp.
Proof.
  unfold bound_by. rewrite elem_of_app, !list_elem_of_fmap, elem_of_dom. split.
  - intros [(? & [=] & _)|(x & [= <-] & ([? y] & -> & E%elem_of_map_to_list)%list_elem_of_fmap)].
    by eexists.
  - intros [p E]. right. exists s. split; [done|]. apply list_elem_of_fmap. exists (s, p).
    by rewrite elem_of_map_to_list.
Qed.

Lemma bound_by_new_client ck sp c key :
  c ∉ dom ck → bound_by (<[c := key]> ck) sp ≡ₚ Bound_client c :: bound_by ck sp.
Proof. intros E%not_elem_of_dom. unfold bound_by. by rewrite map_to_list_insert. Qed.
Lemma bound_by_new_server ck sp s p :
  s ∉ dom sp → bound_by ck (<[s := p]> sp) ≡ₚ Bound_server s :: bound_by ck sp.
Proof.
  intros E%not_elem_of_dom. unfold bound_by. rewrite map_to_list_insert by done.
  csimpl. solve_Permutation.
Qed.
Lemma bound_by_no_client ck sp c :
  c ∈ dom ck → bound_by ck sp ≡ₚ Bound_client c :: bound_by (delete c ck) sp.
Proof.
  intros [key E]%elem_of_dom. rewrite <-(bound_by_new_client _ _ c key) by (rewrite dom_delete_L;
    set_solver).
  by rewrite insert_delete_eq, insert_id.
Qed.
Lemma bound_by_no_server ck sp s :
  s ∈ dom sp → bound_by ck sp ≡ₚ Bound_server s :: bound_by ck (delete s sp).
Proof.
  intros [p E]%elem_of_dom. rewrite <-(bound_by_new_server _ _ s p) by (rewrite dom_delete_L;
    set_solver).
  by rewrite insert_delete_eq, insert_id.
Qed.

Lemma bound_by_NoDup ck sp : NoDup (bound_by ck sp).
Proof.
  apply NoDup_app. split_and!.
  - apply NoDup_fmap_2; [by intros ?? [=]|apply NoDup_fst_map_to_list].
  - intros x (? & -> & _)%list_elem_of_fmap (? & [=] & _)%list_elem_of_fmap.
  - apply NoDup_fmap_2; [by intros ?? [=]|apply NoDup_fst_map_to_list].
Qed.

Section safety.
Context `{Shm} (send_ok : N → Client_id → Message → bool) (bridge : N).
(** Is the binding still registered as a bridge? *)
Context (registered : Prop).

(** The connectors of the binding, [hand] apart, are those of its states; they live in the
    runtime; and the keys they were made for stand for services. *)
Record node_at (cs : gset N) (K : N → Prop) (hand : list Bound) (ck : Client_keys)
    (sp : Server_peers) (d : Daemon) : Prop := {
  n_socom : so_inv (dm_socom d);
  n_binding : inv cs K (dm_binding d);
  n_keys : ∀ c key, ck !! c = Some key → K key;
  n_client_keys : dm_client_keys d = ck;
  n_server_peers : dm_server_peers d = sp;
  n_held : bound_by ck sp ≡ₚ held_by (dm_binding d) ++ hand;
  n_clients : dom ck ⊆ dom (so_clients (dm_socom d));
  n_servers : dom sp ⊆ dom (so_servers (dm_socom d));
  n_bridge : registered → is_Some (so_bridges (dm_socom d) !! bridge);
}.

Definition node_any cs K hand (d : Daemon) : Prop := ∃ ck sp, node_at cs K hand ck sp d.

Abbreviation safe := (hoare lost) (only parsing).
Definition preserves {A} (P : Daemon → Prop) (m : DM A) : Prop := hoare lost P m (λ _, P).

(** ** The binding's part *)

Lemma route_send_preserves P a : preserves P (route_send a).
Proof. destruct a as [c m []| | | | | | | |]; apply hoare_emit || by apply hoare_ret. Qed.

(** A call of the runtime, and its callbacks one after the other. *)
Lemma runtime_rule {A} (P pre : Daemon → Prop) (ok : Socom → Socom_action → Prop) back
    (m : SoM A) :
  (∀ d, P d → pre d →
    match m (dm_socom d) with
    | Done (_, w', o) => P (set_dm_socom d w') ∧ Forall (ok (dm_socom d)) o
    | Fault f => ¬ lost f
    end) →
  (∀ w a, ok w a → preserves P (back w a)) →
  safe (λ d, P d ∧ pre d) (runtime_call back m) (λ _, P).
Proof.
  intros Hm Hb d [Hd Hpre]. unfold runtime_call. rewrite reads_run.
  specialize (Hm d Hd Hpre). unfold mbind at 1, M_bind at 1, on_socom.
  destruct (m (dm_socom d)) as [[[a w'] o]|f]; [|done]. destruct Hm as [Hw Ho].
  rewrite Forall_forall in Ho.
  pose proof (hoare_bind lost P (forM o (back (dm_socom d))) (λ _, mret a) (λ _, P) (λ _, P)
    (hoare_forM _ _ _ _ (λ x Hx, Hb _ _ (Ho x Hx))) (λ _, hoare_ret _ _ _ _ (λ _ H, H)) _ Hw) as Hf.
  by destruct ((forM o (back (dm_socom d)) ≫= λ _, mret a) (set_dm_socom d w')) as [[[? ?] ?]|].
Qed.

Section parts.
Context (cs : gset N) (K : N → Prop) (ck : Client_keys) (sp : Server_peers).
Abbreviation at_hand hand := (node_at cs K hand ck sp).

(** An operation of the binding, with what it does to the connectors it holds. *)
Lemma binding_part {A} hand (m : BM A) R (Q : A → list Action → Daemon → Prop) :
  hoare lost (inv cs K) m R →
  (∀ d a b' o, at_hand hand d → m (dm_binding d) = Done (a, b', o) → R a b' →
    Q a o (set_dm_binding d b')) →
  safe (at_hand hand) (on_binding m) (λ r, Q r.1 r.2).
Proof.
  intros Hk HQ d Hd. unfold on_binding. pose proof (Hk _ (n_binding _ _ _ _ _ _ Hd)) as Hb.
  destruct (m (dm_binding d)) as [[[a b'] o]|f] eqn:E; [|done]. by apply HQ.
Qed.

Lemma at_binding cs' K' hand hand' d b' :
  at_hand hand d → inv cs' K' b' → (∀ k, K k → K' k) →
  held_by (dm_binding d) ++ hand ≡ₚ held_by b' ++ hand' →
  node_at cs' K' hand' ck sp (set_dm_binding d b').
Proof. intros [] Hb HK Hp. split; try done; [eauto|]. by etrans. Qed.

Lemma quiet_part {A} hand (m : BM A) :
  keeps cs K m → quiet m →
  safe (at_hand hand) (on_binding m)
    (λ r d, at_hand hand d ∧ Forall (calls_held (bound_by ck sp)) r.2).
Proof.
  intros Hk Hq. apply (binding_part hand m (λ _, inv cs K) (λ _ o d, at_hand hand d ∧
    Forall (calls_held (bound_by ck sp)) o)); [done|]. intros d a b' o Hd E Hb.
  destruct (Hq _ _ _ _ E) as [Hp Ho]. rewrite !app_nil_r in Hp. split.
  - eapply at_binding; [done..|]. by rewrite Hp.
  - eapply calls_held_perm; [symmetry; apply (n_held _ _ _ _ _ _ Hd)|].
    apply calls_held_frame. by rewrite app_nil_r in Ho.
Qed.

Lemma sends_part hand (m : BM unit) :
  keeps cs K m → (∀ b a b' o, m b = Done (a, b', o) → held_by b ≡ₚ held_by b') →
  preserves (at_hand hand) (binding_sends m).
Proof.
  intros Hk Hp. unfold binding_sends.
  apply (hoare_bind _ _ _ _ (λ _, at_hand hand)).
  - apply (binding_part hand m (λ _, inv cs K) (λ _ _ d, at_hand hand d)); [done|].
    intros d a b' o Hd E Hb.
    eapply at_binding; [done..|]. by rewrite (Hp _ _ _ _ E).
  - intros [[] o]. apply hoare_forM. intros a _. apply route_send_preserves.
Qed.

Lemma quiet_holds (m : BM unit) b a b' o :
  quiet m → m b = Done (a, b', o) → held_by b ≡ₚ held_by b'.
Proof. intros Hq E. destruct (Hq _ _ _ _ E) as [Hp _]. by rewrite !app_nil_r in Hp. Qed.

(** ** Callbacks *)

Lemma hoare_read_node {A B} P (f : Daemon → A) (k : A → DM B) Q :
  (∀ d, P d → safe P (k (f d)) Q) → safe P (reads f ≫= k) Q.
Proof. intros Hk d Hd. rewrite reads_run. by apply Hk. Qed.

Lemma on_payloads hand d x n : at_hand hand d → at_hand hand (set_dm_payloads d x n).
Proof. by intros []. Qed.

Lemma take_payload_preserves hand p : preserves (at_hand hand) (take_payload p).
Proof.
  intros d Hd. unfold take_payload. rewrite reads_run.
  destruct (dm_payloads d !! p); [|by intros []]. rewrite (the_run _ _ _ _ _ eq_refl), modify_run.
  by apply on_payloads.
Qed.
Lemma new_payload_preserves hand p : preserves (at_hand hand) (new_payload p).
Proof. intros d Hd. unfold new_payload. rewrite reads_run, modify_run. by apply on_payloads. Qed.

Lemma quiet_route hand (m : BM unit) :
  keeps cs K m → quiet m → preserves (at_hand hand)
    ('(_, actions) ← on_binding m; forM actions route_send).
Proof.
  intros Hk Hq. apply (sends_part hand m Hk). intros b a b' o. by apply quiet_holds.
Qed.

Lemma route_callback_preserves hand a : preserves (at_hand hand) (route_callback send_ok a).
Proof.
  destruct a; cbn [route_callback]; try apply hoare_emit; apply hoare_read_node; intros d Hd.
  - destruct (dm_client_keys d !! client); [|apply hoare_emit].
    eapply hoare_bind; [apply take_payload_preserves|]. intros payload0.
    apply quiet_route; [apply keeps_send_event_update|apply quiet_send_event_update].
  - destruct (dm_client_keys d !! client); [|apply hoare_emit].
    eapply hoare_bind; [apply take_payload_preserves|]. intros payload0.
    apply quiet_route; [apply keeps_send_event_update|apply quiet_send_event_update].
  - destruct (dm_server_peers d !! server) as [[c h]|]; [|apply hoare_emit].
    apply quiet_route; [apply keeps_subscription_change|apply quiet_subscription_change].
Qed.

Lemma call_back_preserves hand w counts a :
  names_server (dom (so_servers w)) a →
  preserves (at_hand hand) (call_back send_ok bridge w counts a).
Proof.
  intros Hn. destruct a; cbn [call_back]; try apply route_callback_preserves;
    try (apply hoare_read_node; intros d Hd;
      destruct (dm_server_peers d !! server); [by apply hoare_ret|apply hoare_emit]).
  - apply hoare_read_node. intros d Hd.
    destruct (dm_client_keys d !! client) as [key|] eqn:E; [|apply hoare_emit].
    simpl in Hn. apply elem_of_dom in Hn as [S ES]. unfold server_counts. rewrite ES. simpl.
    apply (hoare_bind _ _ _ _ (λ _, at_hand hand)); [by apply hoare_ret|]. intros counts'.
    apply sends_part; [|intros b x b' o; apply quiet_holds, quiet_service_state_change].
    apply (keeps_run_callback send_ok cs K (On_service_state_change key available counts')).
    rewrite (n_client_keys _ _ _ _ _ _ Hd) in E. exact (n_keys _ _ _ _ _ _ Hd _ _ E).
  - destruct (bridge0 =? bridge)%N; [|apply hoare_emit].
    apply sends_part; [apply keeps_send_request_service|]. intros b x b' o E.
    destruct (send_request_accounts _ _ _ _ _ _ _ _ _ E) as (Hp & _ & Ho).
    by rewrite Ho, app_nil_r in Hp.
Qed.

(** ** The runtime's part *)

(** The runtime is in order and has the binding's connectors. *)
Definition lives (w : Socom) : Prop :=
  so_inv w ∧ dom ck ⊆ dom (so_clients w) ∧ dom sp ⊆ dom (so_servers w) ∧
  (registered → is_Some (so_bridges w !! bridge)).

(** A call that leaves them there and ends no request. *)
Definition spares {A} (pre : Socom → Prop) (m : SoM A) : Prop :=
  ∀ w, lives w → pre w →
    match m w with
    | Done (_, w', o) => lives w' ∧ Forall (plain (dom (so_servers w))) o
    | Fault f => ¬ lost f
    end.

Lemma at_lives hand d : at_hand hand d → lives (dm_socom d).
Proof. by intros []. Qed.
Lemma at_socom hand d w : at_hand hand d → lives w → at_hand hand (set_dm_socom d w).
Proof. by intros [] (? & ? & ? & ?). Qed.

Lemma runtime_part {A} hand back pre (m : SoM A) :
  spares pre m →
  (∀ w a, plain (dom (so_servers w)) a → preserves (at_hand hand) (back w a)) →
  safe (λ d, at_hand hand d ∧ pre (dm_socom d)) (runtime_call back m) (λ _, at_hand hand).
Proof.
  intros Hm. apply (runtime_rule (at_hand hand) (λ d, pre (dm_socom d))
    (λ w, plain (dom (so_servers w)))). intros d Hd Hpre.
  specialize (Hm (dm_socom d) (at_lives _ _ Hd) Hpre).
  destruct (m (dm_socom d)) as [[[a w'] o]|f]; [|done]. destruct Hm as [Hw Ho].
  split; [by eapply at_socom|done].
Qed.

(** Calls of a connector that the runtime knows. *)
Lemma spares_stays {A} pre (m : SoM A) :
  stays ∅ m →
  (∀ w, so_inv w → pre w → (∃ a w' o, m w = Done (a, w', o) ∧ so_inv w') ∨
    m w = Fault Assertion_failed) →
  spares pre m.
Proof.
  intros Hs Hg w (Hi & Hc & Hv & Hb) Hpre.
  destruct (Hg w Hi Hpre) as [(a & w' & o & E & Hi')| ->]; [|by intros []]. rewrite E.
  destruct (Hs _ _ _ _ (empty_subseteq _) E) as (Hdc & Hds & Hbr & Ho).
  split; [|done]. split_and!; [done|by rewrite Hdc|by rewrite Hds|by rewrite Hbr].
Qed.

Lemma call_back_plain hand w counts a :
  plain (dom (so_servers w)) a →
  preserves (at_hand hand) (call_back_all send_ok bridge counts w a).
Proof. intros Ha. destruct a; [by apply call_back_preserves..|done]. Qed.

Lemma names_plain servers a : plain servers a → names_server servers a.
Proof. by destruct a. Qed.

(** The binding calls one of its connectors. *)
Lemma client_call {A} hand c (m : SoM A) :
  c ∈ dom ck → stays ∅ m →
  (∀ w C, so_inv w → so_clients w !! c = Some C →
    ∃ a w' o, m w = Done (a, w', o) ∧ good w w' o) →
  preserves (at_hand hand) (runtime_call (call_back_all send_ok bridge no_counts) m).
Proof.
  intros Hc Hs Hg. eapply hoare_pre; [apply (runtime_part hand _ (λ w, c ∈ dom (so_clients w)));
    [|by intros; apply call_back_plain]|].
  - apply spares_stays; [done|]. intros w Hi [C E]%elem_of_dom. left.
    destruct (Hg w C Hi E) as (r & w' & o & Er & []). eauto 10.
  - intros d Hn. split; [done|]. by apply (n_clients _ _ _ _ _ _ Hn).
Qed.
Lemma server_call {A} hand s (m : SoM A) :
  s ∈ dom sp → stays ∅ m →
  (∀ w S, so_inv w → so_servers w !! s = Some S →
    ∃ a w' o, m w = Done (a, w', o) ∧ good w w' o) →
  preserves (at_hand hand) (runtime_call (call_back_all send_ok bridge no_counts) m).
Proof.
  intros Hc Hs Hg. eapply hoare_pre; [apply (runtime_part hand _ (λ w, s ∈ dom (so_servers w)));
    [|by intros; apply call_back_plain]|].
  - apply spares_stays; [done|]. intros w Hi [S E]%elem_of_dom. left.
    destruct (Hg w S Hi E) as (r & w' & o & Er & []). eauto 10.
  - intros d Hn. split; [done|]. by apply (n_servers _ _ _ _ _ _ Hn).
Qed.

(** An action that calls a connector, or nobody. *)
Lemma call_preserves hand a :
  calls_held (bound_by ck sp) a → preserves (at_hand hand) (node_action send_ok bridge a).
Proof.
  intros (Hd & Hu & Hc). destruct a as [? ? []|[c e|c e]| | | | |s e p| |]; try done;
    cbn [node_action route_send]; try apply hoare_emit; [by apply hoare_ret|..].
  - apply (hoare_bind _ _ _ _ (λ _, at_hand hand)); [|intros _; by apply hoare_ret].
    apply (client_call hand c); [by apply (bound_by_client ck sp), Hc|apply stays_subscribe|].
    intros w C. apply subscribe_good.
  - apply (hoare_bind _ _ _ _ (λ _, at_hand hand)); [|intros _; by apply hoare_ret].
    apply (client_call hand c); [by apply (bound_by_client ck sp), Hc|apply stays_unsubscribe|].
    intros w C. apply unsubscribe_good.
  - apply (hoare_bind _ _ _ _ (λ _, at_hand hand)); [apply new_payload_preserves|]. intros n.
    apply (hoare_bind _ _ _ _ (λ _, at_hand hand)).
    + apply (server_call hand s); [by apply (bound_by_server ck sp), Hc|apply stays_update_event|].
      intros w S Hi E. by apply (server_calls_good s S e n).
    + intros r. eapply hoare_post; [apply hoare_assert; by intros []|]. by intros ? ? [? _].
Qed.
End parts.

(** ** Connectors that go *)

Section ends.
Context (cs : gset N) (K : N → Prop).
Implicit Types (ck : Client_keys) (sp : Server_peers).

Lemma destroy_bound_server_safe hand ck sp s :
  safe (node_at cs K (Bound_server s :: hand) ck sp) (destroy_bound_server send_ok bridge s)
    (λ _, node_at cs K hand ck (delete s sp)).
Proof.
  intros d Hd. unfold destroy_bound_server. rewrite modify_run.
  assert (s ∈ dom sp) as Hs.
  { apply (bound_by_server ck sp). rewrite (n_held _ _ _ _ _ _ Hd). set_solver. }
  rewrite (n_server_peers _ _ _ _ _ _ Hd).
  apply (runtime_part cs K ck (delete s sp) hand (λ w, call_back send_ok bridge w no_counts)
    (λ w, s ∈ dom (so_servers w)) (destroy_server_connector s)).
  - intros w (Hi & Hc & Hv & Hb) [S E]%elem_of_dom.
    destruct (destroy_server_good w s S Hi E) as (w' & o & Er & Hg). rewrite Er.
    destruct (destroy_server_frame _ _ _ _ _ Er) as (Hdc & Hbr & Ho & Hds). split; [|done].
    split_and!; [apply Hg|by rewrite Hdc| |by rewrite Hbr].
    rewrite Hds, dom_delete_L in *. set_solver.
  - intros w a Ha. by apply call_back_preserves, names_plain.
  - split.
    + destruct Hd as [? ? ? ? ? Hh ? Hv ?]. split; try done; simpl.
      * rewrite (bound_by_no_server ck sp s Hs) in Hh.
        apply (Permutation_cons_inv (a := Bound_server s)). rewrite Hh. solve_Permutation.
      * rewrite dom_delete_L. set_solver.
    + by apply (n_servers _ _ _ _ _ _ Hd).
Qed.

Definition at_keys hand ck (d : Daemon) : Prop := ∃ sp, node_at cs K hand ck sp d.

Lemma hoare_at_keys {A} hand ck (m : DM A) Q :
  (∀ sp, safe (node_at cs K hand ck sp) m Q) → safe (at_keys hand ck) m Q.
Proof. intros Hm d [sp Hd]. by apply (Hm sp). Qed.

(** The end of a request. *)
Lemma drop_request_safe hand ck i n :
  preserves (at_keys hand ck) (drop_request send_ok bridge i n).
Proof.
  apply hoare_at_keys. intros sp. unfold drop_request.
  apply (hoare_bind _ _ _ _ (λ r, λ d, Forall servers_only r.2 ∧
    node_at cs K (omap destroyed r.2 ++ hand) ck sp d)).
  - apply (binding_part cs K ck sp hand _ (λ _, inv cs K) (λ _ o d, Forall servers_only o ∧
      node_at cs K (omap destroyed o ++ hand) ck sp d)); [apply keeps_send_request_service|].
    intros d a b' o Hd E Hb. destruct (send_request_accounts _ _ _ _ _ _ _ _ _ E) as (Hp & Hs & _).
    split; [done|]. eapply at_binding; [done..|]. by rewrite Hp, (assoc_L (++)).
  - intros [[] o]. simpl. clear. revert sp. induction o as [|a o IH]; intros sp.
    + apply hoare_ret. intros d [_ Hd]. by exists sp.
    + cbn [forM]. apply (hoare_bind _ _ _ _ (λ _ d, Forall servers_only o ∧
        ∃ sp', node_at cs K (omap destroyed o ++ hand) ck sp' d)).
      2:{ intros _ d [Ho [sp' Hd]]. by apply (IH sp'). }
      intros d [[Ha Ho]%Forall_cons Hd]. destruct (destroyed a) as [x|] eqn:Ex.
      * destruct (Ha x Ex) as [s ->]. destruct a; try done. injection Ex as <-. csimpl in Hd.
        pose proof (destroy_bound_server_safe (omap destroyed o ++ hand) ck sp connector d Hd) as
          Hs.
        destruct (destroy_bound_server send_ok bridge connector d) as [[[? ?] ?]|]; [|done].
        split; [done|]. by eexists.
      * csimpl in Hd. rewrite Ex in Hd.
        destruct a as [? ? []| | | | | | | |]; try done; (split; [done|]; by exists sp).
Qed.

Lemma call_back_safe hand ck counts w a :
  names_server (dom (so_servers w)) a →
  preserves (at_keys hand ck) (call_back_all send_ok bridge counts w a).
Proof.
  intros Hn. assert (plain (dom (so_servers w)) a ∨ ∃ b i n, a = Bridge_request_dropped b i n)
    as [Hp|(b & i & n & ->)] by (destruct a; eauto).
  - apply hoare_at_keys. intros sp.
    eapply hoare_post; [by apply call_back_plain|]. intros [] d Hd. by exists sp.
  - cbn [call_back_all]. destruct (b =? bridge)%N; [apply drop_request_safe|apply hoare_emit].
Qed.

(** A client connector goes, of the binding or of a user. *)
Lemma destroy_client_call hand ck c counts :
  c ∉ dom ck →
  safe (λ d, at_keys hand ck d ∧ c ∈ dom (so_clients (dm_socom d)))
    (runtime_call (call_back_all send_ok bridge counts) (destroy_client_connector c))
    (λ _, at_keys hand ck).
Proof.
  intros Hc. apply (runtime_rule (at_keys hand ck) (λ d, c ∈ dom (so_clients (dm_socom d)))
    (λ w, names_server (dom (so_servers w)))); [|intros w a; apply call_back_safe].
  intros d [sp Hd] [C E]%elem_of_dom. pose proof (n_socom _ _ _ _ _ _ Hd) as Hi.
  destruct (destroy_client_good c C _ Hi E) as (w' & o & Er & Hg). rewrite Er.
  destruct (destroy_client_frame c _ _ _ _ Hi (mk_is_Some _ _ E) Er) as (Hds & Hbr & Ho & Hdc).
  split; [|done]. exists sp. apply (at_socom cs K ck sp); [done|].
  split_and!; [apply Hg| | |by rewrite Hbr; apply Hd].
  - rewrite Hdc. pose proof (n_clients _ _ _ _ _ _ Hd). set_solver.
  - rewrite Hds. apply Hd.
Qed.

Lemma destroy_bound_client_safe hand ck c :
  safe (at_keys (Bound_client c :: hand) ck) (destroy_bound_client send_ok bridge c)
    (λ _, at_keys hand (delete c ck)).
Proof.
  intros d [sp Hd]. unfold destroy_bound_client. rewrite modify_run.
  assert (c ∈ dom ck) as Hs.
  { apply (bound_by_client ck sp). rewrite (n_held _ _ _ _ _ _ Hd). set_solver. }
  rewrite (n_client_keys _ _ _ _ _ _ Hd).
  apply (destroy_client_call hand (delete c ck)); [rewrite dom_delete_L; set_solver|].
  split; [|by apply (n_clients _ _ _ _ _ _ Hd)].
  exists sp. destruct Hd as [? ? Hk ? ? Hh Hv ? ?]. split; try done; simpl.
  - intros c' key [_ E]%lookup_delete_Some. by eapply Hk.
  - rewrite (bound_by_no_client ck sp c Hs) in Hh.
    apply (Permutation_cons_inv (a := Bound_client c)). rewrite Hh. solve_Permutation.
  - rewrite dom_delete_L. set_solver.
Qed.

(** ** Operations of the binding *)

Lemma destroys_safe hand o :
  Forall no_call o →
  safe (node_any cs K (omap destroyed o ++ hand)) (forM o (node_action send_ok bridge))
    (λ _, node_any cs K hand).
Proof.
  induction o as [|a o IH]; [intros _; by apply hoare_ret|].
  intros [[Hc Hu] Ho]%Forall_cons. cbn [forM].
  apply (hoare_bind _ _ _ _ (λ _, node_any cs K (omap destroyed o ++ hand)));
    [|intros _; by apply IH].
  csimpl. destruct a as [? ? []|[]| | | | | | |]; try done;
    cbn [node_action route_send destroyed]; try apply hoare_emit; [by apply hoare_ret|..];
    intros d (ck & sp & Hd).
  - pose proof (destroy_bound_client_safe (omap destroyed o ++ hand) ck connector d
      (ex_intro _ sp Hd)) as Hs.
    destruct (destroy_bound_client send_ok bridge connector d) as [[[? ?] ?]|]; [|done].
    destruct Hs as [sp' ?]. by eexists _, _.
  - pose proof (destroy_bound_server_safe (omap destroyed o ++ hand) ck sp connector d Hd) as Hs.
    destruct (destroy_bound_server send_ok bridge connector d) as [[[? ?] ?]|]; [|done].
    by eexists _, _.
Qed.

End ends.

(** An operation that accounts for its connectors, with everything it asks for. *)
Lemma binding_call_safe cs cs' K given ck sp (m : BM unit) :
  hoare lost (inv cs K) m (λ _, inv cs' K) → accounts given m →
  safe (node_at cs K given ck sp) (binding_call send_ok bridge m) (λ _, node_any cs' K []).
Proof.
  intros Hk Ha. unfold binding_call.
  apply (hoare_bind _ _ _ _ (λ r d, ∃ o1 o2, r.2 = o1 ++ o2 ∧
    Forall (calls_held (bound_by ck sp)) o1 ∧ Forall no_call o2 ∧
    node_at cs' K (omap destroyed o2) ck sp d)).
  - apply (binding_part cs K ck sp given m (λ _, inv cs' K) (λ _ o d, ∃ o1 o2, o = o1 ++ o2 ∧
      Forall (calls_held (bound_by ck sp)) o1 ∧ Forall no_call o2 ∧
      node_at cs' K (omap destroyed o2) ck sp d)); [done|]. intros d a b' o Hd E Hb.
    destruct (Ha _ _ _ _ E) as (o1 & o2 & -> & Ho1 & Ho2 & Hp). exists o1, o2.
    split_and!; try done; [|by eapply at_binding].
    eapply calls_held_perm; [|done]. symmetry. apply (n_held _ _ _ _ _ _ Hd).
  - intros [[] o] d (o1 & o2 & Ho & Ho1 & Ho2 & Hd). simpl in Ho. subst o. rewrite forM_app.
    apply (hoare_bind lost (node_at cs' K (omap destroyed o2) ck sp) _ _
      (λ _, node_at cs' K (omap destroyed o2) ck sp)); [| |done].
    + apply hoare_forM. intros a Hin. apply call_preserves. by eapply Forall_forall in Ho1.
    + intros []. eapply hoare_pre; [apply destroys_safe; done|]. intros d' Hd'.
      rewrite app_nil_r. by eexists _, _.
Qed.

(** ** Handlers that the runtime answers *)

(** What the first part of a request leads to. *)
Lemma request_start_output key c msg b a b' o :
  request_service_start send_ok key c msg b = Done (a, b', o) →
  if a : bool then ∃ i n, o = [BindingBase.Make_client_connector i n]
  else Forall (λ x, ∀ i n, x ≠ BindingBase.Make_client_connector i n) o.
Proof.
  intros Hr. unfold request_service_start in Hr. destruct (rs_in_use msg); simpl in Hr.
  - rewrite modify_run, reads_run in Hr. simpl in Hr. destruct (default false _).
    { injection Hr as <- <- <-. by repeat constructor. }
    rewrite reads_run in Hr. destruct (_ || _); [by injection Hr as <- <- <-|].
    apply bind_Done in Hr as ([] & b1 & o1 & o2 & E1 & Hr & ->).
    apply on_member_Done in E1 as (m & _ & -> & ->).
    destruct (to_socom_identifier _) as [i|]; [|done]. rewrite (liftO_run _ i) in Hr by done.
    destruct (fixed_string_to_string _) as [n|]; [|done]. rewrite (liftO_run _ n) in Hr by done.
    injection Hr as <- <- <-. by eexists _, _.
  - apply bind_Done in Hr as ([] & b1 & o1 & o2 & E1 & Hr & ->).
    unfold clear_pending_connects_for_key_locked in Hr. rewrite !modify_run in Hr.
    injection Hr as <- <- <-. rewrite app_nil_r.
    unfold on_states in E1. apply bind_Done in E1 as (calls & b2 & o3 & o4 & E2 & E3 & ->).
    apply on_member_Done in E2 as (m & _ & -> & ->). rewrite emit_all_run in E3.
    injection E3 as <- <-. simpl. by apply Forall_fmap, Forall_true.
Qed.

Lemma make_bound_client_safe cs K ck sp key i n :
  K key →
  safe (node_at cs K [] ck sp)
    (make_bound_client send_ok bridge key (BindingBase.Make_client_connector i n))
    (λ _, node_any cs K []).
Proof.
  intros HK d Hd. cbn [make_bound_client]. rewrite reads_run.
  pose proof (n_socom _ _ _ _ _ _ Hd) as Hi.
  destruct (make_client_good true i n _ Hi) as (r & w' & o & Er & Hg).
  rewrite (bind_silent _ _ _ _ _ (on_socom_run _ d _ _ _ Er)), modify_run.
  destruct (make_client_frame _ _ _ _ _ _ _ Er Hi) as (Hds & Hbr & Ho & Hdc).
  destruct r as [c|e]; cbn [from_option set_dm_socom dm_client_keys].
  - rewrite (n_client_keys _ _ _ _ _ _ Hd). destruct Hdc as [Hc Hdc].
    assert (c ∉ dom ck) as Hck by (pose proof (n_clients _ _ _ _ _ _ Hd); set_solver).
    apply (hoare_bind lost (node_at cs K [Bound_client c] (<[c := key]> ck) sp) _ _
      (λ _, node_at cs K [Bound_client c] (<[c := key]> ck) sp)).
    + apply hoare_forM. intros a Hin. apply call_back_plain. by eapply Forall_forall in Ho.
    + intros []. apply (binding_call_safe cs cs K [Bound_client c]);
        [apply keeps_request_finish|apply (accounts_request_finish key (Some c))].
    + destruct Hd as [? ? Hk ? ? Hh Hv Hs ?]. split; simpl; try done.
      * apply Hg.
      * intros c' k. rewrite lookup_insert_Some. intros [[_ <-]|[_ E]]; [done|]. by eapply Hk.
      * rewrite bound_by_new_client by done. rewrite Hh. solve_Permutation.
      * rewrite dom_insert_L, Hdc. set_solver.
      * by rewrite Hds.
      * by rewrite Hbr.
  - apply (hoare_bind lost (node_at cs K [] ck sp) _ _ (λ _, node_at cs K [] ck sp)).
    + apply hoare_forM. intros a Hin. apply call_back_plain. by eapply Forall_forall in Ho.
    + intros []. apply (binding_call_safe cs cs K []);
        [apply keeps_request_finish|apply (accounts_request_finish key None)].
    + destruct Hd. split; simpl; try done; [apply Hg|by rewrite Hdc|by rewrite Hds|by rewrite Hbr].
Qed.

Lemma request_service_safe cs K ck sp c msg :
  c ∈ cs →
  safe (node_at cs K [] ck sp) (node_request_service send_ok bridge c msg)
    (λ _ d, ∃ K', node_any cs K' [] d).
Proof.
  intros Hc. unfold node_request_service.
  apply (hoare_bind _ _ _ _ (λ r, node_at cs (λ k, K k ∨ k = r.1) [] ck sp)).
  - apply (binding_part cs K ck sp [] _ (λ key, inv cs (λ k, K k ∨ k = key)) (λ key _,
      node_at cs (λ k, K k ∨ k = key) [] ck sp));
      [apply keeps_get_key|]. intros d key b' o Hd E Hb. eapply at_binding; [done..|by left|].
    destruct (quiet_get_key _ _ _ _ _ _ E) as [Hp _]. by rewrite <-Hp.
  - intros [key keyed]. simpl. set (K' := λ k, K k ∨ k = key).
    apply (hoare_post _ _ _ (λ _, node_any cs K' [])); [|intros _ d Hd; by exists K'].
    apply (hoare_bind _ _ _ _ (λ r d, node_at cs K' [] ck sp d ∧
      Forall (calls_held (bound_by ck sp)) r.2 ∧
      if r.1 : bool then ∃ i n, r.2 = [BindingBase.Make_client_connector i n]
      else Forall (λ x, ∀ i n, x ≠ BindingBase.Make_client_connector i n) r.2)).
    + apply (binding_part cs K' ck sp [] _ (λ _, inv cs K') (λ a o d, node_at cs K' [] ck sp d ∧
        Forall (calls_held (bound_by ck sp)) o ∧
        if a : bool then ∃ i n, o = [BindingBase.Make_client_connector i n]
        else Forall (λ x, ∀ i n, x ≠ BindingBase.Make_client_connector i n) o)).
      { apply keeps_request_start; [by right|done]. }
      intros d a b' o Hd E Hb. destruct (quiet_request_start _ _ _ _ _ _ _ _ E) as [Hp Ho].
      split_and!; [|  |by eapply request_start_output].
      * eapply at_binding; [done..|]. by rewrite Hp.
      * eapply calls_held_perm; [|done]. symmetry. apply (n_held _ _ _ _ _ _ Hd).
    + intros [[] o]; simpl; intros d (Hd & Ho & Hm).
      * destruct Hm as (i & n & ->). cbn [forM].
        apply (hoare_bind lost (node_at cs K' [] ck sp) _ _ (λ _, node_any cs K' [])); [| |done].
        -- apply make_bound_client_safe. by right.
        -- intros []. by apply hoare_ret.
      * revert d Hd. eapply (hoare_post _ _ _ (λ _, node_at cs K' [] ck sp));
          [|intros [] d Hd; by eexists _, _].
        apply hoare_forM. intros a Hin. rewrite Forall_forall in Ho. rewrite Forall_forall in Hm.
        pose proof (call_preserves cs K' ck sp [] a (Ho a Hin)) as Hcall.
        specialize (Hm a Hin). destruct a; try exact Hcall. by destruct (Hm interface instance).
Qed.

(** The second part of a reply asks for one server connector. *)
Lemma reply_unlocked_output c msg key b a b' o :
  connect_service_reply_unlocked c msg key b = Done (a, b', o) →
  ∃ i n counts, o = [BindingBase.Make_server_connector i n counts c (csr_provided_id msg)].
Proof.
  unfold connect_service_reply_unlocked. rewrite reads_run.
  destruct (b_service_states b !! key) as [st|]; [|done]. rewrite (the_run _ _ _ _ _ eq_refl).
  intros [= <- <- <-]. by eexists _, _, _.
Qed.

(** A server that is not enabled yet. *)
Definition disabled_server (s : N) (w : Socom) : Prop :=
  ∃ S, so_servers w !! s = Some S ∧ sc_registered S = false.

Lemma spares_enable ck sp s : spares ck sp (disabled_server s) (enable_server s).
Proof.
  apply spares_stays; [apply stays_enable|]. intros w Hi (S & E & Hr).
  destruct (enable_step_good w s S Hi E Hr) as [(w' & o & Er & [])|[_ ?]]; eauto 10.
Qed.

Lemma make_bound_server_safe cs K ck sp key i n counts c h :
  safe (node_at cs K [] ck sp)
    (make_bound_server send_ok bridge key (BindingBase.Make_server_connector i n counts c h))
    (λ _, node_any cs K []).
Proof.
  intros d Hd. cbn [make_bound_server]. pose proof (n_socom _ _ _ _ _ _ Hd) as Hi.
  destruct (make_server_good true i (num_methods counts) (N.to_nat (num_events counts)) n _ Hi)
    as (r & w' & o & Er & Hg).
  rewrite (bind_silent _ _ _ _ _ (on_socom_run _ d _ _ _ Er)).
  destruct (make_server_frame _ _ _ _ _ _ _ _ _ Er Hi) as (Hdc & Hbr & _ & Hds).
  destruct r as [s|e].
  - destruct Hds as [Hs Hds]. rewrite modify_run. cbn [set_dm_socom dm_server_peers].
    rewrite (n_server_peers _ _ _ _ _ _ Hd).
    assert (s ∉ dom sp) as Hsp by (pose proof (n_servers _ _ _ _ _ _ Hd); set_solver).
    set (sp' := <[s := (c, h)]> sp).
    apply (hoare_bind lost (λ d, node_at cs K [Bound_server s] ck sp' d ∧
      disabled_server s (dm_socom d)) _ _ (λ _, node_at cs K [Bound_server s] ck sp')).
    + apply runtime_part; [apply spares_enable|]. intros w a Ha. by apply call_back_plain.
    + intros []. apply (binding_call_safe cs cs K [Bound_server s]);
        [apply keeps_reply_finish|apply accounts_reply_finish].
    + split.
      * destruct Hd as [? ? ? ? ? Hh Hc Hv ?]. split; simpl; try done; [apply Hg|..].
        -- unfold sp'. rewrite bound_by_new_server by done. rewrite Hh. solve_Permutation.
        -- by rewrite Hdc.
        -- unfold sp'. rewrite dom_insert_L, Hds. set_solver.
        -- by rewrite Hbr.
      * unfold make_server_connector in Er. rewrite (bind_silent get_state _ _ _ _ eq_refl) in Er.
        case_decide; [done|]. rewrite !modify_run in Er. injection Er as <- <- <-.
        eexists. simpl. by rewrite lookup_insert_eq.
  - apply (binding_call_safe cs cs K [] ck sp); [apply keeps_reply_finish| |].
    + by intros b x b' o'.
    + destruct Hd. split; simpl; try done; [apply Hg|by rewrite Hdc|by rewrite Hds|by rewrite Hbr].
Qed.

Lemma connect_service_reply_safe cs K ck sp c msg :
  c ∈ cs →
  safe (node_at cs K [] ck sp) (node_connect_service_reply send_ok bridge c msg)
    (λ _, node_any cs K []).
Proof.
  intros Hc. unfold node_connect_service_reply.
  apply (hoare_bind _ _ _ _ (λ _, node_at cs K [] ck sp)).
  - eapply hoare_post; [apply (quiet_part cs K ck sp [] (connect_service_reply_locked c msg));
      [by apply keeps_reply_locked|apply quiet_reply_locked]|]. by intros r d [? _].
  - intros [[key|] o]; [|apply hoare_ret; intros d Hd; by eexists _, _].
    apply (hoare_bind _ _ _ _ (λ r d, node_at cs K [] ck sp d ∧ ∃ i n counts,
      r.2 = [BindingBase.Make_server_connector i n counts c (csr_provided_id msg)])).
    + apply (binding_part cs K ck sp [] _ (λ _, inv cs K) (λ _ o d, node_at cs K [] ck sp d ∧
        ∃ i n counts, o = [BindingBase.Make_server_connector i n counts c (csr_provided_id msg)]));
        [apply keeps_reply_unlocked|].
      intros d a b' o' Hd E Hb. split; [|by eapply reply_unlocked_output].
      eapply at_binding; [done..|]. by destruct (quiet_reply_unlocked _ _ _ _ _ _ _ E) as [Hp _].
    + intros [[] o'] d (Hd & i & n & counts & Ho). simpl in Ho. subst o'. cbn [forM].
      apply (hoare_bind lost (node_at cs K [] ck sp) _ _ (λ _, node_any cs K [])); [| |done].
      * apply make_bound_server_safe.
      * intros []. by apply hoare_ret.
Qed.

(** Bytes from a connected client. *)
Lemma receive_safe cs K ck sp c addr bytes :
  c ∈ cs →
  safe (node_at cs K [] ck sp) (node_receive send_ok bridge c addr bytes)
    (λ _ d, ∃ K', node_any cs K' [] d).
Proof.
  intros Hc. assert (∀ (m : DM unit), safe (node_at cs K [] ck sp) m (λ _, node_any cs K []) →
    safe (node_at cs K [] ck sp) m (λ _ d, ∃ K', node_any cs K' [] d)) as HK.
  { intros m Hm. eapply hoare_post; [apply Hm|]. intros ? d Hd. by exists K. }
  assert ((∀ m, parse_message addr bytes = Some m → (∀ x, m ≠ Msg_Request_service x) ∧
    (∀ x, m ≠ Msg_Connect_service_reply x)) → safe (node_at cs K [] ck sp)
    (binding_call send_ok bridge (on_receive_message send_ok c addr bytes no_answers))
    (λ _, node_any cs K [])) as Hrest.
  { intros Hm.
    destruct (on_receive_cases send_ok c addr bytes no_answers)
      as [->|[[-> _]|(m & _ & Ep & ->)]]; [..|destruct (valid_frame m bytes)];
      apply (binding_call_safe cs cs K []).
    - by apply hoare_ret.
    - by apply accounts_calm, calm_ret.
    - by apply hoare_raise; intros [].
    - done.
    - destruct (Hm m Ep) as [Hr Hs]. destruct m as [m|m|m|m|m|m|m|m|m]; simpl;
        try (by destruct (Hr m)); try (by destruct (Hs m));
        eauto using keeps_connect, keeps_connect_reply, keeps_offer, keeps_connect_service,
          keeps_subscribe, keeps_event_update, keeps_payload_consumed.
    - apply accounts_dispatch; apply (Hm m Ep).
    - by apply hoare_raise; intros [].
    - done. }
  unfold node_receive. destruct (parse_message addr bytes) as [m|]; [|apply HK, Hrest; done].
  destruct m as [m|m|m|m|m|m|m|m|m];
    try (apply HK, Hrest; intros ? [= <-]; split; intros x; discriminate).
  - by apply request_service_safe.
  - by apply HK, connect_service_reply_safe.
Qed.

(** ** Connections come and go *)

Lemma add_client_safe cs K ck sp c :
  safe (node_at cs K [] ck sp) (node_add_client send_ok bridge c)
    (λ _, node_any ({[ c ]} ∪ cs) K []).
Proof.
  apply (binding_call_safe cs ({[ c ]} ∪ cs) K []);
    [|apply accounts_calm, quiet_add_client].
  intros b Hb. unfold add_client, get_reply_channel, mbind, M_bind, reads.
  destruct (bool_decide _); simpl; [by intros []|]. by apply inv_add_client.
Qed.

Lemma remove_client_safe cs K ck sp c :
  safe (node_at cs K [] ck sp) (node_remove_client send_ok bridge c)
    (λ _, node_any (cs ∖ {[ c ]}) K []).
Proof.
  apply (binding_call_safe cs (cs ∖ {[ c ]}) K []); [|apply accounts_remove_client].
  intros b Hb. destruct (remove_client_run c b) as [o ->]. by apply inv_without_client.
Qed.

(** ** Users *)

(** The connector a call is made on. *)
Definition call_on (call : Socom_call) : option Bound :=
  match call with
  | Destroy_client c | Subscribe_event c _ _ | Unsubscribe_event c _ | Request_event_update c _
  | Call_method c _ _ | Allocate_method_call_payload c _ => Some (Bound_client c)
  | Enable s | Disable s | Destroy_server s | SocomCalls.Update_event s _ _
  | Update_requested_event s _ _ | Allocate_event_payload s _ | Get_event_mode s _ =>
      Some (Bound_server s)
  | _ => None
  end.
Definition bridge_call (call : Socom_call) : bool :=
  match call with Register_bridge _ _ | SocomCalls.Unregister_bridge _ => true | _ => false end.

Lemma stays_run {A} X (m : SoM A) : stays X m → stays X (run m).
Proof. intros Hm. apply stays_bind; [done|]. intros a. apply stays_ret. Qed.

(** What users do to their own connectors leaves the binding's alone. *)
Lemma user_spares ck sp call :
  (∀ c, call ≠ Destroy_client c) → bridge_call call = false →
  (∀ x, call_on call = Some x → x ∉ bound_by ck sp) →
  spares ck sp (λ w, socom_admissible w call) (socom_step call).
Proof.
  intros Hd Hb Hown.
  assert (stays ∅ (socom_step call) → spares ck sp (λ w, socom_admissible w call)
    (socom_step call)) as Hstays.
  { intros Hs. apply spares_stays; [done|]. intros w Hi Ha.
    destruct (socom_step_good w call Hi Ha) as [(w' & o & E & [])|[_ ?]]; eauto 10. }
  destruct call; try done; try (by destruct (Hd c));
    try (apply Hstays; cbn [socom_step]; eauto using stays_run with frame; fail).
  - intros w (Hi & Hc & Hv & Hbr) _. cbn [socom_step].
    destruct (make_client_good callbacks_ok interface instance w Hi) as (r & w' & o & E & Hg).
    unfold run. rewrite (bind_run _ _ _ _ _ _ E). simpl. rewrite app_nil_r.
    destruct (make_client_frame _ _ _ _ _ _ _ E Hi) as (Hds & Hbr' & Ho & Hdc).
    split; [|done]. split_and!; [apply Hg| |by rewrite Hds|by rewrite Hbr'].
    destruct r as [c|]; [destruct Hdc as [_ Hdc]; rewrite Hdc; set_solver|by rewrite Hdc].
  - intros w (Hi & Hc & Hv & Hbr) _. cbn [socom_step].
    destruct (make_server_good callbacks_ok interface num_methods num_events instance w Hi)
      as (r & w' & o & E & Hg).
    unfold run. rewrite (bind_run _ _ _ _ _ _ E). simpl. rewrite app_nil_r.
    destruct (make_server_frame _ _ _ _ _ _ _ _ _ E Hi) as (Hdc & Hbr' & -> & Hds).
    split; [|done]. split_and!; [apply Hg|by rewrite Hdc| |by rewrite Hbr'].
    destruct r as [s|]; [destruct Hds as [_ Hds]; rewrite Hds; set_solver|by rewrite Hds].
  - intros w (Hi & Hc & Hv & Hbr) [S E]. cbn [socom_step].
    destruct (destroy_server_good w s S Hi E) as (w' & o & Er & Hg). rewrite Er.
    destruct (destroy_server_frame _ _ _ _ _ Er) as (Hdc & Hbr' & Ho & Hds). split; [|done].
    split_and!; [apply Hg|by rewrite Hdc| |by rewrite Hbr'].
    specialize (Hown _ eq_refl). rewrite bound_by_server in Hown. rewrite Hds. set_solver.
Qed.

Lemma user_call_safe cs K ck sp counts call :
  bridge_call call = false → (∀ x, call_on call = Some x → x ∉ bound_by ck sp) →
  safe (λ d, node_at cs K [] ck sp d ∧ socom_admissible (dm_socom d) call)
    (runtime_call (call_back_all send_ok bridge counts) (socom_step call))
    (λ _, node_any cs K []).
Proof.
  intros Hb Hown.
  assert ((∃ c, call = Destroy_client c) ∨ ∀ c, call ≠ Destroy_client c) as [[c ->]|Hd]
    by (destruct call; eauto).
  - eapply hoare_weaken; [apply (destroy_client_call cs K [] ck c counts)|..].
    + specialize (Hown _ eq_refl). by rewrite bound_by_client in Hown.
    + intros d [Hd Ha]. split; [by exists sp|]. by apply elem_of_dom.
    + intros _ d [sp' Hd]. by exists ck, sp'.
  - eapply hoare_post; [apply (runtime_part cs K ck sp [] _ (λ w, socom_admissible w call));
      [by apply user_spares|intros w a; apply call_back_plain]|].
    intros ? d Hd'. by exists ck, sp.
Qed.

(** ** Every execution *)

(** What can happen to a daemon here: messages come from clients that the binding has
    registered; users call connectors that exist and are theirs, and do not register
    bridges. The client endpoint handles messages also before the channel is registered:
    that case is left out, and faults ([BindingClient.request_before_reply_faults]). *)
Definition node_admissible (d : Daemon) (op : Node_op) : Prop :=
  let theirs x := x ∉ bound_by (dm_client_keys d) (dm_server_peers d) in
  match op with
  | Node_receive c _ _ => c ∈ b_connections (dm_binding d)
  | Node_user _ call => bridge_call call = false ∧ socom_admissible (dm_socom d) call ∧
      ∀ x, call_on call = Some x → theirs x
  | Node_allocate s _ | Node_update s _ _ => is_Some (so_servers (dm_socom d) !! s) ∧
      theirs (Bound_server s)
  | _ => True
  end.

Inductive node_reachable (start : Daemon) : Daemon → Prop :=
  | node_start : node_reachable start start
  | node_step d op d' o :
      node_reachable start d → node_admissible d op →
      run_node send_ok bridge op d = Done (tt, d', o) → node_reachable start d'.

(** At rest the binding's connectors are those of its states. *)
Definition node_ok (d : Daemon) : Prop :=
  node_at (b_connections (dm_binding d)) (λ key, ∃ c, dm_client_keys d !! c = Some key) []
    (dm_client_keys d) (dm_server_peers d) d.

Lemma node_any_ok cs K d : node_any cs K [] d → node_ok d.
Proof.
  intros (ck & sp & [? Hb Hk <- <- ? ? ? ?]). split; try done.
  - rewrite (i_connections _ _ _ Hb). eapply inv_weaken; [done|]. intros key [c E]. by eapply Hk.
  - eauto.
Qed.

Lemma allocate_safe cs K ck sp s e :
  safe (λ d, node_at cs K [] ck sp d ∧ is_Some (so_servers (dm_socom d) !! s))
    (user_allocate s e) (λ _, node_any cs K []).
Proof.
  intros d [Hd [S E]]. unfold user_allocate. pose proof (n_socom _ _ _ _ _ _ Hd) as Hi.
  destruct (server_calls_good s S e 0%N _ Hi E) as (_ & _ & (r & w' & o & Er & Hg) & _).
  rewrite (bind_silent _ _ _ _ _ (on_socom_run _ d _ _ _ Er)).
  destruct (stays_allocate ∅ s e (Ok tt) _ _ _ _ (empty_subseteq _) Er) as (Hc & Hs & Hb & _).
  assert (node_at cs K [] ck sp (set_dm_socom d w')) as Hd'.
  { apply at_socom; [done|]. destruct Hd.
    split_and!; [apply Hg|by rewrite Hc|by rewrite Hs|by rewrite Hb]. }
  assert (node_any cs K [] (set_dm_socom d w')) as Hany by by eexists _, _.
  destruct o as [|[] [|]]; try exact Hany. rewrite reads_run.
  destruct (dm_client_keys (set_dm_socom d w') !! client) as [key|] eqn:Ek; [|exact Hany].
  apply (hoare_bind lost (node_at cs K [] ck sp) (on_binding (event_payload_allocate key)) _
    (λ _, node_at cs K [] ck sp)); [| |done].
  - eapply hoare_post; [apply quiet_part; [|apply quiet_event_payload_allocate]|].
    + apply keeps_event_payload_allocate. rewrite (n_client_keys _ _ _ _ _ _ Hd') in Ek.
      by eapply (n_keys _ _ _ _ _ _ Hd').
    + by intros ? ? [? _].
  - intros [p o]. apply hoare_ret. intros d' ?. by eexists _, _.
Qed.

Lemma update_safe cs K ck sp s e p :
  safe (λ d, node_at cs K [] ck sp d ∧ is_Some (so_servers (dm_socom d) !! s))
    (user_update send_ok bridge s e p) (λ _, node_any cs K []).
Proof.
  unfold user_update. apply (hoare_bind _ _ _ _ (λ _ d, node_at cs K [] ck sp d ∧
    is_Some (so_servers (dm_socom d) !! s))).
  { intros d [Hd Hs]. unfold new_payload. rewrite reads_run, modify_run.
    split; [by apply on_payloads|done]. }
  intros n. apply (hoare_bind _ _ _ _ (λ _, node_at cs K [] ck sp)).
  - apply (runtime_part cs K ck sp [] _ (λ w, is_Some (so_servers w !! s)));
      [|intros w a; apply call_back_plain].
    apply spares_stays; [apply stays_update_event|]. intros w Hi [S E]. left.
    destruct (server_calls_good s S e n w Hi E) as ((r & w' & o & Er & []) & _). eauto 10.
  - intros r. apply hoare_ret. intros d Hd. by eexists _, _.
Qed.

(** Every operation keeps the invariant and avoids the faults. *)
Lemma node_op_safe d op :
  node_ok d → node_admissible d op →
  match run_node send_ok bridge op d with
  | Done (_, d', _) => node_ok d'
  | Fault f => ¬ lost f
  end.
Proof.
  intros Hd Ha.
  set (P := node_at (b_connections (dm_binding d)) (λ key, ∃ c, dm_client_keys d !! c = Some key)
    [] (dm_client_keys d) (dm_server_peers d)).
  assert (∀ Pre (m : DM unit), safe Pre m (λ _ d, ∃ cs K, node_any cs K [] d) → Pre d →
    match m d with Done (_, d', _) => node_ok d' | Fault f => ¬ lost f end) as Hok.
  { intros Pre m Hm Hp. specialize (Hm d Hp). destruct (m d) as [[[? d'] ?]|]; [|done].
    destruct Hm as (? & ? & Hm). by eapply node_any_ok. }
  destruct op as [c|c|cfg|c addr bytes|counts call|s e|s e p|p]; cbn [run_node]; simpl in Ha.
  - apply (Hok P); [|done]. eapply hoare_post; [apply add_client_safe|]. intros ? ? Hx.
    eexists _, _. exact Hx.
  - apply (Hok P); [|done]. eapply hoare_post; [apply remove_client_safe|]. intros ? ? Hx.
    eexists _, _. exact Hx.
  - apply (Hok P); [|done]. eapply hoare_post; [apply (binding_call_safe _ (b_connections
      (dm_binding d)) _ []);
      [apply keeps_register|apply accounts_calm, quiet_register]|]. intros ? ? Hx. eexists _, _.
      exact Hx.
  - apply (Hok P); [|done]. eapply hoare_post; [by apply receive_safe|]. intros ? ? [? Hx].
    eexists _, _. exact Hx.
  - destruct Ha as (Hb & Hadm & Hown).
    apply (Hok (λ d, P d ∧ socom_admissible (dm_socom d) call)); [|done].
    eapply hoare_post; [by apply user_call_safe|]. intros ? ? Hx. eexists _, _. exact Hx.
  - destruct Ha as [Hs _]. apply (Hok (λ d, P d ∧ is_Some (so_servers (dm_socom d) !! s))); [|done].
    apply (hoare_bind _ _ _ _ (λ _ d, ∃ cs K, node_any cs K [] d));
      [|intros ?; by apply hoare_ret]. eapply hoare_post; [apply allocate_safe|]. intros ? ? Hx.
      eexists _, _. exact Hx.
  - destruct Ha as [Hs _]. apply (Hok (λ d, P d ∧ is_Some (so_servers (dm_socom d) !! s))); [|done].
    eapply hoare_post; [apply update_safe|]. intros ? ? Hx. eexists _, _. exact Hx.
  - apply (Hok P); [|done]. eapply (hoare_post _ _ _ (λ _, P)).
    2:{ intros ? d' Hd'. eexists _, _, _, _. exact Hd'. }
    unfold user_destroy_payload. eapply hoare_bind; [apply take_payload_preserves|]. intros q.
    apply quiet_route; [apply keeps_destroy_payloads|apply quiet_destroy_payloads].
Qed.
End safety.

(** ** The end of the binding *)

Section destructor.
Context `{Shm} (send_ok : N → Client_id → Message → bool) (bridge : N).
Context (cs : gset N) (K : N → Prop).

Lemma destroy_clients_safe l : ∀ ck,
  hoare lost (at_keys bridge True cs K (Bound_client <$> l) ck)
    (forM (Destroy_client_connector <$> l) (node_action send_ok bridge))
    (λ _, at_keys bridge True cs K [] (foldr delete ck (reverse l))).
Proof.
  induction l as [|c l IH]; intros ck; [by apply hoare_ret|]. csimpl.
  rewrite reverse_cons, foldr_snoc.
  eapply hoare_bind; [apply (destroy_bound_client_safe send_ok bridge True)|].
  intros []. apply IH.
Qed.

Lemma unregister_safe ck :
  hoare lost (at_keys bridge True cs K [] ck)
    (runtime_call (call_back_all send_ok bridge no_counts) (stop_registration bridge))
    (λ _, at_keys bridge False cs K [] ck).
Proof.
  eapply hoare_pre.
  - apply (runtime_rule (at_keys bridge False cs K [] ck)
      (λ d, is_Some (so_bridges (dm_socom d) !! bridge)) (λ w, names_server (dom (so_servers w))));
      [|intros w a; apply call_back_safe].
    intros d [sp Hd] [i E].
    destruct (stop_registration_good bridge i _ (n_socom _ _ _ _ _ _ _ _ Hd) E)
      as (w' & o & Er & Hg). rewrite Er.
    assert (so_clients w' = so_clients (dm_socom d) ∧ so_servers w' = so_servers (dm_socom d) ∧
      Forall (names_server (dom (so_servers (dm_socom d)))) o) as (Hc & Hs & Ho).
    { unfold stop_registration in Er. rewrite modify_run in Er. unfold cleanup_bridge in Er.
      rewrite (bind_silent get_state _ _ _ _ eq_refl) in Er.
      rewrite (bind_run _ _ _ _ _ _ (forM_emit_run _ _ _)) in Er. injection Er as <- <-.
      rewrite app_nil_r. split_and!; [done..|]. by apply Forall_fmap, Forall_true. }
    split; [|done]. exists sp. apply (at_socom bridge False cs K ck sp); [done|].
    split_and!; [apply Hg|rewrite Hc; apply Hd|rewrite Hs; apply Hd|done].
  - intros d [sp Hd]. split; [|by apply (n_bridge _ _ _ _ _ _ _ _ Hd)].
    exists sp. by destruct Hd.
Qed.

Lemma destroy_binding_safe ck sp :
  hoare lost (node_at bridge True cs K [] ck sp) (node_destroy_binding send_ok bridge)
    (λ _, at_keys bridge False cs K [] ∅).
Proof.
  unfold node_destroy_binding, binding_call.
  apply (hoare_bind _ _ _ _ (λ r d, ∃ l, r.2 = (Destroy_client_connector <$> l) ++
    [BindingBase.Unregister_bridge] ∧ (∀ c, c ∈ dom ck → c ∈ l) ∧
    at_keys bridge True cs K (Bound_client <$> l) ck d)).
  - apply (binding_part bridge True cs K ck sp [] _ (λ _, inv cs K) (λ _ o d, ∃ l,
      o = (Destroy_client_connector <$> l) ++ [BindingBase.Unregister_bridge] ∧
      (∀ c, c ∈ dom ck → c ∈ l) ∧ at_keys bridge True cs K (Bound_client <$> l) ck d));
      [apply keeps_destroy_binding|].
    intros d a b' o Hd E Hb. destruct (destroy_binding_holds _ _ _ _ E) as (l & -> & Hp & Hn).
    exists l. split_and!; [done| |].
    + intros c Hc. apply (bound_by_client ck sp) in Hc.
      rewrite (n_held _ _ _ _ _ _ _ _ Hd), app_nil_r, Hp, elem_of_app in Hc.
      destruct Hc as [Hc|(? & [= <-] & ?)%list_elem_of_fmap]; [|done]. by destruct (Hn c).
    + exists sp. eapply at_binding; [done..|]. by rewrite app_nil_r.
  - intros [[] o] d (l & Ho & Hl & Hd). simpl in Ho. subst o. rewrite forM_app.
    eapply (hoare_bind lost _ _ _ _ _ (destroy_clients_safe l ck)); [|exact Hd].
    intros []. assert (foldr delete ck (reverse l) = ∅) as ->.
    { apply map_empty. intros c. destruct (foldr delete ck (reverse l) !! c) eqn:E; [|done].
      assert (c ∉ reverse l) as Hnot.
      { intros Hin. by rewrite lookup_foldr_delete in E. }
      rewrite lookup_foldr_delete_not_elem_of in E by done. destruct Hnot.
      apply elem_of_reverse, Hl. by eapply elem_of_dom_2. }
    cbn [forM node_action]. eapply hoare_bind; [apply unregister_safe|]. intros [].
    by apply hoare_ret.
Qed.
End destructor.

(** ** Properties *)

Section properties.
Context `{Shm} (send_ok : N → Client_id → Message → bool).

Lemma make_node_ok cfg identity start bridge :
  make_node cfg identity = Done (start, bridge) → node_ok bridge True start.
Proof.
  unfold make_node. intros E.
  destruct (register_bridge_good true identity so_init so_inv_init) as (r & w & o & Er & Hg).
  rewrite Er in E. destruct r as [b|]; [|done]. injection E as <- <-.
  assert (is_Some (so_bridges w !! b)) as Hb.
  { vm_compute in Er. injection Er as <- <- <-. by eexists. }
  split; simpl; try done; [apply Hg|].
  destruct (inv_make_binding cfg). split; simpl; try done; by intros k [c Hc].
Qed.

Lemma node_reachable_ok cfg identity start bridge d :
  make_node cfg identity = Done (start, bridge) → node_reachable send_ok bridge start d →
  node_ok bridge True d.
Proof.
  intros Hm. induction 1 as [|d op d' o _ IH Ha Hr]; [by eapply make_node_ok|].
  pose proof (node_op_safe send_ok bridge True d op IH Ha) as Hs. by rewrite Hr in Hs.
Qed.

(** Nothing that the binding has recorded is gone: the peers of its connections, of its
    pending requests and of the services that peers are interested in are connected, the
    keys of its connectors and services stand for services, and its connectors exist. *)
Record nothing_dangles (d : Daemon) : Prop := {
  nd_connections : ∀ key c ids, (c, ids) ∈ for_each_client (b_id_mapping (dm_binding d)) key →
    c ∈ b_connections (dm_binding d);
  nd_pending : ∀ h p, b_pending_connects (dm_binding d) !! h = Some p →
    pcn_client_id p ∈ b_connections (dm_binding d) ∧ known (dm_binding d) (pcn_key p);
  nd_interested : ∀ key peers c, b_interested_peers (dm_binding d) !! key = Some peers →
    c ∈ peers → c ∈ b_connections (dm_binding d);
  nd_states : ∀ key st, b_service_states (dm_binding d) !! key = Some st →
    known (dm_binding d) key;
  nd_keys : ∀ c key, dm_client_keys d !! c = Some key → known (dm_binding d) key;
  nd_clients : dom (dm_client_keys d) ⊆ dom (so_clients (dm_socom d));
  nd_servers : dom (dm_server_peers d) ⊆ dom (so_servers (dm_socom d));
}.

Lemma node_ok_nothing_dangles bridge d : node_ok bridge True d → nothing_dangles d.
Proof.
  intros [_ Hb Hk _ _ _ Hc Hs _]. split; try done.
  - intros key c ids Hin. by eapply for_each_client_connected.
  - apply (i_pending _ _ _ Hb).
  - apply (i_interested _ _ _ Hb).
  - intros key st Hst. by destruct (i_states _ _ _ Hb key st Hst).
  - intros c key Hck. apply (i_known _ _ _ Hb). by exists c.
Qed.

(** C1: the binding and the runtime fit together. Connections come and go, clients that the
    binding has registered send bytes, users call connectors that are theirs and register
    no bridges, in whatever order, and sends fail at will. No operation uses a connector
    that has been destroyed, none waits for a connector that is never released, and none
    runs into the asserts that a client has a connection or that a key stands for a
    service; afterwards nothing that the binding has recorded is gone. A client endpoint
    that gets messages before its channel is registered is not covered, and does run into
    the assert ([BindingClient.request_before_reply_faults]). *)
Theorem node_never_dangles cfg identity start bridge d op :
  make_node cfg identity = Done (start, bridge) → node_reachable send_ok bridge start d →
  node_admissible d op →
  match run_node send_ok bridge op d with
  | Done (_, d', _) => nothing_dangles d'
  | Fault f => f ≠ Use_after_free ∧ f ≠ Waits_forever ∧ f ≠ Connection_missing ∧ f ≠ Key_missing
  end.
Proof.
  intros Hm Hr Ha. pose proof (node_reachable_ok _ _ _ _ _ Hm Hr) as Hd.
  pose proof (node_op_safe send_ok bridge True d op Hd Ha) as Hs.
  destruct (run_node send_ok bridge op d) as [[[u d'] o]|f].
  - by eapply node_ok_nothing_dangles.
  - split_and!; intros ->; exact (Hs I).
Qed.

(** C5: the binding leaks no connector and holds none twice. In every reachable state the
    connectors of the runtime whose callbacks are the binding's are exactly those that its
    service states hold, each held once, and all of them exist. *)
Theorem binding_owns_its_connectors cfg identity start bridge d :
  make_node cfg identity = Done (start, bridge) → node_reachable send_ok bridge start d →
  NoDup (held_by (dm_binding d)) ∧
  (∀ c, Bound_client c ∈ held_by (dm_binding d) ↔ c ∈ dom (dm_client_keys d)) ∧
  (∀ s, Bound_server s ∈ held_by (dm_binding d) ↔ s ∈ dom (dm_server_peers d)) ∧
  dom (dm_client_keys d) ⊆ dom (so_clients (dm_socom d)) ∧
  dom (dm_server_peers d) ⊆ dom (so_servers (dm_socom d)).
Proof.
  intros Hm Hr. destruct (node_reachable_ok _ _ _ _ _ Hm Hr) as [_ _ _ _ _ Hh Hc Hs _].
  rewrite app_nil_r in Hh. split_and!; [|intros x|intros x|done|done].
  - rewrite <-Hh. apply bound_by_NoDup.
  - rewrite <-Hh. apply bound_by_client.
  - rewrite <-Hh. apply bound_by_server.
Qed.

(** C6: the destructor of the binding gives back every client connector. From every
    reachable state, giving up the bridge and the client connectors waits for nothing and
    uses nothing that is gone, although it makes the runtime drop requests that the binding
    serves; when it is through no client connector of the binding is left. *)
Theorem binding_destructor_releases cfg identity start bridge d :
  make_node cfg identity = Done (start, bridge) → node_reachable send_ok bridge start d →
  match node_destroy_binding send_ok bridge d with
  | Done (_, d', _) => dm_client_keys d' = ∅ ∧ ∀ c, Bound_client c ∉ held_by (dm_binding d')
  | Fault f => f ≠ Use_after_free ∧ f ≠ Waits_forever
  end.
Proof.
  intros Hm Hr. pose proof (node_reachable_ok _ _ _ _ _ Hm Hr) as Hd.
  pose proof (destroy_binding_safe send_ok bridge _ _ _ _ d Hd) as Hs.
  destruct (node_destroy_binding send_ok bridge d) as [[[[] d'] o]|f].
  - destruct Hs as [sp [_ _ _ Hk _ Hh _ _ _]]. split; [done|]. intros c Hc.
    rewrite app_nil_r in Hh. rewrite <-Hh, bound_by_client, dom_empty_L in Hc. set_solver.
  - split; intros ->; exact (Hs I).
Qed.
End properties.
