(* ===== verification/ServicePath.v ===== *)
(** * A service on its way through both daemons

    A user of one daemon asks its runtime for a service that a user of another daemon
    provides: the request travels over the binding, the offer comes back, the connection
    is set up, and the runtime of the first daemon has a server for its client. Every step
    is the code of a whole daemon as [Bridging] puts it together, and what travels are the
    bytes of frames. *)

From stdpp Require Import base numbers list gmap strings.
From Stdlib Require Import Strings.Ascii.
From S2P Require Import Prelude.
From S2P Require Import IpcTypes.
From S2P Require Import Payload.
From S2P Require Import SlotManager.
From S2P Require Import Keys.
From S2P Require Import ConnectionMetadata.
From S2P Require Import SharedMemoryManagers.
From S2P Require Import ServiceState.
From S2P Require Import BindingBase.
From S2P Require Import BindingSafety.
From S2P Require Import BindingProperties.
From S2P Require Import Wire.
From S2P Require Import Socom.
From S2P Require Import SocomInvariant.
From S2P Require Import SocomCalls.
From S2P Require Import EventPath.
From S2P Require Import Ownership.
From S2P Require Import Bridging.

(** ** Frames *)

(** The frame of a message holds the message. *)
Lemma parse_frame addr m :
  message_ok m → (addr mod 8 = 0)%N → parse_message addr (message_bytes m) = Some m.
Proof.
  intros Hm Ha%(frame_aligned m). pose proof (payload_size_fits m) as Hs.
  destruct m; unfold message_bytes;
    match goal with |- context [frame_bytes ?W ?t ?m] =>
      destruct (frame_bytes_head W t m) as [bytes Hb];
      rewrite Hb; unfold parse_message; cbn [head mbind option_bind];
      rewrite get_message_code; cbn [mbind option_bind]; unfold parse_as;
      rewrite <-Hb, <-(app_nil_r (frame_bytes W t m)); by rewrite check_and_cast_frame
    end.
Qed.

(** ** Steps of a daemon *)

Section steps.
Context `{Shm} (send_ok : N → Client_id → Message → bool) (bridge : N).

(** The binding sends one message and calls nobody. *)
Lemma binding_sends_run (m : BM unit) d b' y msg :
  m (dm_binding d) = Done (tt, b', [Send y msg true]) →
  binding_sends m d = Done (tt, set_dm_binding d b', [To_peer y (message_bytes msg)]).
Proof.
  intros E. unfold binding_sends. by rewrite (bind_silent _ _ _ _ _ (on_binding_run _ d _ _ _ E)).
Qed.
Lemma binding_call_sends (m : BM unit) d b' y msg :
  m (dm_binding d) = Done (tt, b', [Send y msg true]) →
  binding_call send_ok bridge m d = Done (tt, set_dm_binding d b', [To_peer y (message_bytes msg)]).
Proof.
  intros E. unfold binding_call. by rewrite (bind_silent _ _ _ _ _ (on_binding_run _ d _ _ _ E)).
Qed.
Lemma binding_call_silent (m : BM unit) d b' :
  m (dm_binding d) = Done (tt, b', []) →
  binding_call send_ok bridge m d = Done (tt, set_dm_binding d b', []).
Proof.
  intros E. unfold binding_call. by rewrite (bind_silent _ _ _ _ _ (on_binding_run _ d _ _ _ E)).
Qed.

(** A message that the runtime has no answer to. *)
Lemma receive_sends c addr m d b' y msg :
  message_ok m → (addr mod 8 = 0)%N → (∀ x, m ≠ Msg_Request_service x) →
  (∀ x, m ≠ Msg_Connect_service_reply x) →
  dispatch send_ok c m no_answers (dm_binding d) = Done (tt, b', [Send y msg true]) →
  node_receive send_ok bridge c addr (message_bytes m) d =
    Done (tt, set_dm_binding d b', [To_peer y (message_bytes msg)]).
Proof.
  intros Hm Ha Hr Hs E. pose proof (receive_frame send_ok c addr m [] no_answers Hm Ha) as Hf.
  rewrite app_nil_r in Hf. unfold node_receive. rewrite (parse_frame addr m Hm Ha).
  destruct m; try (by destruct (Hr m)); try (by destruct (Hs m));
    (apply binding_call_sends; by rewrite Hf).
Qed.

(** The runtime tells the binding about a service. *)
Lemma tell_binding counts w c u s key server d b' y msg :
  dm_client_keys d !! c = Some key → server_counts w s = Some server →
  service_state_change send_ok key u server (dm_binding d) = Done (tt, b', [Send y msg true]) →
  call_back_all send_ok bridge counts w (Cb_service_state_change c u s) d =
    Done (tt, set_dm_binding d b', [To_peer y (message_bytes msg)]).
Proof.
  intros Hc Hs E. cbn [call_back_all call_back]. rewrite reads_run, Hc, Hs.
  rewrite (the_run _ _ _ _ _ eq_refl). by apply binding_sends_run.
Qed.
End steps.

(** ** The service *)

(** The names of a service on the wire stand for it. *)
Record service_ids (i : Service_interface_identifier) (n : Service_instance) (sv : Service)
    (inst : Instance_id) : Prop := {
  si_service : make_service i = Done sv;
  si_instance : make_instance_id n = Done inst;
  si_denotes : denotes sv inst (i, n);
}.

Section path.
Context `{Shm} (send_ok : N → Client_id → Message → bool).
Context (i : Service_interface_identifier) (n : Service_instance) (sv : Service)
  (inst : Instance_id) (Hids : service_ids i n sv inst).
(** The channels accept the messages that set up the connection. *)
Context (Hsetup : ∀ k c m, event_traffic m = false → send_ok k c m = true).
Set Default Proof Using "Hids Hsetup".

Definition request_msg : Message := Msg_Request_service
  {| rs_service_id := sv; rs_instance_id := inst; rs_in_use := true |}.
Definition offer_msg : Message := Msg_Offer_service
  {| os_service_id := sv; os_instance_id := inst; os_offered := true |}.

(** *** The consumer asks *)

(** The state of a service that a user waits for. *)
Definition requested_state (counts : Service_counts) : Service_state :=
  set_requested (make_service_state i n) counts true.

Lemma new_state m key :
  m !! key = None →
  get_or_create m key sv inst = Done (make_service_state i n, <[key := make_service_state i n]> m).
Proof.
  intros Em. destruct (si_denotes _ _ _ _ Hids) as [Hs Hi]. unfold get_or_create. simpl in *.
  rewrite Hs. simpl. rewrite Hi. simpl. by rewrite Em.
Qed.

Lemma consumer_asks counts b key ks x :
  keys_get (b_keys b) sv inst = Done (key, ks) → b_service_states b !! key = None →
  b_connections b = {[ x ]} →
  send_request_service send_ok i counts n true b =
    Done (tt, set_service_states (set_sent (set_keys b ks) (b_sent b + 1)%N)
      (<[key := requested_state counts]> (b_service_states b)), [Send x request_msg true]).
Proof.
  intros Hk Es Hx. unfold send_request_service.
  rewrite (liftO_run _ sv) by apply Hids. rewrite (liftO_run _ inst) by apply Hids.
  assert (send_request_service_locked send_ok sv inst true b =
    Done (true, set_sent (set_keys b ks) (b_sent b + 1)%N, [Send x request_msg true])) as E1.
  { unfold send_request_service_locked, get_key. rewrite (on_member_run _ _ _ key ks) by done.
    rewrite reads_run. unfold has_client_connector. simpl. rewrite Es.
    rewrite (bind_run _ _ _ _ _ _ (send_to_all_run _ _ _)). simpl.
    rewrite Hx, elements_singleton, size_singleton. simpl. by rewrite Hsetup. }
  rewrite (bind_run _ _ _ _ _ _ E1). cbn [negb]. unfold get_key.
  rewrite (on_member_run _ _ _ key ks) by (simpl; by eapply keys_get_again).
  erewrite on_member_run.
  2:{ simpl. unfold process_request_service. simpl. rewrite (new_state _ _ Es). reflexivity. }
  cbv beta iota. rewrite (bind_silent _ _ _ tt _ eq_refl). simpl.
  unfold maybe_send_connect_service_locked. rewrite bind_assoc, reads_run. simpl.
  rewrite insert_insert_eq, lookup_insert_eq, bind_assoc, (the_run _ _ _ _ _ eq_refl).
  simpl. rewrite map_to_list_empty. reflexivity.
Qed.

(** *** The provider offers *)

(** The state of a service between the request of a peer and the connector. *)
Definition pending_state : Service_state :=
  set_client_connector (make_service_state i n) None true.
(** And when the connector has found the service. *)
Definition provided_state (counts : Service_counts) (c : N) : Service_state :=
  set_client_connector (set_requested pending_state counts true) (Some c) false.

Definition with_interest (key : Key_t) (y : Client_id) (b : Binding) : Binding :=
  set_service_states (set_interested_peers b
    (<[key := {[ y ]} ∪ default ∅ (b_interested_peers b !! key)]> (b_interested_peers b)))
    (<[key := pending_state]> (b_service_states b)).

Lemma request_taken b key y :
  b_service_states b !! key = None → b_local_offers b !! key = None →
  request_service_start send_ok key y
    {| rs_service_id := sv; rs_instance_id := inst; rs_in_use := true |} b =
    Done (true, with_interest key y b, [BindingBase.Make_client_connector i n]).
Proof.
  intros Es Eo. destruct (si_denotes _ _ _ _ Hids) as [Hs Hi]. simpl in Hs, Hi.
  unfold request_service_start. cbn [rs_in_use negb]. rewrite modify_run, reads_run. simpl.
  rewrite Eo. simpl. rewrite reads_run. unfold has_client_connector, has_connector. simpl.
  rewrite Es. simpl. erewrite on_member_run.
  2:{ simpl. unfold mark_client_connector_pending. rewrite (new_state _ _ Es). reflexivity. }
  rewrite (liftO_run _ i) by done. rewrite (liftO_run _ n) by done.
  unfold with_interest. by rewrite insert_insert_eq.
Qed.

Definition with_offer (key : Key_t) (counts : Service_counts) (st : Service_state)
    (peers : gset N) (b : Binding) : Binding :=
  set_sent (set_interested_peers (set_service_states (set_local_offers b
    (<[key := true]> (b_local_offers b)))
    (<[key := set_requested st counts true]> (b_service_states b)))
    (<[key := peers]> (b_interested_peers b))) (b_sent b + 1)%N.

Lemma offer_made b key y counts st :
  keys_find (b_keys b) key = Some (sv, inst) → b_service_states b !! key = Some st →
  b_interested_peers b !! key = Some {[ y ]} → y ∈ b_connections b →
  service_state_change send_ok key true counts b =
    Done (tt, with_offer key counts st {[ y ]} b, [Send y offer_msg true]).
Proof.
  intros Hk Es Ei Hy. destruct (si_denotes _ _ _ _ Hids) as [Hs Hi]. simpl in Hs, Hi.
  unfold service_state_change. cbn [negb whenM]. rewrite (bind_silent _ _ _ tt b) by done.
  rewrite modify_run, reads_run. simpl. rewrite Hk, (the_run _ _ _ _ _ eq_refl).
  erewrite on_member_run.
  2:{ simpl. unfold add_service, get_or_create. rewrite Hs. simpl. rewrite Hi. simpl.
      rewrite Es. reflexivity. }
  rewrite reads_run, modify_run. simpl. rewrite Ei. simpl. rewrite elements_singleton.
  cbn [forM]. unfold get_reply_channel. rewrite bind_assoc, reads_run. simpl.
  rewrite bool_decide_true by done. unfold send_offer_service_to_client, send_, send.
  unfold mbind, M_bind. cbn. by rewrite Hsetup.
Qed.

Lemma connector_kept b key c st :
  b_service_states b !! key = Some st → ss_client_connector st = None →
  request_service_finish key (Some c) b =
    Done (tt, set_service_states b
      (<[key := set_client_connector st (Some c) false]> (b_service_states b)), []).
Proof.
  intros Es Ec. unfold request_service_finish. erewrite on_member_run.
  2:{ unfold add_client_connector. rewrite Es. reflexivity. }
  rewrite Ec. reflexivity.
Qed.

(** What the provider's runtime and binding are like after the request. *)
Definition providing (X : Daemon) (key : Key_t) (ks : Keys) (y : Client_id) (s : N)
    (S : Server_connector) (counts : Service_counts) : Daemon :=
  let w := dm_socom X in
  let b := with_offer key counts pending_state {[ y ]}
    (with_interest key y (set_keys (dm_binding X) ks)) in
  set_dm_client_keys (set_dm_binding (set_dm_socom X (joined w i n s S))
    (set_service_states b
      (<[key := provided_state counts (so_next w)]> (b_service_states b))))
    (<[so_next w := key]> (dm_client_keys X)).

Lemma provider_offers bridge X y addr key ks s S counts :
  (* the binding has not heard of the service *)
  keys_get (b_keys (dm_binding X)) sv inst = Done (key, ks) →
  keys_find ks key = Some (sv, inst) →
  b_service_states (dm_binding X) !! key = None → b_local_offers (dm_binding X) !! key = None →
  b_interested_peers (dm_binding X) !! key = None → y ∈ b_connections (dm_binding X) →
  (* a user provides it, and has no client yet *)
  so_inv (dm_socom X) → sr_client (get_record (dm_socom X) (record_key i n)) = None →
  sr_server (get_record (dm_socom X) (record_key i n)) = Some (sc_interface S, s) →
  so_servers (dm_socom X) !! s = Some S → server_counts (dm_socom X) s = Some counts →
  is_minor_version_compatible (sc_interface S) i = true →
  message_ok request_msg → (addr mod 8 = 0)%N →
  node_receive send_ok bridge y addr (message_bytes request_msg) X =
    Done (tt, providing X key ks y s S counts, [To_peer y (message_bytes offer_msg)]).
Proof.
  intros Hk Hf Es Eo Ei Hy Hinv Hc Hs ES Hcounts Hcomp Hm Ha.
  unfold node_receive. rewrite (parse_frame addr request_msg Hm Ha). cbn [request_msg].
  unfold node_request_service. cbn [rs_service_id rs_instance_id].
  erewrite bind_silent.
  2:{ apply on_binding_run. unfold get_key, on_member. rewrite Hk. reflexivity. }
  cbv beta iota. set (X1 := set_dm_binding X (set_keys (dm_binding X) ks)).
  rewrite (bind_silent _ _ _ _ _ (on_binding_run _ X1 _ _ _
    (request_taken (dm_binding X1) key y Es Eo))).
  cbv beta iota. cbn [forM make_bound_client].
  set (X2 := set_dm_binding X1 _). rewrite bind_assoc, reads_run, bind_assoc.
  pose proof (make_client_told (dm_socom X2) i n s S Hinv Hc Hs ES Hcomp) as Et.
  rewrite (bind_silent _ _ _ _ _ (on_socom_run _ X2 _ _ _ Et)).
  cbv beta iota zeta. rewrite bind_assoc, modify_run. cbn [from_option].
  set (X3 := set_dm_client_keys _ _). cbn [forM]. rewrite !bind_assoc.
  assert (b_interested_peers (dm_binding X3) !! key = Some {[ y ]}) as Ei3.
  { simpl. rewrite lookup_insert_eq, Ei. simpl. by rewrite (right_id_L ∅ (∪)). }
  rewrite (bind_run _ _ _ _ _ _ (tell_binding send_ok bridge no_counts (dm_socom X2)
    (so_next (dm_socom X2)) true s key counts X3 _ y offer_msg
    (lookup_insert_eq _ _ _) Hcounts (offer_made (dm_binding X3) key y counts pending_state
      Hf (lookup_insert_eq _ _ _) Ei3 Hy))).
  rewrite (bind_silent _ _ _ _ _ eq_refl).
  erewrite bind_silent.
  2:{ apply binding_call_silent. apply (connector_kept _ key (so_next (dm_socom X2))
        (set_requested pending_state counts true)); [apply lookup_insert_eq|done]. }
  simpl. unfold providing. done.
Qed.

(** *** The consumer connects *)

Definition connect_msg (required : Remote_handle) (md : Shared_memory_metadata) : Message :=
  Msg_Connect_service {| cs_service_id := sv; cs_instance_id := inst; cs_required_id := required;
    cs_metadata := md; cs_in_use := true |}.

(** An offer that has been answered with a Connect_service. *)
Definition answered_offer (required : Remote_handle) : Offer_state :=
  {| offered := true; connect_sent := true; os_required_id := required |}.

(** An offer that has just come. *)
Definition fresh_offer : Offer_state :=
  {| offered := true; connect_sent := false; os_required_id := 0 |}.

(** The loop over the offers, for one offer. *)
Lemma connect_sent_to_offer b x key st md sm :
  let id := b_next_local_id b in
  keys_get (b_keys b) sv inst = Done (key, b_keys b) →
  b_service_states b !! key = Some st → ss_offers st = {[ x := fresh_offer ]} →
  x ∈ b_connections b →
  get_shared_memory_metadata (b_keys b) (b_slot_managers b) key = Done (md, sm) →
  b_pending_connects b !! id = None →
  ∃ b', send_connect_to_offer send_ok key i n x fresh_offer b =
      Done (tt, b', [Send x (connect_msg id md) true]) ∧
    b_keys b' = b_keys b ∧ b_connections b' = b_connections b ∧
    b_id_mapping b' = b_id_mapping b ∧ b_slot_managers b' = sm ∧
    b_service_states b' !! key = Some (set_offers st {[ x := answered_offer id ]}) ∧
    b_pending_connects b' !! id = Some {| pcn_key := key; pcn_client_id := x |} ∧
    b_read_only_slot_managers b' = b_read_only_slot_managers b.
Proof.
  intros id Hk Es Ho Hx Hmd Hp. unfold send_connect_to_offer.
  cbn [fresh_offer offered connect_sent negb andb whenM os_required_id N.eqb].
  unfold next_local_id. rewrite bind_assoc, (on_member_run _ _ _ id (wrap64 (id + 1))) by done.
  unfold set_offer. rewrite bind_assoc, modify_run, (bind_silent _ _ _ _ _ eq_refl).
  rewrite (liftO_run _ sv) by apply Hids. rewrite (liftO_run _ inst) by apply Hids.
  unfold get_key. rewrite (on_member_run _ _ _ key (b_keys b)) by done.
  unfold slot_metadata. rewrite bind_assoc, reads_run.
  rewrite (on_member_run _ _ _ md sm) by done.
  unfold send_connect, get_reply_channel. rewrite bind_assoc, reads_run, bind_assoc.
  cbn [b_connections set_slot_managers set_keys set_service_states set_next_local_id].
  rewrite bool_decide_true by done. rewrite (bind_silent _ _ _ tt _ eq_refl).
  rewrite bind_assoc, modify_run.
  erewrite bind_run by reflexivity. cbn [b_sent set_pending_connects set_slot_managers set_keys
    set_service_states set_next_local_id]. fold (connect_msg id md). rewrite Hsetup by done. cbn [whenM].
  unfold modify. eexists. split; [reflexivity|]. simpl. split_and!; try done.
  - rewrite !lookup_alter_eq, Es. simpl. unfold set_offers. simpl. rewrite Ho.
    rewrite !insert_singleton_eq. done.
  - unfold pending_emplace. fold id. rewrite Hp. apply lookup_insert_eq.
Qed.

Lemma consumer_connects b x key counts md sm :
  let id := b_next_local_id b in
  keys_get (b_keys b) sv inst = Done (key, b_keys b) →
  b_service_states b !! key = Some (requested_state counts) → x ∈ b_connections b →
  get_shared_memory_metadata (b_keys b) (b_slot_managers b) key = Done (md, sm) →
  b_pending_connects b !! id = None →
  ∃ b', handle_offer_service_message send_ok x
      {| os_service_id := sv; os_instance_id := inst; os_offered := true |} b =
      Done (tt, b', [Send x (connect_msg id md) true]) ∧
    b_keys b' = b_keys b ∧ b_connections b' = b_connections b ∧
    b_id_mapping b' = b_id_mapping b ∧ b_slot_managers b' = sm ∧
    b_service_states b' !! key =
      Some (set_offers (requested_state counts) {[ x := answered_offer id ]}) ∧
    b_pending_connects b' !! id = Some {| pcn_key := key; pcn_client_id := x |} ∧
    b_read_only_slot_managers b' = b_read_only_slot_managers b.
Proof.
  intros id Hk Es Hx Hmd Hp. destruct (si_denotes _ _ _ _ Hids) as [Hs Hi]. simpl in Hs, Hi.
  set (st := set_offers (requested_state counts) {[ x := fresh_offer ]}).
  assert (process_offer (b_service_states b) key x
    {| os_service_id := sv; os_instance_id := inst; os_offered := true |} =
    Done (<[key := st]> (b_service_states b), None)) as Epo.
  { unfold process_offer, get_or_create. simpl. rewrite Hs. simpl. rewrite Hi. simpl. by rewrite Es.
    }
  unfold handle_offer_service_message, get_key.
  rewrite (on_member_run _ _ _ key (b_keys b)) by done.
  rewrite (on_member_run _ _ _ None (<[key := st]> (b_service_states b)))
    by (simpl; by rewrite Epo).
  cbn [os_offered negb]. unfold maybe_send_connect_service_locked. rewrite !bind_assoc, reads_run.
  cbn [b_service_states set_service_states]. rewrite lookup_insert_eq, bind_assoc.
  rewrite (the_run _ _ _ _ _ eq_refl).
  change (ss_requested st) with true. change (ss_offers st) with ({[ x := fresh_offer ]} : gmap N
    _).
  rewrite map_to_list_singleton. cbn [whenM forM]. rewrite !bind_assoc.
  destruct (connect_sent_to_offer (set_service_states (set_keys b (b_keys b))
    (<[key := st]> (b_service_states b))) x key st md sm) as (b' & Eb & Hb'); try done.
  { apply lookup_insert_eq. }
  exists b'. rewrite (bind_run _ _ _ _ _ _ Eb). done.
Qed.

(** *** Both sides record the connection *)

Definition reply_msg (required provided : Remote_handle) (md : Shared_memory_metadata)
    (counts : Service_counts) : Connect_service_reply :=
  {| csr_required_id := required; csr_provided_id := provided; csr_metadata := md;
     csr_num_methods := num_methods counts; csr_num_events := num_events counts |}.

(** The first connection to a client. *)
Definition with_ids (c : Client_id) (ids : Ids) (cm : Connection_metadata) : Connection_metadata :=
  {| m_id_to_key := <[c := [ids]]> (m_id_to_key cm);
     m_key_to_client_indices := set_index (m_key_to_client_indices cm) (ids_key ids) c 0 |}.

Lemma first_mapping cm c ids :
  m_id_to_key cm !! c = None → add_mapping cm c ids = Done (with_ids c ids cm).
Proof. intros E. unfold add_mapping, is_mapping_present. by rewrite E. Qed.

Lemma find_first_ids c ids cm :
  get_by_local_handle (with_ids c ids cm) c (ids_local_handle ids) = Some ids ∧
  get_by_remote_handle (with_ids c ids cm) c (ids_remote_handle ids) = Some ids.
Proof using.
  unfold get_by_local_handle, get_by_remote_handle, find_ids. simpl.
  rewrite lookup_insert_eq. simpl. by rewrite !decide_True.
Qed.

Lemma only_client_of c ids cm :
  m_key_to_client_indices cm !! ids_key ids = None →
  for_each_client (with_ids c ids cm) (ids_key ids) = [(c, ids)].
Proof using.
  intros E. unfold for_each_client, with_ids, set_index. simpl.
  rewrite lookup_insert_eq, E. simpl. rewrite insert_empty, map_to_list_singleton. simpl.
  by rewrite lookup_insert_eq.
Qed.

Lemma provider_accepts b y key st required md_peer md sm :
  let provided := b_next_local_id b in
  let ids := {| ids_key := key; ids_local_handle := provided; ids_remote_handle := required;
                ids_local_metadata := md; ids_remote_metadata := md_peer |} in
  keys_get (b_keys b) sv inst = Done (key, b_keys b) → b_service_states b !! key = Some st →
  get_shared_memory_metadata (b_keys b) (b_slot_managers b) key = Done (md, sm) →
  m_id_to_key (b_id_mapping b) !! y = None →
  ∃ b', dispatch send_ok y (connect_msg required md_peer) no_answers b =
      Done (tt, b', [Send y (Msg_Connect_service_reply
        (reply_msg required provided md (ss_counts st))) true]) ∧
    b_id_mapping b' = with_ids y ids (b_id_mapping b) ∧ b_connections b' = b_connections b ∧
    b_service_states b' = b_service_states b ∧ b_slot_managers b' = sm.
Proof.
  intros provided ids Hk Es Hmd Hy. cbn [dispatch connect_msg].
  unfold handle_connect_service_message, get_key.
  rewrite (on_member_run _ _ _ key (b_keys b)) by done. cbn [cs_in_use negb].
  unfold next_local_id.
  rewrite (on_member_run _ _ _ provided (wrap64 (provided + 1))) by done.
  unfold slot_metadata. rewrite bind_assoc, reads_run, (on_member_run _ _ _ md sm) by done.
  cbn [cs_required_id cs_metadata]. fold ids.
  rewrite (on_member_run _ _ _ tt (with_ids y ids (b_id_mapping b)))
    by (simpl; by rewrite first_mapping).
  rewrite reads_run. simpl. rewrite Es, (the_run _ _ _ _ _ eq_refl).
  unfold send_, send, mbind, M_bind. cbn. rewrite Hsetup by done.
  eexists. split; [reflexivity|done].
Qed.

(** *** The consumer's runtime gets a server *)

Lemma metadata_again ks (s s' : Shared_memory_managers Payload_destroyed) key md :
  get_shared_memory_metadata ks s key = Done (md, s') →
  get_shared_memory_metadata ks s' key = Done (md, s').
Proof.
  unfold get_shared_memory_metadata. intros E.
  apply outcome_bind_Done in E as ([m s1] & Eg & E).
  apply outcome_bind_Done in E as (md' & Em & [= -> ->]).
  assert (get_shared_memory_slot_manager ks s' key = Done (m, s')) as ->;
    [|simpl; by rewrite Em].
  unfold get_shared_memory_slot_manager in *.
  destruct (m_slot_managers s !! key) as [m0|] eqn:E0.
  { injection Eg as <- <-. by rewrite E0. }
  destruct (keys_find ks key) as [[a b]|]; [|done].
  apply outcome_bind_Done in Eg as (x & _ & Eg). apply outcome_bind_Done in Eg as (z & _ & Eg).
  apply outcome_bind_Done in Eg as (r & _ & Eg). apply outcome_bind_Done in Eg as (m1 & _ & Eg).
  injection Eg as <- <-. simpl. by rewrite lookup_insert_eq.
Qed.

(** The reply is taken. *)
Lemma reply_taken b x key st required provided md_peer md sm counts :
  let ids := {| ids_key := key; ids_local_handle := provided; ids_remote_handle := required;
                ids_local_metadata := md; ids_remote_metadata := md_peer |} in
  b_pending_connects b !! required = Some {| pcn_key := key; pcn_client_id := x |} →
  b_service_states b !! key = Some st →
  get_shared_memory_metadata (b_keys b) (b_slot_managers b) key = Done (md, sm) →
  m_id_to_key (b_id_mapping b) !! x = None →
  connect_service_reply_locked x (reply_msg required provided md_peer counts) b =
    Done (Some key, set_pending_connects (set_id_mapping (set_slot_managers b sm)
      (with_ids x ids (b_id_mapping b))) (delete required (b_pending_connects b)), []).
Proof.
  intros ids Hp Es Hmd Hx. unfold connect_service_reply_locked. rewrite reads_run.
  cbn [csr_required_id reply_msg]. rewrite Hp. cbn [pcn_client_id pcn_key].
  rewrite N.eqb_refl. cbn [negb]. rewrite reads_run, Es.
  unfold slot_metadata. rewrite bind_assoc, reads_run, (on_member_run _ _ _ md sm) by done.
  cbn [csr_provided_id csr_metadata reply_msg]. fold ids.
  rewrite (on_member_run _ _ _ tt (with_ids x ids (b_id_mapping b)))
    by (simpl; by rewrite first_mapping).
  rewrite modify_run. reflexivity.
Qed.

(** The runtime with the binding's server for the service, connected to its client. *)
Definition serving (w : Socom) (counts : Service_counts) : Socom :=
  let S := new_server i (num_methods counts) (N.to_nat (num_events counts)) n in
  with_server_enabled (with_new_server w S) (so_next w) S.

Lemma server_enabled w counts c :
  so_inv w → (i, n) ∉ so_identifiers w →
  sr_server (get_record w (record_key i n)) = None →
  sr_client (get_record w (record_key i n)) = Some (i, c) →
  let S := new_server i (num_methods counts) (N.to_nat (num_events counts)) n in
  enable_server (so_next w) (with_new_server w S) =
    Done (tt, serving w counts, [Cb_service_state_change c true (so_next w)]).
Proof.
  intros Hinv Hid Hs Hc S.
  assert (so_inv (with_new_server w S)) as Hinv'.
  { destruct (make_server_good true i (num_methods counts) (N.to_nat (num_events counts)) n w Hinv)
      as (r & w' & o & E & Hg). rewrite make_server_run in E by done. injection E as <- <- <-.
    apply Hg. }
  rewrite (enable_run _ (so_next w) S); [|apply Hinv'|apply lookup_insert_eq|done|done].
  unfold enable_reports, is_minor_version_compatible.
  change (get_record (with_new_server w S) (skey S)) with (get_record w (record_key i n)).
  rewrite Hc. simpl. by rewrite N.leb_refl.
Qed.

(** The connector is stored. *)
Lemma server_kept b key st s :
  b_service_states b !! key = Some st → ss_enabled_connector st = None →
  connect_service_reply_finish key (Some (Some s)) b =
    Done (tt, set_service_states b
      (<[key := set_enabled_connector st (Some s)]> (b_service_states b)), []).
Proof.
  intros Es Ee. unfold connect_service_reply_finish. rewrite (the_run _ _ _ _ _ eq_refl).
  erewrite on_member_run.
  2:{ unfold add_server_connector. rewrite Es. reflexivity. }
  rewrite Ee. reflexivity.
Qed.

Lemma consumer_completes bridge Y x addr c key st required provided md_peer md sm counts :
  let b := dm_binding Y in let w := dm_socom Y in let s := so_next w in
  let ids := {| ids_key := key; ids_local_handle := provided; ids_remote_handle := required;
                ids_local_metadata := md; ids_remote_metadata := md_peer |} in
  let reply := Msg_Connect_service_reply (reply_msg required provided md_peer counts) in
  b_pending_connects b !! required = Some {| pcn_key := key; pcn_client_id := x |} →
  b_service_states b !! key = Some st → ss_service st = i → ss_instance st = n →
  ss_enabled_connector st = None →
  get_shared_memory_metadata (b_keys b) (b_slot_managers b) key = Done (md, sm) →
  m_id_to_key (b_id_mapping b) !! x = None →
  so_inv w → (i, n) ∉ so_identifiers w →
  sr_server (get_record w (record_key i n)) = None →
  sr_client (get_record w (record_key i n)) = Some (i, c) → dm_client_keys Y !! c = None →
  message_ok reply → (addr mod 8 = 0)%N →
  ∃ Y', node_receive send_ok bridge x addr (message_bytes reply) Y =
      Done (tt, Y', [To_user (Cb_service_state_change c true s)]) ∧
    dm_socom Y' = serving w counts ∧ dm_server_peers Y' !! s = Some (x, provided) ∧
    dm_client_keys Y' = dm_client_keys Y ∧
    b_id_mapping (dm_binding Y') = with_ids x ids (b_id_mapping b) ∧
    b_connections (dm_binding Y') = b_connections b ∧
    b_service_states (dm_binding Y') !! key = Some (set_enabled_connector st (Some s)) ∧
    b_read_only_slot_managers (dm_binding Y') = b_read_only_slot_managers b.
Proof.
  intros b w s ids reply Hp Es Hsi Hsn Hse Hmd Hx Hinv Hid Hs Hc Hck Hm Ha.
  unfold node_receive. rewrite (parse_frame addr reply Hm Ha). unfold reply.
  unfold node_connect_service_reply.
  rewrite (bind_silent _ _ _ _ _ (on_binding_run _ Y _ _ _
    (reply_taken b x key st required provided md_peer md sm counts Hp Es Hmd Hx))).
  cbv beta iota. set (Y1 := set_dm_binding Y _).
  erewrite bind_silent.
  2:{ apply on_binding_run. unfold connect_service_reply_unlocked. rewrite reads_run.
      simpl. fold b. rewrite Es, (the_run _ _ _ _ _ eq_refl). reflexivity. }
  cbv beta iota. rewrite Hsi, Hsn. cbn [forM make_bound_server reply_msg csr_num_methods
    csr_num_events csr_provided_id num_methods num_events]. rewrite !bind_assoc.
  set (Y2 := set_dm_binding Y1 _).
  pose proof (make_server_run i (num_methods counts) (N.to_nat (num_events counts)) n w Hid) as Em.
  rewrite (bind_silent _ _ _ _ _ (on_socom_run _ Y2 _ _ _ Em)). cbv beta iota.
  rewrite bind_assoc, modify_run, bind_assoc. set (Y3 := set_dm_server_peers _ _).
  unfold runtime_call. rewrite bind_assoc, reads_run, bind_assoc.
  rewrite (bind_silent _ _ _ _ _ (on_socom_run _ Y3 _ _ _ (server_enabled w counts c Hinv Hid Hs
    Hc))).
  cbv beta iota. set (Y4 := set_dm_socom Y3 _). cbn [forM]. rewrite !bind_assoc.
  assert (call_back_all send_ok bridge no_counts (dm_socom Y3)
    (Cb_service_state_change c true (so_next w)) Y4 =
    Done (tt, Y4, [To_user (Cb_service_state_change c true s)])) as Eu.
  { cbn [call_back_all call_back]. rewrite reads_run. simpl. by rewrite Hck. }
  rewrite (bind_run _ _ _ _ _ _ Eu). repeat rewrite (bind_silent _ _ _ _ _ eq_refl).
  erewrite bind_silent.
  2:{ apply binding_call_silent. apply (server_kept _ key st); done. }
  eexists. split; [reflexivity|]. simpl. rewrite !lookup_insert_eq. by split_and!.
Qed.

(** ** Ready to subscribe *)

(** The consumer's client is connected to the binding's server. *)
Lemma serving_link w counts c e :
  so_inv w → (i, n) ∉ so_identifiers w →
  sr_server (get_record w (record_key i n)) = None →
  sr_client (get_record w (record_key i n)) = Some (i, c) → (e < num_events counts)%N →
  unsubscribed_link (serving w counts) c (so_next w) e.
Proof.
  intros Hinv Hid Hs Hc He. unfold serving.
  set (S := new_server i (num_methods counts) (N.to_nat (num_events counts)) n).
  destruct (v_record_client _ (v_conn _ Hinv) _ _ _ Hc) as (C & EC & _).
  unfold with_server_enabled.
  change (get_record (with_new_server w S) (skey S)) with (get_record w (record_key i n)).
  rewrite Hc. unfold is_minor_version_compatible. change (sc_interface S) with i.
  rewrite N.leb_refl. split; simpl.
  - eexists. rewrite lookup_alter_eq, EC. done.
  - eexists. rewrite lookup_insert_eq. split; [done|]. simpl. split_and!; [|done|lia|].
    + apply (events_ok_connect (enabled S)); [apply (events_ok_new i (num_methods counts)
        (N.to_nat (num_events counts)) n)|done].
    + unfold event_client. destruct (replicate _ _ !! _) eqn:E; [|done].
      by apply lookup_replicate in E as [-> _].
Qed.

(** The binding's client is connected to the provider's server. *)
Lemma joined_link w s S e :
  so_inv w → sr_client (get_record w (record_key i n)) = None →
  sr_server (get_record w (record_key i n)) = Some (sc_interface S, s) →
  so_servers w !! s = Some S → is_minor_version_compatible (sc_interface S) i = true →
  (e < N.of_nat (sc_num_events S))%N →
  unsubscribed_link (joined w i n s S) (so_next w) s e.
Proof.
  intros Hinv Hc Hs ES Hcomp He.
  destruct (v_servers _ (v_conn _ Hinv) _ _ ES) as (_ & Hev & _ & Hcl).
  destruct (record_server_live w _ _ _ (v_conn _ Hinv) Hs) as (S' & ES' & Hreg & _ & Hk & _).
  assert (S' = S) as -> by congruence.
  assert (sc_client S = None) as Hnone.
  { rewrite Hreg in Hcl. destruct Hcl as [_ ->]. unfold client_of, matching.
    rewrite Hk, Hc, Hs. done. }
  unfold joined. rewrite Hcomp. split; simpl.
  - eexists. rewrite lookup_insert_eq. done.
  - eexists. rewrite lookup_insert_eq. split; [done|]. simpl. split_and!; [|done|done|].
    + by apply events_ok_connect.
    + destruct (event_client (N.to_nat e) (sc_subscriber S)) as [c|] eqn:E; [|done].
      destruct Hev as (_ & _ & _ & Hsub & _). by rewrite (Hsub _ _ E) in Hnone.
Qed.

(** ** From server to client *)

(** A daemon whose user provides the service with server [s], while the binding has not
    heard of the service and has no connection to the peer [y] yet. *)
Record provider_ready (X : Daemon) (y : Client_id) (s : N) (S : Server_connector) (key : Key_t)
    (ks : Keys) (md : Shared_memory_metadata) : Prop := {
  pr_key : keys_get (b_keys (dm_binding X)) sv inst = Done (key, ks);
  pr_find : keys_find ks key = Some (sv, inst);
  pr_state : b_service_states (dm_binding X) !! key = None;
  pr_offer : b_local_offers (dm_binding X) !! key = None;
  pr_interest : b_interested_peers (dm_binding X) !! key = None;
  pr_peer : y ∈ b_connections (dm_binding X);
  pr_mapping : m_id_to_key (b_id_mapping (dm_binding X)) !! y = None;
  pr_index : m_key_to_client_indices (b_id_mapping (dm_binding X)) !! key = None;
  pr_memory : ∃ sm, get_shared_memory_metadata ks (b_slot_managers (dm_binding X)) key = Done (md,
    sm);
  pr_unused : m_slot_managers (b_slot_managers (dm_binding X)) !! key = None ∧
    m_shared_memory_allocations (b_slot_managers (dm_binding X)) !! key = None;
  pr_inv : so_inv (dm_socom X);
  pr_client : sr_client (get_record (dm_socom X) (record_key i n)) = None;
  pr_server : sr_server (get_record (dm_socom X) (record_key i n)) = Some (sc_interface S, s);
  pr_object : so_servers (dm_socom X) !! s = Some S;
  pr_version : is_minor_version_compatible (sc_interface S) i = true;
  pr_user : dm_server_peers X !! s = None;
}.

(** A daemon in which nobody provides the service or asks for it, the binding is the only
    bridge and [x] its only peer. *)
Record consumer_ready (Y : Daemon) (x : Client_id) (bridge : N) (key : Key_t) (ks : Keys)
    (md : Shared_memory_metadata) : Prop := {
  cr_key : keys_get (b_keys (dm_binding Y)) sv inst = Done (key, ks);
  cr_state : b_service_states (dm_binding Y) !! key = None;
  cr_peer : b_connections (dm_binding Y) = {[ x ]};
  cr_mapping : m_id_to_key (b_id_mapping (dm_binding Y)) !! x = None;
  cr_pending : b_pending_connects (dm_binding Y) !! b_next_local_id (dm_binding Y) = None;
  cr_memory : ∃ sm, get_shared_memory_metadata ks (b_slot_managers (dm_binding Y)) key = Done (md,
    sm);
  cr_inv : so_inv (dm_socom Y);
  cr_client : sr_client (get_record (dm_socom Y) (record_key i n)) = None;
  cr_server : sr_server (get_record (dm_socom Y) (record_key i n)) = None;
  cr_identifier : (i, n) ∉ so_identifiers (dm_socom Y);
  cr_bridges : ∃ identity, so_bridges (dm_socom Y) = {[ bridge := identity ]};
  cr_keys : dm_client_keys Y !! so_next (dm_socom Y) = None;
}.

(** The provider's binding offers the service. *)
Lemma provider_offers_service bridge X y addr key ks s S md :
  let counts := {| num_methods := sc_num_methods S; num_events := N.of_nat (sc_num_events S) |} in
  provider_ready X y s S key ks md → message_ok request_msg → (addr mod 8 = 0)%N →
  ∃ X1, node_receive send_ok bridge y addr (message_bytes request_msg) X =
      Done (tt, X1, [To_peer y (message_bytes offer_msg)]) ∧
    dm_socom X1 = joined (dm_socom X) i n s S ∧ b_keys (dm_binding X1) = ks ∧
    b_service_states (dm_binding X1) !! key = Some (provided_state counts (so_next (dm_socom X))) ∧
    b_slot_managers (dm_binding X1) = b_slot_managers (dm_binding X) ∧
    b_id_mapping (dm_binding X1) = b_id_mapping (dm_binding X) ∧
    b_next_local_id (dm_binding X1) = b_next_local_id (dm_binding X) ∧
    dm_server_peers X1 = dm_server_peers X ∧
    b_connections (dm_binding X1) = b_connections (dm_binding X) ∧
    dm_client_keys X1 !! so_next (dm_socom X) = Some key.
Proof.
  intros counts HX Hm Ha. exists (providing X key ks y s S counts). split.
  - destruct HX. apply provider_offers; try done. unfold server_counts.
    by match goal with E : so_servers _ !! _ = _ |- _ => rewrite E end.
  - unfold providing. simpl. by rewrite !lookup_insert_eq.
Qed.

(** The user of the consumer makes a client connector. *)
Lemma client_asks bridge Y x key ks md counts :
  consumer_ready Y x bridge key ks md →
  ∃ Y1, user_make_client send_ok bridge i counts n Y =
      Done (Ok (so_next (dm_socom Y)), Y1, [To_peer x (message_bytes request_msg)]) ∧
    dm_socom Y1 = waiting (dm_socom Y) i n ∧ dm_client_keys Y1 = dm_client_keys Y ∧
    b_keys (dm_binding Y1) = ks ∧
    b_service_states (dm_binding Y1) !! key = Some (requested_state counts) ∧
    b_connections (dm_binding Y1) = {[ x ]} ∧
    b_slot_managers (dm_binding Y1) = b_slot_managers (dm_binding Y) ∧
    b_id_mapping (dm_binding Y1) = b_id_mapping (dm_binding Y) ∧
    b_pending_connects (dm_binding Y1) = b_pending_connects (dm_binding Y) ∧
    b_next_local_id (dm_binding Y1) = b_next_local_id (dm_binding Y) ∧
    b_read_only_slot_managers (dm_binding Y1) = b_read_only_slot_managers (dm_binding Y).
Proof.
  intros HY. destruct (cr_bridges _ _ _ _ _ _ HY) as [identity Hb].
  unfold user_make_client, runtime_call. rewrite reads_run.
  pose proof (make_client_waits (dm_socom Y) i n (cr_inv _ _ _ _ _ _ HY) (cr_client _ _ _ _ _ _ HY)
    (cr_server _ _ _ _ _ _ HY)) as Ew.
  rewrite (bind_silent _ _ _ _ _ (on_socom_run _ Y _ _ _ Ew)). cbv beta iota.
  unfold request_forwarded. rewrite Hb, map_to_list_singleton. csimpl. cbn [forM].
  rewrite bind_assoc. cbn [call_back_all call_back]. rewrite N.eqb_refl.
  erewrite bind_run; [|apply binding_sends_run, (consumer_asks counts _ key ks x);
    [apply HY|apply HY|apply (cr_peer _ _ _ _ _ _ HY)]].
  eexists. split; [reflexivity|]. simpl. rewrite lookup_insert_eq.
  split_and!; try done. apply HY.
Qed.

Lemma waiting_record w :
  get_record (waiting w i n) (record_key i n) =
    with_client (get_record w (record_key i n)) (Some (i, so_next w)).
Proof. unfold get_record at 1. simpl. by rewrite lookup_insert_eq. Qed.

(** What the daemons [X'] and [Y'] have become by connecting: both bindings have an entry
    for the connection, the provider's holds a client connector for the service and the
    consumer's a server connector. *)
Record provider_connected (X X' : Daemon) (y : Client_id) (key : Key_t) (c : N) (ids : Ids) :
    Prop := {
  pc_ids : b_id_mapping (dm_binding X') = with_ids y ids (b_id_mapping (dm_binding X));
  pc_peer : b_connections (dm_binding X') = b_connections (dm_binding X);
  pc_client : dm_client_keys X' !! c = Some key;
  pc_users : dm_server_peers X' = dm_server_peers X;
  pc_memory : ∃ ks, get_shared_memory_metadata ks (b_slot_managers (dm_binding X)) key =
    Done (ids_local_metadata ids, b_slot_managers (dm_binding X'));
  pc_state : ∃ st, b_service_states (dm_binding X') !! key = Some st ∧
    ss_client_connector st = Some c ∧ ss_event_subscriptions st = ∅;
}.
Record consumer_connected (Y Y' : Daemon) (x : Client_id) (key : Key_t) (c s : N) (ids : Ids) :
    Prop := {
  cc_ids : b_id_mapping (dm_binding Y') = with_ids x ids (b_id_mapping (dm_binding Y));
  cc_peer : x ∈ b_connections (dm_binding Y');
  cc_provided : dm_server_peers Y' !! s = Some (x, ids_local_handle ids);
  cc_memory : b_read_only_slot_managers (dm_binding Y') = b_read_only_slot_managers (dm_binding Y);
  cc_state : (b_service_states (dm_binding Y') !! key) ≫= ss_enabled_connector = Some s;
  cc_user : dm_client_keys Y' !! c = None;
}.

(** The service arrives: request, offer, connection and reply. *)
Lemma service_arrives bridgeX bridgeY X Y x y s S keyX ksX mdX keyY ksY mdY counts
    addr1 addr2 addr3 addr4 :
  let cY := so_next (dm_socom Y) in
  let cX := so_next (dm_socom X) in
  let required := b_next_local_id (dm_binding Y) in
  let provided := b_next_local_id (dm_binding X) in
  let counts' := {| num_methods := sc_num_methods S; num_events := N.of_nat (sc_num_events S) |} in
  let connect := connect_msg required mdY in
  let reply := Msg_Connect_service_reply (reply_msg required provided mdX counts') in
  let idsX := {| ids_key := keyX; ids_local_handle := provided; ids_remote_handle := required;
                 ids_local_metadata := mdX; ids_remote_metadata := mdY |} in
  let idsY := {| ids_key := keyY; ids_local_handle := provided; ids_remote_handle := required;
                 ids_local_metadata := mdY; ids_remote_metadata := mdX |} in
  provider_ready X y s S keyX ksX mdX → consumer_ready Y x bridgeY keyY ksY mdY →
  message_ok request_msg → message_ok offer_msg → message_ok connect → message_ok reply →
  (addr1 mod 8 = 0)%N → (addr2 mod 8 = 0)%N → (addr3 mod 8 = 0)%N → (addr4 mod 8 = 0)%N →
  ∃ Y1 X1 Y2 X2 Y3,
    let sY := so_next (dm_socom Y1) in
    user_make_client send_ok bridgeY i counts n Y =
      Done (Ok cY, Y1, [To_peer x (message_bytes request_msg)]) ∧
    node_receive send_ok bridgeX y addr1 (message_bytes request_msg) X =
      Done (tt, X1, [To_peer y (message_bytes offer_msg)]) ∧
    node_receive send_ok bridgeY x addr2 (message_bytes offer_msg) Y1 =
      Done (tt, Y2, [To_peer x (message_bytes connect)]) ∧
    node_receive send_ok bridgeX y addr3 (message_bytes connect) X1 =
      Done (tt, X2, [To_peer y (message_bytes reply)]) ∧
    node_receive send_ok bridgeY x addr4 (message_bytes reply) Y2 =
      Done (tt, Y3, [To_user (Cb_service_state_change cY true sY)]) ∧
    (∀ e, (e < num_events counts')%N → unsubscribed_link (dm_socom Y3) cY sY e ∧
      unsubscribed_link (dm_socom X2) cX s e) ∧
    provider_connected X X2 y keyX cX idsX ∧ consumer_connected Y Y3 x keyY cY sY idsY.
Proof.
  intros cY cX required provided counts' connect reply idsX idsY HX HY Hm1 Hm2 Hm3 Hm4 A1 A2 A3
    A4.
  destruct (cr_memory _ _ _ _ _ _ HY) as [smY HmdY].
  destruct (pr_memory _ _ _ _ _ _ _ HX) as [smX HmdX].
  destruct (client_asks bridgeY Y x keyY ksY mdY counts HY)
    as (Y1 & EY1 & HwY1 & HckY1 & HkY1 & HstY1 & HcY1 & HsY1 & HiY1 & HpY1 & HnY1 & HrY1).
  destruct (provider_offers_service bridgeX X y addr1 keyX ksX s S mdX HX Hm1 A1)
    as (X1 & EX1 & HwX1 & HkX1 & HstX1 & HsX1 & HiX1 & HnX1 & HspX1 & HcX1 & HckX1).
  destruct (consumer_connects (dm_binding Y1) x keyY counts mdY smY)
    as (bY2 & EY2 & HkY2 & HcY2 & HiY2 & HsY2 & HstY2 & HpY2 & HrY2).
  { rewrite HkY1. by eapply keys_get_again, HY. }
  { done. }
  { rewrite HcY1. set_solver. }
  { by rewrite HkY1, HsY1. }
  { rewrite HpY1, HnY1. apply HY. }
  rewrite HnY1 in EY2, HstY2, HpY2.
  pose proof (receive_sends send_ok bridgeY x addr2 offer_msg Y1 bY2 x connect Hm2 A2) as EY2'.
  specialize (EY2' ltac:(done) ltac:(done) EY2).
  destruct (provider_accepts (dm_binding X1) y keyX (provided_state counts' cX) required mdY mdX
    smX)
    as (bX2 & EX2 & HiX2 & HcX2 & HstX2 & HmX2).
  { rewrite HkX1. by eapply keys_get_again, HX. }
  { done. }
  { by rewrite HkX1, HsX1. }
  { rewrite HiX1. apply HX. }
  rewrite HnX1 in EX2, HiX2.
  pose proof (receive_sends send_ok bridgeX y addr3 connect X1 bX2 y reply Hm3 A3) as EX2'.
  specialize (EX2' ltac:(done) ltac:(done) EX2).
  assert (so_inv (dm_socom Y1)) as HinvY1.
  { rewrite HwY1. apply (good_waiting_client (dm_socom Y) i n); apply HY. }
  destruct (consumer_completes bridgeY (set_dm_binding Y1 bY2) x addr4 cY keyY
    (set_offers (requested_state counts) {[ x := answered_offer required ]}) required provided mdX
    mdY smY counts') as (Y3 & EY3 & HwY3 & HpY3 & HckY3 & HiY3 & HcY3 & HstY3 & HrY3);
    cbn [dm_binding dm_socom dm_client_keys set_dm_binding] in *; try done.
  { rewrite HkY2, HsY2, HkY1. by eapply metadata_again. }
  { rewrite HiY2, HiY1. apply HY. }
  { rewrite HwY1. apply (cr_identifier _ _ _ _ _ _ HY). }
  { rewrite HwY1, waiting_record. apply HY. }
  { rewrite HwY1, waiting_record. done. }
  { rewrite HckY1. apply HY. }
  exists Y1, X1, (set_dm_binding Y1 bY2), (set_dm_binding X1 bX2), Y3. split_and!; try done.
  - intros e He. split.
    + rewrite HwY3. apply serving_link; try done; rewrite HwY1;
        [apply (cr_identifier _ _ _ _ _ _ HY)|rewrite waiting_record..]; [apply HY|done].
    + cbn [dm_socom set_dm_binding]. rewrite HwX1. apply joined_link; try apply HX. done.
  - split; cbn [dm_binding dm_client_keys dm_server_peers set_dm_binding].
    + by rewrite HiX2, HiX1.
    + by rewrite HcX2, HcX1.
    + done.
    + done.
    + exists ksX. by rewrite HmX2, HmdX.
    + exists (provided_state counts' cX). by rewrite HstX2.
  - split.
    + by rewrite HiY3, HiY2, HiY1.
    + rewrite HcY3, HcY2, HcY1. set_solver.
    + done.
    + by rewrite HrY3, HrY2, HrY1.
    + by rewrite HstY3.
    + rewrite HckY3, HckY1. apply HY.
Qed.
(** A first subscription, in a daemon as a whole: the binding's server connector passes it
    on to the peer, *)
Lemma consumer_subscribes bridge Y c s e x provided :
  unsubscribed_link (dm_socom Y) c s e → dm_server_peers Y !! s = Some (x, provided) →
  x ∈ b_connections (dm_binding Y) →
  ∃ Y', user_call send_ok bridge (Socom.subscribe_event c e mode_update) Y =
      Done (Ok tt, Y', [To_peer x (message_bytes (Msg_Subscribe_event
        {| se_provided_id := provided; se_event_id := e; se_subscribe := true |}))]) ∧
    subscribed_to (dm_socom Y') c s e ∧ dm_client_keys Y' = dm_client_keys Y ∧
    dm_binding Y' = set_sent (dm_binding Y) (b_sent (dm_binding Y) + 1)%N.
Proof.
  intros HY Hs Hx. destruct (first_subscription _ _ _ _ HY) as (w & Ew & Hw).
  eexists. split; [|shelve]. unfold user_call, runtime_call. rewrite reads_run.
  rewrite (bind_silent _ _ _ _ _ (on_socom_run _ Y _ _ _ Ew)). cbv beta iota. cbn [forM].
  rewrite bind_assoc. cbn [call_back_all call_back].
  rewrite (bind_run _ _ _ _ _ _ (binding_subscribes send_ok s e true x provided (set_dm_socom Y w)
    Hs Hx)).
  rewrite Hsetup by done. reflexivity.
  Unshelve. done.
Qed.

(** and at the peer the binding's client connector subscribes, of which the user that
    provides the service is told. *)
Lemma provider_subscribes bridge X y addr ids st c s e :
  let msg := {| se_provided_id := ids_local_handle ids; se_event_id := e; se_subscribe := true |} in
  get_by_local_handle (b_id_mapping (dm_binding X)) y (ids_local_handle ids) = Some ids →
  b_service_states (dm_binding X) !! ids_key ids = Some st → ss_client_connector st = Some c →
  ss_event_subscriptions st !! e = None →
  unsubscribed_link (dm_socom X) c s e → dm_server_peers X !! s = None →
  message_ok (Msg_Subscribe_event msg) → (addr mod 8 = 0)%N →
  ∃ X', node_receive send_ok bridge y addr (message_bytes (Msg_Subscribe_event msg)) X =
      Done (tt, X', [To_user (Cb_event_subscription_change s e true)]) ∧
    subscribed_to (dm_socom X') c s e ∧ dm_client_keys X' = dm_client_keys X ∧
    ∃ m, dm_binding X' = set_service_states (dm_binding X) m.
Proof.
  intros msg Hi Hst Hc He HX Hs Hm Ha. destruct (first_subscription _ _ _ _ HX) as (w & Ew & Hw).
  destruct (subscription_received send_ok y msg no_answers (dm_binding X) ids st c)
    as (m & Eb); [done..|]. set (b' := set_service_states (dm_binding X) m) in Eb.
  pose proof (receive_frame send_ok y addr (Msg_Subscribe_event msg) [] no_answers Hm Ha) as Hrf.
  rewrite app_nil_r in Hrf. rewrite <-Hrf in Eb.
  eexists. split; [|shelve]. unfold node_receive. rewrite (parse_frame addr _ Hm Ha).
  unfold binding_call. rewrite (bind_silent _ _ _ _ _ (on_binding_run _ X _ _ _ Eb)).
  cbv beta iota. cbn [forM node_action]. unfold runtime_call. rewrite !bind_assoc, reads_run.
  rewrite bind_assoc, (bind_silent _ _ _ _ _ (on_socom_run _ (set_dm_binding X b') _ _ _ Ew)).
  cbv beta iota. cbn [forM]. rewrite !bind_assoc. cbn [call_back_all call_back].
  rewrite (bind_run _ _ _ _ _ _ (user_hears_subscription send_ok s e true
    (set_dm_socom (set_dm_binding X b') w) Hs)).
  reflexivity.
  Unshelve. split_and!; [done|done|by exists m].
Qed.
End path.
