(* ===== verification/EventPipeline.v ===== *)
(** * Events between two daemons, as a channel

    A producer and a consumer that are connected for an event of a service
    ([ServicePath] shows how they get there). The producer's user publishes events, the
    frames travel in both directions, and the consumer's user looks at the payloads it was
    given and destroys them, in any order. Every step is the code of a whole daemon
    ([Bridging]); the memory of the service is one block that both daemons have mapped.

    What the users see is specified by a bounded channel: as many events as there are slots
    can be under way, in the hands of the consumer's user or on their way back; they arrive
    in the order of publication, and each shows the bytes it was published with until it is
    destroyed. The transport may refuse a frame at any time: an event whose frame is refused
    is not delivered, and a slot whose way back is refused is lost for good. The daemons
    behave as this channel under every schedule. *)

From stdpp Require Import base numbers list gmap strings.
From Stdlib Require Import Strings.Ascii.
From S2P Require Import Prelude.
From S2P Require Import IpcTypes.
From S2P Require Import Payload.
From S2P Require Import SlotManager.
From S2P Require Import SlotContract.
From S2P Require Import Keys.
From S2P Require Import ConnectionMetadata.
From S2P Require Import SharedMemoryManagers.
From S2P Require Import ServiceState.
From S2P Require Import BindingBase.
From S2P Require Import BindingSafety.
From S2P Require Import BindingProperties.
From S2P Require Import Wire.
From S2P Require Import Socom.
From S2P Require Import SocomInvariant.
From S2P Require Import SocomCalls.
From S2P Require Import EventPath.
From S2P Require Import Ownership.
From S2P Require Import Bridging.
From S2P Require Import ServicePath.

(** ** Specification: a bounded channel *)

(** What happens: the producer's user publishes, a frame arrives at the consumer, the
    consumer's user looks at a payload it holds or destroys it, a frame arrives back at the
    producer. [addr] is the address of the buffer that a frame arrives in. *)
Inductive Pipe_op : Type :=
  | Publish (data : list N)
  | Deliver (addr : N)
  | Look (n : N)
  | Consume (n : N)
  | Give_back (addr : N).

(** What the users see. *)
Inductive Pipe_event : Type :=
  | Accepted
  | Refused
  | Told (a : Socom_action)
  | Seen (n : N) (data : list N).

(** Events under way, events that the consumer's user holds by the numbers of their
    payloads, how many are on their way back, how many were lost on it, and the number of
    the next payload. *)
Record Channel : Type := mkChannel {
  ch_flight : list (list N);
  ch_held : gmap N (list N);
  ch_back : nat;
  ch_lost : nat;
  ch_next : N;
}.

Section channel.
(** The number of credits; the consumer's connector and the event. *)
Context (credits : nat) (subscriber e : N).

Definition ch_used (c : Channel) : nat :=
  length (ch_flight c) + size (ch_held c) + ch_back c + ch_lost c.

(** [lost] tells whether the transport refuses the frame that the operation sends. *)
Definition channel_step (op : Pipe_op) (lost : bool) (c : Channel) :
    Channel * list Pipe_event :=
  match op with
  | Publish data =>
    if ch_used c <? credits then
      (mkChannel (if lost then ch_flight c else ch_flight c ++ [data]) (ch_held c) (ch_back c)
         (ch_lost c) (ch_next c), [Accepted])
    else (c, [Refused])
  | Deliver _ =>
    match ch_flight c with
    | [] => (c, [])
    | data :: rest =>
      (mkChannel rest (<[ch_next c := data]> (ch_held c)) (ch_back c) (ch_lost c)
         (ch_next c + 1)%N, [Told (Cb_event_update subscriber e (ch_next c))])
    end
  | Look n => (c, from_option (λ data, [Seen n data]) [] (ch_held c !! n))
  | Consume n =>
    match ch_held c !! n with
    | None => (c, [])
    | Some _ => (mkChannel (ch_flight c) (delete n (ch_held c))
        (if lost then ch_back c else S (ch_back c)) (if lost then S (ch_lost c) else ch_lost c)
        (ch_next c), [])
    end
  | Give_back _ =>
    (mkChannel (ch_flight c) (ch_held c) (pred (ch_back c)) (ch_lost c) (ch_next c), [])
  end.

(** A schedule, with what the transport does to each operation. *)
Fixpoint channel_run (ops : list (Pipe_op * bool)) (c : Channel) : Channel * list Pipe_event :=
  match ops with
  | [] => (c, [])
  | (op, lost) :: ops =>
    let '(c, o) := channel_step op lost c in
    let '(c, o') := channel_run ops c in (c, o ++ o')
  end.
End channel.

(** ** The daemons *)

(** A mapping of the block at [base]: reading and writing the bytes of a view. *)
Definition mapped_read (base : N) (block : list N) (d : Span) : list N :=
  take (N.to_nat (sp_size d)) (drop (N.to_nat (sp_addr d - base)) block).
Definition mapped_write (base : N) (block : list N) (d : Span) (data : list N) :
    outcome (list N) :=
  if (N.of_nat (length data) <=? sp_size d)%N then memcpy block (sp_addr d - base) data
  else Fault Out_of_bounds.

(** The daemons, the memory of the service, the frames in both directions, and the payloads
    that the consumer's user was given. *)
Record Pipe : Type := mkPipe {
  pp_producer : Daemon;
  pp_consumer : Daemon;
  pp_block : list N;
  pp_forth : list (list N);
  pp_back : list (list N);
  pp_user : gset N;
}.

Abbreviation PM := (M Pipe Pipe_event).

Definition frames_to_peer : list Daemon_action → list (list N) :=
  omap (λ a, match a with To_peer _ bytes => Some bytes | _ => None end).
Definition told_users : list Daemon_action → list Socom_action :=
  omap (λ a, match a with To_user a => Some a | _ => None end).

(** Something happens at one of the daemons; what it sends is under way afterwards, and the
    consumer's user keeps the payloads of the events it is told of. *)
Definition at_producer {A} (m : DM A) : PM A := λ w,
  match m (pp_producer w) with
  | Done (a, d, o) => Done (a, mkPipe d (pp_consumer w) (pp_block w)
      (pp_forth w ++ frames_to_peer o) (pp_back w) (pp_user w), Told <$> told_users o)
  | Fault f => Fault f
  end.
Definition payload_of (a : Socom_action) : option N :=
  match a with Cb_event_update _ _ p => Some p | _ => None end.
Definition at_consumer {A} (m : DM A) : PM A := λ w,
  match m (pp_consumer w) with
  | Done (a, d, o) => Done (a, mkPipe (pp_producer w) d (pp_block w)
      (pp_forth w) (pp_back w ++ frames_to_peer o)
      (list_to_set (omap payload_of (told_users o)) ∪ pp_user w), Told <$> told_users o)
  | Fault f => Fault f
  end.

Definition set_pp_block (w : Pipe) x :=
  mkPipe (pp_producer w) (pp_consumer w) x (pp_forth w) (pp_back w) (pp_user w).
Definition set_pp_forth (w : Pipe) x :=
  mkPipe (pp_producer w) (pp_consumer w) (pp_block w) x (pp_back w) (pp_user w).
Definition set_pp_back (w : Pipe) x :=
  mkPipe (pp_producer w) (pp_consumer w) (pp_block w) (pp_forth w) x (pp_user w).
Definition set_pp_user (w : Pipe) x :=
  mkPipe (pp_producer w) (pp_consumer w) (pp_block w) (pp_forth w) (pp_back w) x.

Section pipe.
Context `{Shm} (send_ok : N → Client_id → Message → bool) (bridgeX bridgeY : N).
(** The producer knows the consumer as [y], the consumer the producer as [x]; the producer's
    user updates the event of [server]; the block is mapped at [baseX] and at [baseY]. *)
Context (x y : Client_id) (server e : N) (baseX baseY : N).

(** The user of the producer, as gatewayd and someipd do it: it allocates a payload, writes
    to it from the front, shrinks it to what is written and updates the event. *)
Definition publish_event (data : list N) : PM unit :=
  p ← at_producer (user_allocate server e);
  match p with
  | None => emit Refused
  | Some p =>
    d ← liftO (payload_data p);
    block ← reads pp_block;
    block ← liftO (mapped_write baseX block d data);
    modify (λ w, set_pp_block w block);;
    '(_, p) ← liftO (shrink p (N.of_nat (length data)));
    at_producer (user_update send_ok bridgeX server e p);;
    emit Accepted
  end.

(** The first frame arrives. *)
Definition deliver_event (addr : N) : PM unit :=
  frames ← reads pp_forth;
  match frames with
  | [] => mret tt
  | bytes :: rest =>
    modify (λ w, set_pp_forth w rest);;
    at_consumer (node_receive send_ok bridgeY x addr bytes)
  end.
Definition deliver_return (addr : N) : PM unit :=
  frames ← reads pp_back;
  match frames with
  | [] => mret tt
  | bytes :: rest =>
    modify (λ w, set_pp_back w rest);;
    at_producer (node_receive send_ok bridgeX y addr bytes)
  end.

(** The consumer's user reads a payload that it holds, and destroys it. *)
Definition look_at (n : N) : PM unit :=
  w ← get_state;
  if decide (n ∈ pp_user w) then
    q ← the Use_after_free (dm_payloads (pp_consumer w) !! n);
    d ← liftO (payload_data q);
    emit (Seen n (mapped_read baseY (pp_block w) d))
  else mret tt.
Definition consume_payload (n : N) : PM unit :=
  user ← reads pp_user;
  if decide (n ∈ user) then
    modify (λ w, set_pp_user w (user ∖ {[ n ]}));;
    at_consumer (user_destroy_payload send_ok n)
  else mret tt.

Definition pipe_op (op : Pipe_op) : PM unit :=
  match op with
  | Publish data => publish_event data
  | Deliver addr => deliver_event addr
  | Look n => look_at n
  | Consume n => consume_payload n
  | Give_back addr => deliver_return addr
  end.
Definition pipe_run (ops : list Pipe_op) : PM unit := forM ops pipe_op.
End pipe.

(** ** Connected daemons *)

(** The producer's side: the event of [server] has the binding's connector as its
    subscriber, and one peer is connected to the service. *)
Record producer_link (X : Daemon) (y : Client_id) (server e : N) (key : Key_t) (ids : Ids) :
    Prop := {
  pl_server : ∃ S c, so_servers (dm_socom X) !! server = Some S ∧
    (e < N.of_nat (sc_num_events S))%N ∧
    event_client (N.to_nat e) (sc_subscriber S) = Some c ∧ dm_client_keys X !! c = Some key;
  pl_peers : for_each_client (b_id_mapping (dm_binding X)) key = [(y, ids)];
  pl_peer : y ∈ b_connections (dm_binding X);
  pl_ids : get_by_remote_handle (b_id_mapping (dm_binding X)) y (ids_remote_handle ids) = Some ids;
  pl_key : ids_key ids = key;
}.

(** The consumer's side: the same connection, the memory that the producer announced, and
    a user's connector as the subscriber of the binding's server. *)
Record consumer_link `{Shm} (Y : Daemon) (x : Client_id) (e subscriber : N)
    (handle : Remote_handle) (r : Read_only_slot_manager) : Prop := {
  cl_producer : x ∈ b_connections (dm_binding Y);
  cl_service : ∃ ids ro s S,
    get_by_remote_handle (b_id_mapping (dm_binding Y)) x handle = Some ids ∧
    get_read_only_shared_memory_slot_manager (b_read_only_slot_managers (dm_binding Y))
      (ids_remote_metadata ids) = Done (r, ro) ∧
    (b_service_states (dm_binding Y) !! ids_key ids) ≫= ss_enabled_connector = Some s ∧
    so_servers (dm_socom Y) !! s = Some S ∧ (e < N.of_nat (sc_num_events S))%N ∧
    event_client (N.to_nat e) (sc_subscriber S) = Some subscriber;
  cl_user : dm_client_keys Y !! subscriber = None;
}.

(** The slots of the service: those in [used] have one owner, the payload that is recorded
    for them, and wait for one consumer; the others are free. *)
Record slots_used (b : Binding) (key : Key_t) (mgr : Slot_manager) (used : list N) : Prop := {
  su_manager : m_slot_managers (b_slot_managers b) !! key = Some mgr;
  su_ok : manager_ok mgr;
  su_nodup : NoDup used;
  su_bound : ∀ h, h ∈ used → (h < m_slot_count mgr)%N;
  su_count : ∀ h, (h < m_slot_count mgr)%N →
    load_count mgr h = if decide (h ∈ used) then 1%N else 0%N;
  su_free : ∀ h, h ∉ used →
    allocation_at (m_shared_memory_allocations (b_slot_managers b)) key h = no_allocation;
  su_payload : ∀ h, h ∈ used → ∃ p,
    allocation_at (m_shared_memory_allocations (b_slot_managers b)) key h =
      {| sma_payload := Some p; sma_pending_consumers := 1 |} ∧
    m_payload_destroyed p = Some (Owns_guard {| m_manager := Some key; m_handle := h |});
}.

#[export] Instance slots_used_perm b key mgr :
  Proper ((≡ₚ) ==> iff) (slots_used b key mgr).
Proof.
  assert (∀ U U', U ≡ₚ U' → slots_used b key mgr U → slots_used b key mgr U') as Hp.
  { intros U U' HU [H1 H2 H3 H4 H5 H6 H7]. split; [done|done|by rewrite <-HU|..].
    - intros h Hh. apply H4. by rewrite HU.
    - intros h Hh. rewrite (H5 h Hh). assert (h ∈ U ↔ h ∈ U') by (by rewrite HU).
      by repeat case_decide; naive_solver.
    - intros h Hh. apply H6. by rewrite HU.
    - intros h Hh. apply H7. by rewrite HU. }
  intros U U' HU. split; by apply Hp.
Qed.

(** Numbers below a bound, without repetition. *)
Definition below (k : N) : list N := N.of_nat <$> seq 0 (N.to_nat k).

Lemma elem_of_below k h : h ∈ below k ↔ (h < k)%N.
Proof.
  unfold below. rewrite list_elem_of_fmap. split.
  - intros (i & -> & Hi%elem_of_seq). lia.
  - intros Hh. exists (N.to_nat h). split; [lia|]. apply elem_of_seq. lia.
Qed.
Lemma length_below k : length (below k) = N.to_nat k.
Proof. unfold below. by rewrite length_fmap, length_seq. Qed.
Lemma NoDup_below k : NoDup (below k).
Proof. apply (NoDup_fmap_2 _), NoDup_seq. Qed.

Lemma bounded_sub (l : list N) k : NoDup l → (∀ h, h ∈ l → (h < k)%N) → l ⊆+ below k.
Proof. intros Hl Hb. apply NoDup_submseteq; [done|]. intros h Hh. by apply elem_of_below, Hb. Qed.

Lemma bounded_length (l : list N) (k : N) :
  NoDup l → (∀ h, h ∈ l → (h < k)%N) → length l ≤ N.to_nat k.
Proof. intros Hl Hb. rewrite <-(length_below k). by apply submseteq_length, bounded_sub. Qed.

Lemma bounded_full (l : list N) (k : N) :
  NoDup l → (∀ h, h ∈ l → (h < k)%N) → length l = N.to_nat k → ∀ h, (h < k)%N → h ∈ l.
Proof.
  intros Hl Hb Hn h Hh. assert (l ≡ₚ below k) as ->; [|by apply elem_of_below].
  apply submseteq_length_Permutation; [by apply bounded_sub|]. rewrite length_below. lia.
Qed.

Lemma bounded_room (l : list N) (k : N) :
  length l < N.to_nat k → ∃ h, (h < k)%N ∧ h ∉ l.
Proof.
  intros Hn. destruct (decide (Exists (λ h, h ∉ l) (below k))) as [He|Hno].
  - apply Exists_exists in He as (h & Hh & Hi). exists h. by apply elem_of_below in Hh.
  - exfalso. assert (length (below k) ≤ length l) as Hle; [|rewrite length_below in Hle; lia].
    apply submseteq_length, NoDup_submseteq; [apply NoDup_below|].
    intros h Hh. destruct (decide (h ∈ l)) as [|Hn']; [done|]. destruct Hno.
    apply Exists_exists. by exists h.
Qed.

(** The slot that is allocated next, if there is one. *)
Lemma next_slot b key mgr used :
  slots_used b key mgr used →
  if decide (length used < N.to_nat (m_slot_count mgr)) then
    ∃ h, (h ∉ used) ∧ (h < m_slot_count mgr)%N ∧
      allocate_slot mgr = (Ok h, store_count mgr h 1)
  else ∃ err, allocate_slot mgr = (Err err, mgr).
Proof.
  intros [_ Hok Hnd Hb Hc _ _]. destruct (allocate_slot mgr) as [[h|err] mgr'] eqn:E.
  - destruct (allocate_slot_Ok _ _ _ Hok E) as (Hh & Hz & -> & _).
    assert (h ∉ used) as Hn. { intros Hi. rewrite (Hc h Hh), decide_True in Hz; done. }
    rewrite decide_True; [by exists h|].
    pose proof (bounded_length used _ Hnd Hb) as Hl.
    destruct (decide (length used = N.to_nat (m_slot_count mgr))) as [Hf|]; [|lia].
    destruct Hn. by apply (bounded_full used (m_slot_count mgr)).
  - unfold allocate_slot in E. destruct (first_free 0 (m_slots mgr)) eqn:Ef; [done|].
    injection E as <- <-. rewrite decide_False; [by eexists|]. intros Hl.
    destruct (bounded_room used _ Hl) as (h & Hh & Hn). apply first_free_None in Ef.
    destruct Hok as [Hlen _].
    destruct (lookup_lt_is_Some_2 (m_slots mgr) (N.to_nat h)) as [s Hs]; [lia|].
    pose proof (proj1 (Forall_lookup _ _) Ef _ _ Hs) as Hne. specialize (Hc h Hh).
    rewrite decide_False in Hc by done. unfold load_count in Hc. rewrite Hs in Hc. done.
Qed.

Lemma filter_fmap_length {A B} (f : A → B) (P : B → Prop) `{!∀ x, Decision (P x)} l :
  length (filter P (f <$> l)) = length (filter (λ x, P (f x)) l).
Proof.
  induction l as [|x l IH]; [done|]. csimpl. rewrite !filter_cons.
  by case_decide; simpl; rewrite IH.
Qed.

(** As many slots are allocated. *)
Lemma used_slots_counted b key mgr used :
  slots_used b key mgr used → get_allocated_slot_count mgr = N.of_nat (length used).
Proof.
  intros [_ [Hlen _] Hnd Hb Hc _ _]. rewrite allocated_slots. f_equal.
  assert (reference_count <$> m_slots mgr = load_count mgr <$> below (m_slot_count mgr)) as ->.
  { apply list_eq. intros i. unfold below. rewrite !list_lookup_fmap. unfold load_count.
    destruct (m_slots mgr !! i) as [s|] eqn:Es.
    - apply lookup_lt_Some in Es as Hi. rewrite lookup_seq_lt by lia. simpl.
      by rewrite Nat2N.id, Es.
    - apply lookup_ge_None in Es. by rewrite (lookup_ge_None_2 (seq _ _)) by (rewrite length_seq;
        lia). }
  rewrite filter_fmap_length. apply Permutation_length, NoDup_Permutation; [|done|].
  - apply NoDup_filter, NoDup_below.
  - intros h. rewrite list_elem_of_filter, elem_of_below. simpl. split.
    + intros [H0 Hh]. rewrite (Hc h Hh) in H0. case_decide; [done|lia].
    + intros Hi. specialize (Hb h Hi). rewrite (Hc h Hb), decide_True by done. lia.
Qed.

(** A slot is taken, and recorded with its payload; a slot comes back. *)
Lemma slots_used_take b key mgr used h p allocs b' :
  slots_used b key mgr used → h ∉ used → (h < m_slot_count mgr)%N →
  m_payload_destroyed p = Some (Owns_guard {| m_manager := Some key; m_handle := h |}) →
  m_slot_managers (b_slot_managers b') !! key = Some (store_count mgr h 1) →
  m_shared_memory_allocations (b_slot_managers b') = allocs →
  (∀ h', allocation_at allocs key h' =
    if decide ((key, h) = (key, h')) then {| sma_payload := Some p; sma_pending_consumers := 1 |}
    else allocation_at (m_shared_memory_allocations (b_slot_managers b)) key h') →
  slots_used b' key (store_count mgr h 1) (h :: used).
Proof.
  intros [H1 H2 H3 H4 H5 H6 H7] Hn Hh Hp Hm Ha Hal. split.
  - done.
  - by apply manager_ok_store.
  - by apply NoDup_cons.
  - intros h' [->|Hi]%elem_of_cons; [done|by apply H4].
  - intros h' Hh'. rewrite load_count_store by done.
    destruct (decide (h = h')) as [<-|Hne]; [by rewrite decide_True by left|].
    rewrite (H5 h' Hh'). do 2 case_decide; set_solver.
  - intros h' [Hne Hi]%not_elem_of_cons. rewrite Ha, Hal, decide_False by congruence. by apply H6.
  - intros h' Hi. rewrite Ha, Hal. case_decide as E; [injection E as <-; by eexists|].
    apply H7. apply elem_of_cons in Hi as [->|]; [done|done].
Qed.

Lemma slots_used_return b key mgr used h allocs b' :
  slots_used b key mgr (h :: used) →
  m_slot_managers (b_slot_managers b') !! key = Some (store_count mgr h 0) →
  m_shared_memory_allocations (b_slot_managers b') = allocs →
  (∀ h', allocation_at allocs key h' =
    if decide ((key, h) = (key, h')) then no_allocation
    else allocation_at (m_shared_memory_allocations (b_slot_managers b)) key h') →
  slots_used b' key (store_count mgr h 0) used.
Proof.
  intros [H1 H2 [Hn H3]%NoDup_cons H4 H5 H6 H7] Hm Ha Hal.
  assert (h < m_slot_count mgr)%N as Hh by (apply H4; left). split.
  - done.
  - by apply manager_ok_store.
  - done.
  - intros h' Hi. apply H4. by right.
  - intros h' Hh'. rewrite load_count_store by done.
    destruct (decide (h = h')) as [<-|Hne]; [by rewrite decide_False|].
    rewrite (H5 h' Hh'). do 2 case_decide; set_solver.
  - intros h' Hi. rewrite Ha, Hal. case_decide as E; [done|]. apply H6. set_solver.
  - intros h' Hi. rewrite Ha, Hal, decide_False; [apply H7; by right|]. by intros [= <-].
Qed.

(** A slot is in the hands of the producer's user: allocated, and not recorded yet. *)
Record slot_in_hand (b : Binding) (key : Key_t) (mgr : Slot_manager) (used : list N) (h : N) :
    Prop := {
  sh_new : h ∉ used;
  sh_bound : (h < m_slot_count mgr)%N;
  sh_manager : m_slot_managers (b_slot_managers b) !! key = Some (store_count mgr h 1);
  sh_before : ∃ b0, slots_used b0 key mgr used ∧
    m_shared_memory_allocations (b_slot_managers b) =
      m_shared_memory_allocations (b_slot_managers b0);
}.

Lemma in_hand_count b key mgr used h :
  slot_in_hand b key mgr used h → load_count (store_count mgr h 1) h = 1%N.
Proof.
  intros [_ Hh _ (b0 & Hu & _)]. rewrite load_count_store by (done || apply Hu).
  by rewrite decide_True.
Qed.

(** It is given up. *)
Lemma slot_given_up b key mgr used h b' :
  slot_in_hand b key mgr used h →
  m_slot_managers (b_slot_managers b') !! key = Some (store_count (store_count mgr h 1) h 0) →
  m_shared_memory_allocations (b_slot_managers b') =
    m_shared_memory_allocations (b_slot_managers b) →
  slots_used b' key (store_count (store_count mgr h 1) h 0) used.
Proof.
  intros [Hn Hh _ (b0 & [H1 H2 H3 H4 H5 H6 H7] & Ha)] Hm Hal. split; try done.
  - by repeat apply manager_ok_store.
  - intros h' Hh'. rewrite !load_count_store by (try apply manager_ok_store; done).
    destruct (decide (h = h')) as [<-|]; [by rewrite decide_False|by apply H5].
  - intros h' Hi. rewrite Hal, Ha. by apply H6.
  - intros h' Hi. rewrite Hal, Ha. by apply H7.
Qed.

(** A payload that owns the guard of a slot is destroyed. *)
Lemma guard_payload_destroyed `{Shm} send_ok (p : Event_payload) key h b mgr :
  m_payload_destroyed p = Some (Owns_guard {| m_manager := Some key; m_handle := h |}) →
  m_slot_managers (b_slot_managers b) !! key = Some mgr → (h < m_slot_count mgr)%N →
  load_count mgr h = 1%N →
  destroy_payloads send_ok [p] b = Done (tt, set_slot_managers b (set_m_slot_managers
    (b_slot_managers b) (<[key := store_count mgr h 0]> (m_slot_managers (b_slot_managers b)))), []).
Proof.
  intros Hp Hm Hh Hc. unfold destroy_payloads, destroy_payload, call_payload_destroyed. simpl.
  rewrite Hp. simpl. unfold mbind, M_bind. simpl. unfold on_manager. simpl. rewrite Hm.
  unfold release_slot. rewrite Hc, (proj2 (N.leb_gt _ _)) by done. reflexivity.
Qed.

(** ** The steps of the daemons *)

Section steps.
Context `{Shm} (send_ok : N → Client_id → Message → bool) (bridge : N).

(** What travels for an event in slot [h] with [size] bytes. *)
Definition slot_handle (h size : N) : Shared_memory_handle :=
  {| slot_index := h; used_bytes := size |}.
Definition update_message (y : Client_id) (e : N) (ids : Ids) (h size : N) : Message :=
  update_for e (slot_handle h size) (y, ids).
Definition consumed_message (ids : Ids) (h size : N) : Message :=
  Msg_Payload_consumed {| pc_required_id := ids_remote_handle ids;
    pc_handle := slot_handle h size |}.

(** What an event needs to fit its fields: the event's number, the handle and the sizes. *)
Record event_fits (e : N) (ids : Ids) (mgr : Slot_manager) : Prop := {
  ef_event : fits 16 e;
  ef_handle : fits 64 (ids_remote_handle ids);
  ef_size : (0 < m_slot_size mgr)%N;
  ef_count : (m_slot_count mgr < kNoSlotHandle)%N;
  ef_block : fits 64 (m_slot_count mgr * m_slot_size mgr);
  ef_slots : (0 < m_slot_count mgr)%N;
}.

Lemma event_fits_store e ids mgr h c : event_fits e ids mgr → event_fits e ids (store_count mgr h
  c).
Proof. by intros []. Qed.

Lemma messages_ok y e ids mgr h size :
  event_fits e ids mgr → (h < m_slot_count mgr)%N → (size ≤ m_slot_size mgr)%N →
  message_ok (update_message y e ids h size) ∧ message_ok (consumed_message ids h size).
Proof.
  intros [He Hi Hs Hc Hb _] Hh Hz. unfold kNoSlotHandle, size_max, fits in *.
  assert (m_slot_size mgr ≤ m_slot_count mgr * m_slot_size mgr)%N by nia.
  split; repeat split; simpl; try done; lia.
Qed.

(** The runtime asks the binding's connector for memory. *)
Lemma subscribed_allocate_run s S e c w :
  so_servers w !! s = Some S → (e < N.of_nat (sc_num_events S))%N →
  event_client (N.to_nat e) (sc_subscriber S) = Some c →
  Socom.allocate_event_payload s e (Ok tt) w = Done (Ok tt, w, [Cb_event_payload_allocate c e]).
Proof.
  intros ES He Hc. unfold Socom.allocate_event_payload. rewrite (get_server_run _ _ _ _ ES).
  rewrite (proj2 (N.leb_gt _ _)) by done.
  assert (N.to_nat e < length (sc_subscriber S)) as Hl.
  { unfold event_client in Hc. destruct (sc_subscriber S !! N.to_nat e) eqn:E; [|done].
    by eapply lookup_lt_Some. }
  rewrite assert_run by by apply Nat.ltb_lt. by rewrite Hc.
Qed.

Lemma same_socom d : set_dm_socom d (dm_socom d) = d.
Proof. by destruct d. Qed.

Lemma producer_allocates X y server e key ids b r :
  producer_link X y server e key ids →
  event_payload_allocate key (dm_binding X) = Done (r, b, []) →
  user_allocate server e X =
    Done (match r with Ok p => Some p | Err _ => None end, set_dm_binding X b, []).
Proof.
  intros Hl Hr. destruct (pl_server _ _ _ _ _ _ Hl) as (S & c & ES & He & Hc & Hk).
  unfold user_allocate. rewrite (bind_silent _ _ _ _ _ (on_socom_run _ X _ _ _
    (subscribed_allocate_run server S e c _ ES He Hc))).
  cbv beta iota. rewrite same_socom, reads_run, Hk.
  by rewrite (bind_silent _ _ _ _ _ (on_binding_run _ X _ _ _ Hr)).
Qed.

Lemma producer_link_frame X X' y server e key ids :
  producer_link X y server e key ids → dm_socom X' = dm_socom X →
  dm_client_keys X' = dm_client_keys X →
  b_id_mapping (dm_binding X') = b_id_mapping (dm_binding X) →
  b_connections (dm_binding X') = b_connections (dm_binding X) →
  producer_link X' y server e key ids.
Proof. intros [] H1 H2 H3 H4. split; by rewrite ?H1, ?H2, ?H3, ?H4. Qed.

(** The producer's user updates the event; the binding tries to send one message. *)
Lemma producer_update_run X y server e key ids (p : Event_payload) b msg sent :
  producer_link X y server e key ids →
  send_event_update send_ok key e p (dm_binding X) = Done (tt, b, [Send y msg sent]) →
  ∃ X', user_update send_ok bridge server e p X =
      Done (tt, X', if sent then [To_peer y (message_bytes msg)] else []) ∧
    dm_socom X' = dm_socom X ∧ dm_client_keys X' = dm_client_keys X ∧ dm_binding X' = b.
Proof.
  intros Hl Eb. destruct (pl_server _ _ _ _ _ _ Hl) as (S & c & ES & He & Hc & Hk).
  set (n := dm_next_payload X).
  set (X1 := set_dm_payloads X (<[n := p]> (dm_payloads X)) (n + 1)%N).
  set (X2 := set_dm_payloads X1 (delete n (dm_payloads X1)) (n + 1)%N).
  exists (set_dm_binding X2 b). split; [|done].
  unfold user_update, new_payload. rewrite bind_assoc, reads_run, bind_assoc, modify_run.
  fold n X1. rewrite (bind_silent _ _ X1 n X1) by done.
  unfold user_call, runtime_call. rewrite bind_assoc, reads_run, bind_assoc.
  rewrite (bind_silent _ _ X1 _ _ (on_socom_run _ X1 _ _ _
    (subscribed_update_run server S e c n _ ES He Hc))).
  change (set_dm_socom X1 (dm_socom X)) with X1. cbv beta iota. cbn [forM].
  rewrite !bind_assoc. cbn [call_back_all call_back route_callback]. rewrite bind_assoc, reads_run.
  assert (dm_client_keys X1 !! c = Some key) as -> by done.
  assert (take_payload n X1 = Done (p, X2, [])) as Et.
  { unfold take_payload. rewrite reads_run. simpl. by rewrite lookup_insert_eq. }
  rewrite bind_assoc, (bind_silent _ _ _ _ _ Et), bind_assoc.
  rewrite (bind_silent _ _ _ _ _ (on_binding_run _ X2 _ _ _ Eb)). by destruct sent.
Qed.

(** The memory is where it was. *)
Definition same_memory (mgr mgr' : Slot_manager) : Prop :=
  m_slot_size mgr' = m_slot_size mgr ∧ m_slot_count mgr' = m_slot_count mgr ∧
  m_base_address mgr' = m_base_address mgr.

(** The payload of a slot in hand is sent to the peer, and recorded; or the channel refuses
    it, and the slot is free again. *)
Lemma producer_updates X y server e key ids mgr used h (p : Event_payload) d :
  producer_link X y server e key ids → slot_in_hand (dm_binding X) key mgr used h →
  payload_data p = Done d → get_slot_handle p = h → (h < kNoSlotHandle)%N →
  m_payload_destroyed p = Some (Owns_guard {| m_manager := Some key; m_handle := h |}) →
  let msg := update_message y e ids h (sp_size d) in
  ∃ sent X' mgr', (sent = false → ∃ k, send_ok k y msg = false) ∧
    user_update send_ok bridge server e p X =
      Done (tt, X', if sent then [To_peer y (message_bytes msg)] else []) ∧
    producer_link X' y server e key ids ∧ same_memory mgr mgr' ∧
    slots_used (dm_binding X') key mgr' (if sent then h :: used else used).
Proof.
  intros Hl Hh Hd Hp Hk Hg msg. pose proof Hh as [Hn Hb Hm (b0 & Hu & Ha)].
  pose proof (send_to_one_peer send_ok key e p d y ids (dm_binding X) (pl_peers _ _ _ _ _ _ Hl)
    (pl_peer _ _ _ _ _ _ Hl) Hd) as Hs. rewrite Hp, Ha in Hs.
  specialize (Hs Hk (su_free _ _ _ _ Hu h Hn)). cbv zeta in Hs.
  change (update_for e _ (y, ids)) with msg in Hs.
  exists (send_ok (b_sent (dm_binding X)) y msg).
  destruct (send_ok (b_sent (dm_binding X)) y msg) eqn:Eok.
  - destruct Hs as (allocs & Eb & Hal).
    destruct (producer_update_run X y server e key ids p _ msg true Hl Eb)
      as (X' & E & H1 & H2 & H3).
    exists X', (store_count mgr h 1). split_and!; try done.
    + eapply producer_link_frame; [exact Hl|done|done|by rewrite H3..].
    + apply (slots_used_take b0 _ _ _ _ p allocs); try done; by rewrite H3.
  - specialize (Hs _ _ (guard_payload_destroyed send_ok p key h (set_sent (dm_binding X) _) _
      Hg Hm Hb (in_hand_count _ _ _ _ _ Hh))).
    destruct (producer_update_run X y server e key ids p _ msg false Hl Hs)
      as (X' & E & H1 & H2 & H3).
    exists X', (store_count (store_count mgr h 1) h 0). split_and!; try done; [by eauto|..].
    + eapply producer_link_frame; [exact Hl|done|done|by rewrite H3..].
    + eapply slot_given_up; [exact Hh|rewrite H3; apply lookup_insert_eq|by rewrite H3].
Qed.

(** The user gives the payload up instead. *)
Lemma producer_gives_up X y server e key ids mgr used h (p : Event_payload) :
  producer_link X y server e key ids → slot_in_hand (dm_binding X) key mgr used h →
  m_payload_destroyed p = Some (Owns_guard {| m_manager := Some key; m_handle := h |}) →
  ∃ X' mgr', ('(_, actions) ← on_binding (destroy_payloads send_ok [p]);
      forM actions route_send) X = Done (tt, X', []) ∧
    producer_link X' y server e key ids ∧ same_memory mgr mgr' ∧
    slots_used (dm_binding X') key mgr' used.
Proof.
  intros Hl Hh Hg. pose proof Hh as [_ Hb Hm _].
  pose proof (guard_payload_destroyed send_ok p key h (dm_binding X) _ Hg Hm Hb
    (in_hand_count _ _ _ _ _ Hh)) as Ed.
  eexists _, (store_count (store_count mgr h 1) h 0). split_and!.
  - rewrite (bind_silent _ _ _ _ _ (on_binding_run _ X _ _ _ Ed)). reflexivity.
  - by eapply producer_link_frame.
  - done.
  - eapply slot_given_up; [exact Hh|apply lookup_insert_eq|done].
Qed.

(** A payload for an event: a free slot is allocated, if there is one. *)
Lemma producer_takes_slot X y server e key ids mgr used :
  producer_link X y server e key ids → slots_used (dm_binding X) key mgr used →
  event_fits e ids mgr →
  if decide (length used < N.to_nat (m_slot_count mgr)) then
    ∃ h p X1, user_allocate server e X = Done (Some p, X1, []) ∧
      payload_data p = Done {| sp_addr := m_base_address mgr + h * m_slot_size mgr;
                               sp_size := m_slot_size mgr |} ∧
      producer_link X1 y server e key ids ∧ slot_in_hand (dm_binding X1) key mgr used h ∧
      (h < kNoSlotHandle)%N ∧
      m_payload_destroyed p = Some (Owns_guard {| m_manager := Some key; m_handle := h |}) ∧
      ∀ size, (size ≤ m_slot_size mgr)%N → ∃ p', shrink p size = Done (true, p') ∧
        payload_data p' = Done {| sp_addr := m_base_address mgr + h * m_slot_size mgr;
                                  sp_size := size |} ∧
        get_slot_handle p' = h ∧ m_payload_destroyed p' = m_payload_destroyed p
  else user_allocate server e X = Done (None, X, []).
Proof.
  intros Hl Hu [He Hi Hs Hct Hb _]. pose proof (next_slot _ _ _ _ Hu) as Hn.
  pose proof (su_manager _ _ _ _ Hu) as Hm. pose proof (su_ok _ _ _ _ Hu) as Hok.
  case_decide as Hroom.
  - destruct Hn as (h & Hh & Hlt & Ea).
    pose proof (allocate_payload_run key (dm_binding X) mgr h Hm Hok Hs Hct Hb Ea) as Er.
    set (p := make_payload _ _ _ _ _) in Er. set (b1 := set_slot_managers _ _) in Er.
    assert (payload_ok p) as Hp. { split; simpl; unfold fits in *; [lia|nia]. }
    assert (payload_data p = Done {| sp_addr := m_base_address mgr + h * m_slot_size mgr;
      sp_size := m_slot_size mgr |}) as Hd.
    { rewrite (payload_data_ok p Hp). simpl. do 2 f_equal; lia. }
    exists h, p, (set_dm_binding X b1). split_and!; try done.
    + by rewrite (producer_allocates X y server e key ids b1 (Ok p) Hl Er).
    + by eapply producer_link_frame.
    + split; [done|done|apply lookup_insert_eq|]. by exists (dm_binding X).
    + lia.
    + intros size Hz. destruct (shrink_spec p size Hp) as (d & Hd' & Hshrink).
      rewrite Hd in Hd'. injection Hd' as <-. rewrite decide_True in Hshrink by done.
      destruct Hshrink as (p' & Esh & _ & Hd' & _ & Hh' & Hdes). by exists p'.
  - destruct Hn as [err Ea].
    rewrite (producer_allocates X y server e key ids (dm_binding X) (Err err) Hl).
    + by destruct X.
    + by apply (allocate_payload_full key (dm_binding X) mgr).
Qed.

(** The slot comes back with the message of its consumer. *)
Lemma producer_gets_back X y server e key ids mgr used h size addr :
  producer_link X y server e key ids → slots_used (dm_binding X) key mgr (h :: used) →
  event_fits e ids mgr → (size ≤ m_slot_size mgr)%N → (addr mod 8 = 0)%N →
  ∃ X', node_receive send_ok bridge y addr (message_bytes (consumed_message ids h size)) X =
      Done (tt, X', []) ∧ producer_link X' y server e key ids ∧
    slots_used (dm_binding X') key (store_count mgr h 0) used.
Proof.
  intros Hl Hu Hf Hz Haddr.
  pose proof (su_bound _ _ _ _ Hu h ltac:(left)) as Hh.
  destruct (su_payload _ _ _ _ Hu h ltac:(left)) as (p & Ha & Hp).
  pose proof (su_count _ _ _ _ Hu h Hh) as Hc. rewrite decide_True in Hc by left.
  pose proof (su_manager _ _ _ _ Hu) as Hm. pose proof (pl_key _ _ _ _ _ _ Hl) as Hk.
  destruct (messages_ok y e ids mgr h size Hf Hh Hz) as [_ Hmsg].
  destruct (consumed_run send_ok y {| pc_required_id := ids_remote_handle ids;
    pc_handle := slot_handle h size |} (dm_binding X) ids p mgr) as (allocs & E & Hal);
    try (by rewrite Hk); [apply Hl|done|done|].
  cbn [pc_handle slot_handle slot_index] in E, Hal. rewrite Hk in E, Hal.
  eexists. split_and!.
  - unfold node_receive. rewrite (parse_frame addr _ Hmsg Haddr). cbn [consumed_message].
    apply binding_call_silent. pose proof (receive_frame send_ok y addr (consumed_message ids h
      size)
      [] no_answers Hmsg Haddr) as Hr. rewrite app_nil_r in Hr.
    rewrite Hr. exact E.
  - by eapply producer_link_frame.
  - eapply slots_used_return; [exact Hu|apply lookup_insert_eq|done|]. intros h'. simpl. apply Hal.
Qed.

(** Memory that is open stays open. *)
Lemma read_only_again ro md r ro' :
  get_read_only_shared_memory_slot_manager ro md = Done (r, ro') →
  get_read_only_shared_memory_slot_manager ro' md = Done (r, ro').
Proof.
  unfold get_read_only_shared_memory_slot_manager.
  destruct (fixed_string_to_string (path md)) as [p|]; [|done]. simpl.
  destruct (ro !! p) as [m|] eqn:E; [by intros [= -> ->]; rewrite E|].
  intros (x & _ & Hk)%outcome_bind_Done. apply outcome_bind_Done in Hk as (m & _ & [= -> <-]).
  by rewrite lookup_insert_eq.
Qed.

(** The payload that the consumer's user gets. *)
Definition consumer_payload (x : Client_id) (handle : Remote_handle) (r : Read_only_slot_manager)
    (h size : N) : Event_payload :=
  make_read_only_shared_memory_payload (ro_base_address r) h (ro_slot_size r) size
    (Notify_consumed x handle (slot_handle h size)).

Lemma consumer_payload_data x handle r h size :
  (h < ro_slot_count r)%N → (size ≤ ro_slot_size r)%N → fits 64 (ro_slot_count r * ro_slot_size r) →
  payload_data (consumer_payload x handle r h size) =
    Done {| sp_addr := ro_base_address r + h * ro_slot_size r; sp_size := size |}.
Proof.
  intros Hh Hs Hf. unfold fits in Hf. unfold payload_data, subspan. simpl.
  change (wrap64 (0 + 0)) with 0%N.
  rewrite (proj2 (N.leb_le _ _)) by lia. rewrite wrap_small by (unfold fits; nia).
  f_equal. f_equal; lia.
Qed.

(** The frame arrives: the consumer's user is told, and given a payload. *)
Lemma consumer_gets Y x y e subscriber ids mgr r h size addr :
  consumer_link Y x e subscriber (ids_remote_handle ids) r → event_fits e ids mgr →
  ro_slot_count r = m_slot_count mgr → (h < m_slot_count mgr)%N → (size ≤ m_slot_size mgr)%N →
  (addr mod 8 = 0)%N →
  let n := dm_next_payload Y in
  ∃ Y', node_receive send_ok bridge x addr (message_bytes (update_message y e ids h size)) Y =
      Done (tt, Y', [To_user (Cb_event_update subscriber e n)]) ∧
    consumer_link Y' x e subscriber (ids_remote_handle ids) r ∧
    dm_payloads Y' = <[n := consumer_payload x (ids_remote_handle ids) r h size]> (dm_payloads Y) ∧
    dm_next_payload Y' = (n + 1)%N.
Proof.
  intros Hl Hf Hct Hh Hz Haddr n.
  destruct (messages_ok y e ids mgr h size Hf Hh Hz) as [Hmsg _].
  destruct (cl_service _ _ _ _ _ _ Hl) as (ids' & ro & s & S & Hi & Hr & Hs & ES & He & Hc).
  set (q := consumer_payload x (ids_remote_handle ids) r h size).
  assert (on_receive_message send_ok x addr (message_bytes (update_message y e ids h size))
    no_answers
    (dm_binding Y) = Done (tt, set_read_only_slot_managers (dm_binding Y) ro,
      [BindingBase.Update_event s e q])) as E.
  { pose proof (receive_frame send_ok x addr (update_message y e ids h size) [] no_answers Hmsg
      Haddr)
      as Hrf. rewrite app_nil_r in Hrf. rewrite Hrf.
    apply (event_update_received send_ok x {| eu_required_id := ids_remote_handle ids;
      eu_event_id := e; eu_payload := slot_handle h size |} no_answers (dm_binding Y) ids' s r ro
        q);
      try done. unfold get_payload. simpl. by rewrite (proj2 (N.leb_gt _ _)) by lia. }
  set (Y1 := set_dm_binding Y (set_read_only_slot_managers (dm_binding Y) ro)).
  set (Y2 := set_dm_payloads Y1 (<[n := q]> (dm_payloads Y1)) (n + 1)%N).
  exists Y2. split_and!; [| |done|done].
  - unfold node_receive. rewrite (parse_frame addr _ Hmsg Haddr). cbn [update_message update_for].
    unfold binding_call. rewrite (bind_silent _ _ _ _ _ (on_binding_run _ Y _ _ _ E)). fold Y1.
    cbv beta iota. cbn [forM node_action]. unfold new_payload.
    rewrite !bind_assoc, reads_run, bind_assoc, modify_run. change (dm_next_payload Y1) with n.
    fold Y2. rewrite (bind_silent _ _ Y2 n Y2) by done. unfold runtime_call.
    rewrite !bind_assoc, reads_run, bind_assoc.
    rewrite (bind_silent _ _ Y2 _ _ (on_socom_run _ Y2 _ _ _
      (subscribed_update_run s S e subscriber n _ ES He Hc))).
    change (set_dm_socom Y2 (dm_socom Y)) with Y2. cbv beta iota. cbn [forM]. rewrite !bind_assoc.
    cbn [call_back_all call_back route_callback]. rewrite bind_assoc, reads_run.
    assert (dm_client_keys Y2 !! subscriber = None) as -> by apply Hl. reflexivity.
  - split; [apply Hl| |apply Hl]. exists ids', ro, s, S.
    split_and!; try done. by eapply read_only_again.
Qed.

(** The consumer's user destroys a payload: the producer is told, if the channel accepts
    the message. *)
Lemma consumer_destroys Y x e subscriber ids r n h size :
  consumer_link Y x e subscriber (ids_remote_handle ids) r →
  dm_payloads Y !! n = Some (consumer_payload x (ids_remote_handle ids) r h size) →
  let msg := consumed_message ids h size in
  ∃ sent Y', (sent = false → ∃ k, send_ok k x msg = false) ∧
    user_destroy_payload send_ok n Y =
      Done (tt, Y', if sent then [To_peer x (message_bytes msg)] else []) ∧
    consumer_link Y' x e subscriber (ids_remote_handle ids) r ∧
    dm_payloads Y' = delete n (dm_payloads Y) ∧ dm_next_payload Y' = dm_next_payload Y.
Proof.
  intros Hl Hn msg. set (q := consumer_payload _ _ _ _ _) in Hn.
  set (Y1 := set_dm_payloads Y (delete n (dm_payloads Y)) (dm_next_payload Y)).
  assert (take_payload n Y = Done (q, Y1, [])) as Et.
  { unfold take_payload. rewrite reads_run. simpl. by rewrite Hn. }
  pose proof (consumed_payload_reported send_ok x (ids_remote_handle ids) (slot_handle h size) q
    (dm_binding Y1) eq_refl (cl_producer _ _ _ _ _ _ Hl)) as E.
  change (Msg_Payload_consumed _) with msg in E. cbv zeta in E.
  exists (send_ok (b_sent (dm_binding Y1)) x msg),
    (set_dm_binding Y1 (set_sent (dm_binding Y1) (b_sent (dm_binding Y1) + 1)%N)).
  split_and!; [by eauto| |by destruct Hl|done|done]. unfold user_destroy_payload.
  rewrite (bind_silent _ _ _ _ _ Et), (bind_silent _ _ _ _ _ (on_binding_run _ Y1 _ _ _ E)).
  by destruct (send_ok _ x msg).
Qed.
End steps.

(** ** The memory *)

(** The first [n] bytes of slot [h]. *)
Definition slot_bytes (size : N) (block : list N) (h : N) (n : nat) : list N :=
  take n (drop (N.to_nat (h * size)) block).

Lemma read_slot base size block h n :
  mapped_read base block {| sp_addr := base + h * size; sp_size := N.of_nat n |} =
    slot_bytes size block h n.
Proof.
  unfold mapped_read, slot_bytes. simpl. rewrite Nat2N.id.
  by replace (base + h * size - base)%N with (h * size)%N by lia.
Qed.

Lemma write_slot base size count block h data :
  (h < count)%N → N.to_nat (count * size) ≤ length block → (N.of_nat (length data) ≤ size)%N →
  ∃ block', mapped_write base block {| sp_addr := base + h * size;
    sp_size := size |} data = Done block' ∧
    length block' = length block ∧ slot_bytes size block' h (length data) = data ∧
    ∀ h' n, h' ≠ h → (N.of_nat n ≤ size)%N → slot_bytes size block' h' n = slot_bytes size block h'
      n.
Proof.
  intros Hh Hl Hd. unfold mapped_write. cbn [sp_addr sp_size].
  rewrite (proj2 (N.leb_le _ _)) by done.
  replace (base + h * size - base)%N with (h * size)%N by lia. unfold memcpy.
  assert (h * size + size ≤ count * size)%N as Hb by nia.
  rewrite (proj2 (N.leb_le _ _)) by lia. eexists. split; [reflexivity|].
  assert (length (take (N.to_nat (h * size)) block) = N.to_nat (h * size)) as Ht.
  { rewrite length_take. lia. }
  split_and!.
  - rewrite !length_app, length_drop, Ht. lia.
  - unfold slot_bytes. rewrite drop_app_length' by done. by rewrite take_app_length'.
  - intros h' n Hne Hn. unfold slot_bytes. apply list_eq. intros i.
    destruct (decide (i < n)) as [Hi|]; [|by rewrite !lookup_take_ge by lia].
    rewrite !lookup_take_lt, !lookup_drop by done.
    destruct (decide (h' < h)%N) as [Hlt|Hge].
    + assert (h' * size + size ≤ h * size)%N by nia.
      rewrite lookup_app_l by lia. by rewrite lookup_take_lt by lia.
    + assert (h * size + size ≤ h' * size)%N by nia.
      rewrite lookup_app_r by lia. rewrite Ht, lookup_app_r by lia. rewrite lookup_drop. f_equal.
      lia.
Qed.

(** ** The daemons behave as the channel *)

(** An operation that can happen: the bytes fit a slot, buffers are aligned. *)
Definition pipe_op_ok (size : N) (op : Pipe_op) : Prop :=
  match op with
  | Publish data => (N.of_nat (length data) ≤ size)%N
  | Deliver addr | Give_back addr => (addr mod 8 = 0)%N
  | Look _ | Consume _ => True
  end.

Section simulation.
Context `{Shm} (send_ok : N → Client_id → Message → bool) (bridgeX bridgeY : N).
Context (x y : Client_id) (server subscriber e : N) (key : Key_t) (ids : Ids).
(** The manager of the producer at the start, and the consumer's view of its memory. *)
Context (mgr0 : Slot_manager) (r : Read_only_slot_manager).
Context (Hfits : event_fits e ids mgr0).
Context (Hsize : ro_slot_size r = m_slot_size mgr0) (Hcount : ro_slot_count r = m_slot_count mgr0).

Abbreviation size0 := (m_slot_size mgr0).
Abbreviation count0 := (m_slot_count mgr0).
Abbreviation Slot := (N * list N)%type.

(** The frames for an event in a slot. *)
Definition forth_frame (s : Slot) : list N :=
  message_bytes (update_message y e ids s.1 (N.of_nat (length s.2))).
Definition back_frame (s : Slot) : list N :=
  message_bytes (consumed_message ids s.1 (N.of_nat (length s.2))).

(** Events under way, held, on their way back and lost on it, each with its slot. *)
Definition all_slots (fl : list Slot) (hl : gmap N Slot) (bk gn : list Slot) : list Slot :=
  fl ++ (map_to_list hl).*2 ++ bk ++ gn.

(** How the operations move the slots. *)
Lemma all_slots_publish fl hl bk gn s :
  all_slots (fl ++ [s]) hl bk gn ≡ₚ s :: all_slots fl hl bk gn.
Proof. unfold all_slots. rewrite <-(assoc_L (++)). simpl. symmetry. apply Permutation_middle. Qed.
Lemma all_slots_deliver fl hl bk gn n s :
  hl !! n = None → all_slots fl (<[n := s]> hl) bk gn ≡ₚ all_slots (s :: fl) hl bk gn.
Proof.
  intros Hn. unfold all_slots. rewrite map_to_list_insert by done. simpl. symmetry.
  apply Permutation_middle.
Qed.
Lemma all_slots_return fl hl bk gn s :
  all_slots fl hl (s :: bk) gn ≡ₚ s :: all_slots fl hl bk gn.
Proof.
  unfold all_slots. rewrite !(assoc_L (++) fl). symmetry. apply Permutation_middle.
Qed.
Lemma all_slots_lose fl hl bk gn s :
  all_slots fl hl bk (s :: gn) ≡ₚ s :: all_slots fl hl bk gn.
Proof.
  unfold all_slots. rewrite !(assoc_L (++) fl), !(assoc_L (++) _ bk). symmetry.
  apply Permutation_middle.
Qed.
(** A payload is destroyed, and its slot is on its way back or lost. *)
Definition give_back (sent : bool) (s : Slot) (bk : list Slot) : list Slot :=
  if sent then bk ++ [s] else bk.
Definition lose (sent : bool) (s : Slot) (gn : list Slot) : list Slot :=
  if sent then gn else s :: gn.
Lemma all_slots_consume fl hl bk gn n s sent :
  hl !! n = Some s →
  all_slots fl (delete n hl) (give_back sent s bk) (lose sent s gn) ≡ₚ all_slots fl hl bk gn.
Proof.
  intros Hn. trans (s :: all_slots fl (delete n hl) bk gn).
  - destruct sent; simpl; [|apply all_slots_lose]. rewrite <-all_slots_return. unfold all_slots.
    by rewrite (Permutation_app_comm bk [s]).
  - rewrite <-all_slots_publish. unfold all_slots. rewrite <-(map_to_list_delete hl n s Hn).
    by rewrite <-(assoc_L (++)).
Qed.

Record pipe_inv (w : Pipe) (fl : list Slot) (hl : gmap N Slot) (bk gn : list Slot)
    (mgr : Slot_manager) : Prop := {
  pi_producer : producer_link (pp_producer w) y server e key ids;
  pi_consumer : consumer_link (pp_consumer w) x e subscriber (ids_remote_handle ids) r;
  pi_slots : slots_used (dm_binding (pp_producer w)) key mgr (all_slots fl hl bk gn).*1;
  pi_size : m_slot_size mgr = size0;
  pi_count : m_slot_count mgr = count0;
  pi_base : m_base_address mgr = m_base_address mgr0;
  pi_block : N.to_nat (count0 * size0) ≤ length (pp_block w);
  pi_data : ∀ h data, (h, data) ∈ all_slots fl hl bk gn →
    (N.of_nat (length data) ≤ size0)%N ∧ slot_bytes size0 (pp_block w) h (length data) = data;
  pi_forth : pp_forth w = forth_frame <$> fl;
  pi_back : pp_back w = back_frame <$> bk;
  pi_user : pp_user w = dom hl;
  pi_payloads : ∀ n s, hl !! n = Some s → (n < dm_next_payload (pp_consumer w))%N ∧
    dm_payloads (pp_consumer w) !! n =
      Some (consumer_payload x (ids_remote_handle ids) r s.1 (N.of_nat (length s.2)));
}.

(** The channel that the daemons are. *)
Definition channel_of (w : Pipe) (fl : list Slot) (hl : gmap N Slot) (bk gn : list Slot) : Channel :=
  mkChannel fl.*2 (snd <$> hl) (length bk) (length gn) (dm_next_payload (pp_consumer w)).
Definition pipe_sim (w : Pipe) (c : Channel) : Prop :=
  ∃ fl hl bk gn mgr, pipe_inv w fl hl bk gn mgr ∧ c = channel_of w fl hl bk gn.

Lemma inv_fits w fl hl bk gn mgr : pipe_inv w fl hl bk gn mgr → event_fits e ids mgr.
Proof. intros Hw. destruct Hfits, Hw. split; congruence. Qed.

Lemma channel_used w fl hl bk gn :
  ch_used (channel_of w fl hl bk gn) = length (all_slots fl hl bk gn).*1.
Proof.
  unfold ch_used, channel_of, all_slots. simpl.
  rewrite !length_fmap, map_size_fmap, !length_app, !length_fmap.
  by rewrite length_map_to_list, !Nat.add_assoc.
Qed.

Abbreviation run_op := (pipe_op send_ok bridgeX bridgeY x y server e (m_base_address mgr0)
  (ro_base_address r)).
Abbreviation spec_op := (channel_step (N.to_nat count0) subscriber e).

Lemma at_producer_run {A} (m : DM A) w a d o :
  m (pp_producer w) = Done (a, d, o) →
  at_producer m w = Done (a, mkPipe d (pp_consumer w) (pp_block w)
    (pp_forth w ++ frames_to_peer o) (pp_back w) (pp_user w), Told <$> told_users o).
Proof. intros E. unfold at_producer. by rewrite E. Qed.
Lemma at_consumer_run {A} (m : DM A) w a d o :
  m (pp_consumer w) = Done (a, d, o) →
  at_consumer m w = Done (a, mkPipe (pp_producer w) d (pp_block w) (pp_forth w)
    (pp_back w ++ frames_to_peer o) (list_to_set (omap payload_of (told_users o)) ∪ pp_user w),
    Told <$> told_users o).
Proof. intros E. unfold at_consumer. by rewrite E. Qed.

(** When the transport can refuse the frame of an operation. *)
Definition may_lose (op : Pipe_op) : Prop :=
  match op with
  | Publish data =>
    ∃ k h, send_ok k y (update_message y e ids h (N.of_nat (length data))) = false
  | Consume _ => ∃ k h size, send_ok k x (consumed_message ids h size) = false
  | _ => False
  end.

(** One operation. *)
Definition op_sim (op : Pipe_op) : Prop :=
  ∀ w c, pipe_op_ok size0 op → pipe_sim w c →
  ∃ w' c' o lost, run_op op w = Done (tt, w', o) ∧ (lost = true → may_lose op) ∧
    spec_op op lost c = (c', o) ∧ pipe_sim w' c'.

(** An operation for which the transport has nothing to refuse. *)
Lemma op_sim_kept op :
  (∀ w c, pipe_op_ok size0 op → pipe_sim w c →
    ∃ w' c' o, run_op op w = Done (tt, w', o) ∧ spec_op op false c = (c', o) ∧ pipe_sim w' c') →
  op_sim op.
Proof.
  intros Hs w c Hop Hw. destruct (Hs w c Hop Hw) as (w' & c' & o & H1 & H2 & H3).
  by exists w', c', o, false.
Qed.

(** The producer has sent the event of a slot, or given the slot up. *)
Lemma pipe_inv_published w fl hl bk gn mgr X block h data sent mgr' :
  pipe_inv w fl hl bk gn mgr → producer_link X y server e key ids → same_memory mgr mgr' →
  h ∉ (all_slots fl hl bk gn).*1 → (N.of_nat (length data) ≤ size0)%N →
  slots_used (dm_binding X) key mgr'
    (if sent : bool then h :: (all_slots fl hl bk gn).*1 else (all_slots fl hl bk gn).*1) →
  length block = length (pp_block w) → slot_bytes size0 block h (length data) = data →
  (∀ h' n, h' ≠ h → (N.of_nat n ≤ size0)%N →
    slot_bytes size0 block h' n = slot_bytes size0 (pp_block w) h' n) →
  pipe_inv (mkPipe X (pp_consumer w) block (pp_forth w ++ if sent then [forth_frame (h, data)] else
    []) (pp_back w) (pp_user w)) (if sent then fl ++ [(h, data)] else fl) hl bk gn mgr'.
Proof.
  intros [] Hl (Hz & Hct & Hba) Hh Hd Hs Hbl Hbd Hbo.
  assert (∀ h' data', (h', data') ∈ all_slots fl hl bk gn →
    (N.of_nat (length data') ≤ size0)%N ∧ slot_bytes size0 block h' (length data') = data') as Hold.
  { intros h' data' Hin. destruct (pi_data0 _ _ Hin) as [Hz' Hb]. split; [done|].
    rewrite Hbo; [done| |done]. intros ->. apply Hh. by apply (list_elem_of_fmap_2 fst) in Hin. }
  split; simpl; try done; try congruence; destruct sent.
  - by rewrite all_slots_publish.
  - done.
  - intros h' data'. rewrite all_slots_publish. intros [[= -> ->]|Hin]%elem_of_cons; [done|].
    by apply Hold.
  - exact Hold.
  - by rewrite fmap_app, pi_forth0.
  - by rewrite app_nil_r.
Qed.

Lemma publish_sim data : op_sim (Publish data).
Proof.
  intros w c Hd (fl & hl & bk & gn & mgr & Hw & ->). simpl in Hd.
  pose proof (producer_takes_slot (pp_producer w) y server e key ids mgr
    (all_slots fl hl bk gn).*1 (pi_producer _ _ _ _ _ _ Hw)
    (pi_slots _ _ _ _ _ _ Hw) (inv_fits _ _ _ _ _ _ Hw)) as Hp.
  rewrite (pi_size _ _ _ _ _ _ Hw), (pi_count _ _ _ _ _ _ Hw), (pi_base _ _ _ _ _ _ Hw) in Hp.
  cbn [pipe_op channel_step]. rewrite channel_used. unfold publish_event. case_decide as Hroom.
  - destruct Hp as (h & p & X1 & E1 & E2 & Hl1 & Hh & Hk & Hg & Hshrink).
    destruct (Hshrink _ Hd) as (p' & E3 & E4 & Hp' & Hg').
    assert (h < count0)%N as Hlt by (rewrite <-(pi_count _ _ _ _ _ _ Hw); apply Hh).
    destruct (write_slot (m_base_address mgr0) size0 count0 (pp_block w) h data Hlt
      (pi_block _ _ _ _ _ _ Hw) Hd) as (block & E5 & Hbl & Hbd & Hbo).
    destruct (producer_updates send_ok bridgeX X1 y server e key ids mgr _ h p' _ Hl1 Hh E4 Hp' Hk)
      as (sent & X2 & mgr' & Hsent & E6 & Hl2 & Hsame & Hs); [by rewrite Hg'|].
    eexists _, _, [Accepted], (negb sent). split; [|split; [|split]].
    + rewrite (bind_silent _ _ _ _ _ (at_producer_run _ _ _ _ _ E1)). cbv beta iota.
      rewrite (liftO_run _ _ _ _ E2), reads_run. simpl. rewrite (liftO_run _ _ _ _ E5), modify_run.
      rewrite (liftO_run _ _ _ _ E3). cbv beta iota. set (w1 := set_pp_block _ block).
      pose proof (at_producer_run _ w1 _ _ _ E6) as E7.
      assert (told_users (if sent then [To_peer y (message_bytes (update_message y e ids h
        (N.of_nat (length data))))] else []) = []) as Et by by destruct sent.
      cbn [sp_size] in E7. rewrite Et in E7. rewrite (bind_silent _ _ w1 _ _ E7). reflexivity.
    + destruct sent; [done|]. intros _. destruct (Hsent eq_refl) as [k Hk']. by exists k, h.
    + by rewrite (proj2 (Nat.ltb_lt _ _)) by done.
    + exists (if sent then fl ++ [(h, data)] else fl), hl, bk, gn, mgr'. split.
      * simpl. rewrite app_nil_r. replace (frames_to_peer _)
          with (if sent then [forth_frame (h, data)] else []) by by destruct sent.
        by apply (pipe_inv_published w fl hl bk gn mgr X2 block h data sent mgr' Hw Hl2 Hsame
          (sh_new _ _ _ _ _ Hh) Hd Hs).
      * unfold channel_of. simpl. destruct sent; simpl; [by rewrite fmap_app|done].
  - eexists _, _, _, false. split; [|split; [done|split]].
    + rewrite (bind_silent _ _ _ _ _ (at_producer_run _ _ _ _ _ Hp)). reflexivity.
    + by rewrite (proj2 (Nat.ltb_ge _ _)) by lia.
    + exists fl, hl, bk, gn, mgr. destruct Hw. split; [|done]. split; simpl; try done.
      by rewrite app_nil_r.
Qed.

Lemma deliver_sim addr : op_sim (Deliver addr).
Proof.
  apply op_sim_kept. intros w c Ha (fl & hl & bk & gn & mgr & Hw & ->). simpl in Ha.
  cbn [pipe_op channel_step]. unfold deliver_event. rewrite reads_run, (pi_forth _ _ _ _ _ _ Hw).
  destruct fl as [|[h data] fl].
  { do 3 eexists. split; [reflexivity|]. split; [reflexivity|]. by exists [], hl, bk, gn, mgr. }
  rewrite fmap_cons, modify_run.
  set (w1 := set_pp_forth w (forth_frame <$> fl)).
  assert (h < m_slot_count mgr)%N as Hh.
  { apply (su_bound _ _ _ _ (pi_slots _ _ _ _ _ _ Hw)). left. }
  assert (N.of_nat (length data) ≤ size0)%N as Hd by (apply (pi_data _ _ _ _ _ _ Hw h data); left).
  destruct (consumer_gets send_ok bridgeY (pp_consumer w) x y e subscriber ids mgr r h
    (N.of_nat (length data)) addr) as (Y & E & Hl & Hp & Hn);
    [apply Hw|by eapply inv_fits|by rewrite (pi_count _ _ _ _ _ _ Hw)|done
    |by rewrite (pi_size _ _ _ _ _ _ Hw)|done|].
  set (n := dm_next_payload (pp_consumer w)) in *.
  assert (hl !! n = None) as Hfresh.
  { destruct (hl !! n) as [s|] eqn:En; [|done].
    destruct (pi_payloads _ _ _ _ _ _ Hw n s En) as [Hlt _]. fold n in Hlt. lia. }
  rewrite (at_consumer_run (node_receive send_ok bridgeY x addr (forth_frame (h,
    data))) w1 _ _ _ E).
  do 3 eexists. split; [reflexivity|]. split; [reflexivity|].
  exists fl, (<[n := (h, data)]> hl), bk, gn, mgr. destruct Hw. split.
  - split; simpl; try done.
    + by rewrite all_slots_deliver.
    + intros h' data'. rewrite all_slots_deliver by done. apply pi_data0.
    + by rewrite app_nil_r.
    + rewrite dom_insert_L, pi_user0. set_solver.
    + intros n' s. rewrite Hp, Hn. intros [[<- <-]|[Hne Hs]]%lookup_insert_Some.
      * rewrite lookup_insert_eq. split; [lia|done].
      * rewrite lookup_insert_ne by done. destruct (pi_payloads0 n' s Hs). fold n in H0.
        split; [lia|done].
  - unfold channel_of. simpl. by rewrite fmap_insert, Hn.
Qed.

Lemma look_sim n : op_sim (Look n).
Proof.
  apply op_sim_kept. intros w c _ (fl & hl & bk & gn & mgr & Hw & ->). cbn [pipe_op channel_step]. unfold look_at.
  unfold get_state. rewrite (bind_silent _ _ w w w) by done. rewrite (pi_user _ _ _ _ _ _ Hw).
  cbn [channel_of ch_held]. rewrite lookup_fmap. case_decide as Hn.
  - apply elem_of_dom in Hn as [[h data] Hs].
    destruct (pi_payloads _ _ _ _ _ _ Hw n _ Hs) as [_ Hp]. simpl in Hp.
    assert ((h, data) ∈ all_slots fl hl bk gn) as Hin.
    { unfold all_slots. rewrite !elem_of_app. right. left. apply list_elem_of_fmap.
      exists (n, (h, data)). by rewrite elem_of_map_to_list. }
    assert (h < m_slot_count mgr)%N as Hh.
    { apply (su_bound _ _ _ _ (pi_slots _ _ _ _ _ _ Hw)). by apply (list_elem_of_fmap_2 fst) in Hin. }
    destruct (pi_data _ _ _ _ _ _ Hw _ _ Hin) as [Hd Hb].
    rewrite (the_run _ _ _ _ _ Hp). erewrite liftO_run.
    2:{ apply consumer_payload_data; rewrite ?Hsize, ?Hcount, <-?(pi_count _ _ _ _ _ _ Hw); try done.
        rewrite (pi_count _ _ _ _ _ _ Hw). apply Hfits. }
    rewrite Hsize, read_slot, Hb, Hs. do 3 eexists. split; [reflexivity|]. split; [reflexivity|].
    exists fl, hl, bk, gn, mgr. done.
  - apply not_elem_of_dom in Hn. rewrite Hn. do 3 eexists. split; [reflexivity|].
    split; [reflexivity|]. by exists fl, hl, bk, gn, mgr.
Qed.

Lemma consume_sim n : op_sim (Consume n).
Proof.
  intros w c _ (fl & hl & bk & gn & mgr & Hw & ->). cbn [pipe_op channel_step].
  unfold consume_payload.
  rewrite reads_run, (pi_user _ _ _ _ _ _ Hw). cbn [channel_of ch_held]. rewrite lookup_fmap.
  case_decide as Hn.
  - apply elem_of_dom in Hn as [[h data] Hs]. rewrite modify_run.
    destruct (pi_payloads _ _ _ _ _ _ Hw n _ Hs) as [_ Hp]. simpl in Hp.
    destruct (consumer_destroys send_ok (pp_consumer w) x e subscriber ids r n h
      (N.of_nat (length data)) (pi_consumer _ _ _ _ _ _ Hw) Hp)
      as (sent & Y & Hsent & E & Hl & Hd & Hnx).
    set (w1 := set_pp_user w (dom hl ∖ {[ n ]})). rewrite (at_consumer_run _ w1 _ _ _ E), Hs.
    assert (told_users (if sent then [To_peer x (message_bytes (consumed_message ids h
      (N.of_nat (length data))))] else []) = []) as -> by by destruct sent.
    eexists _, _, [], (negb sent). split; [reflexivity|]. split; [|split; [reflexivity|]].
    { destruct sent; [done|]. intros _. destruct (Hsent eq_refl) as [k Hk]. by eexists k, _, _. }
    exists fl, (delete n hl), (give_back sent (h, data) bk), (lose sent (h, data) gn), mgr.
    destruct Hw. split.
    + split; simpl; try done.
      * by rewrite all_slots_consume.
      * intros h' data'. rewrite all_slots_consume by done. apply pi_data0.
      * rewrite pi_back0. destruct sent; simpl; [by rewrite fmap_app|by rewrite app_nil_r].
      * rewrite dom_delete_L. destruct sent; set_solver.
      * intros n' s [Hne Hs']%lookup_delete_Some. rewrite Hnx, Hd, lookup_delete_ne by done.
        by apply pi_payloads0.
    + unfold channel_of. simpl. rewrite Hnx, fmap_delete. destruct sent; simpl; [|done].
      by rewrite length_app, Nat.add_1_r.
  - apply not_elem_of_dom in Hn. rewrite Hn. do 3 eexists. exists false. split; [reflexivity|].
    split; [done|]. split; [reflexivity|]. by exists fl, hl, bk, gn, mgr.
Qed.

Lemma return_sim addr : op_sim (Give_back addr).
Proof.
  apply op_sim_kept. intros w c Ha (fl & hl & bk & gn & mgr & Hw & ->). simpl in Ha.
  cbn [pipe_op channel_step]. unfold deliver_return. rewrite reads_run, (pi_back _ _ _ _ _ _ Hw).
  destruct bk as [|[h data] bk].
  { do 3 eexists. split; [reflexivity|]. split; [reflexivity|]. by exists fl, hl, [], gn, mgr. }
  rewrite fmap_cons, modify_run. set (w1 := set_pp_back w (back_frame <$> bk)).
  pose proof (pi_slots _ _ _ _ _ _ Hw) as Hs. rewrite all_slots_return in Hs.
  assert (N.of_nat (length data) ≤ size0)%N as Hd.
  { apply (pi_data _ _ _ _ _ _ Hw h data). rewrite all_slots_return. left. }
  destruct (producer_gets_back send_ok bridgeX (pp_producer w) y server e key ids mgr
    (all_slots fl hl bk gn).*1 h (N.of_nat (length data)) addr) as (X & E & Hl & Hu);
    [apply Hw|done|by eapply inv_fits|by rewrite (pi_size _ _ _ _ _ _ Hw)|done|].
  rewrite (at_producer_run (node_receive send_ok bridgeX y addr (back_frame (h, data))) w1 _ _ _ E).
  do 3 eexists. split; [reflexivity|]. split; [reflexivity|].
  exists fl, hl, bk, gn, (store_count mgr h 0). destruct Hw. split; [|done]. split; simpl; try done.
  - intros h' data' Hin. apply pi_data0. rewrite all_slots_return. by right.
  - by rewrite app_nil_r.
Qed.

Lemma op_sim_all op : op_sim op.
Proof.
  destruct op; [apply publish_sim|apply deliver_sim|apply look_sim|apply consume_sim|apply
    return_sim].
Qed.

(** Any schedule. *)
Lemma pipe_run_sim ops w c :
  Forall (pipe_op_ok size0) ops → pipe_sim w c →
  ∃ w' c' o losses, pipe_run send_ok bridgeX bridgeY x y server e (m_base_address mgr0)
      (ro_base_address r) ops w = Done (tt, w', o) ∧
    Forall2 (λ op (lost : bool), lost = true → may_lose op) ops losses ∧
    channel_run (N.to_nat count0) subscriber e (zip ops losses) c = (c', o) ∧ pipe_sim w' c'.
Proof.
  intros Hops. revert w c. induction Hops as [|op ops Hop _ IH]; intros w c Hw.
  - by exists w, c, [], [].
  - destruct (op_sim_all op w c Hop Hw) as (w1 & c1 & o1 & lost & E1 & L1 & S1 & Hw1).
    destruct (IH w1 c1 Hw1) as (w2 & c2 & o2 & losses & E2 & L2 & S2 & Hw2).
    exists w2, c2, (o1 ++ o2), (lost :: losses). split_and!; [|by constructor| |done].
    + unfold pipe_run. cbn [forM]. rewrite (bind_run _ _ _ _ _ _ E1). fold (pipe_run send_ok bridgeX
        bridgeY x y server e (m_base_address mgr0) (ro_base_address r) ops). by rewrite E2.
    + simpl. by rewrite S1, S2.
Qed.
End simulation.

(** ** What the channel promises *)

(** The events that were accepted and that the transport took, in the order of their
    publication. *)
Definition published (op : Pipe_op * bool) : option (list N * bool) :=
  match op.1 with Publish data => Some (data, op.2) | _ => None end.
Definition verdict (a : Pipe_event) : option bool :=
  match a with Accepted => Some true | Refused => Some false | _ => None end.
Definition carried_events (ops : list (Pipe_op * bool)) (o : list Pipe_event) : list (list N) :=
  omap (λ x : list N * bool * bool, if x.2 && negb x.1.2 then Some x.1.1 else None)
    (zip (omap published ops) (omap verdict o)).

(** The payloads that the consumer's user was given, in order. *)
Definition told_payload (a : Pipe_event) : option N :=
  match a with Told a => payload_of a | _ => None end.

Section history.
Context (credits : nat) (subscriber e start : N).

(** The events that were delivered got consecutive numbers, and those that are held show
    what was delivered under their number. *)
Definition delivered_so_far (c : Channel) (events : list (list N)) : Prop :=
  ch_next c = (start + N.of_nat (length events))%N ∧
  ∀ n data, ch_held c !! n = Some data →
    (start ≤ n)%N ∧ events !! N.to_nat (n - start) = Some data.

Lemma channel_step_history op lost c c' o events :
  channel_step credits subscriber e op lost c = (c', o) → delivered_so_far c events →
  ∃ more, delivered_so_far c' (events ++ more) ∧
    ch_flight c ++ carried_events [(op, lost)] o = more ++ ch_flight c' ∧
    omap told_payload o = (λ i, start + N.of_nat i)%N <$> seq (length events) (length more) ∧
    (∀ n data, Seen n data ∈ o → (start ≤ n)%N ∧ events !! N.to_nat (n - start) = Some data) ∧
    length (omap verdict o) = length (omap published [(op, lost)]).
Proof.
  intros E [Hn Hh]. unfold carried_events. destruct op as [data|addr|n|n|addr]; simpl in E.
  - exists []. rewrite app_nil_r. destruct (_ <? _), lost; injection E as <- <-; simpl;
      split_and!; rewrite ?app_nil_r; try done; set_solver.
  - destruct (ch_flight c) as [|data rest] eqn:Ef; injection E as <- <-; simpl.
    + exists []. rewrite !app_nil_r, Ef. split_and!; try done; set_solver.
    + exists [data]. rewrite app_nil_r. split_and!; try done.
      * split; simpl; [rewrite Hn, length_app; simpl; lia|].
        intros m d [[<- <-]|[Hne Hm]]%lookup_insert_Some.
        -- split; [lia|]. replace (N.to_nat (ch_next c - start)) with (length events) by lia.
           by rewrite lookup_app_r, Nat.sub_diag.
        -- destruct (Hh m d Hm) as [Hs Hm']. split; [done|]. by apply lookup_app_l_Some.
      * by rewrite Hn.
      * set_solver.
  - exists []. injection E as <- <-. rewrite app_nil_r.
    destruct (ch_held c !! n) as [d|] eqn:Ed; simpl;
      split_and!; rewrite ?app_nil_r; try done; [|set_solver].
    intros m d' [= -> ->]%list_elem_of_singleton. by apply Hh.
  - exists []. rewrite app_nil_r. destruct (ch_held c !! n) as [d|] eqn:Ed; injection E as <- <-;
      simpl;
      split_and!; rewrite ?app_nil_r; try done; [|set_solver..].
    split; simpl; [done|]. intros m d' [_ Hm]%lookup_delete_Some. by apply Hh.
  - exists []. injection E as <- <-. rewrite app_nil_r. simpl.
    split_and!; rewrite ?app_nil_r; try done; set_solver.
Qed.

Lemma carried_events_cons op ops o1 o2 :
  length (omap verdict o1) = length (omap published [op]) →
  carried_events (op :: ops) (o1 ++ o2) = carried_events [op] o1 ++ carried_events ops o2.
Proof.
  intros Hl. unfold carried_events. change (op :: ops) with ([op] ++ ops).
  rewrite !omap_app, zip_with_app by done. apply omap_app.
Qed.

Lemma channel_run_history ops : ∀ c c' o events,
  channel_run credits subscriber e ops c = (c', o) → delivered_so_far c events →
  ∃ more, delivered_so_far c' (events ++ more) ∧
    ch_flight c ++ carried_events ops o = more ++ ch_flight c' ∧
    omap told_payload o = (λ i, start + N.of_nat i)%N <$> seq (length events) (length more) ∧
    ∀ n data, Seen n data ∈ o →
      (start ≤ n)%N ∧ (events ++ more) !! N.to_nat (n - start) = Some data.
Proof.
  induction ops as [|op ops IH]; intros c c' o events E Hc.
  - injection E as <- <-. exists []. rewrite !app_nil_r. split_and!; try done; set_solver.
  - destruct op as [op lost]. simpl in E.
    destruct (channel_step credits subscriber e op lost c) as [c1 o1] eqn:E1.
    destruct (channel_run credits subscriber e ops c1) as [c2 o2] eqn:E2. injection E as <- <-.
    destruct (channel_step_history op lost c c1 o1 events E1 Hc) as (m1 & H1 & F1 & T1 & S1 & L1).
    destruct (IH c1 c2 o2 (events ++ m1) E2 H1) as (m2 & H2 & F2 & T2 & S2).
    exists (m1 ++ m2). rewrite (assoc_L (++)). split_and!.
    + done.
    + rewrite carried_events_cons by done.
      by rewrite (assoc_L (++)), F1, <-(assoc_L (++)), F2, (assoc_L (++)).
    + rewrite omap_app, T1, T2, !length_app, seq_app, fmap_app. done.
    + intros n data [Hi|Hi]%elem_of_app; [|by apply S2].
      destruct (S1 n data Hi) as [Hs He]. split; [done|].
      rewrite <-(assoc_L (++)). by apply lookup_app_l_Some.
Qed.
End history.

(** ** Linked daemons *)

(** Daemons that are connected for an event, with all slots of the service free; the block
    is large enough for the slots. *)
Record linked `{Shm} (X Y : Daemon) (x y : Client_id) (server subscriber e : N) (key : Key_t)
    (ids : Ids) (mgr : Slot_manager) (r : Read_only_slot_manager) : Prop := {
  lk_producer : producer_link X y server e key ids;
  lk_consumer : consumer_link Y x e subscriber (ids_remote_handle ids) r;
  lk_slots : slots_used (dm_binding X) key mgr [];
  lk_fits : event_fits e ids mgr;
  lk_size : ro_slot_size r = m_slot_size mgr;
  lk_count : ro_slot_count r = m_slot_count mgr;
}.

(** They are an empty channel. *)
Lemma linked_sim `{Shm} X Y x y server subscriber e key ids mgr r block :
  linked X Y x y server subscriber e key ids mgr r →
  N.to_nat (m_slot_count mgr * m_slot_size mgr) ≤ length block →
  pipe_sim x y server subscriber e key ids mgr r (mkPipe X Y block [] [] ∅)
    (mkChannel [] ∅ 0 0 (dm_next_payload Y)).
Proof.
  intros [] Hb. exists [], ∅, [], [], mgr.
  split; [|by unfold channel_of; rewrite fmap_empty].
  split; simpl; try done; unfold all_slots; rewrite ?map_to_list_empty; simpl; try done; set_solver.
Qed.

Section linked.
Context `{Shm} (send_ok : N → Client_id → Message → bool) (bridgeX bridgeY : N).

(** The daemons as a channel, for any schedule. *)
Lemma linked_run X Y x y server subscriber e key ids mgr r block ops :
  linked X Y x y server subscriber e key ids mgr r →
  N.to_nat (m_slot_count mgr * m_slot_size mgr) ≤ length block →
  Forall (pipe_op_ok (m_slot_size mgr)) ops →
  ∃ w' c' o losses, pipe_run send_ok bridgeX bridgeY x y server e (m_base_address mgr)
      (ro_base_address r) ops (mkPipe X Y block [] [] ∅) = Done (tt, w', o) ∧
    Forall2 (λ op (lost : bool), lost = true → may_lose send_ok x y e ids op) ops losses ∧
    channel_run (N.to_nat (m_slot_count mgr)) subscriber e (zip ops losses)
      (mkChannel [] ∅ 0 0 (dm_next_payload Y)) = (c', o) ∧
    pipe_sim x y server subscriber e key ids mgr r w' c'.
Proof.
  intros Hl Hb Hops. apply (pipe_run_sim send_ok bridgeX bridgeY x y server subscriber e key
    ids mgr r); try apply Hl; [done|]. by apply linked_sim.
Qed.

Lemma linked_behaviour X Y x y server subscriber e key ids mgr r block ops :
  linked X Y x y server subscriber e key ids mgr r →
  N.to_nat (m_slot_count mgr * m_slot_size mgr) ≤ length block →
  Forall (pipe_op_ok (m_slot_size mgr)) ops →
  ∃ losses, Forall2 (λ op (lost : bool), lost = true → may_lose send_ok x y e ids op) ops losses ∧
  let '(c', o) := channel_run (N.to_nat (m_slot_count mgr)) subscriber e (zip ops losses)
    (mkChannel [] ∅ 0 0 (dm_next_payload Y)) in
  ∃ w' mgr', pipe_run send_ok bridgeX bridgeY x y server e (m_base_address mgr)
      (ro_base_address r) ops (mkPipe X Y block [] [] ∅) = Done (tt, w', o) ∧
    m_slot_managers (b_slot_managers (dm_binding (pp_producer w'))) !! key = Some mgr' ∧
    get_allocated_slot_count mgr' = N.of_nat (ch_used c').
Proof.
  intros Hl Hb Hops.
  destruct (linked_run X Y x y server subscriber e key ids mgr r block ops Hl Hb Hops)
    as (w' & c' & o & losses & E & Hlost & Ec & fl & hl & bk & gn & mgr' & Hw & Hc').
  exists losses. split; [done|]. rewrite Ec. exists w', mgr'. rewrite Hc', channel_used.
  destruct Hw. split_and!; [done|apply pi_slots0|]. by eapply used_slots_counted.
Qed.


(** Events arrive in order and intact. Under any schedule the payloads that the
    consumer's user is given are numbered one after the other; whenever it looks at the
    [k]-th of them, before it destroys it, it sees the bytes of the [k]-th event that was
    accepted from the producer's user and taken by the transport, whatever was published,
    delivered and destroyed in the meantime. *)
Theorem events_arrive_intact X Y x y server subscriber e key ids mgr r block ops :
  let start := dm_next_payload Y in
  linked X Y x y server subscriber e key ids mgr r →
  N.to_nat (m_slot_count mgr * m_slot_size mgr) ≤ length block →
  Forall (pipe_op_ok (m_slot_size mgr)) ops →
  ∃ w' o losses, pipe_run send_ok bridgeX bridgeY x y server e (m_base_address mgr)
      (ro_base_address r) ops (mkPipe X Y block [] [] ∅) = Done (tt, w', o) ∧
    Forall2 (λ op (lost : bool), lost = true → may_lose send_ok x y e ids op) ops losses ∧
    (∃ k, k ≤ length (carried_events (zip ops losses) o) ∧
      omap told_payload o = (λ i, start + N.of_nat i)%N <$> seq 0 k) ∧
    ∀ n data, Seen n data ∈ o →
      (start ≤ n)%N ∧ carried_events (zip ops losses) o !! N.to_nat (n - start) = Some data.
Proof.
  intros start Hl Hb Hops.
  destruct (linked_run X Y x y server subscriber e key ids mgr r block ops Hl Hb Hops)
    as (w' & c' & o & losses & E & Hlost & Ec & _).
  destruct (channel_run_history (N.to_nat (m_slot_count mgr)) subscriber e start (zip ops losses)
    _ _ _ [] Ec) as (events & Hd & Ha & Ht & Hs).
  { split; simpl; [lia|]. intros n data. by rewrite lookup_empty. }
  simpl in Ha. exists w', o, losses. rewrite Ha. split_and!; [done|done| |].
  - exists (length events). rewrite length_app. split; [lia|done].
  - intros n data Hi. destruct (Hs n data Hi) as [Hn Hx]. split; [done|].
    by apply lookup_app_l_Some.
Qed.

(** Without refusals nothing is lost. *)
Lemma nothing_lost x y e ids ops losses :
  (∀ k c m, send_ok k c m = true) →
  Forall2 (λ op (lost : bool), lost = true → may_lose send_ok x y e ids op) ops losses →
  losses = replicate (length ops) false.
Proof.
  intros Hs. induction 1 as [|op lost ops losses Hl _ ->]; [done|]. simpl. f_equal.
  destruct lost; [|done]. specialize (Hl eq_refl). destruct op; simpl in Hl; try done.
  - destruct Hl as (k & h & Hk). by rewrite Hs in Hk.
  - destruct Hl as (k & h & z & Hk). by rewrite Hs in Hk.
Qed.
End linked.
