(* ===== verification/GatewayRelay.v ===== *)
(** * Events through the whole gateway

    gatewayd and someipd with everything between them. A handler of one daemon takes a
    sample, allocates a payload, writes the SOME/IP message into the slot and updates the
    event ([gatewayd/impl/local_service_instance.cpp],
    [someipd/impl/remote_network_service.cpp]); the binding takes it to the other daemon
    ([EventPipeline]), whose callback forwards it and lets the payload go
    ([someipd/impl/local_network_service.cpp], [gatewayd/impl/remote_service_instance.cpp]).
    The relay is described once, for any way to fill a slot and to use its bytes, and used
    for both directions. The transport may refuse frames, as in [EventPipeline]. *)

From stdpp Require Import base numbers list gmap strings.
From S2P Require Import Prelude.
From S2P Require Import IpcTypes.
From S2P Require Import Payload.
From S2P Require Import SlotManager.
From S2P Require Import BindingBase.
From S2P Require Import Socom.
From S2P Require Import EventPath.
From S2P Require Import Bridging.
From S2P Require Import EventPipeline.

(** ** Specification *)

(** A sample is handed over, and frames arrive at either daemon. *)
Inductive Relay_op (A : Type) : Type :=
  | Hand_over (a : A)
  | Arrive_there (addr : N)
  | Arrive_back (addr : N).
Arguments Hand_over {A} a.
Arguments Arrive_there {A} addr.
Arguments Arrive_back {A} addr.

(** Whether a sample was taken or dropped, and what the other daemon does with one. *)
Inductive Relay_event (B : Type) : Type :=
  | Taken
  | Dropped
  | Forwarded (b : B).
Arguments Taken {B}.
Arguments Dropped {B}.
Arguments Forwarded {B} b.

(** Samples under way, how many slots are on their way back, and how many were lost on
    it. *)
Record Relay (A : Type) : Type := mkRelay {
  rl_flight : list A;
  rl_back : nat;
  rl_lost : nat;
}.
Arguments mkRelay {A} _ _ _.
Arguments rl_flight {A} _.
Arguments rl_back {A} _.
Arguments rl_lost {A} _.

Section specification.
(** The number of slots, whether a sample fits a slot, and what comes of it. *)
Context {A B : Type} (credits : nat) (fitting : A → bool) (expected : A → list B).

Definition rl_used (c : Relay A) : nat := length (rl_flight c) + rl_back c + rl_lost c.

(** [lost] tells whether the transport refuses the frame that the operation sends. *)
Definition relay_step (op : Relay_op A) (lost : bool) (c : Relay A) :
    Relay A * list (Relay_event B) :=
  match op with
  | Hand_over a =>
    if (rl_used c <? credits) && fitting a
    then (mkRelay (if lost then rl_flight c else rl_flight c ++ [a]) (rl_back c) (rl_lost c),
          [Taken])
    else (c, [Dropped])
  | Arrive_there _ =>
    match rl_flight c with
    | [] => (c, [])
    | a :: rest =>
      (mkRelay rest (if lost then rl_back c else S (rl_back c))
         (if lost then S (rl_lost c) else rl_lost c), Forwarded <$> expected a)
    end
  | Arrive_back _ => (mkRelay (rl_flight c) (pred (rl_back c)) (rl_lost c), [])
  end.

(** A schedule, with what the transport does to each operation. *)
Fixpoint relay_run (ops : list (Relay_op A * bool)) (c : Relay A) :
    Relay A * list (Relay_event B) :=
  match ops with
  | [] => (c, [])
  | (op, lost) :: ops =>
    let '(c, o) := relay_step op lost c in
    let '(c, o') := relay_run ops c in (c, o ++ o')
  end.
End specification.

(** ** The daemons *)

Section relay.
Context `{Shm} (send_ok : N → Client_id → Message → bool) (bridgeX bridgeY : N).
Context (x y : Client_id) (server e : N) (baseX baseY : N) {A B : Type}.
(** How a sample is written to the bytes of a slot: the event that is updated, if there is
    one, and the bytes its payload has after [shrink]; and what the other daemon does with
    the bytes of a payload. *)
Context (fill : A → list N → outcome (option (N * list N))).
Context (use_bytes : list N → outcome (list B)).

Abbreviation RM := (M Pipe (Relay_event B)).

(** A step of the pipe, with what the users are told as its result. *)
Definition quietly {C} (m : PM C) : RM (C * list Pipe_event) := λ w,
  match m w with Done (c, w', o) => Done ((c, o), w', []) | Fault f => Fault f end.

(** The handler that has a sample. What it wrote to a slot that it gives up does not matter:
    nobody reads a free slot. *)
Definition hand_over (a : A) : RM unit :=
  '(p, _) ← quietly (at_producer (user_allocate server e));
  match p with
  | None => emit Dropped
  | Some p =>
    d ← liftO (payload_data p);
    block ← reads pp_block;
    update ← liftO (fill a (mapped_read baseX block d));
    match update with
    | None =>
      _ ← quietly (at_producer ('(_, actions) ← on_binding (destroy_payloads send_ok [p]);
        forM actions route_send));
      emit Dropped
    | Some (event, data) =>
      block ← liftO (mapped_write baseX block d data);
      modify (λ w, set_pp_block w block);;
      '(_, p) ← liftO (shrink p (N.of_nat (length data)));
      _ ← quietly (at_producer (user_update send_ok bridgeX server event p));
      emit Taken
    end
  end.

(** The callback for an update: the bytes of the payload are used, and it is destroyed when
    the callback returns. *)
Definition use_payload (n : N) : RM unit :=
  w ← get_state;
  q ← the Use_after_free (dm_payloads (pp_consumer w) !! n);
  d ← liftO (payload_data q);
  out ← liftO (use_bytes (mapped_read baseY (pp_block w) d));
  forM out (λ b, emit (Forwarded b));;
  _ ← quietly (consume_payload send_ok n);
  mret tt.
Definition arrive_there (addr : N) : RM unit :=
  '(_, told) ← quietly (deliver_event send_ok bridgeY x addr);
  forM (omap told_payload told) use_payload.
Definition arrive_back (addr : N) : RM unit :=
  _ ← quietly (deliver_return send_ok bridgeX y addr); mret tt.

Definition relay_op (op : Relay_op A) : RM unit :=
  match op with
  | Hand_over a => hand_over a
  | Arrive_there addr => arrive_there addr
  | Arrive_back addr => arrive_back addr
  end.
Definition relay_events (ops : list (Relay_op A)) : RM unit := forM ops relay_op.
End relay.

(** ** The daemons relay every sample *)

Section simulation.
Context `{Shm} (send_ok : N → Client_id → Message → bool) (bridgeX bridgeY : N).
Context (x y : Client_id) (server subscriber e : N) (key : Key_t) (ids : ConnectionMetadata.Ids).
Context (mgr : Slot_manager) (r : Read_only_slot_manager).
Context (Hfits : event_fits e ids mgr).
Context (Hsize : ro_slot_size r = m_slot_size mgr) (Hcount : ro_slot_count r = m_slot_count mgr).
Context {A B : Type} (fill : A → list N → outcome (option (N * list N))).
Context (use_bytes : list N → outcome (list B)) (ok : A → Prop).
Context (fitting : A → bool) (expected : A → list B).
(** Whatever the slot holds, a sample that is well formed is written to it, if it fits, and
    what is written is used as it should be; otherwise the handler gives up. *)
Definition fills : Prop :=
  ∀ a wdata, ok a → length wdata = N.to_nat (m_slot_size mgr) →
  if fitting a then
    ∃ data, fill a wdata = Done (Some (e, data)) ∧ (N.of_nat (length data) ≤ m_slot_size mgr)%N ∧
      use_bytes data = Done (expected a)
  else fill a wdata = Done None.
Context (Hfill : fills).

Abbreviation baseX := (m_base_address mgr).
Abbreviation baseY := (ro_base_address r).
Abbreviation sim := (pipe_sim x y server subscriber e key ids mgr r).
Abbreviation handing := (hand_over send_ok bridgeX server e baseX (B := B) fill).
Abbreviation publishing := (publish_event send_ok bridgeX server e baseX).

Lemma quietly_run {C D} (m : PM C) (k : C * list Pipe_event → M Pipe (Relay_event D) unit) w c w' o
  :
  m w = Done (c, w', o) → (quietly m ≫= k) w = k (c, o) w'.
Proof. intros E. apply bind_silent. unfold quietly. by rewrite E. Qed.

(** Handing over is publishing what was written. *)
Lemma hand_over_publishes a w p w1 d data w' :
  at_producer (user_allocate server e) w = Done (Some p, w1, []) → payload_data p = Done d →
  fill a (mapped_read baseX (pp_block w1) d) = Done (Some (e, data)) →
  publishing data w = Done (tt, w', [Accepted]) → handing a w = Done (tt, w', [Taken]).
Proof.
  intros E1 E2 E3 Ep. unfold hand_over. rewrite (quietly_run _ _ _ _ _ _ E1). cbv beta iota.
  unfold publish_event in Ep. rewrite (bind_silent _ _ _ _ _ E1) in Ep.
  rewrite (liftO_run _ _ _ _ E2), reads_run, (liftO_run _ _ _ _ E3).
  rewrite (liftO_run _ _ _ _ E2), reads_run in Ep.
  destruct (mapped_write baseX (pp_block w1) d data) as [block|] eqn:Ew; [|done].
  rewrite (liftO_run _ _ _ _ eq_refl), modify_run.
  rewrite (liftO_run _ _ _ _ eq_refl), modify_run in Ep.
  destruct (shrink p _) as [[b p']|] eqn:Es; [|done].
  rewrite (liftO_run _ _ _ _ eq_refl). rewrite (liftO_run _ _ _ _ eq_refl) in Ep.
  apply bind_Done in Ep as (u & w2 & o1 & o2 & Eu & Ee & Ho).
  rewrite (quietly_run _ _ _ _ _ _ Eu). unfold emit in *. by injection Ee as -> _.
Qed.

Lemma hand_over_refused a w w1 :
  at_producer (user_allocate server e) w = Done (None, w1, []) →
  handing a w = Done (tt, w1, [Dropped]) ∧ publishing [] w = Done (tt, w1, [Refused]).
Proof.
  intros E1. unfold hand_over, publish_event. rewrite (quietly_run _ _ _ _ _ _ E1).
  by rewrite (bind_silent _ _ _ _ _ E1).
Qed.

Lemma hand_over_gives_up a w p w1 d w2 :
  at_producer (user_allocate server e) w = Done (Some p, w1, []) → payload_data p = Done d →
  fill a (mapped_read baseX (pp_block w1) d) = Done None →
  at_producer ('(_, actions) ← on_binding (destroy_payloads send_ok [p]);
    forM actions route_send) w1 = Done (tt, w2, []) →
  handing a w = Done (tt, w2, [Dropped]).
Proof.
  intros E1 E2 E3 E4. unfold hand_over. rewrite (quietly_run _ _ _ _ _ _ E1). cbv beta iota.
  rewrite (liftO_run _ _ _ _ E2), reads_run, (liftO_run _ _ _ _ E3).
  by rewrite (quietly_run _ _ _ _ _ _ E4).
Qed.

(** The bytes of a payload that is looked at. *)
Lemma looked_at n w w' data :
  look_at baseY n w = Done (tt, w', [Seen n data]) →
  n ∈ pp_user w ∧ ∃ q d, dm_payloads (pp_consumer w) !! n = Some q ∧ payload_data q = Done d ∧
    mapped_read baseY (pp_block w) d = data.
Proof.
  unfold look_at, get_state. rewrite (bind_silent _ _ w w w) by done.
  case_decide as Hn; [|done]. destruct (dm_payloads (pp_consumer w) !! n) as [q|]; [|done].
  rewrite (the_run _ _ _ _ _ eq_refl). destruct (payload_data q) as [d|] eqn:Ed; [|done].
  rewrite (liftO_run _ _ _ _ eq_refl). unfold emit. intros [= _ <-]. split; [done|]. by exists q, d.
Qed.

Lemma forward_run (out : list B) (w : Pipe) :
  forM out (λ b, emit (Forwarded b)) w = Done (tt, w, Forwarded <$> out).
Proof.
  revert w. induction out as [|b out IH]; intros w; [done|]. cbn [forM].
  by rewrite (bind_run _ _ _ _ _ _ (eq_refl : emit (Forwarded b) w = _)), IH.
Qed.

(** The samples under way are what is in the slots, and nothing is held for long. *)
Definition relay_sim (w : Pipe) (c : Relay A) : Prop :=
  ∃ ch, sim w ch ∧ ch_held ch = ∅ ∧ ch_back ch = rl_back c ∧ ch_lost ch = rl_lost c ∧
    Forall2 (λ a data, use_bytes data = Done (expected a)) (rl_flight c) (ch_flight ch).

Lemma relay_used (c : Relay A) ch :
  ch_held ch = ∅ → ch_back ch = rl_back c → ch_lost ch = rl_lost c →
  Forall2 (λ a data, use_bytes data = Done (expected a)) (rl_flight c) (ch_flight ch) →
  rl_used c = ch_used ch.
Proof.
  intros Hh Hb Hl Hf%Forall2_length. unfold ch_used, rl_used.
  by rewrite Hh, Hb, Hl, Hf, map_size_empty, Nat.add_0_r.
Qed.

Abbreviation step_sim := (op_sim_all send_ok bridgeX bridgeY x y server subscriber e key ids
  mgr r Hfits Hsize Hcount).

(** When the transport can refuse the frame of an operation. *)
Definition relay_may_lose (op : Relay_op A) : Prop :=
  match op with
  | Hand_over _ => ∃ k h size, send_ok k y (update_message y e ids h size) = false
  | Arrive_there _ => ∃ k h size, send_ok k x (consumed_message ids h size) = false
  | Arrive_back _ => False
  end.

(** One operation. *)
Definition relay_op_ok (op : Relay_op A) : Prop :=
  match op with
  | Hand_over a => ok a
  | Arrive_there addr | Arrive_back addr => (addr mod 8 = 0)%N
  end.
Definition relay_op_sim (op : Relay_op A) : Prop :=
  ∀ w c, relay_op_ok op → relay_sim w c →
  ∃ w' c' o lost,
    relay_op send_ok bridgeX bridgeY x y server e baseX baseY fill use_bytes op w =
      Done (tt, w', o) ∧ (lost = true → relay_may_lose op) ∧
    relay_step (N.to_nat (m_slot_count mgr)) fitting expected op lost c = (c', o) ∧
    relay_sim w' c'.

(** The channel is as it was when a slot has been taken and given up. *)
Lemma gave_up_sim w ch fl hl bk gn mgr' X1 X2 h mgr'' :
  pipe_inv x y server subscriber e key ids mgr r w fl hl bk gn mgr' →
  ch = channel_of w fl hl bk gn →
  slot_in_hand (dm_binding X1) key mgr' (all_slots fl hl bk gn).*1 h →
  producer_link X2 y server e key ids → same_memory mgr' mgr'' →
  slots_used (dm_binding X2) key mgr'' (all_slots fl hl bk gn).*1 →
  sim (mkPipe X2 (pp_consumer w) (pp_block w) (pp_forth w) (pp_back w) (pp_user w)) ch.
Proof.
  intros Hw -> Hh Hl Hm Hs. exists fl, hl, bk, gn, mgr''. split; [|done].
  rewrite <-(app_nil_r (pp_forth w)).
  apply (pipe_inv_published x y server subscriber e key ids mgr r w fl hl bk gn mgr' X2 (pp_block w)
    h [] false mgr'' Hw Hl Hm (sh_new _ _ _ _ _ Hh)); try done. simpl. lia.
Qed.

Lemma hand_over_sim a : relay_op_sim (Hand_over a).
Proof.
  intros w c Ha (ch & Hw & Hh & Hb & Hlo & Hf). simpl in Ha. cbn [relay_op relay_step].
  rewrite (relay_used c ch Hh Hb Hlo Hf). pose proof Hw as (fl & hl & bk & gn & mgr' & Hi & Hch).
  pose proof Hi as [Hprod _ Hslots Hisz Hict Hibase Hblock _ _ _ _ _].
  assert (event_fits e ids mgr') as Hfits' by by eapply inv_fits.
  pose proof (producer_takes_slot (pp_producer w) y server e key ids mgr'
    (all_slots fl hl bk gn).*1 Hprod Hslots Hfits') as Hp.
  rewrite Hisz, Hict, Hibase, <-(channel_used w fl hl bk gn), <-Hch in Hp.
  case_decide as Hroom.
  - destruct Hp as (h & p & X1 & E1 & E2 & Hl1 & Hin & _ & Hg & _).
    assert (h < m_slot_count mgr)%N as Hlt by (rewrite <-Hict; apply Hin).
    pose proof (at_producer_run _ w _ _ _ E1) as Ea. set (w1 := mkPipe _ _ _ _ _ _) in Ea.
    pose proof (Hfill a (mapped_read baseX (pp_block w1)
      {| sp_addr := baseX + h * m_slot_size mgr; sp_size := m_slot_size mgr |}) Ha) as Hfa.
    rewrite (proj2 (Nat.ltb_lt _ _)) by done. cbn [andb]. destruct (fitting a).
    + destruct Hfa as (data & Ef & Hd & Hu).
      { unfold mapped_read. cbn [sp_addr sp_size]. rewrite length_take, length_drop. simpl.
        assert (h * m_slot_size mgr + m_slot_size mgr ≤ m_slot_count mgr * m_slot_size mgr)%N
          by nia. lia. }
      destruct (step_sim (Publish data) w ch Hd Hw) as (w' & ch' & o & lost & Er & Hlost & Es & Hw').
      cbn [channel_step] in Es. rewrite (proj2 (Nat.ltb_lt _ _)) in Es by done.
      injection Es as <- <-. eexists w', _, _, lost. split; [|split; [|split; [reflexivity|]]].
      * by eapply hand_over_publishes.
      * intros Ht. destruct (Hlost Ht) as (k & h' & Hk). by eexists k, h', _.
      * eexists. split; [exact Hw'|]. simpl. split_and!; [done|done|done|].
        destruct lost; [done|]. apply Forall2_app; [done|]. by constructor.
    + destruct (producer_gives_up send_ok X1 y server e key ids mgr' _ h p Hl1 Hin Hg)
        as (X2 & mgr'' & E3 & Hl2 & Hsame & Hs).
      eexists _, c, _, false. split; [|split; [done|split; [reflexivity|]]].
      * eapply hand_over_gives_up; [exact Ea|exact E2| |exact (at_producer_run _ w1 _ _ _ E3)].
        apply Hfa. unfold mapped_read. cbn [sp_addr sp_size]. rewrite length_take, length_drop. simpl.
        assert (h * m_slot_size mgr + m_slot_size mgr ≤ m_slot_count mgr * m_slot_size mgr)%N
          by nia. lia.
      * exists ch. split; [|done]. simpl. rewrite !app_nil_r. by eapply gave_up_sim.
  - pose proof (at_producer_run _ w _ _ _ Hp) as Ea.
    destruct (hand_over_refused a w _ Ea) as [Eh Er].
    destruct (step_sim (Publish []) w ch ltac:(simpl; lia) Hw)
      as (w' & ch' & o & lost & Er' & _ & Es & Hw').
    cbn [channel_step] in Es. rewrite (proj2 (Nat.ltb_ge _ _)) in Es by lia. injection Es as <- <-.
    cbn [pipe_op] in Er'. rewrite Er in Er'. injection Er' as <-.
    rewrite (proj2 (Nat.ltb_ge _ _)) by lia. eexists _, c, _, false.
    split; [exact Eh|]. split; [done|]. split; [done|]. by exists ch.
Qed.

Lemma arrive_there_sim addr : relay_op_sim (Arrive_there addr).
Proof.
  intros w c Ha (ch & Hw & Hh & Hb & Hlo & Hf). cbn [relay_op relay_step]. unfold arrive_there.
  destruct (step_sim (Deliver addr) w ch Ha Hw) as (w1 & ch1 & o1 & l1 & E1 & _ & S1 & Hw1).
  cbn [pipe_op] in E1.
  rewrite (quietly_run _ _ _ _ _ _ E1). cbn [channel_step] in S1.
  destruct (ch_flight ch) as [|data rest] eqn:Ef.
  - injection S1 as <- <-. apply Forall2_nil_inv_r in Hf. rewrite Hf. eexists _, _, _, false.
    split; [reflexivity|]. split; [done|]. split; [reflexivity|]. exists ch. by rewrite Ef, Hf.
  - injection S1 as <- <-. apply Forall2_cons_inv_r in Hf as (a & samples & Hu & Hf & Hc).
    rewrite Hc. cbn [omap list_omap told_payload payload_of forM]. set (n := ch_next ch) in *.
    destruct (step_sim (Look n) w1 _ I Hw1) as (w2 & ch2 & o2 & l2 & E2 & _ & S2 & _).
    cbn [channel_step ch_held] in S2.
    rewrite lookup_insert_eq in S2. injection S2 as <- <-. cbn [pipe_op] in E2.
    destruct (looked_at n w1 w2 data E2) as (_ & q & d & Eq & Ed & Em).
    destruct (step_sim (Consume n) w1 _ I Hw1)
      as (w3 & ch3 & o3 & lost & E3 & Hlost & S3 & Hw3). cbn [channel_step ch_held] in S3.
    rewrite lookup_insert_eq in S3. injection S3 as <- <-. cbn [pipe_op] in E3.
    eexists _, _, _, lost. split; [|split; [exact Hlost|split; [reflexivity|]]].
    + unfold use_payload. rewrite bind_assoc. unfold get_state.
      rewrite (bind_silent _ _ w1 w1 w1) by done.
      rewrite bind_assoc, (the_run _ _ _ _ _ Eq), bind_assoc, (liftO_run _ _ _ _ Ed).
      rewrite Em, bind_assoc, (liftO_run _ _ _ _ Hu), bind_assoc.
      rewrite (bind_run _ _ _ _ _ _ (forward_run (expected a) w1)), bind_assoc.
      rewrite (quietly_run _ _ _ _ _ _ E3). simpl. by rewrite app_nil_r.
    + eexists. split; [exact Hw3|]. simpl. rewrite Hh, delete_insert_id by apply lookup_empty.
      rewrite Hb, Hlo. by split_and!.
Qed.

Lemma arrive_back_sim addr : relay_op_sim (Arrive_back addr).
Proof.
  intros w c Ha (ch & Hw & Hh & Hb & Hlo & Hf). cbn [relay_op relay_step]. unfold arrive_back.
  destruct (step_sim (Give_back addr) w ch Ha Hw) as (w1 & ch1 & o1 & l1 & E1 & _ & S1 & Hw1).
  cbn [pipe_op] in E1.
  rewrite (quietly_run _ _ _ _ _ _ E1). injection S1 as <- <-. eexists _, _, _, false.
  split; [reflexivity|]. split; [done|]. split; [reflexivity|]. eexists. split; [exact Hw1|]. simpl.
  by rewrite Hb.
Qed.

Lemma relay_run_sim ops w c :
  Forall relay_op_ok ops → relay_sim w c →
  ∃ w' c' o losses,
    relay_events send_ok bridgeX bridgeY x y server e baseX baseY fill use_bytes ops w =
      Done (tt, w', o) ∧
    Forall2 (λ op (lost : bool), lost = true → relay_may_lose op) ops losses ∧
    relay_run (N.to_nat (m_slot_count mgr)) fitting expected (zip ops losses) c = (c', o) ∧
    relay_sim w' c'.
Proof.
  intros Hops. revert w c. induction Hops as [|op ops Hop _ IH]; intros w c Hw.
  - by exists w, c, [], [].
  - assert (relay_op_sim op) as Hsim.
    { destruct op; [apply hand_over_sim|apply arrive_there_sim|apply arrive_back_sim]. }
    destruct (Hsim w c Hop Hw) as (w1 & c1 & o1 & lost & E1 & L1 & S1 & Hw1).
    destruct (IH w1 c1 Hw1) as (w2 & c2 & o2 & losses & E2 & L2 & S2 & Hw2).
    exists w2, c2, (o1 ++ o2), (lost :: losses). split_and!; [|by constructor| |done].
    + unfold relay_events. cbn [forM]. rewrite (bind_run _ _ _ _ _ _ E1).
      unfold relay_events in E2. by rewrite E2.
    + simpl. by rewrite S1, S2.
Qed.
End simulation.
