(* ===== verification/EndToEnd.v ===== *)
(** * From a request to its events

    The whole way of a service: [ServicePath] takes it from the request of one daemon's user
    to the connector of the other's, [EventPipeline] takes events over a connection. Here the
    daemons that have connected and subscribed are shown to be linked as the channel of
    events requires, so that everything follows from the request alone. *)

From stdpp Require Import base numbers list gmap strings.
From S2P Require Import Prelude.
From S2P Require Import IpcTypes.
From S2P Require Import Payload.
From S2P Require Import SlotManager.
From S2P Require Import Keys.
From S2P Require Import ConnectionMetadata.
From S2P Require Import SharedMemoryManagers.
From S2P Require Import ServiceState.
From S2P Require Import BindingBase.
From S2P Require Import Wire.
From S2P Require Import Socom.
From S2P Require Import EventPath.
From S2P Require Import Bridging.
From S2P Require Import ServicePath.
From S2P Require Import EventPipeline.

(** The memory of a service that is created for a connection: nothing is allocated. *)
Lemma created_memory {C} `{Shm} ks (s s' : Shared_memory_managers C) key md :
  get_shared_memory_metadata ks s key = Done (md, s') → m_slot_managers s !! key = None →
  ∃ mgr, m_slot_managers s' !! key = Some mgr ∧
    m_shared_memory_allocations s' = m_shared_memory_allocations s ∧
    manager_ok mgr ∧ (0 < m_slot_size mgr)%N ∧ (0 < m_slot_count mgr)%N ∧
    m_slot_size mgr = slot_size md ∧ m_slot_count mgr = slot_count md ∧
    ∀ h, load_count mgr h = 0%N.
Proof.
  intros E Hn. pose proof (announced_metadata _ _ _ _ _ E) as (mgr & Hm & _ & Hsz & Hct).
  exists mgr. unfold get_shared_memory_metadata in E.
  apply outcome_bind_Done in E as ([m s1] & Eg & E).
  apply outcome_bind_Done in E as (md' & _ & [= -> ->]).
  unfold get_shared_memory_slot_manager in Eg. rewrite Hn in Eg.
  destruct (keys_find ks key) as [[sv inst]|]; [|done].
  apply outcome_bind_Done in Eg as (i & _ & Eg). apply outcome_bind_Done in Eg as (n & _ & Eg).
  apply outcome_bind_Done in Eg as (res & Ef & Eg). apply outcome_bind_Done in Eg as (m1 & Ea & Eg).
  injection Eg as -> <-. simpl in Hm. rewrite lookup_insert_eq in Hm. injection Hm as ->.
  destruct res as [m2|]; simplify_eq/=. unfold factory_create in Ef.
  destruct (smm_configuration s !! i) as [instances|]; [|done].
  destruct (instances !! n) as [cfg|]; [|done].
  apply outcome_bind_Done in Ef as (p & _ & Ef). injection Ef as Ef.
  unfold create_shared_memory_slot_manager in Ef. revert Ef.
  destruct (N.eqb_spec (slot_size cfg) 0) as [|Hne]; [done|].
  destruct (N.eqb_spec (slot_count cfg) 0) as [|Hne']; [done|]. destruct (shm_create _ _); [|done].
  simpl.
  destruct (shm_allocate _ _) as [base|]; [|done]. intros [= <-].
  rewrite lookup_insert_eq. split_and!; try done.
  - apply manager_ok_make.
  - simpl. lia.
  - simpl. lia.
  - apply load_count_make.
Qed.

Lemma unused_slots b key mgr :
  m_slot_managers (b_slot_managers b) !! key = Some mgr → manager_ok mgr →
  (∀ h, load_count mgr h = 0%N) → m_shared_memory_allocations (b_slot_managers b) !! key = None →
  slots_used b key mgr [].
Proof.
  intros Hm Hok Hc Ha. split; try done; try (intros h Hh; by apply elem_of_nil in Hh).
  - apply NoDup_nil_2.
  - intros h _. unfold allocation_at. by rewrite Ha.
Qed.

Section path.
Context `{Shm} (send_ok : N → Client_id → Message → bool).
Context (i : Service_interface_identifier) (n : Service_instance) (sv : Service)
  (inst : Instance_id) (Hids : service_ids i n sv inst).

(** Daemons that have connected and subscribed are linked. *)
Lemma subscribed_linked X X2 X3 Y Y3 Y4 x y s S cX cY sY keyX ksX mdX keyY ids idsY e r ro p m :
  provider_ready i n sv inst X y s S keyX ksX mdX →
  provider_connected X X2 y keyX cX ids → consumer_connected Y Y3 x keyY cY sY idsY →
  ids_key ids = keyX → ids_key idsY = keyY → ids_remote_handle idsY = ids_remote_handle ids →
  ids_local_metadata ids = mdX → ids_remote_metadata idsY = mdX →
  subscribed_to (dm_socom X3) cX s e → dm_client_keys X3 = dm_client_keys X2 →
  dm_binding X3 = set_service_states (dm_binding X2) m →
  subscribed_to (dm_socom Y4) cY sY e → dm_client_keys Y4 = dm_client_keys Y3 →
  dm_binding Y4 = set_sent (dm_binding Y3) (b_sent (dm_binding Y3) + 1)%N →
  fits 16 e → fits 64 (ids_remote_handle ids) → (slot_count mdX < kNoSlotHandle)%N →
  fits 64 (slot_count mdX * slot_size mdX) →
  fixed_string_to_string (path mdX) = Done p → b_read_only_slot_managers (dm_binding Y) !! p = None
    →
  get_read_only_shared_memory_slot_manager (b_read_only_slot_managers (dm_binding Y)) mdX
    = Done (r, ro) →
  ∃ mgr, linked X3 Y4 x y s cY e keyX ids mgr r ∧
    m_slot_size mgr = slot_size mdX ∧ m_slot_count mgr = slot_count mdX.
Proof.
  intros HX HX2 HY3 Hk HkY Hrh Hmd HmdY HsX HckX HbX HsY HckY HbY He Hh Hct Hfit Hp Hro Er.
  destruct (pc_memory _ _ _ _ _ _ HX2) as [ks Em]. rewrite Hmd in Em.
  destruct (pr_unused _ _ _ _ _ _ _ _ _ _ _ HX) as [Hu1 Hu2].
  destruct (created_memory _ _ _ _ _ Em Hu1) as (mgr & Hm & Ha & Hok & Hpos & Hpos' & Hsz & Hcn &
    Hz).
  destruct (opened_manager _ _ _ _ _ Hp Hro Er) as (Hrs & Hrc & _).
  destruct HsX as (SX & ESX & HeX & HcX). destruct HsY as (SY & ESY & HeY & HcY).
  exists mgr. split; [|done]. split.
  - split.
    + exists SX, cX. rewrite HckX. split_and!; try done. apply HX2.
    + rewrite HbX. simpl. rewrite (pc_ids _ _ _ _ _ _ HX2), <-Hk.
      apply only_client_of.
      rewrite Hk. apply HX.
    + rewrite HbX. simpl. rewrite (pc_peer _ _ _ _ _ _ HX2). apply HX.
    + rewrite HbX. simpl. rewrite (pc_ids _ _ _ _ _ _ HX2). apply find_first_ids.
    + done.
  - split.
    + rewrite HbY. apply HY3.
    + exists idsY, ro, sY, SY. rewrite HbY. simpl.
      rewrite (cc_ids _ _ _ _ _ _ _ HY3), (cc_memory _ _ _ _ _ _ _ HY3), HmdY, HkY.
      split_and!; try done; [|apply HY3]. rewrite <-Hrh. apply find_first_ids.
    + rewrite HckY. apply HY3.
  - apply unused_slots; rewrite ?HbX; simpl; try done. by rewrite Ha.
  - split; [done|done|done|by rewrite Hcn|by rewrite Hcn, Hsz|done].
  - congruence.
  - congruence.
Qed.

End path.
