(* ===== verification/TwoDaemons.v ===== *)
(** * Daemons connected to each other

    Two daemons and the frames between them. A user acts at one of the daemons; what its
    binding sends is put in transit and delivered in the order of sending, and what the
    other binding answers is delivered in its turn. On this the sequences of a whole
    system are run: a service found, subscribed, used and its memory given back; a service
    that stops and starts again; a service that two peers provide. *)

From stdpp Require Import base numbers list gmap strings.
From Stdlib Require Import Strings.Ascii.
From S2P Require Import Prelude.
From S2P Require Import IpcTypes.
From S2P Require Import Payload.
From S2P Require Import Keys.
From S2P Require Import ConnectionMetadata.
From S2P Require Import SlotManager.
From S2P Require Import SharedMemoryManagers.
From S2P Require Import ServiceState.
From S2P Require Import BindingBase.
From S2P Require Import BindingSafety.
From S2P Require Import BindingProperties.
From S2P Require Import Wire.
From S2P Require Import Socom.
From S2P Require Import SocomInvariant.
From S2P Require Import SocomCalls.
From S2P Require Import SocomProperties.
From S2P Require Import EventPath.
From S2P Require Import Ownership.
From S2P Require Import Bridging.
From S2P Require Import BridgingSafety.
From S2P Require Import ServicePath.
From S2P Require Import EventPipeline.
From S2P Require Import EndToEnd.

(** ** A daemon by itself *)

Section runs.
Context `{Shm} (send_ok : N → Client_id → Message → bool) (bridge : N).

(** Several operations, one after the other. *)
Definition run_nodes (ops : list Node_op) : DM unit := forM ops (run_node send_ok bridge).

(** Each is admissible where it is executed. *)
Fixpoint all_admissible (ops : list Node_op) (d : Daemon) : Prop :=
  match ops with
  | [] => True
  | op :: ops => node_admissible d op ∧
      match run_node send_ok bridge op d with
      | Done (_, d', _) => all_admissible ops d'
      | Fault _ => False
      end
  end.

Lemma run_nodes_reachable ops start d d' o :
  node_reachable send_ok bridge start d → all_admissible ops d →
  run_nodes ops d = Done (tt, d', o) → node_reachable send_ok bridge start d'.
Proof.
  revert d d' o. induction ops as [|op ops IH]; intros d d' o Hd Ha E.
  - by injection E as <- _.
  - destruct Ha as [Ha Hr]. unfold run_nodes in E. simpl in E.
    unfold mbind, M_bind in E. destruct (run_node send_ok bridge op d) as [[[[] d1] o1]|] eqn:E1;
      [|done].
    destruct (forM ops _ d1) as [[[[] d2] o2]|] eqn:E2; [|done]. injection E as <- _.
    eapply IH; [by eapply node_step|done|exact E2].
Qed.
End runs.

#[export] Instance bound_eq_dec : EqDecision Bound.
Proof. solve_decision. Defined.
#[export] Instance node_admissible_dec d op : Decision (node_admissible d op).
Proof.
  destruct op as [| | | |counts call| | |]; try (simpl; apply _). simpl.
  destruct (decide (bridge_call call = false ∧ socom_admissible (dm_socom d) call ∧
    Forall (λ x, x ∉ bound_by (dm_client_keys d) (dm_server_peers d)) (option_list (call_on call))))
    as [(Hb & Ha & Ho)|Hn].
  - left. split_and!; [done..|]. intros x E. rewrite E in Ho. by inversion Ho.
  - right. intros (Hb & Ha & Ho). apply Hn. split_and!; [done..|].
    destruct (call_on call); [by constructor; [apply Ho|]|by constructor].
Defined.
#[export] Instance all_admissible_dec `{Shm} send_ok bridge ops d :
  Decision (all_admissible send_ok bridge ops d).
Proof.
  revert d. induction ops as [|op ops IH]; intros d; simpl; [apply _|].
  apply and_dec; [apply _|]. destruct (run_node send_ok bridge op d) as [[[? d'] ?]|]; apply _.
Defined.

(** ** Two daemons *)

Inductive Site : Type := Provider_site | Consumer_site.
Definition other (x : Site) : Site :=
  match x with Provider_site => Consumer_site | Consumer_site => Provider_site end.

(** The daemons and the frames in transit, each with the site it is for. *)
Record System : Type := mkSystem {
  sys_provider : Daemon;
  sys_consumer : Daemon;
  sys_transit : list (Site * list N);
}.
Definition at_site (x : Site) (w : System) : Daemon :=
  match x with Provider_site => sys_provider w | Consumer_site => sys_consumer w end.
Definition set_site (x : Site) (d : Daemon) (frames : list (list N)) (w : System) : System :=
  let transit := sys_transit w ++ (pair (other x) <$> frames) in
  match x with
  | Provider_site => mkSystem d (sys_consumer w) transit
  | Consumer_site => mkSystem (sys_provider w) d transit
  end.

Definition frames_of : list Daemon_action → list (list N) :=
  omap (λ a, match a with To_peer _ bytes => Some bytes | _ => None end).
Definition user_callbacks : list Daemon_action → list Socom_action :=
  omap (λ a, match a with To_user a => Some a | _ => None end).

(** What the system does is seen by the users of the daemons. *)
Abbreviation SysM := (M System (Site * Socom_action)).

Section system.
Context `{Shm} (send_ok : N → Client_id → Message → bool) (bridge : N).

(** Something happens at one site. *)
Definition act {A} (x : Site) (m : DM A) : SysM A := λ w,
  match m (at_site x w) with
  | Done (a, d, o) => Done (a, set_site x d (frames_of o) w, pair x <$> user_callbacks o)
  | Fault f => Fault f
  end.

(** The frames in transit are delivered until there are none, in at most [fuel] steps.
    Each daemon knows the other one as client 0. *)
Fixpoint settle (fuel : nat) : SysM unit :=
  transit ← reads sys_transit;
  match transit, fuel with
  | (x, bytes) :: rest, S fuel =>
    modify (λ w, mkSystem (sys_provider w) (sys_consumer w) rest);;
    act x (node_receive send_ok bridge 0 0 bytes);;
    settle fuel
  | _, _ => mret tt
  end.

(** A user acts and the system comes to rest. *)
Definition act_settle {A} (x : Site) (m : DM A) : SysM A :=
  a ← act x m; settle 16;; mret a.
End system.

(** ** Systems under way *)

#[local] Instance node_memory : Shm := granting_shm 4096.

Definition new_node : Daemon :=
  match make_node demo_configuration 1 with
  | Done (d, _) => d
  | Fault _ => mkDaemon so_init (make_binding ∅) ∅ 0 ∅ ∅
  end.
Definition new_system : System := mkSystem new_node new_node [].
Definition service : Service_interface_identifier := demo_identifier "a"%char.

(** The daemons connect, the provider's user makes and enables a server, the consumer's
    user makes a client connector and subscribes an event. The first connectors of both
    runtimes are number 1, after the bridge. *)
Definition start_system (e : N) : SysM (Result Socom_error unit) :=
  act_settle all_sent 0 Provider_site (node_add_client all_sent 0 0);;
  act_settle all_sent 0 Consumer_site (node_add_client all_sent 0 0);;
  act_settle all_sent 0 Provider_site (user_make_server all_sent 0 service demo_counts "x");;
  act_settle all_sent 0 Provider_site (user_call all_sent 0 (enable_server 1));;
  act_settle all_sent 0 Consumer_site (user_make_client all_sent 0 service demo_counts "x");;
  act_settle all_sent 0 Consumer_site (user_call all_sent 0 (Socom.subscribe_event 1 e
    mode_update)).
Definition start_up : SysM (Result Socom_error unit) := start_system 2.

(** The provider's user publishes event 2 from memory that it allocates for it. *)
Definition publish : SysM (option Event_payload) :=
  p ← act_settle all_sent 0 Provider_site (user_allocate 1 2);
  from_option (λ p, act_settle all_sent 0 Provider_site (user_update all_sent 0 1 2 p)) (mret tt)
    p;;
  mret p.

(** The provider's user stops the service and starts it again, upon which the consumer's
    user subscribes anew. *)
Definition restart : SysM (Result Socom_error unit) :=
  act_settle all_sent 0 Provider_site (user_call all_sent 0 (disable_server 1));;
  act_settle all_sent 0 Provider_site (user_call all_sent 0 (enable_server 1));;
  act_settle all_sent 0 Consumer_site (user_call all_sent 0 (Socom.subscribe_event 1 2
    mode_update)).

(** What users see of a run from the start, how many frames are left in transit, and the
    references to the first slot of the provider's memory. *)
Definition observe {A} (m : SysM A) :
    outcome (A * list (Site * Socom_action) * nat * N) :=
  match m new_system with
  | Done (a, w, o) => Done (a, o, length (sys_transit w),
      rc_of (m_slot_managers (b_slot_managers (dm_binding (sys_provider w)))) 0 0)
  | Fault f => Fault f
  end.

(** What the users see while the system starts up. *)
Definition started : list (Site * Socom_action) :=
  [(Consumer_site, Cb_service_state_change 1 true 2);
   (Provider_site, Cb_event_subscription_change 1 2 true)].

(** The whole life of an event, from daemons that have just been made. The client is told
    of the service and the server of the subscription; the event reaches the client, while
    the slot is held by the client's reference; when the client has destroyed the payload
    the slot is free again. After each step nothing is left in transit. *)
Lemma event_from_scratch : ∃ p,
  observe start_up = Done (Ok tt, started, 0, 0%N) ∧
  observe (start_up;; publish) =
    Done (Some p, started ++ [(Consumer_site, Cb_event_update 1 2 0)], 0, 1%N) ∧
  observe (start_up;; publish;;
    act_settle all_sent 0 Consumer_site (user_destroy_payload all_sent 0)) =
    Done (tt, started ++ [(Consumer_site, Cb_event_update 1 2 0)], 0, 0%N).
Proof. eexists. split_and!; vm_compute; reflexivity. Qed.

(** A run with a service that stops and starts again ([Restart] shows what is behind it):
    the consumer's user is told that the service is gone and that it is back, its new
    subscription is accepted, but the provider's user is not told of it and no event can be
    published any more. *)
Lemma restart_observed :
  observe (start_up;; restart;; publish) =
    Done (None, started ++ [(Consumer_site, Cb_service_state_change 1 false 2);
      (Consumer_site, Cb_service_state_change 1 true 3)], 0, 0%N) ∧
  observe (start_up;; restart) = Done (Ok tt, started ++
    [(Consumer_site, Cb_service_state_change 1 false 2);
     (Consumer_site, Cb_service_state_change 1 true 3)], 0, 0%N).
Proof. split; vm_compute; reflexivity. Qed.

(** ** Two providers *)

(** A daemon whose user asks for the service, while two peers offer it: both are asked for
    a connection, and both grant it. *)
Definition offer_of_peer (peer : Client_id) : Node_op :=
  Node_receive peer 0 (message_bytes (Msg_Offer_service {| os_service_id := demo_service "a"%char;
    os_instance_id := demo_id "x"%char; os_offered := true |})).
Definition reply_of_peer (peer : Client_id) (required : N) : Node_op :=
  Node_receive peer 0 (message_bytes (Msg_Connect_service_reply {| csr_required_id := required;
    csr_provided_id := 1; csr_metadata := demo_metadata; csr_num_methods := 0;
    csr_num_events := 4 |})).
Definition two_offers : list Node_op :=
  [Node_add_client 0; Node_add_client 1;
   Node_user demo_counts (Make_client true service "x");
   offer_of_peer 0; offer_of_peer 1; reply_of_peer 0 1].


Definition result_daemon (x : outcome (unit * Daemon * list Daemon_action)) : Daemon :=
  match x with Done (_, d, _) => d | Fault _ => new_node end.
Definition asked : Daemon := result_daemon (run_nodes all_sent 0 two_offers new_node).

Lemma new_node_made : make_node demo_configuration 1 = Done (new_node, 0%N).
Proof. reflexivity. Qed.

(** A state that admissible operations lead to is reachable. *)
Lemma reached ops d :
  bool_decide (all_admissible all_sent 0 ops new_node) = true →
  (match run_nodes all_sent 0 ops new_node with Done _ => true | Fault _ => false end) = true →
  d = result_daemon (run_nodes all_sent 0 ops new_node) →
  node_reachable all_sent 0 new_node d.
Proof.
  intros Ha%bool_decide_eq_true E ->.
  destruct (run_nodes all_sent 0 ops new_node) as [[[[] d'] o]|] eqn:Er; [|done].
  eapply run_nodes_reachable; [apply node_start|exact Ha|exact Er].
Qed.

Lemma asked_reachable : node_reachable all_sent 0 new_node asked.
Proof. apply (reached two_offers); [vm_compute; reflexivity..|reflexivity]. Qed.

(** The second of two providers ends in an assert. The peers have done nothing wrong, and
    the first one's service is available. The reply of the second makes the binding ask
    for another server of the same service, which the runtime refuses. *)
Lemma second_provider_fails :
  node_reachable all_sent 0 new_node asked ∧ node_admissible asked (reply_of_peer 1 2) ∧
  (∃ st, b_service_states (dm_binding asked) !! 0%N = Some st ∧ is_Some (ss_enabled_connector st)) ∧
  run_node all_sent 0 (reply_of_peer 1 2) asked = Fault Assertion_failed.
Proof.
  split_and!; [exact asked_reachable| | |vm_compute; reflexivity].
  - refine (bool_decide_unpack _ _). vm_compute. exact I.
  - eexists. split; [vm_compute; reflexivity|by eexists].
Qed.

(** ** Witnesses *)

(** The first reply makes the binding provide the service with server 2 of the runtime. *)
Definition connecting : Daemon := result_daemon (run_nodes all_sent 0 (take 5 two_offers) new_node).

Lemma node_never_dangles_witness : ∃ d' o,
  run_node all_sent 0 (reply_of_peer 0 1) connecting = Done (tt, d', o) ∧
  dm_server_peers d' !! 2%N = Some (0%N, 1%N) ∧ 2%N ∈ dom (so_servers (dm_socom d')) ∧
  nothing_dangles d'.
Proof.
  assert (node_reachable all_sent 0 new_node connecting) as Hr
    by (eapply reached; [..|reflexivity]; vm_compute; reflexivity).
  assert (node_admissible connecting (reply_of_peer 0 1)) as Ha
    by (refine (bool_decide_unpack _ _); vm_compute; exact I).
  pose proof (node_never_dangles all_sent demo_configuration 1 new_node 0 connecting
    (reply_of_peer 0 1) new_node_made Hr Ha) as Hn.
  assert (match run_node all_sent 0 (reply_of_peer 0 1) connecting with
    | Done (_, d', _) => bool_decide (dm_server_peers d' !! 2%N = Some (0%N, 1%N))
    | Fault _ => false end = true) as Hc by (vm_compute; reflexivity).
  destruct (run_node all_sent 0 (reply_of_peer 0 1) connecting) as [[[[] d'] o]|]; [|done].
  apply bool_decide_eq_true in Hc. exists d', o. split_and!; [done|done| |done].
  apply (nd_servers _ Hn). apply elem_of_dom. by eexists.
Defined.

Lemma binding_owns_its_connectors_witness :
  NoDup (held_by (dm_binding asked)) ∧ 2%N ∈ dom (dm_server_peers asked) ∧
  dom (dm_server_peers asked) ⊆ dom (so_servers (dm_socom asked)).
Proof.
  destruct (binding_owns_its_connectors all_sent demo_configuration 1 new_node 0 asked
    new_node_made asked_reachable) as (Hd & _ & Hs & _ & Hin).
  split_and!; [done| |done]. apply Hs. vm_compute. by left.
Defined.

(** The destructor of a binding that serves a request and holds a client connector. *)
Definition serving_node : Daemon :=
  result_daemon (run_nodes all_sent 0 [Node_add_client 0;
    Node_user demo_counts (Make_server true service 0 4 "x"); Node_user demo_counts (Enable 1);
    Node_receive 0 0 (message_bytes (Msg_Request_service demo_request))] new_node).

Lemma binding_destructor_releases_witness : ∃ d' o,
  dm_client_keys serving_node = {[ 2%N := 0%N ]} ∧
  node_destroy_binding all_sent 0 serving_node = Done (tt, d', o) ∧
  dm_client_keys d' = ∅ ∧ ∀ c, Bound_client c ∉ held_by (dm_binding d').
Proof.
  eexists _, _. split; [vm_compute; reflexivity|]. split; [vm_compute; reflexivity|].
  refine (binding_destructor_releases all_sent demo_configuration 1 new_node 0 serving_node
    new_node_made _).
  eapply reached; [..|reflexivity]; vm_compute; reflexivity.
Defined.

(** A daemon whose user provides the service, and one that is connected and idle. *)
Definition providing_node : Daemon :=
  result_daemon (run_nodes all_sent 0 [Node_add_client 0;
    Node_user demo_counts (Make_server true service 0 4 "x"); Node_user demo_counts (Enable 1)]
    new_node).
Definition idle_node : Daemon := result_daemon (run_nodes all_sent 0 [Node_add_client 0] new_node).

Lemma reached_inv d : node_reachable all_sent 0 new_node d → so_inv (dm_socom d).
Proof.
  intros Hd. by destruct (node_reachable_ok all_sent _ _ _ _ _ new_node_made Hd).
Qed.

Lemma providing_reachable : node_reachable all_sent 0 new_node providing_node.
Proof. eapply reached; [..|reflexivity]; vm_compute; reflexivity. Qed.
Lemma idle_reachable : node_reachable all_sent 0 new_node idle_node.
Proof. eapply reached; [..|reflexivity]; vm_compute; reflexivity. Qed.

Definition keys_after (b : Binding) : Keys :=
  match keys_get (b_keys b) (demo_service "a"%char) (demo_id "x"%char) with
  | Done (_, ks) => ks
  | Fault _ => b_keys b
  end.
Definition provided_server : Server_connector :=
  default (new_server service 0 0 "x") (so_servers (dm_socom providing_node) !! 1%N).

(** The consumer's view of the memory, and a schedule: two events are published, the third
    one is refused, the first one is looked at and destroyed, and its slot is used again. *)
Definition opened_memory : Read_only_slot_manager :=
  {| ro_base_address := 4096; ro_slot_size := slot_size demo_metadata;
     ro_slot_count := slot_count demo_metadata |}.
Definition schedule : list Pipe_op :=
  [Publish [1; 2; 3]; Publish [4]; Publish [5]; Deliver 0; Look 0; Consume 0; Deliver 8;
    Give_back 0;
   Publish [6; 7]; Look 1; Deliver 0; Look 2; Look 0]%N.
Definition demo_block : list N := replicate 256 0%N.

Lemma schedule_ok : Forall (pipe_op_ok (slot_size demo_metadata)) schedule.
Proof. repeat constructor; vm_compute; congruence. Qed.


(** The two daemons when the system has started up. *)
Definition started_system : System :=
  match start_up new_system with Done (_, w, _) => w | Fault _ => new_system end.
Definition connection_of (w : System) : Ids :=
  default {| ids_key := 0; ids_local_handle := 0; ids_remote_handle := 0;
     ids_local_metadata := demo_metadata; ids_remote_metadata := demo_metadata |}
    (get_by_remote_handle (b_id_mapping (dm_binding (sys_provider w))) 0 1).
Definition demo_slots : Slot_manager := make_slot_manager 64 2 "/m" 4096.

(** The provider's server has the binding's connector 2 as its subscriber, the consumer's
    binding provides the service with server 2. *)
Lemma system_linked w e S ids S' st :
  so_servers (dm_socom (sys_provider w)) !! 1%N = Some S → (e <? N.of_nat (sc_num_events S))%N =
    true →
  event_client (N.to_nat e) (sc_subscriber S) = Some 2%N →
  dm_client_keys (sys_provider w) !! 2%N = Some 0%N →
  for_each_client (b_id_mapping (dm_binding (sys_provider w))) 0 = [(0%N, connection_of w)] →
  bool_decide (0%N ∈ b_connections (dm_binding (sys_provider w))) = true →
  get_by_remote_handle (b_id_mapping (dm_binding (sys_provider w))) 0
    (ids_remote_handle (connection_of w)) = Some (connection_of w) →
  ids_key (connection_of w) = 0%N →
  bool_decide (0%N ∈ b_connections (dm_binding (sys_consumer w))) = true →
  get_by_remote_handle (b_id_mapping (dm_binding (sys_consumer w))) 0
    (ids_remote_handle (connection_of w)) = Some ids →
  (∃ ro, get_read_only_shared_memory_slot_manager (b_read_only_slot_managers
    (dm_binding (sys_consumer w))) (ids_remote_metadata ids) = Done (opened_memory, ro)) →
  b_service_states (dm_binding (sys_consumer w)) !! ids_key ids = Some st →
  ss_enabled_connector st = Some 2%N → so_servers (dm_socom (sys_consumer w)) !! 2%N = Some S' →
  (e <? N.of_nat (sc_num_events S'))%N = true →
  event_client (N.to_nat e) (sc_subscriber S') = Some 1%N →
  dm_client_keys (sys_consumer w) !! 1%N = None →
  m_slot_managers (b_slot_managers (dm_binding (sys_provider w))) !! 0%N = Some demo_slots →
  m_shared_memory_allocations (b_slot_managers (dm_binding (sys_provider w))) !! 0%N = None →
  (e <? 65536)%N = true → (ids_remote_handle (connection_of w) <? 2 ^ 64)%N = true →
  linked (sys_provider w) (sys_consumer w) 0 0 1 1 e 0 (connection_of w) demo_slots opened_memory.
Proof.
  intros. repeat match goal with
  | H : bool_decide _ = true |- _ => apply bool_decide_eq_true in H
  | H : (_ <? _)%N = true |- _ => apply N.ltb_lt in H
  | H : ∃ _, _ |- _ => destruct H
  end. split; try done.
  - split; try done. by eexists _, _.
  - split; try done. eexists ids, _, 2%N, S'. split_and!; try done.
    by match goal with H : b_service_states _ !! _ = _ |- _ => rewrite H end.
  - apply unused_slots; [done|apply manager_ok_make|apply load_count_make|done].
Qed.

Lemma started_linked :
  linked (sys_provider started_system) (sys_consumer started_system) 0 0 1 1 2 0
    (connection_of started_system) demo_slots opened_memory.
Proof. eapply system_linked; try (vm_compute; reflexivity). eexists. vm_compute. reflexivity. Qed.


(** A transport that refuses the updates of events with one byte, and the message that a
    payload with three bytes is consumed: the slot of the first event is lost, and nobody
    but the last event can use the other one. *)
Definition flaky (k : N) (c : Client_id) (m : Message) : bool :=
  match m with
  | Msg_Event_update u => negb (used_bytes (eu_payload u) =? 1)%N
  | Msg_Payload_consumed p => negb (used_bytes (pc_handle p) =? 3)%N
  | _ => true
  end.
Lemma flaky_run : ∃ w',
  pipe_run flaky 0 0 0 0 1 2 4096 4096 (schedule ++ [Publish [8]%N])
    (mkPipe (sys_provider started_system) (sys_consumer started_system) demo_block [] [] ∅) =
    Done (tt, w', [Accepted; Accepted; Accepted; Told (Cb_event_update 1 2 0); Seen 0 [1; 2; 3]%N;
      Accepted; Told (Cb_event_update 1 2 1); Refused]) ∧
  pp_user w' = {[ 1%N ]}.
Proof. eexists. split; vm_compute; reflexivity. Qed.
