(* ===== verification/Restart.v ===== *)
(** * A service that stops and starts again

    The provider's side of a service, when its user disables and enables the server
    ([src/score/gateway_ipc_binding/impl/binding_base.cpp], [service_state_change];
    [src/score/socom/impl/server_connector_impl.cpp], [disable] and [enable]). The runtime
    forgets who is subscribed; the binding forgets the connections of the service, but not
    the subscriptions of the peers. What this does to a peer that connects and subscribes
    anew is followed for every daemon and every peer. *)

From stdpp Require Import base numbers list gmap strings.
From Stdlib Require Import Strings.Ascii.
From S2P Require Import Prelude.
From S2P Require Import IpcTypes.
From S2P Require Import Payload.
From S2P Require Import Keys.
From S2P Require Import ConnectionMetadata.
From S2P Require Import SlotManager.
From S2P Require Import SharedMemoryManagers.
From S2P Require Import ServiceState.
From S2P Require Import BindingBase.
From S2P Require Import BindingSafety.
From S2P Require Import BindingProperties.
From S2P Require Import Wire.
From S2P Require Import Socom.
From S2P Require Import SocomInvariant.
From S2P Require Import SocomCalls.
From S2P Require Import EventPath.
From S2P Require Import Bridging.
From S2P Require Import ServicePath.
From S2P Require Import BridgingSafety.
From S2P Require Import EventPipeline.
From S2P Require Import EndToEnd.
From S2P Require Import TwoDaemons.

(** ** Subscriptions in the binding *)

(** Some peer is recorded as a subscriber of the event. *)
Definition subscription_held (b : Binding) (key : Key_t) (e : Event_id) : Prop :=
  ∃ st eps, b_service_states b !! key = Some st ∧ ss_event_subscriptions st !! e = Some eps ∧
    eps ≠ ∅.

Section restart.
Context `{Shm} (send_ok : N → Client_id → Message → bool) (bridge : N).

Abbreviation partly := (hoare (λ _, False)) (only parsing).

Lemma send_keeps_subscription key e c m :
  partly (λ b, subscription_held b key e) (send_ send_ok c m) (λ _ b, subscription_held b key e).
Proof. intros b Hb. exact Hb. Qed.

(** The state of the service changes, and the subscriptions stay. *)
Lemma state_change_keeps_subscription key e key' available counts :
  partly (λ b, subscription_held b key e) (service_state_change send_ok key' available counts)
    (λ _ b, subscription_held b key e).
Proof.
  unfold service_state_change.
  apply (hoare_bind _ _ _ _ (λ _ b, subscription_held b key e)).
  { apply hoare_when. intros _. by apply hoare_modify. }
  intros _. apply (hoare_bind _ _ _ _ (λ _ b, subscription_held b key e)); [by apply hoare_modify|].
  intros _. apply hoare_reads_bind. intros ident.
  apply (hoare_bind _ _ _ _ (λ _ b, subscription_held b key e)).
  { intros b [Hb _]. destruct ident as [[sv inst]|]; [exact Hb|]. by intros []. }
  intros [sv inst]. apply (hoare_bind _ _ _ _ (λ _ b, subscription_held b key e)).
  { intros b (st & eps & Es & Ee & Hne). unfold on_member, add_service, get_or_create.
    destruct (to_socom_identifier sv) as [i|]; simpl; [|by intros []].
    destruct (fixed_string_to_string inst) as [n|]; simpl; [|by intros []].
    destruct (decide (key = key')) as [<-|Hk].
    - rewrite Es. simpl. exists (set_requested st counts true), eps. simpl.
      rewrite lookup_insert_eq. by split_and!.
    - destruct (b_service_states b !! key'); simpl; exists st, eps; simpl;
        rewrite ?lookup_insert_ne by done; by split_and!. }
  intros _. apply hoare_reads_bind. intros peers.
  apply (hoare_bind _ _ _ _ (λ _ b, subscription_held b key e)).
  { apply hoare_modify. by intros b [Hb _]. }
  intros _. apply hoare_forM. intros c _. unfold get_reply_channel. apply hoare_reads_bind.
  intros conn. apply (hoare_bind _ _ _ _ (λ _ b, subscription_held b key e)).
  - destruct conn; simpl; [|apply hoare_raise; by intros []]. apply hoare_ret. by intros b [Hb _].
  - intros _. apply send_keeps_subscription.
Qed.

(** A subscription that is not the first one of the event is not passed on. *)
Lemma later_subscription_kept b y ids msg :
  get_by_local_handle (b_id_mapping b) y (se_provided_id msg) = Some ids →
  subscription_held b (ids_key ids) (se_event_id msg) → se_subscribe msg = true →
  ∃ b', handle_subscribe_event_message y msg b = Done (tt, b', []).
Proof.
  intros Hi (st & eps & Es & Ee & Hne) Hs. unfold handle_subscribe_event_message.
  rewrite reads_run, Hi. unfold on_states, update_event_subscription, update_subscription.
  unfold on_member, mbind, M_bind. cbv beta. rewrite Es, Hs, Ee. simpl.
  destruct (ss_client_connector st) as [c|]; [|by eexists].
  case_bool_decide as Hin; [|by eexists]. simpl.
  rewrite size_union, size_singleton by set_solver.
  destruct (size eps) as [|k] eqn:Ez; [by apply size_empty_iff, leibniz_equiv in Ez|]. simpl. by eexists.
Qed.

(** ** In the daemon *)

(** The callbacks of a server that is enabled or disabled. *)
Definition availability (a : Socom_action) : Prop :=
  (∃ s e, a = Cb_event_subscription_change s e false) ∨
  (∃ c u s, a = Cb_service_state_change c u s).

Lemma disable_callbacks s o :
  Forall (λ a, unsubscribed s a ∨ ∃ c, a = Cb_service_state_change c false s) o →
  Forall availability o.
Proof.
  intros Ho. eapply Forall_impl; [exact Ho|]. unfold availability.
  intros a [[id ->]|[c ->]]; [left; by eexists _, _|right; by eexists _, _, _].
Qed.

Definition daemon_holds (w : Socom) (key : Key_t) (e : Event_id) (d : Daemon) : Prop :=
  dm_socom d = w ∧ subscription_held (dm_binding d) key e.

Lemma on_binding_partly {A} w key e (m : BM A) (k : A * list Action → DM unit) :
  partly (λ b, subscription_held b key e) m (λ _ b, subscription_held b key e) →
  (∀ x, partly (daemon_holds w key e) (k x) (λ _, daemon_holds w key e)) →
  partly (daemon_holds w key e) (on_binding m ≫= k) (λ _, daemon_holds w key e).
Proof.
  intros Hm Hk. apply (hoare_bind _ _ _ _ (λ _, daemon_holds w key e)); [|done].
  intros d [Hw Hb]. unfold on_binding. specialize (Hm _ Hb).
  destruct (m (dm_binding d)) as [[[a b'] o]|]; [|by intros []]. by split.
Qed.

Lemma sends_partly w key e actions :
  partly (daemon_holds w key e) (forM actions route_send) (λ _, daemon_holds w key e).
Proof.
  apply hoare_forM. intros [c m []| | | | | | | |] _; first [apply hoare_emit|by apply hoare_ret].
Qed.

Lemma availability_callback w key e w0 a :
  availability a →
  partly (daemon_holds w key e) (call_back_all send_ok bridge no_counts w0 a)
    (λ _, daemon_holds w key e).
Proof.
  intros [(s & ev & ->)|(c & u & s & ->)]; cbn [call_back_all call_back route_callback];
    intros d Hd; rewrite reads_run.
  - destruct (dm_server_peers d !! s) as [[c h]|]; [|done]. revert d Hd.
    apply on_binding_partly; [|intros [? actions]; apply sends_partly].
    unfold on_event_subscription_change, get_reply_channel. intros b Hb. rewrite reads_run.
    by destruct (bool_decide _).
  - destruct (dm_client_keys d !! c) as [key'|]; [|done].
    destruct (server_counts w0 s) as [counts|]; [|by intros []].
    rewrite (the_run _ _ _ _ _ eq_refl). revert d Hd.
    apply on_binding_partly; [apply state_change_keeps_subscription|].
    intros [? actions]. apply sends_partly.
Qed.

(** A call of the user whose callbacks are only about availability. *)
Lemma user_call_keeps (m : SoM unit) d u d' o w o' key e :
  user_call send_ok bridge m d = Done (u, d', o) → m (dm_socom d) = Done (tt, w, o') →
  Forall availability o' → subscription_held (dm_binding d) key e → daemon_holds w key e d'.
Proof.
  intros Hc Hm Ho Hb. unfold user_call, runtime_call in Hc. rewrite reads_run in Hc.
  rewrite (bind_silent _ _ _ _ _ (on_socom_run _ d _ _ _ Hm)) in Hc. cbv beta iota in Hc.
  assert (partly (daemon_holds w key e)
    (forM o' (call_back_all send_ok bridge no_counts (dm_socom d));; mret tt)
    (λ _, daemon_holds w key e)) as Hall.
  { apply (hoare_bind _ _ _ _ (λ _, daemon_holds w key e)); [|intros _; by apply hoare_ret].
    apply hoare_forM. intros a Ha. by apply availability_callback, (proj1 (Forall_forall _ _) Ho). }
  specialize (Hall (set_dm_socom d w) (conj eq_refl Hb)). by rewrite Hc in Hall.
Qed.

(** A restarted server has no subscriber. *)
Lemma restarted_server w s S w1 o1 w2 o2 :
  so_inv w → so_servers w !! s = Some S → sc_registered S = true →
  disable_server s w = Done (tt, w1, o1) → enable_server s w1 = Done (tt, w2, o2) →
  Forall availability o1 ∧ Forall availability o2 ∧
  ∃ S', so_servers w2 !! s = Some S' ∧ length (sc_subscriber S') = sc_num_events S' ∧
    ∀ e, event_client e (sc_subscriber S') = None.
Proof.
  intros Hinv ES Hreg E1 E2. pose proof (v_conn _ Hinv) as Hconn.
  destruct (disable_run w s S Hconn ES Hreg) as (o & E & _ & _ & Ho).
  rewrite E in E1. injection E1 as <- <-.
  destruct (v_servers _ Hconn _ _ ES) as (_ & Hok & _).
  destruct (disabled_spec S Hok) as (Hc & _ & Hk & Hr & _ & (Hlen & _ & _ & Hsub & _)).
  pose proof (conn_disabled w s S Hconn ES Hreg) as Hconn1.
  assert (so_servers (with_server_disabled w s S) !! s = Some (disabled S)) as ES1
    by (rewrite disabled_servers; apply lookup_insert_eq).
  assert (sr_server (get_record (with_server_disabled w s S) (skey (disabled S))) = None) as Hn.
  { rewrite Hk. unfold with_server_disabled, get_record. by destruct (sc_client S);
      simpl; rewrite lookup_insert_eq. }
  rewrite (enable_run _ s (disabled S) Hconn1 ES1 Hr Hn) in E2. injection E2 as <- <-.
  split; [|split].
  - by eapply disable_callbacks.
  - unfold enable_reports. destruct (sr_client _) as [[j c]|]; [|constructor].
    destruct (is_minor_version_compatible _ _); [|constructor].
    constructor; [right; by eexists _, _, _|constructor].
  - assert (∀ e, event_client e (sc_subscriber (disabled S)) = None) as Hnone.
    { intros e. destruct (event_client e _) as [c|] eqn:Ee; [|done]. apply Hsub in Ee. congruence. }
    unfold with_server_enabled. destruct (sr_client _) as [[j c]|];
      [destruct (is_minor_version_compatible _ _)|]; simpl; eexists;
      rewrite lookup_insert_eq; by split_and!.
Qed.

(** Without a subscriber there is no memory to allocate. *)
Lemma unsubscribed_allocate s e d S :
  so_servers (dm_socom d) !! s = Some S → length (sc_subscriber S) = sc_num_events S →
  event_client (N.to_nat e) (sc_subscriber S) = None →
  user_allocate s e d = Done (None, d, []).
Proof.
  intros ES Hl Hn. unfold user_allocate.
  assert (∃ r, Socom.allocate_event_payload s e (Ok tt) (dm_socom d) =
    Done (r, dm_socom d, [])) as [r E].
  { unfold Socom.allocate_event_payload. rewrite (get_server_run _ _ _ _ ES).
    destruct (N.leb_spec (N.of_nat (sc_num_events S)) e); [by eexists|].
    rewrite assert_run by (apply Nat.ltb_lt; lia). rewrite Hn. by eexists. }
  rewrite (bind_silent _ _ _ _ _ (on_socom_run _ d _ _ _ E)). cbv beta iota. by destruct d.
Qed.

(** A peer connects. *)
Lemma connected_holds w key e y addr msg d d' o :
  node_receive send_ok bridge y addr (message_bytes (Msg_Connect_service msg)) d =
    Done (tt, d', o) →
  message_ok (Msg_Connect_service msg) → (addr mod 8 = 0)%N → cs_in_use msg = true →
  daemon_holds w key e d → daemon_holds w key e d'.
Proof.
  intros Hr Hm Ha Hu [Hw Hb]. unfold node_receive in Hr. rewrite (parse_frame addr _ Hm Ha) in Hr.
  pose proof (receive_frame send_ok y addr (Msg_Connect_service msg) [] no_answers Hm Ha) as Hf.
  rewrite app_nil_r in Hf. rewrite Hf in Hr. unfold binding_call, mbind at 1, M_bind, on_binding
    in Hr. cbn [dispatch] in Hr.
  destruct (handle_connect_service_message send_ok y msg (dm_binding d)) as [[[[] b'] o']|] eqn:E;
    [|done].
  destruct (connect_service_accepted send_ok y msg _ _ _ E Hu)
    as (ids & reply & sent & -> & _ & _ & _ & _ & _ & _ & Hs).
  cbv beta iota in Hr. cbn [forM node_action route_send] in Hr.
  assert (d' = set_dm_binding d b') as -> by (destruct sent; by injection Hr as <- _).
  split; [done|]. unfold subscription_held. simpl. by rewrite Hs.
Qed.

(** ** Properties *)

(** C40: a service that stops and starts again loses its subscribers on other daemons. A
    server of a user has the binding's connector as the subscriber of an event, for a peer
    whose subscription the binding has recorded. The user disables the server and enables
    it again; then a peer connects to the service, if it can, and subscribes the event. Its
    message is accepted, and nothing follows: the binding passes nothing on to the runtime
    and the user is not told, because the subscription of before is still recorded and the
    new one is not the first. The server has no subscriber, so that no memory can be
    allocated for the event and none is sent. *)
Theorem restart_loses_subscription X s S c key e X1 o1 X2 o2 y addr1 cs X3 o3 addr2 sub ids :
  (* the event is subscribed, in the runtime and in the binding *)
  so_inv (dm_socom X) → so_servers (dm_socom X) !! s = Some S → sc_registered S = true →
  event_client (N.to_nat e) (sc_subscriber S) = Some c → dm_client_keys X !! c = Some key →
  subscription_held (dm_binding X) key e →
  (* the service stops and starts *)
  user_call send_ok bridge (disable_server s) X = Done (tt, X1, o1) →
  user_call send_ok bridge (enable_server s) X1 = Done (tt, X2, o2) →
  (* a peer connects *)
  message_ok (Msg_Connect_service cs) → (addr1 mod 8 = 0)%N → cs_in_use cs = true →
  node_receive send_ok bridge y addr1 (message_bytes (Msg_Connect_service cs)) X2 =
    Done (tt, X3, o3) →
  (* and subscribes the event *)
  message_ok (Msg_Subscribe_event sub) → (addr2 mod 8 = 0)%N → se_subscribe sub = true →
  get_by_local_handle (b_id_mapping (dm_binding X3)) y (se_provided_id sub) = Some ids →
  ids_key ids = key → se_event_id sub = e →
  ∃ X4, node_receive send_ok bridge y addr2 (message_bytes (Msg_Subscribe_event sub)) X3 =
      Done (tt, X4, []) ∧ user_allocate s e X4 = Done (None, X4, []).
Proof.
  intros Hinv ES Hreg _ _ Hheld U1 U2 Hm1 A1 Hu R3 Hm2 A2 Hs Hi <- <-.
  destruct (disable_run _ s S (v_conn _ Hinv) ES Hreg) as (p1 & D1 & _ & _ & Ho1).
  destruct (user_call_keeps _ _ _ _ _ _ _ _ _ U1 D1 (disable_callbacks _ _ Ho1) Hheld) as [W1 H1].
  destruct (enable_server s (dm_socom X1)) as [[[[] w2] p2]|f] eqn:D2.
  2:{ unfold user_call, runtime_call in U2. rewrite reads_run in U2.
      unfold mbind, M_bind, on_socom in U2. by rewrite D2 in U2. }
  destruct (restarted_server _ s S _ _ _ _ Hinv ES Hreg D1 ltac:(rewrite <-W1; exact D2))
    as (_ & Hp2 & S' & ES' & Hl & Hn).
  pose proof (user_call_keeps _ _ _ _ _ _ _ _ _ U2 D2 Hp2 H1) as H2.
  destruct (connected_holds _ _ _ _ _ _ _ _ _ R3 Hm1 A1 Hu H2) as [W3 H3].
  destruct (later_subscription_kept (dm_binding X3) y ids sub Hi H3 Hs) as (b4 & E4).
  exists (set_dm_binding X3 b4). split.
  - unfold node_receive. rewrite (parse_frame addr2 _ Hm2 A2).
    pose proof (receive_frame send_ok y addr2 (Msg_Subscribe_event sub) [] no_answers Hm2 A2) as Hf.
    rewrite app_nil_r in Hf. apply binding_call_silent. by rewrite Hf.
  - apply (unsubscribed_allocate s _ _ S'); [|done|done]. simpl. by rewrite W3.
Qed.
End restart.

(** ** Witnesses *)

#[local] Instance restart_memory : Shm := granting_shm 4096.

Definition demo_connect (required : Remote_handle) : Connect_service :=
  {| cs_service_id := demo_service "a"%char; cs_instance_id := demo_id "x"%char;
     cs_required_id := required; cs_metadata := demo_metadata; cs_in_use := true |}.
Definition demo_subscription (provided : Remote_handle) : IpcTypes.Subscribe_event :=
  {| se_provided_id := provided; se_event_id := 2; se_subscribe := true |}.

(** A user provides the service, a peer has asked for it, connected and subscribed; then the
    service stops and starts, and the peer connects again. *)
Definition subscribed_node : Daemon :=
  result_daemon (run_nodes all_sent 0 [Node_add_client 0;
    Node_user demo_counts (Make_server true service 0 4 "x"); Node_user demo_counts (Enable 1);
    Node_receive 0 0 (message_bytes (Msg_Request_service demo_request));
    Node_receive 0 0 (message_bytes (Msg_Connect_service (demo_connect 1)));
    Node_receive 0 0 (message_bytes (Msg_Subscribe_event (demo_subscription 1)))] new_node).
Definition stopped_node : Daemon :=
  result_daemon (user_call all_sent 0 (disable_server 1) subscribed_node).
Definition restarted_node : Daemon :=
  result_daemon (user_call all_sent 0 (enable_server 1) stopped_node).
Definition reconnected_node : Daemon :=
  result_daemon (node_receive all_sent 0 0 0
    (message_bytes (Msg_Connect_service (demo_connect 2))) restarted_node).

Lemma subscribed_reachable : node_reachable all_sent 0 new_node subscribed_node.
Proof. eapply reached; [..|reflexivity]; vm_compute; reflexivity. Qed.

Lemma restart_loses_subscription_witness : ∃ X4,
  node_receive all_sent 0 0 0 (message_bytes (Msg_Subscribe_event (demo_subscription 2)))
    reconnected_node = Done (tt, X4, []) ∧ user_allocate 1 2 X4 = Done (None, X4, []).
Proof.
  assert (∃ S, so_servers (dm_socom subscribed_node) !! 1%N = Some S ∧ sc_registered S = true ∧
    event_client 2 (sc_subscriber S) = Some 2%N) as (S & H1 & H2 & H3)
    by (eexists; split_and!; vm_compute; reflexivity).
  assert (∃ ids, get_by_local_handle (b_id_mapping (dm_binding reconnected_node)) 0 2 = Some ids ∧
    ids_key ids = 0%N) as (ids & H4 & H5) by (eexists; split; vm_compute; reflexivity).
  eapply (restart_loses_subscription all_sent 0 subscribed_node 1 S 2 0 2 stopped_node _
    restarted_node _ 0 0 (demo_connect 2) reconnected_node _ 0 (demo_subscription 2) ids);
    [|done|done|done| | | | | | | | | | | |done|done|done].
  - apply reached_inv, subscribed_reachable.
  - vm_compute. reflexivity.
  - eexists _, _. split; [vm_compute; reflexivity|]. split; [vm_compute; reflexivity|].
    intros E. apply (f_equal size) in E. vm_compute in E. discriminate E.
  - vm_compute. reflexivity.
  - vm_compute. reflexivity.
  - vm_compute; repeat constructor.
  - reflexivity.
  - reflexivity.
  - vm_compute. reflexivity.
  - vm_compute; repeat constructor.
  - reflexivity.
  - reflexivity.
Defined.
