(* ===== verification/GatewayPaths.v ===== *)
(** * From application to network and back

    The two daemons together, with the handlers that they have set up for the events of
    the configuration. What the handlers do to the bytes of a payload is followed first;
    then the daemons that are linked for an event relay it ([GatewayRelay]), from the
    application to the network and from the network to the application. *)

From stdpp Require Import base numbers list gmap strings.
From S2P Require Import Prelude.
From S2P Require Import IpcTypes.
From S2P Require Import Config.
From S2P Require Import Serializer.
From S2P Require Import SomeipMessage.
From S2P Require Import Gatewayd.
From S2P Require Import Someipd.
From S2P Require Import SlotManager.
From S2P Require Import BindingBase.
From S2P Require Import BindingSafety.
From S2P Require Import EventPath.
From S2P Require Import EventPipeline.
From S2P Require Import GatewayRelay.
From S2P Require Import TwoDaemons.

(** ** Lemmas *)

(** What a successful creation of a local instance sets up. *)
Lemma local_create_handlers config t proxy i actions l name ev c :
  local_create config t proxy true = Done (Ok i, actions) →
  service_type_name t = Some name → events t = Some l → (N.of_nat (length l) < 65536)%N →
  Set_receive_handler ev c ∈ actions →
  lsi_service_type_config i = t ∧ context_ok config name l ev c.
Proof.
  unfold local_create, service_interface, service_instance. intros E Hn Hl Hlen Hin.
  rewrite Hn, Hl in E. cbn [deref mbind outcome_bind mret outcome_ret sii_id] in E.
  pose proof (local_events_ok config name proxy l [] ∅ Hlen ltac:(intros ? ?;
    by rewrite lookup_empty)) as Hok.
  change (N.of_nat (length (@nil Event))) with 0%N in Hok.
  destruct (local_events config name proxy l 0 ∅) as [contexts acts].
  injection E as <- <-. split; [done|]. apply elem_of_cons in Hin as [?|Hin]; [done|].
  by apply Hok.
Qed.

(** The context that a successful creation of a remote instance makes. *)
Lemma remote_create_contexts config t skeleton i actions l name n e :
  remote_create config t skeleton true true = Done (Ok i, actions) →
  service_type_name t = Some name → events t = Some l → (N.of_nat (length l) < 65536)%N →
  l !! n = Some e →
  rsi_skeleton_events i = skeleton ∧
  rsi_event_contexts i !! N.of_nat n = remote_context config name skeleton e.
Proof.
  unfold remote_create, service_interface, service_instance. intros E Hn Hl Hlen He.
  cbn [negb] in E. rewrite Hn, Hl in E. cbn [deref mbind outcome_bind mret outcome_ret] in E.
  injection E as <- <-. split; [done|]. simpl.
  pose proof (remote_events_lookup config name skeleton l 0 ∅ n Hlen
    ltac:(intros; apply lookup_empty)) as Hlk.
  rewrite (decide_False (P := n < 0)), Nat.sub_0_r, He in Hlk by lia. exact Hlk.
Qed.

(** The handlers someipd registers carry the position of their event. *)
Lemma setup_events_handlers service instance l k s i ev id :
  Vsomeip_register_message_handler s i ev id ∈ setup_events service instance l (N.of_nat k) →
  (N.of_nat (k + length l) < 65536)%N →
  ∃ n e, id = N.of_nat (k + n) ∧ l !! n = Some e ∧ event_id e = ev ∧
    s = service ∧ i = instance.
Proof.
  revert k. induction l as [|e l IH]; intros k; simpl; [by intros ?%elem_of_nil|].
  rewrite !elem_of_cons. intros [[= -> -> -> ->]|[?|[?|Hin]]] Hlen; try done.
  - exists 0, e. rewrite wrap_small by (unfold fits; lia). split_and!; try done. lia.
  - replace (N.of_nat k + 1)%N with (N.of_nat (S k)) in Hin by lia.
    apply IH in Hin as (n & e' & -> & ? & ? & ? & ?); [|lia].
    exists (S n), e'. split_and!; try done. lia.
Qed.

(** ** Properties *)

(** An event of a local application. For every event that gatewayd has set up a handler
    for, a well-formed sample that fits the slot becomes a payload which someipd forwards
    as a notification of the configured service, instance and event, with exactly the
    application's message as its data; a sample that does not fit is dropped. *)
Lemma local_event_forwarded config t proxy i actions l name ev c inst :
  local_create config t proxy true = Done (Ok i, actions) →
  service_type_name t = Some name → events t = Some l → (N.of_nat (length l) < 65536)%N →
  Set_receive_handler ev c ∈ actions →
  ∃ e, e ∈ l ∧ event_name e = ev ∧ ∀ slot o, psd_ok o → 16 ≤ length slot →
  fits 64 (N.of_nat (length slot)) →
  if decide (16 + length (psd_message o) ≤ length slot) then
    ∃ bytes, length bytes = 16 + length (psd_message o) ∧
    on_sample i c (Some slot) (Some o) = Done [Update_socom (lec_socom_event_id c) bytes] ∧
    forward_to_vsomeip {| ns_service_instance_config := inst; ns_service_type_config := t |}
      (lec_socom_event_id c) bytes =
    Done [Vsomeip_notify (st_service_id t) (instance_id inst) (event_id e) (psd_message o)]
  else on_sample i c (Some slot) (Some o) = Done [].
Proof.
  intros E Hn Hl Hlen Hin.
  destruct (local_create_handlers _ _ _ _ _ _ _ _ _ E Hn Hl Hlen Hin)
    as [Hi (n & Hid & He & Hev & _)].
  exists (lec_config c). split; [by eapply list_elem_of_lookup_2|]. split; [done|].
  intros slot o Ho Hhead Hslot.
  pose proof (on_sample_spec i c slot o Hhead Ho) as Hs. case_decide as Hfit; [|exact Hs].
  destruct Hs as (h & stale & Hh & Hon & _). exists (h ++ psd_message o).
  split; [by rewrite length_app, Hh|]. split; [done|]. rewrite Hid.
  rewrite (forward_to_vsomeip_spec _ l n (lec_config c)); [|done|done|].
  - rewrite length_app, Hh, decide_True by lia. rewrite <-Hh, drop_app_length. done.
  - rewrite length_app, Hh. unfold fits in *. lia.
Qed.

(** A network event. For every handler that someipd registers with vsomeip, a message that
    fits the slot becomes a payload which gatewayd's instance, if it has a serializer for
    the event and the event's skeleton, deserializes into a sample of the event with the
    same id in the configuration, holding exactly the data of the network message; the
    instance does not change. Data beyond the event's maximal size is dropped. *)
Definition sample_of (data : list N) (sample : PreSerializedData) : PreSerializedData :=
  {| psd_size := N.of_nat (length data); psd_data := data ++ drop (length data) (psd_data sample)
    |}.

Lemma network_event_forwarded config t skeleton i actions l name inst setup
    service instance ev id e s :
  remote_create config t skeleton true true = Done (Ok i, actions) →
  service_type_name t = Some name → events t = Some l → (N.of_nat (length l) < 65536)%N →
  setup_vsomeip {| ns_service_instance_config := inst; ns_service_type_config := t |} =
    Done setup →
  Vsomeip_register_message_handler service instance ev id ∈ setup →
  l !! N.to_nat id = Some e → event_name e ∈ skeleton →
  get_serializer config name (event_name e) = Some s →
  service = st_service_id t ∧ instance = instance_id inst ∧ event_id e = ev ∧
  ∀ slot msg sample, 16 + length (vm_payload msg) ≤ length slot →
    (max_message_size s ≤ N.of_nat (length (psd_data sample)))%N →
  ∃ bytes, length bytes = 16 + length (vm_payload msg) ∧
    on_vsomeip_message id ev (Some slot) msg = Done [Update_connector id bytes] ∧
    forward_event i id bytes (Some sample) = Done (i,
      if decide (N.of_nat (length (vm_payload msg)) ≤ max_message_size s)%N
      then [Send_sample (event_name e) (sample_of (vm_payload msg) sample)] else []).
Proof.
  intros E Hn Hl Hlen Hset Hin He Hsk Hs.
  unfold setup_vsomeip in Hset. simpl in Hset. rewrite Hl in Hset. injection Hset as <-.
  apply elem_of_cons in Hin as [?|Hin]; [done|].
  destruct (setup_events_handlers _ _ l 0 _ _ _ _ Hin Hlen) as (n & e' & -> & He' & Hev & -> & ->).
  simpl in *. rewrite Nat2N.id, He' in He. injection He as ->.
  destruct (remote_create_contexts _ _ _ _ _ _ _ _ _ E Hn Hl Hlen He') as [Hsi Hctx].
  unfold remote_context in Hctx. rewrite decide_True, Hs in Hctx by done. simpl in Hctx.
  split_and!; try done. intros slot msg sample Hfit Hcap.
  pose proof (on_vsomeip_message_spec (N.of_nat n) ev slot msg) as Hm.
  rewrite decide_True in Hm by done. destruct Hm as (h & Hh & Hon & _).
  exists (h ++ vm_payload msg). split; [by rewrite length_app, Hh|]. split; [done|].
  rewrite (forward_event_spec i _ e s) by (done || by rewrite Hsi).
  by case_decide.
Qed.

(** What is sent to the application holds the data of the message. *)
Lemma sample_of_message data sample :
  psd_ok (sample_of data sample) ∧ psd_message (sample_of data sample) = data.
Proof. apply psd_of_message. Qed.

(** ** The handlers as ends of a relay *)

(** gatewayd writes a sample of an application into a slot, someipd notifies the network. *)
Definition gatewayd_fill (i : LocalServiceInstance) (c : Local_event_context)
    (o : PreSerializedData) (wdata : list N) : outcome (option (N * list N)) :=
  actions ← on_sample i c (Some wdata) (Some o);
  Done (match actions with [Update_socom id bytes] => Some (id, bytes) | _ => None end).

(** someipd writes a message of the network into a slot, gatewayd sends it to the
    application, with memory for a sample that the middleware allocates. *)
Definition someipd_fill (id ev : N) (msg : Vsomeip_message) (wdata : list N) :
    outcome (option (N * list N)) :=
  actions ← on_vsomeip_message id ev (Some wdata) msg;
  Done (match actions with [Update_connector id bytes] => Some (id, bytes) | _ => None end).
Definition gatewayd_use (i : RemoteServiceInstance) (id : N) (sample : PreSerializedData)
    (bytes : list N) : outcome (list (RemoteServiceInstance * list Gateway_action)) :=
  r ← forward_event i id bytes (Some sample); Done [r].

Section relays.
Context `{Shm} (send_ok : N → Client_id → Message → bool) (bridgeX bridgeY : N).

(** Linked daemons relay. *)
Lemma linked_relay {A B} X Y x y server subscriber e key ids mgr r block
    (fill : A → list N → outcome (option (N * list N))) (use_bytes : list N → outcome (list B))
    (ok : A → Prop) (fitting : A → bool) (expected : A → list B) ops :
  linked X Y x y server subscriber e key ids mgr r →
  N.to_nat (m_slot_count mgr * m_slot_size mgr) ≤ length block →
  fills e mgr fill use_bytes ok fitting expected → Forall (relay_op_ok ok) ops →
  ∃ w' losses,
    Forall2 (λ op (lost : bool), lost = true → relay_may_lose send_ok x y e ids op) ops losses ∧
    relay_events send_ok bridgeX bridgeY x y server e (m_base_address mgr) (ro_base_address r)
      fill use_bytes ops (mkPipe X Y block [] [] ∅) =
    Done (tt, w', (relay_run (N.to_nat (m_slot_count mgr)) fitting expected (zip ops losses)
      (mkRelay [] 0 0)).2).
Proof.
  intros Hl Hb Hf Hops.
  destruct (relay_run_sim send_ok bridgeX bridgeY x y server subscriber e key ids mgr r
    (lk_fits _ _ _ _ _ _ _ _ _ _ _ Hl) (lk_size _ _ _ _ _ _ _ _ _ _ _ Hl)
    (lk_count _ _ _ _ _ _ _ _ _ _ _ Hl) fill use_bytes ok fitting expected Hf ops
    (mkPipe X Y block [] [] ∅) (mkRelay [] 0 0) Hops) as (w' & c' & o & losses & E & Hlost & Es & _).
  { eexists. split; [by apply linked_sim|]. simpl. split_and!; [done|done|done|constructor]. }
  exists w', losses. by rewrite E, Es.
Qed.



(** Without refusals nothing is lost. *)
Lemma nothing_lost_on_relay {A} x y e ids (ops : list (Relay_op A)) losses :
  (∀ k c m, send_ok k c m = true) →
  Forall2 (λ op (lost : bool), lost = true → relay_may_lose send_ok x y e ids op) ops losses →
  losses = replicate (length ops) false.
Proof.
  intros Hs. induction 1 as [|op lost ops losses Hl _ ->]; [done|]. simpl. f_equal.
  destruct lost; [|done]. specialize (Hl eq_refl).
  destruct op; simpl in Hl; try done; destruct Hl as (k & h & z & Hk); by rewrite Hs in Hk.
Qed.
End relays.

(** ** Witnesses *)

(** Daemons that are linked for the first event of their service; two slots of 64 bytes. *)
#[local] Instance demo_memory : Shm := granting_shm 4096.
Definition relay_system : System :=
  match (start_system 0) new_system with Done (_, w, _) => w | Fault _ => new_system end.
Lemma relay_linked :
  linked (sys_provider relay_system) (sys_consumer relay_system) 0 0 1 1 0 0
    (connection_of relay_system) demo_slots opened_memory.
Proof. eapply system_linked; try (vm_compute; reflexivity). eexists. vm_compute. reflexivity. Qed.

(** A sample is handed over, arrives, and its slot comes back. *)
Definition relay_schedule {A} (a : A) : list (Relay_op A) :=
  [Hand_over a; Hand_over a; Hand_over a; Arrive_there 0; Arrive_back 8; Hand_over a;
    Arrive_there 0].

Lemma relay_schedule_ok {A} (ok : A → Prop) a : ok a → Forall (relay_op_ok ok) (relay_schedule a).
Proof. intros Ha. by repeat apply Forall_cons_2; try apply Forall_nil_2. Qed.

(** A sample that is larger than a slot. *)
Definition large_sample : PreSerializedData :=
  {| psd_size := 60; psd_data := replicate 64 0%N |}.


