(* ===== verification/Errors.v ===== *)
(** * Error domains

    [src/score/gateway_ipc_binding/impl/error.cpp], [src/score/socom/impl/error.cpp] and
    [src/score/someip/impl/someip_error.cpp]: each enumeration of errors has a domain that
    turns the code of an error back into the enumerator and gives its text. The codes of
    the enumerators are their positions. *)

From stdpp Require Import base numbers list strings.
From S2P Require Import Prelude.
From S2P Require Import IpcTypes.
From S2P Require Import Socom.

(** ** Domains *)

(** An enumeration, in the order of its declaration, with the texts its domain gives:
    [MessageFor] on the enumerators and on every other code. *)
Class Error_domain (E : Type) := {
  enumerators : list E;
  message : E → string;
  unknown_message : string;
}.
Arguments enumerators E {_}.
Arguments unknown_message E {_}.

(** [score::result::Error], without the pointer to its domain, which is its type here. *)
Record Error (E : Type) : Type := { error_code : Z; user_message : string }.
Arguments Build_Error {E} error_code user_message.
Arguments error_code {E} _.
Arguments user_message {E} _.

Section domain.
Context {E} `{Error_domain E, EqDecision E}.

(** [static_cast<ErrorCode>(code)]: the position of the enumerator. *)
Fixpoint position (e : E) (l : list E) : Z :=
  match l with
  | [] => 0
  | e' :: l' => if decide (e = e') then 0 else 1 + position e l'
  end.
Definition to_code (e : E) : Z := position e (enumerators E).

(** [static_cast<E>(code)], as far as a [switch] over the enumerators sees it. *)
Definition of_code (code : Z) : option E :=
  if (0 <=? code)%Z then enumerators E !! Z.to_nat code else None.

Definition MakeError (e : E) (text : string) : Error E :=
  {| error_code := to_code e; user_message := text |}.

Definition MessageFor (code : Z) : string :=
  match of_code code with Some e => message e | None => unknown_message E end.
End domain.

#[export] Instance shared_memory_manager_domain : Error_domain Shared_memory_manager_error := {
  enumerators := [logic_error_invalid_slot_size; logic_error_invalid_slot_count;
    runtime_error_shared_memory_allocation_failed; logic_error_invalid_slot_handle;
    runtime_error_slot_not_allocated; runtime_error_no_available_slots;
    logic_error_no_configuration_for_interface; logic_error_no_configuration_for_instance];
  message e :=
    match e with
    | logic_error_invalid_slot_size => "Slot size must be greater than zero"
    | logic_error_invalid_slot_count => "Number of slots must be greater than zero"
    | runtime_error_shared_memory_allocation_failed => "Failed to allocate shared memory"
    | logic_error_invalid_slot_handle => "Slot handle is invalid or out of range"
    | runtime_error_slot_not_allocated => "Slot is not allocated"
    | runtime_error_no_available_slots => "No available slots for allocation"
    | logic_error_no_configuration_for_interface =>
      "No configuration found for the specified interface"
    | logic_error_no_configuration_for_instance =>
      "No configuration found for the specified instance"
    end;
  unknown_message := "Unknown error";
}.

#[export] Instance bidirectional_channel_domain : Error_domain Bidirectional_channel_error := {
  enumerators := [runtime_error_client_not_found; runtime_error_send_failed;
    runtime_error_not_connected; logic_error_already_listening; runtime_error_listen_failed;
    runtime_error_not_listening; logic_error_invalid_argument];
  message e :=
    match e with
    | runtime_error_client_not_found => "Client not found"
    | runtime_error_send_failed => "Failed to send message"
    | runtime_error_not_connected => "Client is not connected"
    | logic_error_already_listening => "Server is already listening"
    | runtime_error_listen_failed => "Failed to start listening"
    | runtime_error_not_listening => "Server is not listening"
    | logic_error_invalid_argument => "Invalid argument provided to function"
    end;
  unknown_message := "Unknown error";
}.

#[export] Instance gateway_ipc_binding_domain : Error_domain Gateway_ipc_binding_error := {
  enumerators := [fixed_size_container_too_small];
  message e :=
    match e with
    | fixed_size_container_too_small =>
      "Data to be copied into container is larger than the container's maximum size"
    end;
  unknown_message := "Unknown error";
}.

#[export] Instance socom_domain : Error_domain Socom_error := {
  enumerators := [runtime_error_service_not_available; runtime_error_request_rejected;
    logic_error_id_out_of_range; runtime_error_malformed_payload;
    runtime_error_permission_not_allowed];
  message e :=
    match e with
    | runtime_error_service_not_available => "Service not available"
    | runtime_error_request_rejected => "Request rejected"
    | logic_error_id_out_of_range => "ID out of range"
    | runtime_error_malformed_payload => "Malformed payload"
    | runtime_error_permission_not_allowed => "Permission not allowed"
    end;
  unknown_message := "Unknown Error";
}.

#[export] Instance server_connector_domain : Error_domain Server_connector_error := {
  enumerators := [server_logic_error_id_out_of_range;
    runtime_error_no_client_subscribed_for_event];
  message e :=
    match e with
    | server_logic_error_id_out_of_range => "ID out of range"
    | runtime_error_no_client_subscribed_for_event => "No client subscribed for event"
    end;
  unknown_message := "Unknown Error";
}.

#[export] Instance construction_domain : Error_domain Construction_error := {
  enumerators := [duplicate_service; duplicate_client; callback_missing];
  message e :=
    match e with
    | duplicate_service => "Duplicate service"
    | duplicate_client => "Duplicate client"
    | callback_missing => "Callback missing"
    end;
  unknown_message := "Unknown Error";
}.

(** [someip::Errc]. *)
Inductive Errc : Type :=
  | kInitializationFailed
  | kInvalidConfiguration
  | kRuntimeError
  | kMessageTooLarge
  | kSerializationError
  | kServiceNotFound
  | kMethodNotFound
  | kEventNotFound
  | kFieldNotFound
  | kInvalidMessage
  | kUnknownError.

#[export] Instance someip_domain : Error_domain Errc := {
  enumerators := [kInitializationFailed; kInvalidConfiguration; kRuntimeError;
    kMessageTooLarge; kSerializationError; kServiceNotFound;
    kMethodNotFound; kEventNotFound; kFieldNotFound; kInvalidMessage;
    kUnknownError];
  message e :=
    match e with
    | kInitializationFailed => "Initialization of the SOME/IP stack failed."
    | kInvalidConfiguration => "The provided configuration is invalid."
    | kRuntimeError => "A runtime error occurred in the SOME/IP stack."
    | kMessageTooLarge => "The message exceeds the maximum allowed size."
    | kSerializationError =>
      "An error occurred during message serialization or deserialization."
    | kServiceNotFound => "The requested service was not found."
    | kMethodNotFound => "The requested method was not found."
    | kEventNotFound => "The requested event was not found."
    | kFieldNotFound => "The requested field was not found."
    | kInvalidMessage => "The received message is invalid or malformed."
    | kUnknownError => "An unknown error occurred."
    end;
  unknown_message := "Unknown SOME/IP error.";
}.

#[export] Instance Shared_memory_manager_error_eq_dec : EqDecision Shared_memory_manager_error.
Proof. solve_decision. Defined.
#[export] Instance Bidirectional_channel_error_eq_dec : EqDecision Bidirectional_channel_error.
Proof. solve_decision. Defined.
#[export] Instance Gateway_ipc_binding_error_eq_dec : EqDecision Gateway_ipc_binding_error.
Proof. solve_decision. Defined.
#[export] Instance Socom_error_eq_dec : EqDecision Socom_error.
Proof. solve_decision. Defined.
#[export] Instance Server_connector_error_eq_dec : EqDecision Server_connector_error.
Proof. solve_decision. Defined.
#[export] Instance Construction_error_eq_dec : EqDecision Construction_error.
Proof. solve_decision. Defined.
#[export] Instance Errc_eq_dec : EqDecision Errc.
Proof. solve_decision. Defined.

(** ** Properties *)

(** What a domain has to satisfy: it lists every enumerator once, and its texts are
    different from each other and from the text for unknown codes. *)
Class Error_domain_ok (E : Type) `{Error_domain E} : Prop := {
  all_enumerators e : e ∈ enumerators E;
  different_texts : NoDup (unknown_message E :: (message <$> enumerators E));
}.

Section laws.
Context {E} `{Error_domain E, EqDecision E}.

Lemma position_lookup e (l : list E) :
  e ∈ l → (0 ≤ position e l)%Z ∧ l !! Z.to_nat (position e l) = Some e.
Proof.
  induction l as [|e' l IH]; [by intros ?%elem_of_nil|]. simpl.
  destruct (decide (e = e')) as [->|Hne]; [done|].
  intros [->|Hin]%elem_of_cons; [done|]. destruct (IH Hin) as [Hp Hl]. split; [lia|].
  by replace (Z.to_nat (1 + position e l)) with (S (Z.to_nat (position e l))) by lia.
Qed.

Lemma of_to_code `{!Error_domain_ok E} e : of_code (to_code e) = Some e.
Proof.
  destruct (position_lookup e (enumerators E) (all_enumerators e)) as [Hp Hl].
  unfold of_code, to_code. by rewrite (proj2 (Z.leb_le _ _)).
Qed.

(** An error keeps what it was made from. *)
Lemma made_error_identifies `{!Error_domain_ok E} (e : E) text :
  of_code (error_code (MakeError e text)) = Some e ∧ user_message (MakeError e text) = text ∧
  MessageFor (E := E) (error_code (MakeError e text)) = message e.
Proof. simpl. unfold MessageFor. by rewrite of_to_code. Qed.

(** A text tells the enumerator, and the text for unknown codes that there is none. *)
Lemma text_identifies `{!Error_domain_ok E} (code code' : Z) :
  MessageFor (E := E) code = MessageFor (E := E) code' →
  of_code (E := E) code = of_code code'.
Proof.
  pose proof (different_texts (E := E)) as [Hu Hd]%NoDup_cons. unfold MessageFor.
  assert (∀ c e, of_code (E := E) c = Some e → e ∈ enumerators E) as Hin.
  { intros c e _. apply all_enumerators. }
  destruct (of_code code) as [e|] eqn:Ee, (of_code code') as [e'|] eqn:Ee'; intros Ht; [|..|done].
  - f_equal. clear Ee Ee'. pose proof (all_enumerators e) as He.
    pose proof (all_enumerators e') as He'.
    apply list_elem_of_lookup in He as [i Hi]. apply list_elem_of_lookup in He' as [j Hj].
    assert (i = j) as ->; [|by simplify_eq].
    eapply (NoDup_lookup _ _ _ (message e) Hd); rewrite list_lookup_fmap; [by rewrite Hi|].
    by rewrite Hj, Ht.
  - destruct Hu. rewrite <-Ht. by apply list_elem_of_fmap_2, (Hin code).
  - destruct Hu. rewrite Ht. by apply list_elem_of_fmap_2, (Hin code').
Qed.
End laws.

Ltac domain_ok :=
  split;
  [ intros []; unfold enumerators; simpl; rewrite !elem_of_cons; tauto
  | apply (bool_decide_unpack _); vm_compute; exact I ].

#[export] Instance shared_memory_manager_ok : Error_domain_ok Shared_memory_manager_error.
Proof. domain_ok. Qed.
#[export] Instance bidirectional_channel_ok : Error_domain_ok Bidirectional_channel_error.
Proof. domain_ok. Qed.
#[export] Instance gateway_ipc_binding_ok : Error_domain_ok Gateway_ipc_binding_error.
Proof. domain_ok. Qed.
#[export] Instance socom_ok : Error_domain_ok Socom_error.
Proof. domain_ok. Qed.
#[export] Instance server_connector_ok : Error_domain_ok Server_connector_error.
Proof. domain_ok. Qed.
#[export] Instance construction_ok : Error_domain_ok Construction_error.
Proof. domain_ok. Qed.
#[export] Instance someip_ok : Error_domain_ok Errc.
Proof. domain_ok. Qed.

(** What the reader of an error learns in each of the seven domains: the enumerator it
    was made from, its own text, and texts that no two codes of different meaning share. *)
Definition identifies (E : Type) `{Error_domain E, EqDecision E} : Prop :=
  (∀ (e : E) text, of_code (error_code (MakeError e text)) = Some e ∧
    MessageFor (E := E) (error_code (MakeError e text)) = message e) ∧
  (∀ code code', MessageFor (E := E) code = MessageFor (E := E) code' →
    of_code (E := E) code = of_code code').

Lemma domain_identifies E `{Error_domain E, EqDecision E, !Error_domain_ok E} : identifies E.
Proof.
  split; [|apply text_identifies]. intros e text.
  destruct (made_error_identifies e text) as (? & _ & ?). done.
Qed.

(** Errors can be told apart. In every error domain of the libraries, an error carries
    the enumerator it was made from and yields the text of that enumerator, and two codes
    with the same text mean the same enumerator: no enumerator lacks a text of its own or
    falls through to the text for unknown codes. *)
Theorem errors_identified :
  identifies Shared_memory_manager_error ∧ identifies Bidirectional_channel_error ∧
  identifies Gateway_ipc_binding_error ∧ identifies Socom_error ∧
  identifies Server_connector_error ∧ identifies Construction_error ∧ identifies Errc.
Proof. split_and!; apply domain_identifies, _. Qed.
