(* ===== verification/Daemons.v ===== *)
(** * The two programs

    [main] of [src/score/gatewayd/main.cpp] and [src/score/someipd/main.cpp] from the
    command line to the exit code: the options, the configuration file, the start of the
    parts, the loops that wait, and what is destroyed at the end.

    What comes from outside are arguments: the results of [getopt_long], the files at each
    of the times they are read, the configuration that the generated [GetRoot] sees in a
    buffer, the answers of the middleware, what the binding's client handles in each round
    of the loops, and what its channel reports while it is destroyed. *)

From stdpp Require Import base numbers list gmap strings.
From Stdlib Require Import Strings.Ascii.
From S2P Require Import Prelude.
From S2P Require Import Socom.
From S2P Require Import SocomInvariant.
From S2P Require Import SocomCalls.
From S2P Require Import SocomProperties.
From S2P Require Import IpcTypes.
From S2P Require Import SlotManager.
From S2P Require Import BindingBase.
From S2P Require Import BindingSafety.
From S2P Require Import Wire.
From S2P Require Import BindingServer.
From S2P Require Import BindingClient.
From S2P Require Import Config.
From S2P Require Import Serializer.
From S2P Require Import Gatewayd.
From S2P Require Import Someipd.

(** ** Command line and configuration file *)

(** The paths that the options set; an empty path is an option that was not given. *)
Record Options : Type := { configuration_path : string; service_instance_manifest_path : string }.
Definition no_options : Options :=
  {| configuration_path := ""; service_instance_manifest_path := "" |}.

(** The loops over the results of [getopt_long] before it returns -1, an option and its
    argument each: an exit code, or the paths. *)
Fixpoint gatewayd_options (l : list (ascii * string)) (o : Options) : N + Options :=
  match l with
  | [] => inr o
  | (opt, optarg) :: l' =>
    if bool_decide (opt = "h"%char) then inl 0%N
    else if bool_decide (opt = "c"%char) then
      gatewayd_options l' {| configuration_path := optarg;
        service_instance_manifest_path := service_instance_manifest_path o |}
    else if bool_decide (opt = "s"%char) then
      gatewayd_options l' {| configuration_path := configuration_path o;
        service_instance_manifest_path := optarg |}
    else inl 1%N
  end.

Fixpoint someipd_options (l : list (ascii * string)) (path : string) : N + string :=
  match l with
  | [] => inr path
  | (opt, optarg) :: l' =>
    if bool_decide (opt = "h"%char) then inl 0%N
    else if bool_decide (opt = "c"%char) then someipd_options l' optarg
    else inl 1%N
  end.

Section configuration.
(** The contents of a file that can be opened, and the configuration in a buffer. *)
Context (files : string → option (list N)) (GetRoot : list N → Root).

(** A file that cannot be opened or is empty ends both programs. *)
Definition read_config (path : string) : option Root :=
  match files path with
  | None => None
  | Some contents =>
    let length := N.of_nat (length contents) in
    if (length =? 0)%N then None else Some (GetRoot contents)
  end.
End configuration.

(** [message_passing::ServiceProtocolConfig]. *)
Record Service_protocol_config : Type := {
  spc_identifier : string;
  spc_max_send_size : N;
  spc_max_reply_size : N;
  spc_max_notify_size : N;
}.
Definition gatewayd_protocol : Service_protocol_config :=
  {| spc_identifier := "someipd_gatewayd_ipc"; spc_max_send_size := kMaxIpcMessageSize;
     spc_max_reply_size := kMaxIpcMessageSize; spc_max_notify_size := kMaxIpcMessageSize |}.
Definition someipd_protocol : Service_protocol_config :=
  {| spc_identifier := "someipd_gatewayd_ipc"; spc_max_send_size := kMaxIpcMessageSize;
     spc_max_reply_size := kMaxIpcMessageSize; spc_max_notify_size := kMaxIpcMessageSize |}.

(** ** gatewayd *)

(** What [main] does that can be seen from outside. *)
Inductive Main_action : Type :=
  | Print_help
  | Serializer_init (path : string)
  | Serializer_deinit
  | Initialize_runtime (manifest : string)
  | Create_binding_client (protocol : Service_protocol_config) (client : Client)
  | Instance_action (a : Gateway_action)
  | Destroy_remote_instances (l : list RemoteServiceInstance)
  | Destroy_local_instances
  | Destroy_binding_client (actions : list Client_action).

(** The state is the serializer's: the configuration it was initialised with. *)
Abbreviation GM := (M (option Root) Main_action).

(** A loop that sleeps until a condition holds: the round in which it does, if there are
    enough. A callback that faults meanwhile ends the program. *)
Fixpoint wait_until (fuel : nat) (holds : nat → outcome bool) (t : nat) : outcome (option nat) :=
  b ← holds t;
  if (b : bool) then mret (Some t)
  else match fuel with O => mret None | S fuel' => wait_until fuel' holds (S t) end.

(** The value-initialised list of services to find. *)
Definition no_elements : Find_service_elements :=
  {| fsc_size := 0; fsc_data := replicate (N.to_nat kMax_find_service_elements)
       {| isi_service := ssmc_service zero_config;
         isi_instance_id := ssmc_instance_id zero_config |} |}.

Section gatewayd.
(** The files when [main] reads its configuration, and when the plugin reads it again. *)
Context (files later_files : string → option (list N)) (GetRoot : list N → Root).
(** What the client of the binding handles before a round of a loop, from its channel and
    from the runtime, and what [shutdown_requested] yields in the round. *)
Context `{Shm} (send_ok : N → Client_id → Message → bool).
Context (handled : nat → list Client_operation) (shutdown : nat → bool).
(** The state changes that the channel reports while the client's destructor waits. *)
Context (reports : list (list (Channel_state * Stop_reason))).
(** The answers to the creation of a remote instance. *)
Context (skeleton_ok offer_ok connector_ok : ServiceType → ServiceInstance → bool).

(** [score_com_serializer_init] and [deinit] on the plugin's state. *)
Definition serializer_init (path : string) : GM score_com_serializer_result := λ config,
  let '(r, config') := score_com_serializer_init
    ((λ contents, (N.of_nat (length contents), GetRoot contents)) <$> later_files path) config in
  Done (r, config', [Serializer_init path]).
Definition serializer_deinit : GM score_com_serializer_result := λ config,
  let '(r, config') := score_com_serializer_deinit config in
  Done (r, config', [Serializer_deinit]).

(** The two loops that create the instances; what a creation returns is ignored, the
    remote instances that it made are kept. *)
Definition create_local_instances (root : Root) : GM unit :=
  forM (service_types root) (λ t,
    forM (default [] (local_service_instances t)) (λ i,
      liftO (deref (service_type_name t));;
      forM (create_async_local_services (Some i)).2 (λ a, emit (Instance_action a)))).

Fixpoint create_remote_of (t : ServiceType) (l : list ServiceInstance)
    (instances : list RemoteServiceInstance) : GM (list RemoteServiceInstance) :=
  match l with
  | [] => mret instances
  | i :: l' =>
    liftO (deref (service_type_name t));;
    config ← get_state;
    '(r, actions) ← liftO (create_async_remote_service config (Some i) t
      (skeleton_ok t i) (offer_ok t i) (connector_ok t i));
    forM actions (λ a, emit (Instance_action a));;
    create_remote_of t l' (match r with Ok i => instances ++ [i] | Err _ => instances end)
  end.
Fixpoint create_remote_instances (l : list ServiceType) (instances : list RemoteServiceInstance) :
    GM (list RemoteServiceInstance) :=
  match l with
  | [] => mret instances
  | t :: l' =>
    instances ← create_remote_of t (default [] (remote_service_instances t)) instances;
    create_remote_instances l' instances
  end.

(** The client that [main] makes: with the shared memory of the services, and with the one
    that someipd is to use. *)
Definition make_binding_client (config : option Root) (root : Root) : outcome Client :=
  '(shm_config, server_shm_config) ← shared_memory_configurations config (service_types root)
    (∅, ∅);
  configs ← make_shared_memory_configs server_shm_config;
  '(client, _) ← create_client shm_config no_elements configs "gatewayd";
  mret client.

(** The client in round [t]. *)
Definition client_in (client : Client) (t : nat) : outcome Client :=
  '(_, client, _) ← forM (seq 0 (S t) ≫= handled) (run_client send_ok) client;
  mret client.

(** The end of [main] in round [t]: the client's destructor waits for the channel. *)
Definition destroy_binding_client (client : Client) (t : nat) : GM (option N) :=
  client ← liftO (client_in client t);
  '(ended, _, actions) ← liftO (destroy_client_endpoint reports client);
  emit (Destroy_binding_client actions);;
  mret (if (ended : bool) then Some 0%N else None).

(** From the shared memory configuration to the end of [main]: the exit code, or nothing
    while a loop still waits. The handshake is waited for; a shutdown ends either loop. *)
Definition gatewayd_serve (fuel : nat) (root : Root) : GM (option N) :=
  config ← get_state;
  client ← liftO (make_binding_client config root);
  emit (Create_binding_client gatewayd_protocol client);;
  r ← liftO (wait_until fuel (λ t, c ← client_in client t; mret (cl_connected c || shutdown t)) 0);
  match r with
  | None => mret None
  | Some t =>
    if shutdown (S t) then destroy_binding_client client t
    else
      create_local_instances root;;
      remotes ← create_remote_instances (service_types root) [];
      r ← liftO (wait_until fuel (λ t, client_in client t;; mret (shutdown t)) (S t));
      match r with
      | None => mret None
      | Some t =>
        emit (Destroy_remote_instances remotes);;
        emit Destroy_local_instances;;
        destroy_binding_client client t
      end
  end.

(** [main]. The scope guard deinitialises the serializer after everything else. *)
Definition gatewayd_main (fuel : nat) (options : list (ascii * string)) : GM (option N) :=
  match gatewayd_options options no_options with
  | inl code => emit Print_help;; mret (Some code)
  | inr o =>
    if bool_decide (configuration_path o = "") || bool_decide (service_instance_manifest_path o = "")
    then emit Print_help;; mret (Some 1%N)
    else
      match read_config files GetRoot (configuration_path o) with
      | None => mret (Some 1%N)
      | Some root =>
        r ← serializer_init (configuration_path o);
        if bool_decide (r = result_ok) then
          emit (Initialize_runtime (service_instance_manifest_path o));;
          code ← gatewayd_serve fuel root;
          match code with
          | None => mret None
          | Some code => serializer_deinit;; mret (Some code)
          end
        else mret (Some 1%N)
      end
  end.
End gatewayd.

(** ** someipd *)

Section someipd.
Context (files : string → option (list N)) (GetRoot : list N → Root).

(** [main]: the exit code, and what the network stack is asked to do. The binding's
    server has no shared memory of its own. *)
Definition someipd_program (options : list (ascii * string)) (listening_ok init_ok : bool)
    (connector_ok : ServiceType → ServiceInstance → bool) (states : list bool) :
    outcome (N * list Someipd_action) :=
  match someipd_options options "" with
  | inl code => mret (code, [])
  | inr path =>
    if bool_decide (path = "") then mret (1%N, [])
    else
      match read_config files GetRoot path with
      | None => mret (1%N, [])
      | Some root =>
        '(start_result, _, _) ← start (Client_identity := N) listening_ok (make_server ∅);
        match start_result with
        | Err _ => mret (1%N, [])
        | Ok _ =>
          '(r, actions) ← someipd_main root init_ok connector_ok states;
          match r with
          | Err _ => mret (1%N, actions)
          | Ok _ => mret (0%N, actions)
          end
        end
      end
  end.
End someipd.

(** ** Lemmas *)

(** A part of [main] that leaves the serializer alone. *)
Definition not_serializer (a : Main_action) : Prop :=
  match a with Serializer_init _ | Serializer_deinit | Print_help => False | _ => True end.
Definition leaves_serializer {A} (m : GM A) : Prop :=
  ∀ config a config' o, m config = Done (a, config',
    o) → config' = config ∧ Forall not_serializer o.

Lemma leaves_ret {A} (a : A) : leaves_serializer (mret a : GM A).
Proof. by intros config ? ? ? [= <- <- <-]. Qed.
Lemma leaves_lift {A} (x : outcome A) : leaves_serializer (liftO x : GM A).
Proof. destruct x; [apply leaves_ret|done]. Qed.
Lemma leaves_get : leaves_serializer (get_state : GM (option Root)).
Proof. by intros config ? ? ? [= <- <- <-]. Qed.
Lemma leaves_emit a : not_serializer a → leaves_serializer (emit a).
Proof. intros Ha config ? ? ? [= <- <- <-]. split; [done|]. by constructor. Qed.
Lemma leaves_bind {A B} (m : GM A) (k : A → GM B) :
  leaves_serializer m → (∀ a, leaves_serializer (k a)) → leaves_serializer (m ≫= k).
Proof.
  intros Hm Hk config b config' o (a & c & o1 & o2 & E1 & E2 & ->)%bind_Done.
  destruct (Hm _ _ _ _ E1) as [-> H1]. destruct (Hk _ _ _ _ _ E2) as [-> H2].
  split; [done|]. by apply Forall_app.
Qed.
Lemma leaves_forM {A} (l : list A) body :
  (∀ a, leaves_serializer (body a)) → leaves_serializer (forM l body : GM unit).
Proof.
  intros Hb. induction l as [|a l IH]; [apply leaves_ret|]. simpl. by apply leaves_bind.
Qed.

Create HintDb serializer.
#[local] Hint Resolve leaves_ret leaves_lift leaves_get leaves_bind leaves_forM : serializer.
#[local] Hint Extern 2 (leaves_serializer (emit _)) => by apply leaves_emit : serializer.
#[local] Hint Extern 3 (leaves_serializer (match ?x with _ => _ end)) => destruct x : serializer.

Lemma leaves_local_instances root : leaves_serializer (create_local_instances root).
Proof. unfold create_local_instances. auto 10 with serializer. Qed.

Lemma leaves_remote_instances sk off cn l instances :
  leaves_serializer (create_remote_instances sk off cn l instances).
Proof.
  revert instances. induction l as [|t l IH]; intros instances; simpl; [auto with serializer|].
  apply leaves_bind; [|auto]. generalize (default [] (remote_service_instances t)).
  intros li. revert instances. induction li as [|i li IHi]; intros instances; simpl;
    auto 12 with serializer.
Qed.

Lemma leaves_serve `{Shm} send_ok handled shutdown reports sk off cn fuel root :
  leaves_serializer (gatewayd_serve send_ok handled shutdown reports sk off cn fuel root).
Proof.
  pose proof leaves_local_instances. pose proof leaves_remote_instances.
  unfold gatewayd_serve, destroy_binding_client. auto 20 with serializer.
Qed.

(** A loop ends in the first round in which its condition holds. *)
Lemma wait_until_ends fuel holds t T :
  (∀ n, ∃ b, holds n = Done b) → t ≤ T → T < t + fuel → holds T = Done true →
  ∃ t', wait_until fuel holds t = Done (Some t') ∧ t ≤ t' ≤ T ∧ holds t' = Done true.
Proof.
  intros Hd. revert t. induction fuel as [|fuel IH]; intros t Ht Hf HT; [lia|]. simpl.
  destruct (Hd t) as [[] E]; rewrite E; simpl; [by exists t|].
  destruct (decide (t = T)) as [->|]; [congruence|].
  destruct (IH (S t)) as (t' & -> & ? & ?); [lia..|done|]. exists t'. split_and!; [done|lia..|done].
Qed.

Lemma wait_until_first fuel holds t t' :
  wait_until fuel holds t = Done (Some t') →
  holds t' = Done true ∧ ∀ n, t ≤ n < t' → holds n = Done false.
Proof.
  revert t. induction fuel as [|fuel IH]; intros t; simpl;
    (destruct (holds t) as [[]|f] eqn:E; simpl; [..|done]).
  1,3: intros [= <-]; split; [done|lia].
  - done.
  - intros (Ht & Hn)%IH. split; [done|]. intros n ?. destruct (decide (n = t)) as [->|]; [done|].
    apply Hn. lia.
Qed.

Lemma gatewayd_options_code l o code : gatewayd_options l o = inl code → code = 0%N ∨ code = 1%N.
Proof.
  revert o. induction l as [|[opt optarg] l IH]; intros o; simpl; [done|].
  repeat case_bool_decide; [|apply IH..|]; intros [= <-]; auto.
Qed.

(** The plugin's own reading of the file. *)
Lemma serializer_init_run later GetRoot path config :
  serializer_init later GetRoot path config =
    Done (match read_config later GetRoot path with
          | Some root => (result_ok, Some root, [Serializer_init path])
          | None => (result_serializer_nonexistent, config, [Serializer_init path])
          end).
Proof.
  unfold read_config, serializer_init. destruct (later path) as [contents|]; [|done]. simpl.
  by destruct (N.of_nat (length contents) =? 0)%N.
Qed.

Lemma serializer_init_ok later GetRoot path loaded config :
  read_config later GetRoot path = Some loaded →
  serializer_init later GetRoot path config = Done (result_ok, Some loaded, [Serializer_init path]).
Proof. intros E. by rewrite serializer_init_run, E. Qed.

Lemma binding_client_destroyed `{Shm} send_ok handled reports client t c config :
  client_in send_ok handled client t = Done c →
  ∃ o, destroy_binding_client send_ok handled reports client t config =
    Done (if cl_stopped c || existsb (existsb intentional) reports then Some 0%N else None,
      config, o).
Proof.
  intros E. unfold destroy_binding_client. rewrite (liftO_run _ _ _ _ E).
  destruct (destroy_endpoint_returns reports c) as (c' & o & E').
  rewrite (liftO_run _ _ _ _ E'). by eexists.
Qed.

Lemma destroy_client_code `{Shm} send_ok handled reports client t config code config' o :
  destroy_binding_client send_ok handled reports client t config = Done (Some code, config', o) →
  code = 0%N.
Proof.
  unfold destroy_binding_client. intros (? & ? & ? & ? & _ & E & _)%bind_Done.
  apply bind_Done in E as ([[[] ?] ?] & ? & ? & ? & _ & E & _);
    apply bind_Done in E as (? & ? & ? & ? & _ & [= ->] & _). done.
Qed.

Lemma serve_code `{Shm} send_ok handled shutdown reports sk off cn fuel root config code config' o :
  gatewayd_serve send_ok handled shutdown reports sk off cn fuel root config
    = Done (Some code, config', o) →
  code = 0%N.
Proof.
  unfold gatewayd_serve. intros (? & ? & ? & ? & _ & E & _)%bind_Done.
  do 2 apply bind_Done in E as (? & ? & ? & ? & _ & E & _).
  apply bind_Done in E as ([t|] & ? & ? & ? & _ & E & _); [|done].
  destruct (shutdown (S t)); [by apply destroy_client_code in E|].
  do 2 apply bind_Done in E as (? & ? & ? & ? & _ & E & _).
  apply bind_Done in E as ([t'|] & ? & ? & ? & _ & E & _); [|done].
  do 2 apply bind_Done in E as (? & ? & ? & ? & _ & E & _). by apply destroy_client_code in E.
Qed.

(** Every service type has a name and a list of events. *)
Definition complete (root : Root) : Prop :=
  Forall (λ t, is_Some (service_type_name t) ∧ is_Some (events t)) (service_types root).

(** A loop whose rounds return and leave the state. *)
Lemma forM_returns {A} (l : list A) (body : A → GM unit) (Q : A → list Main_action → Prop) config :
  (∀ a, a ∈ l → ∃ o, body a config = Done (tt, config, o) ∧ Q a o) →
  ∃ o, forM l body config = Done (tt, config, o) ∧ ∀ a, a ∈ l → ∃ o', Q a o' ∧ o' ⊆ o.
Proof.
  induction l as [|a l IH]; intros Hb; simpl.
  { exists []. split; [done|]. by intros a ?%elem_of_nil. }
  destruct (Hb a) as (o1 & E1 & H1); [apply elem_of_cons; auto|].
  destruct IH as (o2 & E2 & H2). { intros b Hin. apply Hb, elem_of_cons. auto. }
  exists (o1 ++ o2). rewrite (bind_run _ _ _ _ _ _ E1), E2. split; [done|].
  intros b [->|Hin]%elem_of_cons; [exists o1|destruct (H2 b Hin) as (o' & ? & ?); exists o'];
    (split; [done|]); intros x Hx; apply elem_of_app; auto.
Qed.

(** Every local instance is searched for. *)
Lemma local_instances_run root config :
  complete root →
  ∃ o, create_local_instances root config = Done (tt, config, o) ∧
    ∀ t l i, t ∈ service_types root → local_service_instances t = Some l → i ∈ l →
      Instance_action (Start_find_service (instance_specifier i)) ∈ o.
Proof.
  intros Hc. unfold create_local_instances.
  destruct (forM_returns (service_types root) (λ t,
    forM (default [] (local_service_instances t)) (λ i,
      liftO (deref (service_type_name t));;
      forM (create_async_local_services (Some i)).2 (λ a, emit (Instance_action a))))
    (λ t o, ∀ i, i ∈ default [] (local_service_instances t) →
      Instance_action (Start_find_service (instance_specifier i)) ∈ o) config)
    as (o & E & H).
  - intros t Ht. destruct (proj1 (Forall_forall _ _) Hc t Ht) as [[name Hn] _].
    destruct (forM_returns (default [] (local_service_instances t)) (λ i,
      liftO (deref (service_type_name t));;
      forM (create_async_local_services (Some i)).2 (λ a, emit (Instance_action a)))
      (λ i o, Instance_action (Start_find_service (instance_specifier i)) ∈ o) config)
      as (o & E & H).
    { intros i _. eexists. rewrite Hn. split; [reflexivity|]. apply elem_of_cons; auto. }
    exists o. split; [done|]. intros i Hi. destruct (H i Hi) as (o' & Ho' & Hs). by apply Hs.
  - exists o. split; [done|]. intros t l i Ht Hl Hi. destruct (H t Ht) as (o' & Ho' & Hs).
    apply Hs, Ho'. by rewrite Hl.
Qed.

Lemma async_remote_returns config i t ok1 ok2 ok3 :
  is_Some (service_type_name t) → is_Some (events t) →
  ∃ r, create_async_remote_service config (Some i) t ok1 ok2 ok3 = Done r.
Proof.
  intros [name Hn] [l Hl]. unfold create_async_remote_service, remote_create,
    service_interface, service_instance. rewrite Hn, Hl. simpl.
  destruct (event_infos config name l); [|by eexists].
  destruct ok1; [|by eexists]. destruct ok2; simpl; [|by eexists].
  destruct ok3; by eexists.
Qed.

Lemma remote_of_returns sk off cn t l instances config :
  is_Some (service_type_name t) → is_Some (events t) →
  ∃ r o, create_remote_of sk off cn t l instances config = Done (r, config, o).
Proof.
  intros Hn Hl. revert instances. induction l as [|i l IH]; intros instances; simpl;
    [by eexists _, _|].
  destruct (async_remote_returns config i t (sk t i) (off t i) (cn t i) Hn Hl) as [[r actions] Er].
  destruct Hn as [name Hn].
  rewrite (liftO_run _ name) by (by rewrite Hn).
  rewrite (bind_silent _ _ config config config) by done. rewrite (liftO_run _ _ _ _ Er).
  destruct (forM_returns actions (λ a, emit (Instance_action a)) (λ _ _, True) config)
    as (o & Eo & _). { intros a _. by eexists. }
  destruct (IH (match r with Ok i => instances ++ [i] | Err _ => instances end)) as (r' & o' & E').
  rewrite (bind_run _ _ _ _ _ _ Eo), E'. by eexists _, _.
Qed.

Lemma remote_instances_return sk off cn l instances config :
  Forall (λ t, is_Some (service_type_name t) ∧ is_Some (events t)) l →
  ∃ r o, create_remote_instances sk off cn l instances config = Done (r, config, o).
Proof.
  intros Hc. revert instances. induction Hc as [|t l [Hn Hl] _ IH]; intros instances; simpl;
    [by eexists _, _|].
  destruct (remote_of_returns sk off cn t (default [] (remote_service_instances t)) instances config
    Hn Hl)
    as (r & o & E).
  destruct (IH r) as (r' & o' & E'). rewrite (bind_run _ _ _ _ _ _ E), E'. by eexists _, _.
Qed.

Section serve.
Context `{Shm} (send_ok : N → Client_id → Message → bool).
Context (handled : nat → list Client_operation) (shutdown : nat → bool).
Context (reports : list (list (Channel_state * Stop_reason))).
Context (skeleton_ok offer_ok connector_ok : ServiceType → ServiceInstance → bool).

Lemma serve_returns fuel root loaded client T :
  complete root → make_binding_client (Some loaded) root = Done client →
  (∀ t, ∃ c, client_in send_ok handled client t = Done c) →
  (∀ n m, n ≤ m → shutdown n = true → shutdown m = true) → shutdown T = true → S T < fuel →
  ∃ t c o, t ≤ T ∧ client_in send_ok handled client t = Done c ∧
    gatewayd_serve send_ok handled shutdown reports skeleton_ok offer_ok connector_ok fuel root
      (Some loaded)
      = Done (if cl_stopped c || existsb (existsb intentional) reports then Some 0%N else None,
          Some loaded, o) ∧
    (∀ t c, client_in send_ok handled client t = Done c → cl_connected c = true →
      shutdown (S t) = false →
      ∀ type l i, type ∈ service_types root → local_service_instances type = Some l → i ∈ l →
        Instance_action (Start_find_service (instance_specifier i)) ∈ o).
Proof.
  intros Hroot Hcl Hin Hmono HT Hfuel. unfold gatewayd_serve.
  rewrite (bind_silent _ _ (Some loaded) (Some loaded) (Some loaded)) by done.
  rewrite (liftO_run _ _ _ _ Hcl), (bind_run (emit _) _ _ tt (Some loaded) [_]) by done.
  destruct (wait_until_ends fuel (λ t, c ← client_in send_ok handled client t;
    mret (cl_connected c || shutdown t)) 0 T) as (t & Et & Ht & Hh); [|lia|lia|..].
  { intros n. destruct (Hin n) as [c ->]. by eexists. }
  { destruct (Hin T) as [c ->]. simpl. by rewrite HT, orb_true_r. }
  destruct (Hin t) as [c Hc]. rewrite (liftO_run _ _ _ _ Et).
  destruct (shutdown (S t)) eqn:Es.
  - destruct (binding_client_destroyed send_ok handled reports client t c (Some loaded) Hc) as [o Eo].
    rewrite Eo. eexists t, c, _. split_and!; [lia|done|reflexivity|].
    intros t' c' Hc' Hcon Hs'. exfalso. apply wait_until_first in Et as [_ Hf].
    destruct (decide (t' < t)) as [Hlt|];
      [|by rewrite (Hmono (S t) (S t')) in Hs' by (done || lia)].
    specialize (Hf t'). rewrite Hc' in Hf. simpl in Hf. rewrite Hcon in Hf.
    by discriminate Hf; lia.
  - destruct (local_instances_run root (Some loaded) Hroot) as (o1 & E1 & H1).
    destruct (remote_instances_return skeleton_ok offer_ok connector_ok (service_types root) []
      (Some loaded) Hroot) as (r & o2 & E2).
    destruct (wait_until_ends fuel (λ t, client_in send_ok handled client t;; mret (shutdown t))
      (S t) T) as (t' & Et' & Ht' & _); [| |lia| |].
    { intros n. destruct (Hin n) as [c' ->]. by eexists. }
    { destruct (decide (S t ≤ T)) as [|Hgt]; [done|].
      by rewrite (Hmono T (S t)) in Es by (done || lia). }
    { destruct (Hin T) as [c' ->]. simpl. by rewrite HT. }
    destruct (Hin t') as [c' Hc'].
    destruct (binding_client_destroyed send_ok handled reports client t' c' (Some loaded) Hc')
      as [o3 E3].
    rewrite (bind_run _ _ _ _ _ _ E1), (bind_run _ _ _ _ _ _ E2), (liftO_run _ _ _ _ Et').
    do 2 rewrite (bind_run (emit _) _ _ tt (Some loaded) [_]) by done. rewrite E3.
    eexists t', c', _. split_and!; [lia|done|reflexivity|]. intros ? ? _ _ _ type l i Hi Hl Hil.
    apply elem_of_cons. right. apply elem_of_app. left. eauto.
Qed.
End serve.

(** The length of a frame. *)
Lemma length_message_bytes m : message_ok m → length (message_bytes m) = sizeof (frame_layout m).
Proof.
  intros Hm. pose proof (payload_size_fits m) as Hs.
  destruct m; cbn [message_ok payload_layout] in Hm, Hs; exact (length_frame_bytes _ _ _ Hm Hs).
Qed.

Lemma someipd_main_ok root cn states r a :
  someipd_main root true cn states = Done (r, a) → ∃ x, r = Ok x.
Proof.
  unfold someipd_main. simpl.
  destruct (create_services cn local_network_create _ _) as [[locals a1]|]; [|done]. simpl.
  destruct (create_services cn remote_network_create _ _) as [[remotes a2]|]; [|done]. simpl.
  destruct (routing_run root remotes states) as [a3|]; [|done]. simpl. intros [= <- _]. by eexists.
Qed.

(** ** Properties *)

(** What a run of gatewayd looks like once it has returned, by its exit code. *)
Definition clean_run (code : N) (o : list Main_action) : Prop :=
  (code = 1%N ∧ (o = [] ∨ o = [Print_help] ∨ ∃ path, o = [Serializer_init path])) ∨
  (code = 0%N ∧ o = [Print_help]) ∨
  (code = 0%N ∧ ∃ path manifest rest,
    o = Serializer_init path :: Initialize_runtime manifest :: rest ++ [Serializer_deinit] ∧
    Forall not_serializer rest).

(** C32: gatewayd cleans up whenever [main] returns an exit code. It leaves the serializer
    plugin without a configuration. If the plugin has taken a configuration, then it is
    deinitialised exactly once, after everything else that [main] does, and the exit code
    is 0; otherwise [main] has done nothing but print its help or try to initialise the
    plugin, and the exit code is 0 only for a request of the help. Nothing is said of a run
    that an assertion aborts, in [main] or in a callback meanwhile, or that still waits. *)
Theorem gatewayd_cleans_up `{Shm} files later_files GetRoot send_ok handled shutdown reports
    skeleton_ok offer_ok connector_ok fuel options code config o :
  gatewayd_main files later_files GetRoot send_ok handled shutdown reports skeleton_ok offer_ok
    connector_ok fuel options None = Done (Some code, config, o) →
  config = None ∧ clean_run code o.
Proof.
  unfold gatewayd_main. destruct (gatewayd_options options no_options) as [c|opts] eqn:Eo.
  { intros [= <- <- <-]. split; [done|].
    destruct (gatewayd_options_code _ _ _ Eo) as [-> | ->]; [right; left|left]; auto. }
  destruct (_ || _); [intros [= <- <- <-]; split; [done|left; auto]|].
  destruct (read_config files _ _) as [root|]; [|intros [= <- <- <-]; split; [done|left; auto]].
  unfold mbind at 1, M_bind. rewrite serializer_init_run.
  destruct (read_config later_files _ _) as [loaded|].
  2:{ rewrite bool_decide_false by done. intros [= <- <- <-]. split; [done|]. left. eauto. }
  rewrite bool_decide_true by done.
  match goal with |- match ?x with _ => _ end = _ → _ =>
    destruct x as [[[r c] o']|] eqn:E; [|done] end.
  intros [= -> -> <-].
  apply bind_Done in E as ([] & ? & ? & o1 & [= <- <-] & E & ->).
  apply bind_Done in E as ([c|] & config1 & o2 & ? & Es & E & ->); [|done].
  injection E as <- <- <-. split; [done|]. right. right.
  pose proof (serve_code _ _ _ _ _ _ _ _ _ _ _ _ _ Es) as ->.
  destruct (leaves_serve _ _ _ _ _ _ _ _ _ _ _ _ _ Es) as [_ Ho].
  split; [done|]. by eexists _, _, o2.
Qed.


(** Every message fits the channel. The two programs open the channel with the same
    name and limits, and the frame of every message of the protocol is no longer than
    that of [Connect], which is within the limit. *)
Theorem frames_fit_channel m :
  message_ok m →
  gatewayd_protocol = someipd_protocol ∧
  length (message_bytes m) ≤ sizeof (CStruct [w_type wire_header; w_type wire_Connect]) ∧
  (N.of_nat (length (message_bytes m)) ≤ spc_max_send_size gatewayd_protocol)%N.
Proof.
  intros Hm. split; [done|]. rewrite length_message_bytes by done.
  assert (sizeof (frame_layout m) ≤ sizeof (CStruct [w_type wire_header;
    w_type wire_Connect])) as Hs.
  { apply Nat.leb_le. by destruct m; vm_compute. }
  split; [done|].
  assert (N.of_nat (sizeof (CStruct [w_type wire_header;
    w_type wire_Connect])) ≤ kMaxIpcMessageSize)%N
    as Hc by by vm_compute.
  etransitivity; [|exact Hc]. lia.
Qed.

(** When someipd gets as far as its configuration. *)
Definition someipd_reads files GetRoot (options : list (ascii * string)) (root : Root) : Prop :=
  ∃ path, someipd_options options "" = inr path ∧ path ≠ "" ∧
    read_config files GetRoot path = Some root.

Lemma someipd_options_code l path code : someipd_options l path = inl code → code = 0%N ∨ code =
  1%N.
Proof.
  revert path. induction l as [|[opt optarg] l IH]; intros path; simpl; [done|].
  repeat case_bool_decide; [|apply IH|]; intros [= <-]; auto.
Qed.

(** The exit code of someipd. The program touches the network only after it has read
    its configuration, opened its IPC server and initialised the stack, and it exits with
    0 exactly then, or when the help was asked for. *)
Theorem someipd_exit_code files GetRoot options listening_ok init_ok cn states code actions :
  someipd_program files GetRoot options listening_ok init_ok cn states = Done (code, actions) →
  (code = 0%N ↔ someipd_options options "" = inl 0%N ∨
    (∃ root, someipd_reads files GetRoot options root) ∧ listening_ok = true ∧ init_ok = true) ∧
  (code ≠ 0%N → actions = []).
Proof.
  unfold someipd_program, someipd_reads.
  destruct (someipd_options options "") as [c|path] eqn:Eo.
  { intros [= <- <-]. destruct (someipd_options_code _ _ _ Eo) as [-> | ->]; (split; [|done]).
    - split; auto.
    - split; [done|]. by intros [?|[(? & ? & ? & _) _]]. }
  case_bool_decide as Hp.
  { intros [= <- <-]. split; [|done]. split; [done|]. intros [?|[(? & ? & [= <-] & ? & _) _]]; done.
    }
  destruct (read_config files GetRoot path) as [root|] eqn:Er.
  2:{ intros [= <- <-]. split; [|done]. split; [done|].
      intros [?|[(? & ? & [= <-] & _ & ?) _]]; congruence. }
  destruct listening_ok; simpl.
  2:{ intros [= <- <-]. split; [|done]. split; [done|]. intros [?|(_ & ? & _)]; done. }
  destruct init_ok; simpl.
  2:{ intros [= <- <-]. split; [|done]. split; [done|]. intros [?|(_ & _ & ?)]; done. }
  destruct (someipd_main root true cn states) as [[r a]|] eqn:Em; [|done]. simpl.
  assert (∃ x, r = Ok x) as [x ->]. { by apply (someipd_main_ok root cn states r a). }
  intros [= <- <-]. split; [|done]. split; [|done]. intros _. right. split; [|done]. eauto.
Qed.

(** Both daemons rely on a callback that comes too late. [RemoteServiceInstance] and
    [LocalNetworkService] store their connector after the runtime has made it, and their
    callback uses what is stored; a comment says that no callback comes before. But if the
    service is enabled when the connector is made, and its version fits, then the runtime
    calls the callback while it makes the connector; and for every service with events
    that call dereferences the null pointer that is stored until then. *)
Theorem early_availability_faults w tr i inst s S :
  socom_trace w tr → sr_client (get_record w (record_key i inst)) = None →
  sr_server (get_record w (record_key i inst)) = Some (sc_interface S, s) →
  so_servers w !! s = Some S → is_minor_version_compatible (sc_interface S) i = true →
  (∃ c w', make_client_connector true i inst w =
    Done (Ok c, w', [Cb_service_state_change c true s])) ∧
  (∀ r e l, events (rsi_service_type_config r) = Some (e :: l) →
    remote_state_change r false true = Fault Null_dereference) ∧
  (∀ n e l, events (ns_service_type_config n) = Some (e :: l) →
    local_network_state_change n false true = Fault Null_dereference).
Proof.
  intros Htr Hc Hs ES Hcomp. destruct (trace_inv w tr Htr) as (Hinv & _).
  split_and!.
  - pose proof (make_client_told w i inst s S Hinv Hc Hs ES Hcomp). eauto.
  - intros r e l Hl. unfold remote_state_change. by rewrite Hl.
  - intros n e l Hl. unfold local_network_state_change. by rewrite Hl.
Qed.

(** ** Witnesses *)

Definition demo_files (path : string) : option (list N) :=
  if bool_decide (path = "config.bin") then Some [1%N] else None.
Definition demo_command_line : list (ascii * string) :=
  [("c"%char, "config.bin"); ("s"%char, "manifest.json")].
Definition always {A B} (_ : A) (_ : B) : bool := true.

(** The server answers in round 2, gatewayd is told to stop in round 5, and the channel
    reports the requested stop in the second round of the destructor. *)
Definition demo_handled (t : nat) : list Client_operation :=
  if t =? 1 then [Cl_state kStarting Other_reason; Cl_state kReady Other_reason]
  else if t =? 2 then [Cl_message 0 (message_bytes (Msg_Connect_reply {| cr_status := true |}))
    demo_answers]
  else [].
Definition demo_reports : list (list (Channel_state * Stop_reason)) :=
  [[(kStopping, Other_reason)]; [(kStopped, kUserRequested)]].
Definition demo_gatewayd : GM (option N) :=
  @gatewayd_main demo_files demo_files (λ _, demo_root) (granting_shm 4096) all_sent demo_handled
    (Nat.leb 5) demo_reports always always always 8 demo_command_line.
Definition demo_binding_client : Client :=
  match make_binding_client (Some demo_root) demo_root with
  | Done client => client
  | Fault _ => demo_client
  end.

Lemma demo_rounds t :
  seq 0 (S (t + 2)) ≫= demo_handled = seq 0 3 ≫= demo_handled.
Proof.
  induction t as [|t IH]; [done|]. replace (S (S t + 2)) with (S (t + 2) + 1) by lia.
  rewrite seq_app, bind_app, IH. cbn [seq Nat.add mbind list_bind].
  replace (demo_handled (S (t + 2))) with (@nil Client_operation); [by rewrite !app_nil_r|].
  by replace (t + 2) with (S (S t)) by lia.
Qed.

Lemma demo_client_runs t : ∃ c,
  @client_in (granting_shm 4096) all_sent demo_handled demo_binding_client t = Done c.
Proof.
  destruct (decide (t < 2)) as [Ht|Ht].
  - destruct t as [|[|t]]; [by eexists; vm_compute..|lia].
  - replace t with (t - 2 + 2) by lia. unfold client_in. rewrite demo_rounds.
    by eexists; vm_compute.
Qed.


Lemma gatewayd_cleans_up_witness : ∃ config o,
  demo_gatewayd None = Done (Some 0%N, config, o) ∧ config = None ∧ clean_run 0 o.
Proof.
  destruct (demo_gatewayd None) as [[[[code|] config] o]|] eqn:E; [|by vm_compute in E..].
  pose proof (@gatewayd_cleans_up (granting_shm 4096) _ _ _ _ _ _ _ _ _ _ _ _ _ _ _ E) as [Hc Ho].
  assert (code = 0%N) as -> by (vm_compute in E; by injection E).
  exists config, o. exact (conj eq_refl (conj Hc Ho)).
Defined.

Lemma frames_fit_channel_witness :
  (N.of_nat (length (message_bytes demo_subscribe)) ≤ spc_max_send_size someipd_protocol)%N.
Proof.
  assert (message_ok demo_subscribe) as Hok by by repeat split.
  destruct (frames_fit_channel demo_subscribe Hok) as (Hp & _ & H). by rewrite <-Hp.
Defined.

Lemma someipd_exit_code_witness : ∃ actions,
  someipd_program demo_files (λ _, demo_root) [("c"%char, "config.bin")] true true always [true]
    = Done (0%N, actions) ∧
  someipd_reads demo_files (λ _, demo_root) [("c"%char, "config.bin")] demo_root.
Proof.
  destruct (someipd_program demo_files (λ _, demo_root) [("c"%char, "config.bin")] true true
    always [true]) as [[code actions]|] eqn:E; [|by vm_compute in E].
  destruct (someipd_exit_code _ _ _ _ _ _ _ _ _ E) as [Hc _].
  assert (code = 0%N) as -> by (vm_compute in E; by injection E).
  exists actions. split; [done|]. destruct (proj1 Hc eq_refl) as [H|[[root Hr] _]]; [done|].
  destruct Hr as (path & [= <-] & Hp & [= <-]). by exists "config.bin".
Defined.

(** The service of the example configuration, enabled before its client is made. *)
Definition demo_interface : Service_interface_identifier :=
  {| sii_id := "S"; sii_version := {| major := 1; minor := 0 |} |}.
Definition demo_enabled : Socom :=
  (default (so_init, [])
    (replay_calls [SocomCalls.Make_server true demo_interface 0 1 "S"; Enable 0] so_init [])).1.

Lemma early_availability_faults_witness :
  (∃ c w', make_client_connector true demo_interface "S" demo_enabled =
    Done (Ok c, w', [Cb_service_state_change c true 0])) ∧
  remote_state_change {| rsi_service_type_config := demo_service_type;
    rsi_skeleton_events := ∅; rsi_event_contexts := ∅ |} false true = Fault Null_dereference.
Proof.
  destruct (early_availability_faults demo_enabled [] demo_interface "S" 0
    (mkServerConnector demo_interface 0 1 "S" true true [None] [None] [mode_update] None))
    as (H1 & H2 & _).
  - apply (replay_calls_trace [SocomCalls.Make_server true demo_interface 0 1 "S"; Enable 0] so_init []);
      [constructor|]. by vm_compute.
  - by vm_compute.
  - by vm_compute.
  - by vm_compute.
  - reflexivity.
  - split; [exact H1|]. by eapply H2.
Defined.
